(** * URL shortener: parser, engine and text translator

    A shallow embedding of the URL shortener and of the properties its
    specification states.

    - [UrlParser], [Mongo], [Engine]: the store-backed engine, class
      [UrlShortener] with its module-level helpers [getUrlParts],
      [validateScheme] and [validateBase]; the engine the properties are
      stated for.
    - [Stub]: the [validateBase] of the unfinished engine.
    - [InMemory]: the first, in-memory version of the engine.
    - [Ws]: the text translation route [doTextShorten] of the web service,
      over any model with an [add] method.

    Modelling conventions.
    - A JavaScript string is a [string]: a sequence of 8-bit code units (the
      Latin-1 range of UTF-16 code units).
    - JavaScript numbers used as indices are [Z] (so that [indexOf] can answer
      [-1] and [ind0 === 2] reads as in the source); counters and random draws
      are [N].  Numbers stay below 2^53 in every run considered, where
      JavaScript arithmetic on integers is exact.
    - [null] fields of an object are [None].
    - The MongoDB collection is a list of documents in insertion order;
      [findOne] answers the first match, [updateOne] changes the first match,
      [insertOne] appends.  Store failures are not modelled.
    - Calls run one after the other; the value of
      [Math.floor(Math.random()*2**32)] is an argument of [add]. *)

From Stdlib Require Import ZArith NArith List Bool Ascii String Lia.
Import ListNotations.

Open Scope string_scope.
Open Scope Z_scope.

(** ** JavaScript string primitives *)

Module JS.

Definition len (s : string) : Z := Z.of_nat (String.length s).

Fixpoint drop (n : nat) (s : string) : string :=
  match n, s with
  | O, _ => s
  | S _, EmptyString => EmptyString
  | S k, String _ t => drop k t
  end.

Fixpoint take (n : nat) (s : string) : string :=
  match n, s with
  | O, _ => EmptyString
  | S _, EmptyString => EmptyString
  | S k, String c t => String c (take k t)
  end.

(** [s.substring(i, j)]: both indices are clamped to [0, s.length] and
    swapped when [i > j]. *)
Definition clamp (s : string) (i : Z) : Z := Z.max 0 (Z.min i (len s)).

Definition substring (s : string) (i j : Z) : string :=
  let a := clamp s i in
  let b := clamp s j in
  let lo := Z.min a b in
  let hi := Z.max a b in
  take (Z.to_nat (hi - lo)) (drop (Z.to_nat lo) s).

(** [s.substring(i)] *)
Definition substringFrom (s : string) (i : Z) : string :=
  substring s i (len s).

(** [s[i]]; [None] is [undefined]. *)
Definition charAt (s : string) (i : Z) : option ascii :=
  if i <? 0 then None else String.get (Z.to_nat i) s.

(** [s[i] === c] for a one-character string [c]. *)
Definition charIs (o : option ascii) (c : ascii) : bool :=
  match o with
  | Some d => Ascii.eqb d c
  | None => false
  end.

(** [s[i] !== c] *)
Definition charIsNot (o : option ascii) (c : ascii) : bool :=
  negb (charIs o c).

Fixpoint find (pat s : string) : option nat :=
  if String.prefix pat s then Some O
  else match s with
       | EmptyString => None
       | String _ t => option_map S (find pat t)
       end.

(** [s.indexOf(pat)] *)
Definition indexOf (s pat : string) : Z :=
  match find pat s with
  | Some n => Z.of_nat n
  | None => -1
  end.

Definition between (lo hi : nat) (c : ascii) : bool :=
  let n := nat_of_ascii c in (Nat.leb lo n && Nat.leb n hi)%bool.

Definition isUpper (c : ascii) : bool :=
  (between 65 90 c
   || (between 192 222 c && negb (Nat.eqb (nat_of_ascii c) 215)))%bool.

Definition lowerChar (c : ascii) : ascii :=
  if isUpper c then ascii_of_nat (nat_of_ascii c + 32) else c.

(** [s.toLowerCase()] *)
Fixpoint toLowerCase (s : string) : string :=
  match s with
  | EmptyString => EmptyString
  | String c t => String (lowerChar c) (toLowerCase t)
  end.

(** [s.split(sep)] for a one-character separator. *)
Fixpoint split (sep : ascii) (s : string) : list string :=
  match s with
  | EmptyString => [EmptyString]
  | String c t =>
      if Ascii.eqb c sep then EmptyString :: split sep t
      else match split sep t with
           | p :: ps => String c p :: ps
           | [] => [String c EmptyString]
           end
  end.

Definition isDigit (c : ascii) : bool := between 48 57 c.
Definition isLowerAlpha (c : ascii) : bool := between 97 122 c.
Definition isUpperAlpha (c : ascii) : bool := between 65 90 c.
Definition isAlnum (c : ascii) : bool :=
  (isLowerAlpha c || isUpperAlpha c || isDigit c)%bool.

(** White space skipped by [parseInt] (code units below 256). *)
Definition isWhite (c : ascii) : bool :=
  let n := nat_of_ascii c in
  (between 9 13 c || Nat.eqb n 32 || Nat.eqb n 160)%bool.

Fixpoint trimStart (s : string) : string :=
  match s with
  | String c t => if isWhite c then trimStart t else s
  | EmptyString => EmptyString
  end.

(** Value of a digit in the given radix, if it is one. *)
Definition digitValue (radix : Z) (c : ascii) : option Z :=
  let n := Z.of_nat (nat_of_ascii c) in
  let v := if isDigit c then n - 48
           else if isLowerAlpha c then n - 97 + 10
           else if isUpperAlpha c then n - 65 + 10
           else radix in
  if v <? radix then Some v else None.

(** Longest prefix of radix digits, read as a number; [None] when the
    prefix is empty. *)
Fixpoint digits (radix : Z) (acc : option Z) (s : string) : option Z :=
  match s with
  | EmptyString => acc
  | String c t =>
      match digitValue radix c with
      | Some v =>
          digits radix
            (Some (match acc with Some a => a * radix + v | None => v end)) t
      | None => acc
      end
  end.

(** [parseInt(s)] without a radix argument; [None] is [NaN]. *)
Definition parseInt (s : string) : option Z :=
  let s1 := trimStart s in
  let '(sign, s2) :=
    match s1 with
    | String "-" t => (-1, t)
    | String "+" t => (1, t)
    | _ => (1, s1)
    end in
  let '(radix, s3) :=
    match s2 with
    | String "0" (String "x" t) => (16, t)
    | String "0" (String "X" t) => (16, t)
    | _ => (10, s2)
    end in
  option_map (Z.mul sign) (digits radix None s3).

Definition digit36 (d : N) : ascii :=
  if (d <? 10)%N then ascii_of_N (48 + d) else ascii_of_N (97 + (d - 10)).

Fixpoint toRadix36 (fuel : nat) (n : N) (acc : string) : string :=
  match fuel with
  | O => acc
  | S f =>
      let acc' := String (digit36 (n mod 36)) acc in
      if (n / 36 =? 0)%N then acc' else toRadix36 f (n / 36) acc'
  end.

(** [n.toString(36)] for a non-negative integer. *)
Definition toString36 (n : N) : string :=
  toRadix36 (S (N.to_nat (N.log2 n))) n EmptyString.

(** [String(v)] for a field that may be [null]. *)
Definition toStr (o : option string) : string :=
  match o with
  | Some s => s
  | None => "null"
  end.

End JS.

(** ** Results of the engine *)

(** The object under the [error] property of a failed result. *)
Record errInfo := mkErr { code : string; message : string }.

Inductive value :=
| VString (s : string)
| VNumber (n : N).

(** What an engine method resolves to: [{ value: v }], the empty object
    [{}], or [{ error: { code, message } }]. *)
Inductive result :=
| Value (v : value)
| Success
| Error (e : errInfo).

(** ** The URL parser *)

Module UrlParser.

(** The object built by [getUrlParts]. *)
Record urlParts := mkParts {
  scheme : option string;
  base : option string;
  domain : option string;
  rest : option string;
  baseRest : option string;
  url : string;
  error : option errInfo
}.

(** [setUrlSyntaxError(urlParts)] *)
Definition setUrlSyntaxError (p : urlParts) : urlParts :=
  mkParts (scheme p) (base p) (domain p) (rest p) (baseRest p) (url p)
    (Some (mkErr "URL_SYNTAX" ("URL_SYNTAX: bad url " ++ url p))).

(** [RegExp('^[a-zA-Z0-9\.\-]+$').test(s)] *)
Definition isBaseChar (c : ascii) : bool :=
  (JS.isAlnum c || Ascii.eqb c "." || Ascii.eqb c "-")%bool.

Fixpoint allChars (f : ascii -> bool) (s : string) : bool :=
  match s with
  | EmptyString => true
  | String c t => (f c && allChars f t)%bool
  end.

Definition testBaseRe (s : string) : bool :=
  (negb (String.eqb s "") && allChars isBaseChar s)%bool.

(** One iteration of the loop over [parts] in [validateBase]: the
    condition under which the loop does not return [false]. *)
Definition partOk (part : string) : bool :=
  (testBaseRe part
   && JS.charIsNot (JS.charAt part 0) "-"
   && JS.charIsNot (JS.charAt part (JS.len part - 1)) "-")%bool.

(** The part of [validateBase] after [ind0] is settled: the loop over
    the labels and the final length test. *)
Definition validateHost (base : string) (ind0 : Z) : bool :=
  let parts := JS.split "." (JS.substring base 0 ind0) in
  if negb (forallb partOk parts) then false
  else JS.len base <? 254.

(** [validateBase(base)] of the store-backed engine. *)
Definition validateBase (base : string) : bool :=
  let ind0 := JS.indexOf base ":" in
  if ind0 =? -1 then validateHost base (JS.len base)
  else
    match JS.parseInt (JS.substringFrom base (ind0 + 1)) with
    | None => false
    | Some portNum =>
        if ((portNum <? 1) || (portNum >=? 2 ^ 16))%bool then false
        else validateHost base ind0
    end.

(** [getUrlParts(url)] *)
Definition getUrlParts (url : string) : urlParts :=
  let retObj := mkParts None None None None None url None in
  let ind0 := JS.indexOf url "://" + 3 in
  if ((ind0 =? 2) || (ind0 =? 3) || (JS.len url =? ind0)
      || JS.charIs (JS.charAt url ind0) "/")%bool
  then setUrlSyntaxError retObj
  else
    let scheme := JS.toLowerCase (JS.substring url 0 (ind0 - 3)) in
    let baseRest := JS.toLowerCase (JS.substringFrom url ind0) in
    let ind1 := JS.indexOf (JS.substringFrom url ind0) "/" in
    let base :=
      if ind1 =? -1 then baseRest
      else JS.toLowerCase (JS.substring url ind0 (ind0 + ind1)) in
    let rest :=
      if ind1 =? -1 then None
      else Some (JS.substringFrom url (ind0 + ind1)) in
    let retObj :=
      mkParts (Some scheme) (Some base) None rest (Some baseRest) url None in
    if negb (validateBase base) then setUrlSyntaxError retObj
    else
      let ind2 := JS.indexOf base ":" in
      let ind2 := if ind2 =? -1 then JS.len base else ind2 in
      mkParts (Some scheme) (Some base) (Some (JS.substring base 0 ind2))
        rest (Some baseRest) (scheme ++ "://" ++ baseRest) None.

(** A regular expression is represented by its [test] method. *)
Definition regexp := string -> bool.

(** [RegExp('^https?$')] *)
Definition reHttps : regexp :=
  fun s => (String.eqb s "http" || String.eqb s "https")%bool.

(** [RegExp('^mongodb$')] *)
Definition reMongodb : regexp := fun s => String.eqb s "mongodb".

(** [validateScheme(urlParts, regex)]; [regex.test(null)] tests the
    string ["null"]. *)
Definition validateScheme (p : urlParts) (regex : regexp) : urlParts :=
  if negb (regex (JS.toStr (scheme p))) then setUrlSyntaxError p else p.

(** The two statements every engine method starts with. *)
Definition parse (regex : regexp) (url : string) : urlParts :=
  validateScheme (getUrlParts url) regex.

End UrlParser.

(** ** The document store *)

Module Mongo.

(** A document of the [urlInfo] collection. *)
Record doc := mkDoc {
  _id : N;
  longUrl : string;
  shortUrl : string;
  active : bool;
  queries : N
}.

Definition collection := list doc.

(** The filter [{ $or: [ { longUrl: url }, { shortUrl: url } ] }]; a
    [null] url matches no document, every document holding strings. *)
Definition orFilter (url : option string) (d : doc) : bool :=
  match url with
  | Some u => (String.eqb (longUrl d) u || String.eqb (shortUrl d) u)%bool
  | None => false
  end.

(** A whole document used as a filter: every field must be equal. *)
Definition docFilter (f d : doc) : bool :=
  (N.eqb (_id d) (_id f)
   && String.eqb (longUrl d) (longUrl f)
   && String.eqb (shortUrl d) (shortUrl f)
   && Bool.eqb (active d) (active f)
   && N.eqb (queries d) (queries f))%bool.

Definition findOne (flt : doc -> bool) (c : collection) : option doc :=
  List.find flt c.

Fixpoint updateOne (flt : doc -> bool) (upd : doc -> doc) (c : collection)
  : collection :=
  match c with
  | [] => []
  | d :: c' => if flt d then upd d :: c' else d :: updateOne flt upd c'
  end.

(** [insertOne] stores the document under a new [_id] and hands it back. *)
Definition insertOne (d : N -> doc) (c : collection) : doc * collection :=
  let d' := d (N.of_nat (List.length c)) in (d', (c ++ [d'])%list).

(** [{ $set: { active: b } }] *)
Definition setActive (b : bool) (d : doc) : doc :=
  mkDoc (_id d) (longUrl d) (shortUrl d) b (queries d).

(** [{ $set: { queries: n } }] *)
Definition setQueries (n : N) (d : doc) : doc :=
  mkDoc (_id d) (longUrl d) (shortUrl d) (active d) n.

End Mongo.

(** ** The engine *)

Module Engine.
Import UrlParser Mongo.

Inductive exn :=
| TypeError (msg : string).

(** How an [async] method settles: its promise is fulfilled with a value or
    rejected with an exception. *)
Inductive completion (A : Type) :=
| Fulfilled (a : A)
| Rejected (e : exn).
Arguments Fulfilled {A} a.
Arguments Rejected {A} e.

(** Methods run against the collection. *)
Definition M (A : Type) := collection -> completion A * collection.

Definition ret {A} (a : A) : M A := fun c => (Fulfilled a, c).

Definition throw {A} (e : exn) : M A := fun c => (Rejected e, c).

Definition bind {A B} (m : M A) (k : A -> M B) : M B :=
  fun c =>
    match m c with
    | (Fulfilled a, c') => k a c'
    | (Rejected e, c') => (Rejected e, c')
    end.

Notation "x <- m ;; k" := (bind m (fun x => k))
  (at level 61, m at next level, right associativity).
Notation "m ;;; k" := (bind m (fun _ => k))
  (at level 61, right associativity).

Definition colFindOne (flt : doc -> bool) : M (option doc) :=
  fun c => (Fulfilled (findOne flt c), c).

Definition colUpdateOne (flt : doc -> bool) (upd : doc -> doc) : M unit :=
  fun c => (Fulfilled tt, updateOne flt upd c).

Definition colInsertOne (d : N -> doc) : M doc :=
  fun c => let '(d', c') := insertOne d c in (Fulfilled d', c').

(** A result object read where the source returns [urlParts.error]. *)
Inductive answer :=
| Obj (r : result)
| Null.

Definition returnError (p : urlParts) : answer :=
  match error p with
  | Some e => Obj (Error e)
  | None => Null
  end.

Section Instance.

(** [this.SHORTENER_BASE] *)
Variable SHORTENER_BASE : string.

(** [_setErrMsg(urlParts, errMsg)] *)
Definition _setErrMsg (p : urlParts) (errMsg : string) : urlParts :=
  let e :=
    if String.eqb errMsg "DOMAIN_EQ" then
      mkErr "DOMAIN"
        ("DOMAIN: domain " ++ JS.toStr (domain p) ++ " equal to "
           ++ SHORTENER_BASE)
    else if String.eqb errMsg "DOMAIN_NE" then
      mkErr "DOMAIN"
        ("DOMAIN: domain of url " ++ JS.toStr (domain p)
           ++ " not equal to " ++ SHORTENER_BASE)
    else if String.eqb errMsg "NOT_FOUND" then
      mkErr "NOT_FOUND" ("NOT_FOUND: " ++ url p ++ " not found")
    else
      mkErr "UNKNOWN" "UNKNOWN: unknown error, something went wrong :(" in
  mkParts (scheme p) (base p) (domain p) (rest p) (baseRest p) (url p)
    (Some e).

(** The helper methods of the class that take [(urlParts, errMsg)],
    looked up by property name on [this].  The class body defines
    [_setErrMsg] and no other such helper. *)
Definition helper (name : string)
  : option (urlParts -> string -> urlParts) :=
  if String.eqb name "_setErrMsg" then Some _setErrMsg else None.

(** [this.name(urlParts, errMsg)]: calling a property that is not
    defined raises a [TypeError]. *)
Definition callHelper (name : string) (p : urlParts) (errMsg : string)
  : M urlParts :=
  match helper name with
  | Some f => ret (f p errMsg)
  | None => throw (TypeError ("this." ++ name ++ " is not a function"))
  end.

(** [urlParts.domain === this.SHORTENER_BASE] *)
Definition domainIsBase (p : urlParts) : bool :=
  match domain p with
  | Some d => String.eqb d SHORTENER_BASE
  | None => false
  end.

(** [_queryDb(url)] *)
Definition _queryDb (url : option string) : M (option doc) :=
  colFindOne (orFilter url).

(** [add(longUrl)]; [rnd] is the value of
    [Math.floor(Math.random()*2**32)] should the method draw it.  The
    [baseRest] stored in a new document is never [null] on this path. *)
Definition add (rnd : N) (longUrl : string) : M answer :=
  let urlParts := parse reHttps longUrl in
  match error urlParts with
  | Some e => ret (Obj (Error e))
  | None =>
      if domainIsBase urlParts then
        urlParts <- callHelper "setErrMsg" urlParts "DOMAIN_EQ" ;;
        ret (returnError urlParts)
      else
        urlInfo <- _queryDb (baseRest urlParts) ;;
        urlInfo <-
          match urlInfo with
          | Some info =>
              colUpdateOne (docFilter info) (setActive true) ;;;
              ret info
          | None =>
              let newUrl :=
                SHORTENER_BASE ++ "/" ++ JS.toString36 rnd in
              colInsertOne
                (fun id =>
                   mkDoc id (JS.toStr (baseRest urlParts)) newUrl true 0%N)
          end ;;
        ret (Obj (Value (VString
               (JS.toStr (scheme urlParts) ++ "://" ++ shortUrl urlInfo))))
  end.

(** [query(shortUrl)] *)
Definition query (shortUrl : string) : M answer :=
  let urlParts := parse reHttps shortUrl in
  match error urlParts with
  | Some e => ret (Obj (Error e))
  | None =>
      if negb (domainIsBase urlParts) then
        urlParts <- callHelper "_setErrMsg" urlParts "DOMAIN_NE" ;;
        ret (returnError urlParts)
      else
        urlInfo <- _queryDb (baseRest urlParts) ;;
        match urlInfo with
        | Some info =>
            if active info then
              colUpdateOne (docFilter info)
                (setQueries (queries info + 1)%N) ;;;
              ret (Obj (Value (VString
                     (JS.toStr (scheme urlParts) ++ "://"
                        ++ Mongo.longUrl info))))
            else
              urlParts <- callHelper "_setErrMsg" urlParts "NOT_FOUND" ;;
              ret (returnError urlParts)
        | None =>
            urlParts <- callHelper "_setErrMsg" urlParts "NOT_FOUND" ;;
            ret (returnError urlParts)
        end
  end.

(** [count(url)] *)
Definition count (url : string) : M answer :=
  let urlParts := parse reHttps url in
  match error urlParts with
  | Some e => ret (Obj (Error e))
  | None =>
      urlInfo <- _queryDb (baseRest urlParts) ;;
      match urlInfo with
      | None =>
          urlParts <- callHelper "_setErrMsg" urlParts "NOT_FOUND" ;;
          ret (returnError urlParts)
      | Some info => ret (Obj (Value (VNumber (queries info))))
      end
  end.

(** [deactivate(url)] *)
Definition deactivate (url : string) : M answer :=
  let urlParts := parse reHttps url in
  match error urlParts with
  | Some e => ret (Obj (Error e))
  | None =>
      urlInfo <- _queryDb (baseRest urlParts) ;;
      match urlInfo with
      | None =>
          urlParts <- callHelper "_setErrMsg" urlParts "NOT_FOUND" ;;
          ret (returnError urlParts)
      | Some info =>
          colUpdateOne (docFilter info) (setActive false) ;;;
          ret (Obj Success)
      end
  end.

(** A call of one of the four public methods. *)
Inductive call :=
| Add (rnd : N) (longUrl : string)
| Query (shortUrl : string)
| Count (url : string)
| Deactivate (url : string).

Definition run (c : call) : M answer :=
  match c with
  | Add rnd u => add rnd u
  | Query u => query u
  | Count u => count u
  | Deactivate u => deactivate u
  end.

(** The collection after a sequence of calls, one after the other. *)
Fixpoint runAll (cs : list call) (col : collection) : collection :=
  match cs with
  | [] => col
  | c :: cs' => runAll cs' (snd (run c col))
  end.

End Instance.

(** What the factory [make] answers: a new instance, with its
    [SHORTENER_BASE] and the url it connects to, or an error. *)
Inductive made :=
| Instance (shortenerBase mongoUrl : string)
| MakeError (e : errInfo).

(** [make(mongoDbUrl, shortenerBase)], up to the connection. *)
Definition make (mongoDbUrl shortenerBase : string) : made :=
  let mongoParts := validateScheme (getUrlParts mongoDbUrl) reMongodb in
  match error mongoParts with
  | Some _ =>
      MakeError
        (mkErr "BAD_MONGO_URL"
           ("BAD_MONGO_URL: mongodbUrl is invlid " ++ url mongoParts))
  | None =>
      if negb (validateBase shortenerBase) then
        MakeError
          (mkErr "BAD_SHORTENER_BASE"
             ("BAD_SHORTENER_BASE: shortenerBase is invlid "
                ++ shortenerBase))
      else Instance shortenerBase (url mongoParts)
  end.

End Engine.

(** ** Vocabulary of the specification *)

(** [c] occurs in [s]. *)
Definition InStr (c : ascii) (s : string) : Prop :=
  In c (list_ascii_of_string s).

(** The labels joined by the separator. *)
Fixpoint join (sep : ascii) (ls : list string) : string :=
  match ls with
  | [] => EmptyString
  | [l] => l
  | l :: ls' => l ++ String sep (join sep ls')
  end.

Module BaseSpec.

(** [base] is [host], or [host:port] with the host ending at the first
    colon. *)
Inductive hostPort (base : string) : string -> option string -> Prop :=
| NoPort : ~ InStr ":" base -> hostPort base base None
| WithPort host port :
    base = host ++ ":" ++ port -> ~ InStr ":" host ->
    hostPort base host (Some port).

(** [labels] is the host split at its dots. *)
Definition labelsOf (host : string) (labels : list string) : Prop :=
  labels <> [] /\ host = join "." labels
  /\ Forall (fun l => ~ InStr "." l) labels.

(** A label matches [[a-zA-Z0-9.-]+] and neither starts nor ends with a
    hyphen. *)
Definition labelOk (l : string) : Prop :=
  l <> "" /\ (forall c, InStr c l -> UrlParser.isBaseChar c = true)
  /\ (forall t, l <> String "-" t) /\ (forall t, l <> t ++ "-").

(** The digits of [ds] read in the radix, most significant first, from
    [acc] on; [None] when a character is no digit of the radix. *)
Fixpoint horner (radix acc : Z) (ds : string) : option Z :=
  match ds with
  | EmptyString => Some acc
  | String c t =>
      match JS.digitValue radix c with
      | Some v => horner radix (acc * radix + v) t
      | None => None
      end
  end.

(** [ds] is one or more digits of the radix and reads as [n]. *)
Definition numeral (radix : Z) (ds : string) (n : Z) : Prop :=
  ds <> "" /\ horner radix 0 ds = Some n.

(** The port, [NNN], is a decimal number in [1, 65535]. *)
Definition portOk (port : string) : Prop :=
  exists n, numeral 10 port n /\ 1 <= n <= 65535.

(** The valid bases. *)
Definition validBase (base : string) : Prop :=
  exists host port labels,
    hostPort base host port
    /\ labelsOf host labels
    /\ Forall labelOk labels
    /\ (forall p, port = Some p -> portOk p)
    /\ (String.length base < 254)%nat.

(** [rest] does not go on with a digit of the radix. *)
Definition noDigit (radix : Z) (rest : string) : Prop :=
  forall c t, rest = String c t -> JS.digitValue radix c = None.

(** The port texts the base validation lets through.  It takes the
    number the text starts with: white space and a plus sign before the
    number are skipped, the number is decimal, or hexadecimal after [0x],
    and whatever follows its digits is ignored. *)
Definition portRead (port : string) : Prop :=
  exists ws sign pre ds rest n,
    port = ws ++ sign ++ pre ++ ds ++ rest
    /\ (forall c, InStr c ws -> JS.isWhite c = true)
    /\ (sign = "" \/ sign = "+")
    /\ ((pre = "" /\ numeral 10 ds n /\ noDigit 10 rest)
        \/ ((pre = "0x" \/ pre = "0X")
            /\ numeral 16 ds n /\ noDigit 16 rest))
    /\ 1 <= n <= 65535.

(** The bases the base validation lets through: the valid bases, with
    the port read in this way. *)
Definition passes (base : string) : Prop :=
  exists host port labels,
    hostPort base host port
    /\ labelsOf host labels
    /\ Forall labelOk labels
    /\ (forall p, port = Some p -> portRead p)
    /\ (String.length base < 254)%nat.

End BaseSpec.

(** The text of [s] before the first [c] (all of [s] when there is none). *)
Fixpoint before (c : ascii) (s : string) : string :=
  match s with
  | EmptyString => EmptyString
  | String d t => if Ascii.eqb d c then EmptyString else String d (before c t)
  end.

Module ParseSpec.

(** [url] is [s], the separator, and [r], at the first separator. *)
Definition firstSplit (url s r : string) : Prop :=
  url = s ++ "://" ++ r
  /\ forall s' r', url = s' ++ "://" ++ r' ->
                   (String.length s <= String.length s')%nat.

Definition noSeparator (url : string) : Prop :=
  forall s r, url <> s ++ "://" ++ r.

(** The five ways of failing: no separator; nothing after it; a slash
    right after it; a scheme (lower-cased) that the allowed schemes do
    not match; a base (the lower-cased text up to the first slash) that
    the base validation does not let through. *)
Definition fails (allowed : string -> bool) (url : string) : Prop :=
  noSeparator url
  \/ exists s r,
      firstSplit url s r
      /\ (r = ""
          \/ (exists t, r = String "/" t)
          \/ allowed (JS.toLowerCase s) = false
          \/ ~ BaseSpec.passes (JS.toLowerCase (before "/" r))).

End ParseSpec.

(** The text of [s] from the first [c] on, if [c] occurs. *)
Fixpoint fromFirst (c : ascii) (s : string) : option string :=
  match s with
  | EmptyString => None
  | String d t => if Ascii.eqb d c then Some s else fromFirst c t
  end.

Module ParsedView.
Import UrlParser.

(** The object [getUrlParts] starts from. *)
Definition blank (url : string) : urlParts :=
  mkParts None None None None None url None.

(** The object [getUrlParts] has built when it calls [validateBase], for
    a url with scheme text [s] and text [r] after the separator. *)
Definition unchecked (url s r : string) : urlParts :=
  mkParts (Some (JS.toLowerCase s))
    (Some (JS.toLowerCase (before "/" r))) None (fromFirst "/" r)
    (Some (JS.toLowerCase r)) url None.

(** The object [getUrlParts] returns on success. *)
Definition parsed (s r : string) : urlParts :=
  let base := JS.toLowerCase (before "/" r) in
  mkParts (Some (JS.toLowerCase s)) (Some base) (Some (before ":" base))
    (fromFirst "/" r) (Some (JS.toLowerCase r))
    (JS.toLowerCase s ++ "://" ++ JS.toLowerCase r) None.

End ParsedView.

(** The answers and documents the engine methods build, named. *)
Module EngineView.
Import UrlParser Mongo Engine.

Section View.

Variable SB : string.

Definition notFound (p : urlParts) : answer :=
  Obj (Error (mkErr "NOT_FOUND" ("NOT_FOUND: " ++ url p ++ " not found"))).

Definition domainNe (p : urlParts) : answer :=
  Obj (Error (mkErr "DOMAIN"
                ("DOMAIN: domain of url " ++ JS.toStr (domain p)
                   ++ " not equal to " ++ SB))).

Definition shortOf (p : urlParts) (d : doc) : answer :=
  Obj (Value (VString (JS.toStr (scheme p) ++ "://" ++ shortUrl d))).

Definition longOf (p : urlParts) (d : doc) : answer :=
  Obj (Value (VString (JS.toStr (scheme p) ++ "://" ++ longUrl d))).

Definition newDoc (p : urlParts) (rnd : N) (col : collection) : doc :=
  mkDoc (N.of_nat (List.length col)) (JS.toStr (baseRest p))
    (SB ++ "/" ++ JS.toString36 rnd) true 0%N.

End View.

(** The url a call is about. *)
Definition callUrl (c : call) : string :=
  match c with
  | Add _ u => u
  | Query u => u
  | Count u => u
  | Deactivate u => u
  end.

End EngineView.

(** ** How a collection may change *)

Module Evolution.
Import Mongo.

(** Two versions of one document: the identifier and both urls are
    those it was stored with, and the counter has not gone down. *)
Definition sameDoc (d d' : doc) : Prop :=
  _id d' = _id d /\ longUrl d' = longUrl d /\ shortUrl d' = shortUrl d
  /\ (queries d <= queries d')%N.

(** [col'] holds every document of [col], at its place, possibly with
    further documents after them. *)
Inductive evolves : collection -> collection -> Prop :=
| evolves_nil col' : evolves [] col'
| evolves_cons d d' col col' :
    sameDoc d d' -> evolves col col' -> evolves (d :: col) (d' :: col').

End Evolution.

(** The characters of [n.toString(36)]. *)
Definition isTokenChar (c : ascii) : bool :=
  (JS.isDigit c || JS.isLowerAlpha c)%bool.

(** ** Runs without token collisions *)

Module Fresh.
Import Mongo Engine.

Section Fresh.

Variable SB : string.

(** The short url a new document gets for the draw [rnd]. *)
Definition shortFor (rnd : N) : string :=
  SB ++ "/" ++ JS.toString36 rnd.

(** No stored document is found under the short url of the draw. *)
Definition unused (rnd : N) (col : collection) : bool :=
  negb (existsb (orFilter (Some (shortFor rnd))) col).

(** The call stores a new document. *)
Definition inserts (c : call) (col : collection) : bool :=
  Nat.ltb (List.length col) (List.length (snd (run SB c col))).

(** Every new document of the run got a short url not in use. *)
Fixpoint collisionFree (cs : list call) (col : collection) : bool :=
  match cs with
  | [] => true
  | c :: cs' =>
      (match c with
       | Add rnd _ => if inserts c col then unused rnd col else true
       | _ => true
       end && collisionFree cs' (snd (run SB c col)))%bool
  end.

(** The shortener base is a valid host, in lower case, without port:
    the bases for which the domain of a short url is the base. *)
Definition plainBase : Prop :=
  UrlParser.validateBase SB = true
  /\ ~ InStr ":" SB
  /\ JS.toLowerCase SB = SB.

(** Short urls are of the engine's making, are pairwise different, and
    none is the long url of a document. *)
Definition distinctKeys (col : collection) : Prop :=
  (forall s, In s (map shortUrl col) -> exists r, s = shortFor r)
  /\ (forall l s, In l (map longUrl col) -> In s (map shortUrl col) ->
                  l <> s)
  /\ NoDup (map shortUrl col).

End Fresh.

End Fresh.

(** ** The text translation route *)

Module Ws.

(** The double quote, as a one-character string. *)
Definition dquote : string := String (ascii_of_nat 34) EmptyString.

(** [text.replace(/c/g, by)] for a one-character pattern. *)
Fixpoint replaceAll (c : ascii) (by_ : string) (text : string) : string :=
  match text with
  | EmptyString => EmptyString
  | String d t =>
      if Ascii.eqb d c then by_ ++ replaceAll c by_ t
      else String d (replaceAll c by_ t)
  end.

(** [htmlEscape(doEscape, text)] *)
Definition htmlEscape (doEscape : bool) (text : string) : string :=
  if doEscape then
    replaceAll (ascii_of_nat 34) "&quot;"
      (replaceAll ">" "&gt;"
         (replaceAll "<" "&lt;"
            (replaceAll "&" "&amp;" text)))
  else text.

(** A letter of the pattern under the [i] flag. *)
Definition letter (lower upper c : ascii) : bool :=
  (Ascii.eqb c lower || Ascii.eqb c upper)%bool.

(** The class [[\w\-\/\.\?\=\&\%\#\@\+\~]]. *)
Definition isUrlChar (c : ascii) : bool :=
  (JS.isAlnum c || Ascii.eqb c "_"
   || Ascii.eqb c "-" || Ascii.eqb c "/" || Ascii.eqb c "."
   || Ascii.eqb c "?" || Ascii.eqb c "=" || Ascii.eqb c "&"
   || Ascii.eqb c "%" || Ascii.eqb c "#" || Ascii.eqb c "@"
   || Ascii.eqb c "+" || Ascii.eqb c "~")%bool.

(** Length of the longest prefix of characters of the class. *)
Fixpoint run (f : ascii -> bool) (s : string) : nat :=
  match s with
  | String c t => if f c then S (run f t) else O
  | EmptyString => O
  end.

(** [\:\/\/[...]+] at the start of [s], after a scheme of [n]
    characters: the length of the whole match. *)
Definition matchTail (n : nat) (s : string) : option nat :=
  match s with
  | String ":" (String "/" (String "/" t)) =>
      match run isUrlChar t with
      | O => None
      | S k => Some (n + 3 + S k)%nat
      end
  | _ => None
  end.

(** [URL_RE] matched at the start of [s]: the length of the match.  The
    optional [s] is tried first, and without it when that fails. *)
Definition matchAt (s : string) : option nat :=
  match s with
  | String h (String t1 (String t2 (String p rest))) =>
      if (letter "h" "H" h && letter "t" "T" t1 && letter "t" "T" t2
          && letter "p" "P" p)%bool
      then
        match rest with
        | String c rest' =>
            if letter "s" "S" c then
              match matchTail 5 rest' with
              | Some n => Some n
              | None => matchTail 4 rest
              end
            else matchTail 4 rest
        | EmptyString => matchTail 4 rest
        end
      else None
  | _ => None
  end.

(** The leftmost match in [s], the text from position [pos] on:
    its index and length. *)
Fixpoint search (s : string) (pos : nat) : option (nat * nat) :=
  match matchAt s with
  | Some n => Some (pos, n)
  | None =>
      match s with
      | EmptyString => None
      | String _ t => search t (S pos)
      end
  end.

(** [URL_RE.exec(text)] with the global flag: the search starts at
    [URL_RE.lastIndex], which is moved behind the match, or back to 0
    when there is none.  The answer is [match.index] and [match[0]]. *)
Definition exec (reLastIndex : nat) (text : string)
  : option (nat * string) * nat :=
  if Nat.ltb (String.length text) reLastIndex then (None, O)
  else
    match search (JS.drop reLastIndex text) reLastIndex with
    | Some (index, n) =>
        (Some (index, JS.take n (JS.drop index text)), (index + n)%nat)
    | None => (None, O)
    end.

(** [text.slice(i, j)] for indices that are not negative. *)
Definition slice (text : string) (i j : nat) : string :=
  JS.take (j - i) (JS.drop i text).

(** How the promise of [app.locals.model.add(url)] settles: with an
    object, whose [value] may be missing, or rejected. *)
Inductive settled :=
| Resolved (value : option string)
| Failed.

(** [`${result.value}`] *)
Definition valueText (v : option string) : string :=
  match v with
  | Some s => s
  | None => "undefined"
  end.

(** The [<a href="v">v</a>] of the handler. *)
Definition anchor (v : string) : string :=
  "<a href=" ++ dquote ++ v ++ dquote ++ ">" ++ v ++ "</a>".

Section Handler.

(** The model behind the web service and its [add] method. *)
Variable state : Type.
Variable add : string -> state -> settled * state.

(** The [while] loop of [doTextShorten]; [None] when the fuel runs
    out.  The result is [shortened], [lastIndex], the [lastIndex] of
    [URL_RE] and the model. *)
Fixpoint loop (fuel : nat) (isHtml : bool) (text : string)
  (reLastIndex lastIndex : nat) (shortened : string) (m : state)
  : option (string * nat * nat * state) :=
  match fuel with
  | O => None
  | S fuel' =>
      match exec reLastIndex text with
      | (Some (index, url), reLastIndex') =>
          let shortened :=
            shortened ++ htmlEscape isHtml (slice text lastIndex index) in
          let urlLen := String.length url in
          let lastIndex := (index + urlLen)%nat in
          let '(settle, m') := add url m in
          let value :=
            match settle with
            | Resolved v => valueText v
            | Failed => url
            end in
          let shortened :=
            if isHtml then shortened ++ anchor value
            else shortened ++ value in
          loop fuel' isHtml text reLastIndex' lastIndex shortened m'
      | (None, reLastIndex') =>
          Some (shortened, lastIndex, reLastIndex', m)
      end
  end.

(** [doTextShorten]: the [value] sent back, the [lastIndex] left in
    [URL_RE], and the model. *)
Definition doTextShorten (isHtml : bool) (text : string)
  (reLastIndex : nat) (m : state) : option (string * nat * state) :=
  match loop (S (String.length text)) isHtml text reLastIndex 0 "" m with
  | Some (shortened, lastIndex, reLastIndex', m') =>
      Some (shortened
              ++ htmlEscape isHtml
                   (slice text lastIndex (String.length text)),
            reLastIndex', m')
  | None => None
  end.

End Handler.

End Ws.

(** What the translation is meant to produce. *)
Module TranslateSpec.

(** A piece of the text: plain text, or a matched url. *)
Inductive piece :=
| Plain (s : string)
| Link (u : string).

(** [u] is [http://] or [https://], in any letter case, followed by one
    or more characters of the class. *)
Definition isMatch (u : string) : Prop :=
  exists sch tail,
    u = sch ++ "://" ++ tail
    /\ (JS.toLowerCase sch = "http" \/ JS.toLowerCase sch = "https")
    /\ tail <> ""
    /\ forall c, InStr c tail -> Ws.isUrlChar c = true.

(** A match starts [s]. *)
Definition startsMatch (s : string) : Prop :=
  exists u r, s = u ++ r /\ isMatch u.

(** [s] does not go on with a character of the class. *)
Definition stops (s : string) : Prop :=
  forall c t, s = String c t -> Ws.isUrlChar c = false.

(** The text cut into plain text and the leftmost, longest,
    non-overlapping matches. *)
Inductive scan : string -> list piece -> Prop :=
| scan_end t :
    (forall i, ~ startsMatch (JS.drop i t)) ->
    scan t [Plain t]
| scan_link p u rest ps :
    (forall i, (i < String.length p)%nat ->
               ~ startsMatch (JS.drop i (p ++ u ++ rest))) ->
    isMatch u -> stops rest -> scan rest ps ->
    scan (p ++ u ++ rest) (Plain p :: Link u :: ps).

Definition escapeChar (c : ascii) : string :=
  if Ascii.eqb c "&" then "&amp;"
  else if Ascii.eqb c "<" then "&lt;"
  else if Ascii.eqb c ">" then "&gt;"
  else if Ascii.eqb c (ascii_of_nat 34) then "&quot;"
  else String c EmptyString.

Fixpoint escape (s : string) : string :=
  match s with
  | EmptyString => EmptyString
  | String c t => escapeChar c ++ escape t
  end.

Section Render.

Variable state : Type.
Variable add : string -> state -> Ws.settled * state.

(** The output for the pieces, left to right: plain text as it is
    (escaped for HTML), a link as what [add] gave for it, or as the url
    itself when [add] failed, inside an anchor for HTML. *)
Fixpoint render (isHtml : bool) (ps : list piece) (m : state)
  : string * state :=
  match ps with
  | [] => (EmptyString, m)
  | Plain s :: ps' =>
      let '(out, m') := render isHtml ps' m in
      ((if isHtml then escape s else s) ++ out, m')
  | Link u :: ps' =>
      let '(settle, m1) := add u m in
      let v := match settle with
               | Ws.Resolved v => Ws.valueText v
               | Ws.Failed => u
               end in
      let '(out, m2) := render isHtml ps' m1 in
      ((if isHtml then Ws.anchor v else v) ++ out, m2)
  end.

End Render.

End TranslateSpec.

(** ** The unfinished engine *)

(** The module of the stub engine, whose methods are not implemented,
    carries an earlier [validateBase]. *)
Module Stub.

(** [validateBase(base)] of the stub. *)
Definition validateBase (base : string) : bool :=
  let ind0 := JS.indexOf base ":" in
  let checkDomain (ind0 : Z) :=
    let domain := JS.substring base 0 ind0 in
    (UrlParser.testBaseRe domain
     && JS.charIsNot (JS.charAt domain 0) "-"
     && JS.charIsNot (JS.charAt domain (JS.len domain - 1)) "-")%bool in
  if ind0 =? -1 then checkDomain (JS.len base)
  else
    match JS.parseInt (JS.substringFrom base (ind0 + 1)) with
    | None => false
    | Some portNum =>
        if ((portNum <? 1) || (portNum >=? 2 ^ 16))%bool then false
        else checkDomain ind0
    end.

End Stub.

(** ** The in-memory engine *)

(** The first version of the engine keeps its associations in two
    JavaScript objects used as maps, [LONG_ACCESS] and [SHORT_ACCESS], that
    share the [urlInfo] objects they hold.  Objects live in a heap and the
    maps hold references into it, so that an update through one map is seen
    through the other.  Keys that name a property of [Object.prototype] are
    left out of the model. *)
Module InMemory.

(** The object built by [_getUrlParts]; the scheme keeps its [://]. *)
Record urlParts := mkParts {
  scheme : option string;
  domain : option string;
  rest : option string;
  domainRest : option string;
  error : option errInfo;
  url : string
}.

Record urlInfo := mkInfo {
  longUrl : string;
  shortUrl : string;
  active : bool;
  queries : N
}.

(** A map from keys to references: the properties an object made by
    [{}] has of its own.  The members such an object inherits from
    [Object.prototype] are not part of it; of their names only
    [constructor] and [__proto__] can be the key of a url, and what is
    stated of the engine is stated of the other keys
    ([MemoryParsed.ordinary]). *)
Definition refs := string -> option nat.

(** [{}], with no property of its own. *)
Definition noRefs : refs := fun _ => None.

(** [map[k] = r] *)
Definition setRef (m : refs) (k : string) (r : nat) : refs :=
  fun k' => if String.eqb k' k then Some r else m k'.

Record shortener := mkShortener {
  SHORTENER_DOMAIN : string;
  heap : list urlInfo;
  LONG_ACCESS : refs;
  SHORT_ACCESS : refs
}.

(** [new UrlShortener(domain)] *)
Definition create (domain : string) : shortener :=
  mkShortener (JS.toLowerCase domain) [] noRefs noRefs.

(** [_setErrMsg(urlParts, errMsg)] *)
Definition _setErrMsg (this : shortener) (p : urlParts) (errMsg : string)
  : urlParts :=
  let e :=
    if String.eqb errMsg "URL_SYNTAX" then
      mkErr "URL_SYNTAX" ("URL_SYNTAX: bad url " ++ url p)
    else if String.eqb errMsg "DOMAIN_EQ" then
      mkErr "DOMAIN"
        ("DOMAIN: domain " ++ JS.toStr (domain p) ++ " equal to "
           ++ SHORTENER_DOMAIN this)
    else if String.eqb errMsg "DOMAIN_NE" then
      mkErr "DOMAIN"
        ("DOMAIN: domain of url " ++ JS.toStr (domain p)
           ++ " not equal to " ++ SHORTENER_DOMAIN this)
    else if String.eqb errMsg "NOT_FOUND" then
      mkErr "NOT_FOUND" ("NOT_FOUND: " ++ url p ++ " not found")
    else
      mkErr "UNKNOWN" "UNKNOWN: unknown error, something went wrong :(" in
  mkParts (scheme p) (domain p) (rest p) (domainRest p) (Some e) (url p).

(** [_getUrlParts(url)] *)
Definition _getUrlParts (this : shortener) (url : string) : urlParts :=
  let retObj := mkParts None None None None None url in
  let ind0 := JS.indexOf url "://" + 3 in
  if ((ind0 =? 2) || (ind0 =? 3) || (JS.len url =? ind0)
      || JS.charIs (JS.charAt url ind0) "/")%bool
  then _setErrMsg this retObj "URL_SYNTAX"
  else
    let scheme := JS.toLowerCase (JS.substring url 0 ind0) in
    let ind1 := JS.indexOf (JS.substringFrom url ind0) "/" in
    if ind1 =? -1 then
      let domain := JS.toLowerCase (JS.substringFrom url ind0) in
      mkParts (Some scheme) (Some domain) None (Some domain) None
        (scheme ++ domain)
    else
      let domain :=
        JS.toLowerCase (JS.substring url ind0 (ind0 + ind1)) in
      let rest := JS.substringFrom url (ind0 + ind1) in
      mkParts (Some scheme) (Some domain) (Some rest) (Some (domain ++ rest))
        None (scheme ++ domain ++ rest).

(** [map[key]], with the object the reference leads to. *)
Definition lookup (this : shortener) (m : refs) (key : option string)
  : option (nat * urlInfo) :=
  match key with
  | Some k =>
      match m k with
      | Some r =>
          match nth_error (heap this) r with
          | Some o => Some (r, o)
          | None => None
          end
      | None => None
      end
  | None => None
  end.

(** The heap with the object at [r] replaced. *)
Fixpoint store (h : list urlInfo) (r : nat) (o : urlInfo) : list urlInfo :=
  match h, r with
  | [], _ => []
  | _ :: t, O => o :: t
  | x :: t, S r' => x :: store t r' o
  end.

Definition setHeap (this : shortener) (h : list urlInfo) : shortener :=
  mkShortener (SHORTENER_DOMAIN this) h (LONG_ACCESS this)
    (SHORT_ACCESS this).

(** [urlParts.domain === this.SHORTENER_DOMAIN] *)
Definition domainIs (this : shortener) (p : urlParts) : bool :=
  match domain p with
  | Some d => String.eqb d (SHORTENER_DOMAIN this)
  | None => false
  end.

(** The value of [urlParts.error], as a method returns it. *)
Definition errorOf (p : urlParts) : Engine.answer :=
  match error p with
  | Some e => Engine.Obj (Error e)
  | None => Engine.Null
  end.

(** [add(longUrl)]; [rnd] as for the store-backed engine. *)
Definition add (rnd : N) (long : string) (this : shortener)
  : Engine.answer * shortener :=
  let urlParts := _getUrlParts this long in
  match error urlParts with
  | Some e => (Engine.Obj (Error e), this)
  | None =>
      if domainIs this urlParts then
        (errorOf (_setErrMsg this urlParts "DOMAIN_EQ"), this)
      else
        match lookup this (LONG_ACCESS this) (domainRest urlParts) with
        | Some (r, o) =>
            (Engine.Obj
               (Value (VString (JS.toStr (scheme urlParts) ++ shortUrl o))),
             setHeap this
               (store (heap this) r
                  (mkInfo (longUrl o) (shortUrl o) true (queries o))))
        | None =>
            let short :=
              match lookup this (SHORT_ACCESS this) (domainRest urlParts)
              with
              | Some (_, o) => shortUrl o
              | None =>
                  SHORTENER_DOMAIN this ++ "/" ++ JS.toString36 rnd
              end in
            let urlInfo :=
              mkInfo (JS.toStr (domainRest urlParts)) short true 0%N in
            let r := List.length (heap this) in
            (Engine.Obj
               (Value (VString (JS.toStr (scheme urlParts) ++ short))),
             mkShortener (SHORTENER_DOMAIN this)
               (heap this ++ [urlInfo])%list
               (setRef (LONG_ACCESS this) (longUrl urlInfo) r)
               (setRef (SHORT_ACCESS this) (shortUrl urlInfo) r))
        end
  end.

(** [query(shortUrl)] *)
Definition query (short : string) (this : shortener)
  : Engine.answer * shortener :=
  let urlParts := _getUrlParts this short in
  match error urlParts with
  | Some e => (Engine.Obj (Error e), this)
  | None =>
      if negb (domainIs this urlParts) then
        (errorOf (_setErrMsg this urlParts "DOMAIN_NE"), this)
      else
        match lookup this (SHORT_ACCESS this) (domainRest urlParts) with
        | Some (r, o) =>
            if active o then
              (Engine.Obj
                 (Value (VString (JS.toStr (scheme urlParts) ++ longUrl o))),
               setHeap this
                 (store (heap this) r
                    (mkInfo (longUrl o) (shortUrl o) (active o)
                       (queries o + 1)%N)))
            else (errorOf (_setErrMsg this urlParts "NOT_FOUND"), this)
        | None => (errorOf (_setErrMsg this urlParts "NOT_FOUND"), this)
        end
  end.

(** [count(url)] *)
Definition count (url : string) (this : shortener)
  : Engine.answer * shortener :=
  let urlParts := _getUrlParts this url in
  match error urlParts with
  | Some e => (Engine.Obj (Error e), this)
  | None =>
      match lookup this (LONG_ACCESS this) (domainRest urlParts),
            lookup this (SHORT_ACCESS this) (domainRest urlParts) with
      | None, None => (errorOf (_setErrMsg this urlParts "NOT_FOUND"), this)
      | Some (_, o), _ => (Engine.Obj (Value (VNumber (queries o))), this)
      | None, Some (_, o) => (Engine.Obj (Value (VNumber (queries o))), this)
      end
  end.

(** [remove(url)] *)
Definition remove (url : string) (this : shortener)
  : Engine.answer * shortener :=
  let urlParts := _getUrlParts this url in
  match error urlParts with
  | Some e => (Engine.Obj (Error e), this)
  | None =>
      match lookup this (LONG_ACCESS this) (domainRest urlParts),
            lookup this (SHORT_ACCESS this) (domainRest urlParts) with
      | None, None => (errorOf (_setErrMsg this urlParts "NOT_FOUND"), this)
      | Some (r, o), _ =>
          (Engine.Obj Success,
           setHeap this
             (store (heap this) r
                (mkInfo (longUrl o) (shortUrl o) false (queries o))))
      | None, Some (r, o) =>
          (Engine.Obj Success,
           setHeap this
             (store (heap this) r
                (mkInfo (longUrl o) (shortUrl o) false (queries o))))
      end
  end.

Inductive call :=
| Add (rnd : N) (long : string)
| Query (short : string)
| Count (url : string)
| Remove (url : string).

Definition run (c : call) : shortener -> Engine.answer * shortener :=
  match c with
  | Add rnd u => add rnd u
  | Query u => query u
  | Count u => count u
  | Remove u => remove u
  end.

Fixpoint runAll (cs : list call) (this : shortener) : shortener :=
  match cs with
  | [] => this
  | c :: cs' => runAll cs' (snd (run c this))
  end.

End InMemory.

(** How the in-memory engine may change. *)
Module MemoryView.
Import InMemory.

(** References lead into the heap. *)
Definition sound (this : shortener) : Prop :=
  forall k r,
    LONG_ACCESS this k = Some r -> (r < List.length (heap this))%nat.

(** [this'] is a later state of [this]: the long urls known keep their
    objects, and objects keep their urls. *)
Definition later (this this' : shortener) : Prop :=
  SHORTENER_DOMAIN this' = SHORTENER_DOMAIN this
  /\ (forall k r,
         LONG_ACCESS this k = Some r -> LONG_ACCESS this' k = Some r)
  /\ (forall r o,
         nth_error (heap this) r = Some o ->
         exists o', nth_error (heap this') r = Some o'
                    /\ longUrl o' = longUrl o /\ shortUrl o' = shortUrl o).

End MemoryView.

(** ** The association a url leads to *)

Module Association.
Import Mongo.

(** [d] is the document of [col] that [_queryDb] finds both under the
    long url [k] and under the short url [s]: the first one with either
    of them, holding both. *)
Definition leads (k s : string) (d : doc) (col : collection) : Prop :=
  exists l1 l2,
    col = (l1 ++ d :: l2)%list
    /\ (forall x, In x l1 ->
                  orFilter (Some k) x = false /\ orFilter (Some s) x = false)
    /\ longUrl d = k /\ shortUrl d = s.

End Association.

(** ** Emptying the store *)

Module Housekeeping.
Import Mongo Engine.

(** [clear()]: [deleteMany({})] removes every document. *)
Definition clear : M answer := fun _ => (Fulfilled (Obj Success), []).

End Housekeeping.

(** ** Documents of the engine's making *)

Module Origin.
Import Mongo.

(** A document as [add] stores it: its short url is the base, a slash
    and a token, and its long url is the key of a url whose domain is not
    the base. *)
Definition stored (SB : string) (d : doc) : Prop :=
  (exists rnd, shortUrl d = Fresh.shortFor SB rnd)
  /\ before ":" (before "/" (longUrl d)) <> SB.

End Origin.

(** ** The routes of the web service *)

(** The handlers of the web service, with the store-backed engine as
    [app.locals.model].  A handler answers through [res]; what it sends is
    its result here. *)
Module Routes.
Import Mongo Engine.

Definition OK : Z := 200.
Definition CREATED : Z := 201.
Definition BAD_REQUEST : Z := 400.
Definition NOT_FOUND : Z := 404.
Definition CONFLICT : Z := 409.
Definition SERVER_ERROR : Z := 500.

(** What a [catch] clause gets hold of: [err.code] (a string, when it is
    there), [err.message] and [err.toString()]. *)
Record caught := mkCaught {
  errCode : option string;
  errMessage : option string;
  errString : string
}.

(** A [TypeError] of the engine, as caught. *)
Definition ofExn (e : exn) : caught :=
  match e with
  | TypeError msg => mkCaught None (Some msg) ("TypeError: " ++ msg)
  end.

(** The value of [ERROR_MAP[code]]: one of the two numbers of the object
    literal, or a member of [Object.prototype], which the literal
    inherits. *)
Inductive member :=
| Number (n : Z)
| Inherited (name : string).

Definition objectPrototype : list string :=
  ["constructor"; "__defineGetter__"; "__defineSetter__"; "hasOwnProperty";
   "__lookupGetter__"; "__lookupSetter__"; "isPrototypeOf";
   "propertyIsEnumerable"; "toString"; "valueOf"; "__proto__";
   "toLocaleString"].

Definition ERROR_MAP (code : string) : option member :=
  if String.eqb code "EXISTS" then Some (Number CONFLICT)
  else if String.eqb code "NOT_FOUND" then Some (Number NOT_FOUND)
  else if existsb (String.eqb code) objectPrototype
       then Some (Inherited code)
       else None.

(** The object [mapError] builds. *)
Record mapped := mkMapped {
  status : member;
  mappedCode : string;
  mappedMessage : option string
}.

(** [mapError(err)]; the empty string is as good as no code, and every
    member of [ERROR_MAP] is truthy. *)
Definition mapError (err : caught) : mapped :=
  let internal :=
    mkMapped (Number SERVER_ERROR) "INTERNAL" (Some (errString err)) in
  match errCode err with
  | Some c =>
      if String.eqb c "" then internal
      else
        mkMapped
          (match ERROR_MAP c with
           | Some m => m
           | None => Number BAD_REQUEST
           end)
          c (errMessage err)
  | None => internal
  end.

(** What a handler sends. *)
Inductive response :=
| json (body : answer)
| statusJson (m : mapped)
| sendStatus (n : Z)
| redirect (target : option value).

(** The fields of [req] that [requestUrl] reads, with [port] the text of
    [app.locals.port]. *)
Record request := mkRequest {
  protocol : string;
  hostname : string;
  port : string;
  originalUrl : string
}.

(** [requestUrl(req)] *)
Definition requestUrl (req : request) : string :=
  protocol req ++ "://" ++ hostname req ++ ":" ++ port req
    ++ originalUrl req.

(** [req.query.url || ''] *)
Definition orEmpty (o : option string) : string :=
  match o with
  | Some s => s
  | None => ""
  end.

Section Handlers.

(** [SHORTENER_BASE] of the model. *)
Variable SB : string.

(** The message of the [TypeError] raised on reading a property of
    [null]. *)
Variable nullRead : string.

(** [results.value] *)
Definition valueOf (a : answer) : completion (option value) :=
  match a with
  | Obj (Value v) => Fulfilled (Some v)
  | Obj _ => Fulfilled None
  | Null => Rejected (TypeError nullRead)
  end.

(** The handler of [doShorten(app)]; [rnd] is the draw of the model's
    [add]. *)
Definition doShorten (rnd : N) (queryUrl : option string)
  : collection -> response * collection :=
  fun col =>
    let url := orEmpty queryUrl in
    match add SB rnd url col with
    | (Fulfilled result, col') => (json result, col')
    | (Rejected err, col') => (statusJson (mapError (ofExn err)), col')
    end.

(** The handler of [doDeactivate(app)] *)
Definition doDeactivate (queryUrl : option string)
  : collection -> response * collection :=
  fun col =>
    let url := orEmpty queryUrl in
    match deactivate SB url col with
    | (Fulfilled _, col') => (sendStatus OK, col')
    | (Rejected err, col') => (statusJson (mapError (ofExn err)), col')
    end.

(** The handler of [doRedirect(app)] *)
Definition doRedirect (req : request)
  : collection -> response * collection :=
  fun col =>
    let url := requestUrl req in
    match query SB url col with
    | (Fulfilled results, col') =>
        match valueOf results with
        | Fulfilled v => (redirect v, col')
        | Rejected err => (statusJson (mapError (ofExn err)), col')
        end
    | (Rejected err, col') => (statusJson (mapError (ofExn err)), col')
    end.

(** The model's [add] as [doTextShorten] awaits it.  The state is the
    collection with the number of calls made, [draws i] being the draw of
    call [i].  [add] answers neither a number nor [null]. *)
Definition modelAdd (draws : nat -> N) (url : string)
  (st : nat * collection) : Ws.settled * (nat * collection) :=
  match add SB (draws (fst st)) url (snd st) with
  | (Fulfilled (Obj (Value (VString s))), col') =>
      (Ws.Resolved (Some s), (S (fst st), col'))
  | (Fulfilled _, col') => (Ws.Resolved None, (S (fst st), col'))
  | (Rejected _, col') => (Ws.Failed, (S (fst st), col'))
  end.

End Handlers.

End Routes.

(** ** Escaped text *)

(** The text after an ampersand goes on as one of the four entities. *)
Definition entityStart (y : string) : Prop :=
  exists z, y = "amp;" ++ z \/ y = "lt;" ++ z \/ y = "gt;" ++ z
            \/ y = "quot;" ++ z.

(** ** The in-memory parser and its keys, named *)

Module MemoryParsed.
Import InMemory.

(** The text of [s] from its first slash on, empty when it has none. *)
Definition restText (r : string) : string :=
  match fromFirst "/" r with
  | Some t => t
  | None => ""
  end.

(** The object [_getUrlParts] returns on success, for a url with scheme
    text [s] and text [r] after the separator. *)
Definition parsed (s r : string) : urlParts :=
  let scheme := JS.toLowerCase (s ++ "://") in
  let domain := JS.toLowerCase (before "/" r) in
  mkParts (Some scheme) (Some domain) (fromFirst "/" r)
    (Some (domain ++ restText r)) None (scheme ++ domain ++ restText r).

(** The keys under which [LONG_ACCESS] and [SHORT_ACCESS], made by [{}],
    answer a member of [Object.prototype] when nothing is stored under
    them.  The key of a url is in lower case up to its first slash, so of
    the names in [Object.prototype] only these two can be one. *)
Definition inherited (key : option string) : bool :=
  match key with
  | Some k => (String.eqb k "constructor" || String.eqb k "__proto__")%bool
  | None => false
  end.

(** The key of the url is not one of them. *)
Definition ordinary (this : shortener) (url : string) : bool :=
  negb (inherited (domainRest (_getUrlParts this url))).

(** The url a call is about. *)
Definition callUrl (c : call) : string :=
  match c with
  | Add _ u => u
  | Query u => u
  | Count u => u
  | Remove u => u
  end.

(** The state [this] with one more association: the object [o], which
    both maps lead to, [LONG_ACCESS] under [k] and [SHORT_ACCESS] under
    [short]. *)
Definition holding (this : shortener) (k short : string) (o : urlInfo)
  : shortener :=
  mkShortener (SHORTENER_DOMAIN this) (heap this ++ [o])%list
    (setRef (LONG_ACCESS this) k (List.length (heap this)))
    (setRef (SHORT_ACCESS this) short (List.length (heap this))).

End MemoryParsed.

(** ** Pieces of two texts *)

(** The pieces of a text made of two texts with a character [c] between
    them, from the pieces of the two: the plain text that ends the first,
    [c], and the plain text that starts the second make one piece. *)
Fixpoint glue (ps1 : list TranslateSpec.piece) (c : ascii)
  (ps2 : list TranslateSpec.piece) : list TranslateSpec.piece :=
  match ps1 with
  | [] => ps2
  | [TranslateSpec.Plain t] =>
      match ps2 with
      | TranslateSpec.Plain q :: ps2' =>
          TranslateSpec.Plain (t ++ String c q) :: ps2'
      | _ => TranslateSpec.Plain (t ++ String c "") :: ps2
      end
  | p :: ps1' => p :: glue ps1' c ps2
  end.

(** * Properties *)

#[local] Arguments Ascii.eqb : simpl never.
#[local] Arguments String.eqb : simpl never.

(** ** The model on sample inputs *)

Example substring_swaps : JS.substring "abcdef" 4 1 = "bcd".
Proof. reflexivity. Qed.

Example indexOf_separator : JS.indexOf "http://a.com" "://" = 4.
Proof. reflexivity. Qed.

Example indexOf_missing : JS.indexOf "not-a-url" "://" = -1.
Proof. reflexivity. Qed.

Example split_at_dots : JS.split "." "a..b." = ["a"; ""; "b"; ""].
Proof. reflexivity. Qed.

Example parseInt_reads_a_prefix : JS.parseInt " 80abc" = Some 80.
Proof. reflexivity. Qed.

Example parseInt_reads_hex : JS.parseInt "0x1F" = Some 31.
Proof. reflexivity. Qed.

Example parseInt_gives_NaN : JS.parseInt "x" = None.
Proof. reflexivity. Qed.

Example toString36_of_largest_draw : JS.toString36 4294967295 = "1z141z3".
Proof. reflexivity. Qed.

Example getUrlParts_sample :
  UrlParser.getUrlParts "HTTP://Example.COM:8080/Path?x=Y"
  = UrlParser.mkParts (Some "http") (Some "example.com:8080")
      (Some "example.com") (Some "/Path?x=Y")
      (Some "example.com:8080/path?x=y")
      "http://example.com:8080/path?x=y" None.
Proof. reflexivity. Qed.

Example add_not_a_url :
  fst (Engine.add "short.ly" 0 "not-a-url" [])
  = Engine.Fulfilled
      (Engine.Obj
         (Error (mkErr "URL_SYNTAX" "URL_SYNTAX: bad url not-a-url"))).
Proof. reflexivity. Qed.

(** The scenario of the specification, for the base [short.ly]. *)
Example scenario :
  let L := "http://example.com/page" in
  let col1 := snd (Engine.add "short.ly" 12345 L []) in
  let col2 := snd (Engine.query "short.ly" "http://short.ly/9ix" col1) in
  let col3 := snd (Engine.deactivate "short.ly" L col2) in
  fst (Engine.add "short.ly" 12345 L [])
  = Engine.Fulfilled (Engine.Obj (Value (VString "http://short.ly/9ix")))
  /\ fst (Engine.query "short.ly" "http://short.ly/9ix" col1)
     = Engine.Fulfilled (Engine.Obj (Value (VString L)))
  /\ fst (Engine.count "short.ly" L col2)
     = Engine.Fulfilled (Engine.Obj (Value (VNumber 1)))
  /\ fst (Engine.deactivate "short.ly" L col2)
     = Engine.Fulfilled (Engine.Obj Success)
  /\ fst (Engine.query "short.ly" "http://short.ly/9ix" col3)
     = Engine.Fulfilled
         (Engine.Obj
            (Error
               (mkErr "NOT_FOUND"
                  "NOT_FOUND: http://short.ly/9ix not found")))
  /\ fst (Engine.count "short.ly" L col3)
     = Engine.Fulfilled (Engine.Obj (Value (VNumber 1))).
Proof. repeat split. Qed.

Example translate_sample :
  Ws.doTextShorten unit
    (fun u m => (Ws.Resolved (Some "http://short.ly/1"), m)) false
    "visit http://example.com now" O tt
  = Some ("visit http://short.ly/1 now", O, tt).
Proof. reflexivity. Qed.

(** ** Facts about the string primitives *)

Lemma InStr_cons c d s : InStr c (String d s) <-> d = c \/ InStr c s.
Proof. unfold InStr; simpl; tauto. Qed.

Lemma InStr_app c s t : InStr c (s ++ t) <-> InStr c s \/ InStr c t.
Proof.
  induction s as [|d s IH]; simpl.
  - unfold InStr at 2; simpl; tauto.
  - rewrite !InStr_cons, IH; tauto.
Qed.

Lemma len_nonneg s : 0 <= JS.len s.
Proof. unfold JS.len; lia. Qed.

Lemma len_cons c s : JS.len (String c s) = JS.len s + 1.
Proof. unfold JS.len; simpl String.length; lia. Qed.

Lemma length_app s t :
  String.length (s ++ t) = (String.length s + String.length t)%nat.
Proof. induction s; simpl; auto. Qed.

Lemma app_empty_r s : s ++ "" = s.
Proof. induction s; simpl; congruence. Qed.

Lemma app_assoc s t u : (s ++ t) ++ u = s ++ t ++ u.
Proof. induction s; simpl; congruence. Qed.

Lemma take_drop n s : JS.take n s ++ JS.drop n s = s.
Proof.
  revert s; induction n as [|n IH]; intros [|c s]; simpl; auto.
  now rewrite IH.
Qed.

Lemma take_all n s : (String.length s <= n)%nat -> JS.take n s = s.
Proof.
  revert s; induction n as [|n IH]; intros [|c s]; simpl; auto; try lia.
  intros H; rewrite IH; auto; lia.
Qed.

Lemma length_drop n s :
  String.length (JS.drop n s) = (String.length s - n)%nat.
Proof.
  revert s; induction n as [|n IH]; intros [|c s]; simpl; auto.
Qed.

Lemma length_take n s :
  String.length (JS.take n s) = Nat.min n (String.length s).
Proof.
  revert s; induction n as [|n IH]; intros [|c s]; simpl; auto.
Qed.

Lemma take_app_length s t : JS.take (String.length s) (s ++ t) = s.
Proof. induction s; simpl; [now destruct t | congruence]. Qed.

Lemma drop_app_length s t : JS.drop (String.length s) (s ++ t) = t.
Proof. induction s; simpl; auto. Qed.

Lemma substring_range s a b :
  0 <= a <= b -> b <= JS.len s ->
  JS.substring s a b = JS.take (Z.to_nat (b - a)) (JS.drop (Z.to_nat a) s).
Proof.
  intros Ha Hb; unfold JS.substring, JS.clamp.
  replace (Z.max 0 (Z.min a (JS.len s))) with a by lia.
  replace (Z.max 0 (Z.min b (JS.len s))) with b by lia.
  now replace (Z.min a b) with a by lia; replace (Z.max a b) with b by lia.
Qed.

Lemma substring_prefix s n :
  (n <= String.length s)%nat -> JS.substring s 0 (Z.of_nat n) = JS.take n s.
Proof.
  intros H; rewrite substring_range; unfold JS.len; try lia.
  simpl JS.drop. f_equal; lia.
Qed.

Lemma substring_whole s : JS.substring s 0 (JS.len s) = s.
Proof.
  unfold JS.len; rewrite substring_prefix by lia. now apply take_all.
Qed.

Lemma substringFrom_drop s n :
  (n <= String.length s)%nat -> JS.substringFrom s (Z.of_nat n) = JS.drop n s.
Proof.
  intros H; unfold JS.substringFrom.
  rewrite substring_range; unfold JS.len; try lia.
  rewrite Nat2Z.id. apply take_all. rewrite length_drop; lia.
Qed.

(** [find] with a one-character pattern. *)
Lemma find_char_cons c d s :
  JS.find (String c "") (String d s)
  = if Ascii.eqb c d then Some O else option_map S (JS.find (String c "") s).
Proof.
  simpl. destruct (ascii_dec c d) as [->|Hne].
  - rewrite Ascii.eqb_refl. now destruct s.
  - apply Ascii.eqb_neq in Hne. rewrite Hne.
    destruct (ascii_dec c d); [subst; now rewrite Ascii.eqb_refl in Hne|].
    reflexivity.
Qed.

Lemma find_char_nil c : JS.find (String c "") "" = None.
Proof. reflexivity. Qed.

Lemma find_char_spec c s :
  match JS.find (String c "") s with
  | Some n =>
      exists h t, s = h ++ String c t /\ ~ InStr c h /\ String.length h = n
  | None => ~ InStr c s
  end.
Proof.
  induction s as [|d s IH].
  - rewrite find_char_nil. unfold InStr; simpl; tauto.
  - rewrite find_char_cons.
    destruct (Ascii.eqb_spec c d) as [->|Hne].
    + exists "", s. repeat split. unfold InStr; simpl; tauto.
    + destruct (JS.find (String c "") s) as [n|]; simpl.
      * destruct IH as (h & t & -> & Hh & Hn).
        exists (String d h), t. repeat split; simpl; auto.
        rewrite InStr_cons. intros [?|?]; [congruence|tauto].
      * rewrite InStr_cons. intros [?|?]; [congruence|tauto].
Qed.

Lemma find_char_None c s :
  JS.find (String c "") s = None <-> ~ InStr c s.
Proof.
  pose proof (find_char_spec c s) as H.
  destruct (JS.find (String c "") s) as [n|]; [|tauto].
  split; [discriminate|]. intros Hn. exfalso.
  destruct H as (h & t & -> & _). apply Hn.
  rewrite InStr_app, InStr_cons; tauto.
Qed.

Lemma find_char_app c h t :
  ~ InStr c h -> JS.find (String c "") (h ++ String c t)
                 = Some (String.length h).
Proof.
  induction h as [|d h IH]; intros Hh.
  - simpl (_ ++ _). rewrite find_char_cons. now rewrite Ascii.eqb_refl.
  - simpl (_ ++ _). rewrite find_char_cons.
    rewrite InStr_cons in Hh.
    destruct (Ascii.eqb_spec c d) as [->|Hne]; [tauto|].
    rewrite IH by tauto. reflexivity.
Qed.

Lemma indexOf_char_none c s :
  JS.indexOf s (String c "") = -1 <-> ~ InStr c s.
Proof.
  unfold JS.indexOf. rewrite <- find_char_None.
  destruct (JS.find (String c "") s); split; try discriminate; auto; lia.
Qed.

Lemma indexOf_char_split c s :
  JS.indexOf s (String c "") <> -1 ->
  exists h t, s = h ++ String c t /\ ~ InStr c h
              /\ JS.indexOf s (String c "") = JS.len h.
Proof.
  unfold JS.indexOf. pose proof (find_char_spec c s) as H.
  destruct (JS.find (String c "") s) as [n|]; [|congruence].
  intros _. destruct H as (h & t & -> & Hh & <-). now exists h, t.
Qed.

Lemma indexOf_char_app c h t :
  ~ InStr c h -> JS.indexOf (h ++ String c t) (String c "") = JS.len h.
Proof.
  intros Hh. unfold JS.indexOf. now rewrite find_char_app.
Qed.

Lemma first_sep_unique c h t h' t' :
  ~ InStr c h -> ~ InStr c h' ->
  h ++ String c t = h' ++ String c t' -> h = h' /\ t = t'.
Proof.
  intros Hh Hh' E.
  assert (L : String.length h = String.length h').
  { pose proof (find_char_app c h t Hh) as F.
    rewrite E, (find_char_app c h' t' Hh') in F. congruence. }
  pose proof (take_app_length h (String c t)) as T.
  pose proof (drop_app_length h (String c t)) as D.
  rewrite E, L in T, D.
  rewrite take_app_length in T. rewrite drop_app_length in D.
  split; congruence.
Qed.

(** [split] and [join] are inverse on separator-free labels. *)
Lemma split_not_nil sep s : JS.split sep s <> [].
Proof.
  destruct s as [|c s]; simpl; [discriminate|].
  destruct (Ascii.eqb c sep); [discriminate|].
  destruct (JS.split sep s); discriminate.
Qed.

Lemma join_cons sep l ls :
  ls <> [] -> join sep (l :: ls) = l ++ String sep (join sep ls).
Proof. destruct ls; [congruence | reflexivity]. Qed.

Lemma join_split sep s : join sep (JS.split sep s) = s.
Proof.
  induction s as [|c s IH]; [reflexivity|]. simpl JS.split.
  destruct (Ascii.eqb_spec c sep) as [->|Hne].
  - rewrite join_cons by apply split_not_nil. now rewrite IH.
  - pose proof (split_not_nil sep s) as Hn.
    destruct (JS.split sep s) as [|p ps]; [congruence|].
    destruct ps as [|q ps]; simpl in *; congruence.
Qed.

Lemma split_sep_free sep s :
  Forall (fun l => ~ InStr sep l) (JS.split sep s).
Proof.
  induction s as [|c s IH]; simpl.
  - constructor; [unfold InStr; simpl; tauto | constructor].
  - destruct (Ascii.eqb_spec c sep) as [->|Hne].
    + constructor; [unfold InStr; simpl; tauto | exact IH].
    + destruct (JS.split sep s) as [|p ps].
      * constructor; [|constructor]. rewrite InStr_cons.
        unfold InStr; simpl; tauto.
      * inversion IH; subst. constructor; auto.
        rewrite InStr_cons; tauto.
Qed.

Lemma split_no_sep sep l : ~ InStr sep l -> JS.split sep l = [l].
Proof.
  induction l as [|c l IH]; intros H; [reflexivity|].
  rewrite InStr_cons in H. simpl.
  destruct (Ascii.eqb_spec c sep) as [->|Hne]; [tauto|].
  rewrite IH by tauto. reflexivity.
Qed.

Lemma split_app sep l t :
  ~ InStr sep l -> JS.split sep (l ++ String sep t) = l :: JS.split sep t.
Proof.
  induction l as [|c l IH]; intros H; simpl.
  - now rewrite Ascii.eqb_refl.
  - rewrite InStr_cons in H.
    destruct (Ascii.eqb_spec c sep) as [->|Hne]; [tauto|].
    rewrite IH by tauto. reflexivity.
Qed.

Lemma split_join sep ls :
  ls <> [] -> Forall (fun l => ~ InStr sep l) ls ->
  JS.split sep (join sep ls) = ls.
Proof.
  induction ls as [|l ls IH]; intros Hn Hf; [congruence|].
  inversion Hf as [|? ? Hl Hls]; subst.
  destruct ls as [|l2 ls].
  - simpl. now apply split_no_sep.
  - rewrite join_cons by discriminate.
    rewrite split_app by assumption. f_equal. apply IH; [discriminate|auto].
Qed.

Lemma labelsOf_split host labels :
  BaseSpec.labelsOf host labels <-> labels = JS.split "." host.
Proof.
  unfold BaseSpec.labelsOf; split.
  - intros (Hn & -> & Hf). symmetry. now apply split_join.
  - intros ->. split; [apply split_not_nil|].
    split; [symmetry; apply join_split | apply split_sep_free].
Qed.

(** The last character of a string. *)
Lemma get_last s c :
  String.get (String.length s - 1) s = Some c /\ s <> ""
  <-> exists t, s = t ++ String c "".
Proof.
  induction s as [|d s IH].
  - split; [intros [_ H]; congruence|]. intros [[|? ?] H]; discriminate.
  - destruct s as [|e s].
    + simpl. split.
      * intros [H _]. exists "". simpl. congruence.
      * intros [[|x [|y t]] H]; simpl in H; inversion H; subst;
          split; congruence.
    + replace (String.length (String d (String e s)) - 1)%nat
        with (S (String.length (String e s) - 1)) by (simpl; lia).
      simpl String.get at 1.
      assert (Hne : String e s <> "") by discriminate.
      split.
      * intros [H _]. destruct (proj1 IH (conj H Hne)) as [t Ht].
        exists (String d t). simpl. now rewrite <- Ht.
      * intros [[|x t] H]; simpl in H; inversion H; subst.
        split; [|discriminate]. apply IH. now exists t.
Qed.

Lemma allChars_In f s :
  UrlParser.allChars f s = true <-> forall c, InStr c s -> f c = true.
Proof.
  induction s as [|d s IH]; simpl.
  - split; [intros _ c []|reflexivity].
  - rewrite andb_true_iff, IH. split.
    + intros [Hd Hs] c Hc. apply InStr_cons in Hc as [<-|Hc]; auto.
    + intros H. split; [apply H | intros c Hc; apply H];
        rewrite InStr_cons; auto.
Qed.

Lemma testBaseRe_spec s :
  UrlParser.testBaseRe s = true
  <-> s <> "" /\ forall c, InStr c s -> UrlParser.isBaseChar c = true.
Proof.
  unfold UrlParser.testBaseRe.
  rewrite andb_true_iff, negb_true_iff, allChars_In.
  destruct (String.eqb_spec s ""); split; intros [H1 H2]; split;
    auto; congruence.
Qed.

Lemma first_char_not s c :
  JS.charIsNot (JS.charAt s 0) c = true <-> forall t, s <> String c t.
Proof.
  unfold JS.charIsNot, JS.charIs, JS.charAt. simpl.
  destruct s as [|d s]; simpl.
  - split; [discriminate | auto].
  - rewrite negb_true_iff. destruct (Ascii.eqb_spec d c) as [->|Hne].
    + split; [discriminate|]. intros H. now elim (H s).
    + split; auto. intros _ t E. congruence.
Qed.

Lemma last_char_not s c :
  JS.charIsNot (JS.charAt s (JS.len s - 1)) c = true
  <-> forall t, s <> t ++ String c "".
Proof.
  unfold JS.charIsNot, JS.charIs, JS.charAt, JS.len.
  destruct s as [|d s].
  - simpl. split; [|auto]. intros _ [|? ?]; discriminate.
  - assert (Hlt : (Z.of_nat (String.length (String d s)) - 1 <? 0) = false)
      by (apply Z.ltb_ge; simpl String.length; lia).
    rewrite Hlt.
    replace (Z.to_nat (Z.of_nat (String.length (String d s)) - 1))
      with (String.length (String d s) - 1)%nat by lia.
    pose proof (get_last (String d s)) as G.
    destruct (String.get (String.length (String d s) - 1) (String d s))
      as [e|] eqn:E.
    + rewrite negb_true_iff. destruct (Ascii.eqb_spec e c) as [->|Hne].
      * split; [discriminate|]. intros H. exfalso.
        destruct (proj1 (G c)) as [t Ht]; [split; [auto|discriminate]|].
        now elim (H t).
      * split; auto. intros _ t Ht.
        destruct (proj2 (G c)) as [Hc _]; [now exists t|]. congruence.
    + split; auto. intros _ t Ht.
      destruct (proj2 (G c)) as [Hc _]; [now exists t|]. congruence.
Qed.

Lemma partOk_spec l : UrlParser.partOk l = true <-> BaseSpec.labelOk l.
Proof.
  unfold UrlParser.partOk, BaseSpec.labelOk.
  rewrite !andb_true_iff, testBaseRe_spec, first_char_not, last_char_not.
  tauto.
Qed.

Lemma forallb_partOk ls :
  forallb UrlParser.partOk ls = true <-> Forall BaseSpec.labelOk ls.
Proof.
  rewrite forallb_forall, Forall_forall.
  split; intros H l Hl; apply partOk_spec, H, Hl.
Qed.

Lemma validateHost_spec b n :
  (n <= String.length b)%nat ->
  UrlParser.validateHost b (Z.of_nat n) = true
  <-> Forall BaseSpec.labelOk (JS.split "." (JS.take n b))
      /\ (String.length b < 254)%nat.
Proof.
  intros Hn. unfold UrlParser.validateHost.
  rewrite substring_prefix by assumption.
  rewrite <- forallb_partOk.
  destruct (forallb UrlParser.partOk (JS.split "." (JS.take n b))); simpl.
  - unfold JS.len. rewrite Z.ltb_lt. split; [intros; split; auto; lia|].
    intros [_ H]; lia.
  - split; [discriminate | intros [H _]; discriminate].
Qed.

Lemma hostPort_no_colon b host port :
  ~ InStr ":" b ->
  BaseSpec.hostPort b host port <-> host = b /\ port = None.
Proof.
  intros Hb. split.
  - intros [H | h p E Hh]; [auto|]. exfalso. apply Hb. rewrite E.
    rewrite InStr_app. right. simpl. rewrite InStr_cons. now left.
  - intros [-> ->]. now constructor.
Qed.

Lemma hostPort_colon h t host port :
  ~ InStr ":" h ->
  BaseSpec.hostPort (h ++ String ":" t) host port
  <-> host = h /\ port = Some t.
Proof.
  intros Hh. split.
  - intros [H | h' p E Hh'].
    + exfalso. apply H. rewrite InStr_app, InStr_cons. tauto.
    + simpl in E. apply first_sep_unique in E as [-> ->]; auto.
  - intros [-> ->]. now constructor.
Qed.

(** *** The port text and [parseInt] *)

Lemma trimStart_split s :
  exists ws,
    s = ws ++ JS.trimStart s
    /\ forall c, InStr c ws -> JS.isWhite c = true.
Proof.
  induction s as [|a s (ws & E & H)].
  - exists "". split; [reflexivity|]. intros c [].
  - cbn [JS.trimStart]. destruct (JS.isWhite a) eqn:W.
    + exists (String a ws). split.
      * cbn [append]. now rewrite <- E.
      * intros c Hc. apply InStr_cons in Hc as [<-|Hc]; auto.
    + exists "". split; [reflexivity|]. intros c [].
Qed.

Lemma trimStart_app ws x :
  (forall c, InStr c ws -> JS.isWhite c = true) ->
  (forall c t, x = String c t -> JS.isWhite c = false) ->
  JS.trimStart (ws ++ x) = x.
Proof.
  intros Hws Hx. induction ws as [|a ws IH].
  - destruct x as [|c t]; [reflexivity|].
    cbn [append JS.trimStart]. now rewrite (Hx c t eq_refl).
  - cbn [append JS.trimStart].
    rewrite (Hws a) by (apply InStr_cons; now left).
    apply IH. intros c Hc. apply Hws, InStr_cons. now right.
Qed.

(** The characters that have a value as digits are letters and decimal
    digits: none is white space or a sign. *)
Lemma digitValue_char radix c v :
  JS.digitValue radix c = Some v ->
  0 <= v /\ JS.isWhite c = false
  /\ c <> "-"%char /\ c <> "+"%char.
Proof.
  intros H.
  assert (A : JS.isAlnum c = true /\ 0 <= v).
  { revert H. unfold JS.digitValue, JS.isAlnum, JS.isDigit,
      JS.isLowerAlpha, JS.isUpperAlpha, JS.between.
    destruct (Nat.leb_spec 48 (nat_of_ascii c));
      destruct (Nat.leb_spec (nat_of_ascii c) 57);
      destruct (Nat.leb_spec 97 (nat_of_ascii c));
      destruct (Nat.leb_spec (nat_of_ascii c) 122);
      destruct (Nat.leb_spec 65 (nat_of_ascii c));
      destruct (Nat.leb_spec (nat_of_ascii c) 90);
      cbn [andb orb]; try lia;
      destruct (Z.ltb_spec (Z.of_nat (nat_of_ascii c) - 48) radix);
      destruct (Z.ltb_spec (Z.of_nat (nat_of_ascii c) - 97 + 10) radix);
      destruct (Z.ltb_spec (Z.of_nat (nat_of_ascii c) - 65 + 10) radix);
      destruct (Z.ltb_spec radix radix);
      intros E; inversion E; subst; try (split; [reflexivity | lia]);
      lia. }
  destruct A as [A V]. split; [exact V|].
  clear H V. revert A.
  destruct c as [[] [] [] [] [] [] [] []]; vm_compute; intros A;
    try discriminate A; repeat split; discriminate.
Qed.

Lemma digits_horner radix ds :
  forall acc n rest,
    BaseSpec.horner radix acc ds = Some n -> BaseSpec.noDigit radix rest ->
    JS.digits radix (Some acc) (ds ++ rest) = Some n.
Proof.
  induction ds as [|c ds IH]; intros acc n rest H Hr.
  - cbn in H. inversion H; subst. cbn [append].
    destruct rest as [|d t]; [reflexivity|].
    cbn [JS.digits]. now rewrite (Hr d t eq_refl).
  - cbn [BaseSpec.horner] in H. cbn [append JS.digits].
    destruct (JS.digitValue radix c) as [v|]; [|discriminate].
    now apply IH.
Qed.

Lemma digits_numeral radix ds n rest :
  BaseSpec.numeral radix ds n -> BaseSpec.noDigit radix rest ->
  JS.digits radix None (ds ++ rest) = Some n.
Proof.
  intros [Hne H] Hr. destruct ds as [|c ds]; [congruence|].
  cbn [BaseSpec.horner] in H. cbn [append JS.digits].
  destruct (JS.digitValue radix c) as [v|]; [|discriminate].
  change (0 * radix + v) with v in H. now apply digits_horner.
Qed.

Lemma digits_split radix s :
  forall acc n,
    JS.digits radix (Some acc) s = Some n ->
    exists ds rest,
      s = ds ++ rest /\ BaseSpec.horner radix acc ds = Some n
      /\ BaseSpec.noDigit radix rest.
Proof.
  induction s as [|c s IH]; intros acc n H.
  - exists "", "". repeat split; auto. intros c t E. discriminate.
  - cbn [JS.digits] in H.
    destruct (JS.digitValue radix c) as [v|] eqn:D.
    + destruct (IH _ _ H) as (ds & rest & -> & Hh & Hr).
      exists (String c ds), rest. repeat split; auto.
      cbn [BaseSpec.horner]. now rewrite D.
    + exists "", (String c s). repeat split; auto.
      intros d t E. inversion E; subst. exact D.
Qed.

Lemma digits_numeral_split radix s n :
  JS.digits radix None s = Some n ->
  exists ds rest,
    s = ds ++ rest /\ BaseSpec.numeral radix ds n
    /\ BaseSpec.noDigit radix rest.
Proof.
  destruct s as [|c s]; [discriminate|]. cbn [JS.digits].
  destruct (JS.digitValue radix c) as [v|] eqn:D; [|discriminate].
  intros H. destruct (digits_split radix s v n H) as (ds & rest & -> & Hh & Hr).
  exists (String c ds), rest. repeat split; auto; [discriminate|].
  cbn [BaseSpec.horner]. rewrite D. exact Hh.
Qed.

Lemma horner_nonneg radix ds :
  forall acc n,
    0 <= radix -> 0 <= acc -> BaseSpec.horner radix acc ds = Some n ->
    0 <= n.
Proof.
  induction ds as [|c ds IH]; intros acc n Hr Ha H.
  - cbn in H. inversion H; subst. exact Ha.
  - cbn [BaseSpec.horner] in H.
    destruct (JS.digitValue radix c) as [v|] eqn:D; [|discriminate].
    apply (IH _ _ Hr) in H; [exact H|].
    destruct (digitValue_char _ _ _ D) as [Hv _]. nia.
Qed.

(** The sign and the radix [parseInt] takes from the text. *)
Lemma parseInt_sign_none (s : string) :
  (forall t, s <> String "-" t) -> (forall t, s <> String "+" t) ->
  match s with
  | String "-" t => (-1, t)
  | String "+" t => (1, t)
  | _ => (1, s)
  end = (1, s).
Proof.
  intros Hm Hp. destruct s as [|a t]; [reflexivity|].
  destruct a as [[] [] [] [] [] [] [] []]; try reflexivity;
    exfalso; first [now eapply Hp | now eapply Hm].
Qed.

Lemma parseInt_radix_ten (s : string) :
  (forall t, s <> String "0" (String "x" t)) ->
  (forall t, s <> String "0" (String "X" t)) ->
  match s with
  | String "0" (String "x" t) => (16, t)
  | String "0" (String "X" t) => (16, t)
  | _ => (10, s)
  end = (10, s).
Proof.
  intros Hx HX. destruct s as [|a t]; [reflexivity|].
  destruct a as [[] [] [] [] [] [] [] []]; try reflexivity.
  destruct t as [|b t]; [reflexivity|].
  destruct b as [[] [] [] [] [] [] [] []]; try reflexivity;
    exfalso;
    first [now eapply Hx | now eapply HX].
Qed.

Lemma parseInt_sign (s : string) :
  exists sign s2 sg,
    match s with
    | String "-" t => (-1, t)
    | String "+" t => (1, t)
    | _ => (1, s)
    end = (sign, s2)
    /\ s = sg ++ s2
    /\ ((sg = "-" /\ sign = -1) \/ ((sg = "+" \/ sg = "") /\ sign = 1)).
Proof.
  destruct s as [|a t].
  { exists 1, "", "". repeat split; auto. }
  destruct (Ascii.eqb_spec a "-") as [->|Hm].
  { exists (-1), t, "-". repeat split; auto. }
  destruct (Ascii.eqb_spec a "+") as [->|Hp].
  { exists 1, t, "+". repeat split; auto. }
  exists 1, (String a t), "". split; [|auto].
  refine (parseInt_sign_none (String a t) _ _);
    intros t' E; inversion E; congruence.
Qed.

Lemma parseInt_radix (s : string) :
  exists radix s3 pre,
    match s with
    | String "0" (String "x" t) => (16, t)
    | String "0" (String "X" t) => (16, t)
    | _ => (10, s)
    end = (radix, s3)
    /\ s = pre ++ s3
    /\ ((pre = "" /\ radix = 10)
        \/ ((pre = "0x" \/ pre = "0X") /\ radix = 16)).
Proof.
  destruct s as [|a t].
  { exists 10, "", "". repeat split; auto. }
  destruct (Ascii.eqb_spec a "0") as [->|H0].
  - destruct t as [|b t].
    { exists 10, "0", "". repeat split; auto. }
    destruct (Ascii.eqb_spec b "x") as [->|Hx].
    { exists 16, t, "0x". repeat split; auto. }
    destruct (Ascii.eqb_spec b "X") as [->|HX].
    { exists 16, t, "0X". repeat split; auto. }
    exists 10, (String "0" (String b t)), "". split; [|auto].
    refine (parseInt_radix_ten (String "0" (String b t)) _ _);
      intros t' E; inversion E; congruence.
  - exists 10, (String a t), "". split; [|auto].
    refine (parseInt_radix_ten (String a t) _ _);
      intros t' E; inversion E; congruence.
Qed.

(** A decimal number that is not zero does not start with [0x]. *)
Lemma numeral_not_hex ds rest n :
  BaseSpec.numeral 10 ds n -> 1 <= n ->
  (forall t, ds ++ rest <> String "0" (String "x" t))
  /\ (forall t, ds ++ rest <> String "0" (String "X" t)).
Proof.
  intros [Hne H] Hn.
  destruct ds as [|c ds]; [congruence|].
  assert (A : c = "0"%char ->
              forall b t, ds ++ rest = String b t ->
                          JS.digitValue 10 b = None -> False).
  { intros -> b t E D. destruct ds as [|d ds].
    - cbn in H. inversion H. lia.
    - cbn [append] in E. inversion E; subst.
      cbn [BaseSpec.horner] in H.
      change (JS.digitValue 10 "0") with (Some 0) in H. cbv iota in H.
      cbn [BaseSpec.horner] in H. now rewrite D in H. }
  split; intros t E; cbn [append] in E; inversion E as [[Ec Et]];
    eapply (A Ec); eauto.
Qed.

Lemma parseInt_portRead ws sign pre ds rest n :
  (forall c, InStr c ws -> JS.isWhite c = true) ->
  sign = "" \/ sign = "+" ->
  (pre = "" /\ BaseSpec.numeral 10 ds n /\ BaseSpec.noDigit 10 rest)
  \/ ((pre = "0x" \/ pre = "0X")
      /\ BaseSpec.numeral 16 ds n /\ BaseSpec.noDigit 16 rest) ->
  1 <= n ->
  JS.parseInt (ws ++ sign ++ pre ++ ds ++ rest) = Some n.
Proof.
  intros Hws Hsign Hpre Hn.
  assert (Hds : exists c ds' r v,
             ds = String c ds' /\ JS.digitValue r c = Some v).
  { destruct Hpre as [(_ & (Hne & H) & _)|(_ & (Hne & H) & _)];
      (destruct ds as [|c ds']; [congruence|]);
      cbn [BaseSpec.horner] in H;
      [destruct (JS.digitValue 10 c) as [v|] eqn:D
      |destruct (JS.digitValue 16 c) as [v|] eqn:D];
      try discriminate; eauto 6. }
  destruct Hds as (c & ds' & r & v & Eds & D).
  destruct (digitValue_char _ _ _ D) as (_ & Hw & Hm & Hp).
  assert (Hbody : forall t, pre ++ ds ++ rest <> String "-" t
                            /\ pre ++ ds ++ rest <> String "+" t).
  { intros t. subst ds.
    destruct Hpre as [(-> & _)|([->| ->] & _)]; cbn [append];
      split; intros E; inversion E; congruence. }
  assert (Hradix :
            match pre ++ ds ++ rest with
            | String "0" (String "x" t) => (16, t)
            | String "0" (String "X" t) => (16, t)
            | _ => (10, pre ++ ds ++ rest)
            end
            = (if String.eqb pre "" then 10 else 16, ds ++ rest)).
  { destruct Hpre as [(-> & Hnum & _)|([->| ->] & _)];
      [|reflexivity|reflexivity].
    cbn [append]. change (String.eqb "" "") with true. cbv iota.
    destruct (numeral_not_hex ds rest n Hnum Hn) as [Hx HX].
    now apply parseInt_radix_ten. }
  assert (Hdig :
            JS.digits (if String.eqb pre "" then 10 else 16) None
              (ds ++ rest) = Some n).
  { destruct Hpre as [(-> & Hnum & Hr)|([->| ->] & Hnum & Hr)];
      now apply digits_numeral. }
  unfold JS.parseInt. rewrite trimStart_app; auto.
  - destruct Hsign as [->| ->]; cbn [append].
    + rewrite parseInt_sign_none by (intros t; apply Hbody).
      rewrite Hradix, Hdig. cbn [option_map]. f_equal. lia.
    + rewrite Hradix, Hdig. cbn [option_map]. f_equal. lia.
  - intros a t E. destruct Hsign as [->| ->]; cbn [append] in E.
    + subst ds.
      destruct Hpre as [(-> & _)|([->| ->] & _)]; cbn [append] in E;
        inversion E; subst; auto.
    + inversion E; subst. reflexivity.
Qed.

Lemma parseInt_split p n :
  JS.parseInt p = Some n -> 1 <= n ->
  exists ws sign pre ds rest,
    p = ws ++ sign ++ pre ++ ds ++ rest
    /\ (forall c, InStr c ws -> JS.isWhite c = true)
    /\ (sign = "" \/ sign = "+")
    /\ ((pre = "" /\ BaseSpec.numeral 10 ds n /\ BaseSpec.noDigit 10 rest)
        \/ ((pre = "0x" \/ pre = "0X")
            /\ BaseSpec.numeral 16 ds n /\ BaseSpec.noDigit 16 rest)).
Proof.
  intros H Hn. unfold JS.parseInt in H.
  destruct (trimStart_split p) as (ws & Ep & Hws).
  destruct (parseInt_sign (JS.trimStart p))
    as (sign & s2 & sg & E1 & Es1 & Hsg).
  rewrite E1 in H.
  destruct (parseInt_radix s2) as (radix & s3 & pre & E2 & Es2 & Hpre).
  rewrite E2 in H.
  destruct (JS.digits radix None s3) as [m|] eqn:Dg; [|discriminate].
  cbn [option_map] in H. inversion H as [Hm]. clear H.
  destruct (digits_numeral_split _ _ _ Dg) as (ds & rest & -> & Hnum & Hr).
  assert (Hpos : 0 <= m).
  { destruct Hnum as [_ Hh]. apply (horner_nonneg radix ds 0 m); auto; [|lia].
    destruct Hpre as [(_ & ->)|(_ & ->)]; lia. }
  destruct Hsg as [(-> & ->)|(Hsg & ->)]; [lia|].
  rewrite Z.mul_1_l in *.
  exists ws, sg, pre, ds, rest.
  split; [now rewrite <- Es2, <- Es1|]. split; [exact Hws|].
  split; [tauto|].
  destruct Hpre as [(-> & ->)|(Hp & ->)]; [left | right]; auto.
Qed.

(** The port texts let through are those [parseInt] reads as a number
    in the range. *)
Lemma portRead_spec p :
  BaseSpec.portRead p
  <-> match JS.parseInt p with
      | Some n => ((n <? 1) || (n >=? 2 ^ 16))%bool = false
      | None => False
      end.
Proof.
  split.
  - intros (ws & sign & pre & ds & rest & n & -> & Hws & Hs & Hp & Hn).
    rewrite (parseInt_portRead ws sign pre ds rest n Hws Hs Hp)
      by lia.
    rewrite orb_false_iff, Z.ltb_ge, Z.geb_leb, Z.leb_gt.
    change (2 ^ 16) with 65536. lia.
  - destruct (JS.parseInt p) as [n|] eqn:E; [|tauto].
    rewrite orb_false_iff, Z.ltb_ge, Z.geb_leb, Z.leb_gt.
    change (2 ^ 16) with 65536. intros Hn.
    destruct (parseInt_split p n E) as (ws & sign & pre & ds & rest & H);
      [lia|].
    destruct H as (Ep & Hws & Hs & Hp).
    exists ws, sign, pre, ds, rest, n. repeat split; auto; lia.
Qed.

(** [validateBase] accepts the bases described as let through. *)
Lemma validateBase_iff (b : string) :
  UrlParser.validateBase b = true <-> BaseSpec.passes b.
Proof.
  unfold UrlParser.validateBase, BaseSpec.passes.
  destruct (Z.eqb_spec (JS.indexOf b ":") (-1)) as [E|E].
  - apply indexOf_char_none in E.
    unfold JS.len. rewrite validateHost_spec by lia.
    rewrite take_all by lia. split.
    + intros [Hl Hb]. exists b, None, (JS.split "." b).
      repeat split; auto.
      * now constructor.
      * apply split_not_nil.
      * symmetry; apply join_split.
      * apply split_sep_free.
      * discriminate.
    + intros (host & port & labels & Hhp & Hls & Hok & _ & Hlen).
      apply hostPort_no_colon in Hhp as [-> ->]; auto.
      apply labelsOf_split in Hls as ->. auto.
  - destruct (indexOf_char_split ":" b E) as (h & t & -> & Hh & ->).
    unfold JS.len at 1 2.
    replace (Z.of_nat (String.length h) + 1)
      with (Z.of_nat (String.length h + 1)) by lia.
    rewrite substringFrom_drop by (rewrite length_app; simpl; lia).
    replace (String.length h + 1)%nat
      with (String.length (h ++ ":")) by (rewrite length_app; reflexivity).
    replace (h ++ String ":" t) with ((h ++ ":") ++ t)
      by (rewrite app_assoc; reflexivity).
    rewrite drop_app_length.
    replace ((h ++ ":") ++ t) with (h ++ String ":" t)
      by (rewrite app_assoc; reflexivity).
    pose proof (portRead_spec t) as P.
    assert (V : UrlParser.validateHost (h ++ String ":" t)
                  (Z.of_nat (String.length h)) = true
                <-> Forall BaseSpec.labelOk (JS.split "." h)
                    /\ (String.length (h ++ String ":" t) < 254)%nat).
    { rewrite validateHost_spec by (rewrite length_app; lia).
      now rewrite take_app_length. }
    split.
    + intros H. destruct (JS.parseInt t) as [n|]; [|discriminate].
      destruct ((n <? 1) || (n >=? 2 ^ 16))%bool eqn:R; [discriminate|].
      apply V in H as [Hl Hb].
      exists h, (Some t), (JS.split "." h). repeat split; auto.
      * now constructor.
      * apply split_not_nil.
      * symmetry; apply join_split.
      * apply split_sep_free.
      * intros p Hp. inversion Hp; subst. apply P. reflexivity.
    + intros (host & port & labels & Hhp & Hls & Hok & Hp & Hlen).
      apply hostPort_colon in Hhp as [-> ->]; auto.
      apply labelsOf_split in Hls as ->.
      specialize (Hp t eq_refl). apply P in Hp.
      destruct (JS.parseInt t) as [n|]; [|contradiction].
      rewrite Hp. apply V. auto.
Qed.

(** [find] with any pattern: the first occurrence. *)
Lemma prefix_app p s : String.prefix p s = true <-> exists t, s = p ++ t.
Proof.
  revert s; induction p as [|c p IH]; intros s; simpl.
  - split; [intros _; now exists s | intros _; now destruct s].
  - destruct s as [|d s].
    + split; [discriminate | intros [t H]; discriminate].
    + simpl. destruct (ascii_dec c d) as [->|Hne].
      * rewrite IH. split; intros [t H]; exists t; congruence.
      * split; [discriminate | intros [t H]; congruence].
Qed.

Lemma find_nil pat :
  JS.find pat "" = if String.prefix pat "" then Some O else None.
Proof. reflexivity. Qed.

Lemma find_cons pat c s :
  JS.find pat (String c s)
  = if String.prefix pat (String c s) then Some O
    else option_map S (JS.find pat s).
Proof. reflexivity. Qed.

Lemma find_spec pat s :
  match JS.find pat s with
  | Some n =>
      exists h t, s = h ++ pat ++ t /\ String.length h = n
                  /\ forall h' t', s = h' ++ pat ++ t' ->
                                   (n <= String.length h')%nat
  | None => forall h t, s <> h ++ pat ++ t
  end.
Proof.
  induction s as [|c s IH].
  - rewrite find_nil. destruct (String.prefix pat "") eqn:P.
    + apply (proj1 (prefix_app _ _)) in P as [t Ht]. exists "", t. simpl.
      repeat split; auto. intros; lia.
    + intros h t E. destruct h; simpl in E.
      * assert (String.prefix pat "" = true) by (apply prefix_app; eauto).
        congruence.
      * discriminate.
  - rewrite find_cons. destruct (String.prefix pat (String c s)) eqn:P.
    + apply (proj1 (prefix_app _ _)) in P as [t Ht]. exists "", t. simpl.
      repeat split; auto. intros; lia.
    + assert (Hnp : forall t', String c s <> pat ++ t').
      { intros t' E.
        assert (String.prefix pat (String c s) = true)
          by (apply prefix_app; eauto). congruence. }
      destruct (JS.find pat s) as [n|]; simpl.
      * destruct IH as (h & t & -> & <- & Hmin).
        exists (String c h), t. repeat split; auto.
        intros [|d h'] t' E; simpl in E.
        -- now elim (Hnp t').
        -- inversion E as [[E1 E2]]. apply Hmin in E2. simpl. lia.
      * intros [|d h] t E; simpl in E.
        -- now elim (Hnp t).
        -- inversion E as [[E1 E2]]. now elim (IH h t).
Qed.

Ltac each_char c :=
  destruct c as [[] [] [] [] [] [] [] []]; vm_compute; reflexivity.

Lemma lowerChar_slash_eqb c :
  Ascii.eqb (JS.lowerChar c) "/" = Ascii.eqb c "/".
Proof. each_char c. Qed.

Lemma lowerChar_colon_eqb c :
  Ascii.eqb (JS.lowerChar c) ":" = Ascii.eqb c ":".
Proof. each_char c. Qed.

Lemma lowerChar_slash c : JS.lowerChar c = "/"%char <-> c = "/"%char.
Proof. rewrite <- !Ascii.eqb_eq. now rewrite lowerChar_slash_eqb. Qed.

Lemma lowerChar_colon c : JS.lowerChar c = ":"%char <-> c = ":"%char.
Proof. rewrite <- !Ascii.eqb_eq. now rewrite lowerChar_colon_eqb. Qed.

Lemma toLowerCase_app s t :
  JS.toLowerCase (s ++ t) = JS.toLowerCase s ++ JS.toLowerCase t.
Proof. induction s; simpl; congruence. Qed.

Lemma toLowerCase_length s :
  String.length (JS.toLowerCase s) = String.length s.
Proof. induction s; simpl; congruence. Qed.

Lemma toLowerCase_before_slash s :
  JS.toLowerCase (before "/" s) = before "/" (JS.toLowerCase s).
Proof.
  induction s as [|c s IH]; simpl; auto.
  destruct (Ascii.eqb_spec c "/") as [->|Hne]; [reflexivity|].
  destruct (Ascii.eqb_spec (JS.lowerChar c) "/") as [E|_].
  - apply (proj1 (lowerChar_slash _)) in E. congruence.
  - simpl. congruence.
Qed.

Lemma before_no_char c s : ~ InStr c (before c s).
Proof.
  induction s as [|d s IH]; simpl; [unfold InStr; simpl; tauto|].
  destruct (Ascii.eqb_spec d c) as [->|Hne]; [unfold InStr; simpl; tauto|].
  rewrite InStr_cons. tauto.
Qed.

Lemma before_none c s : ~ InStr c s -> before c s = s.
Proof.
  induction s as [|d s IH]; simpl; auto. rewrite InStr_cons.
  destruct (Ascii.eqb_spec d c) as [->|Hne]; [tauto|].
  intros H. rewrite IH; tauto.
Qed.

Lemma before_app c h t : ~ InStr c h -> before c (h ++ String c t) = h.
Proof.
  induction h as [|d h IH]; simpl.
  - now rewrite Ascii.eqb_refl.
  - rewrite InStr_cons. destruct (Ascii.eqb_spec d c) as [->|Hne]; [tauto|].
    intros H. rewrite IH; tauto.
Qed.

(** The prefix that [substring(0, indexOf(c))] cuts, with the whole string
    taken when [c] does not occur. *)
Lemma before_indexOf c s :
  before c s
  = JS.substring s 0 (if JS.indexOf s (String c "") =? -1 then JS.len s
                      else JS.indexOf s (String c "")).
Proof.
  destruct (Z.eqb_spec (JS.indexOf s (String c "")) (-1)) as [E|E].
  - rewrite substring_whole. apply before_none. now apply indexOf_char_none.
  - destruct (indexOf_char_split c s E) as (h & t & -> & Hh & ->).
    unfold JS.len. rewrite substring_prefix by (rewrite length_app; lia).
    rewrite take_app_length. now apply before_app.
Qed.

(** ** The parser read through the first separator *)

Lemma find_firstSplit url s r :
  ParseSpec.firstSplit url s r ->
  JS.find "://" url = Some (String.length s).
Proof.
  intros [E Hmin]. pose proof (find_spec "://" url) as F.
  destruct (JS.find "://" url) as [n|].
  - destruct F as (h & t & Eh & <- & Hm).
    specialize (Hmin _ _ Eh). specialize (Hm _ _ E). f_equal. lia.
  - now elim (F s r).
Qed.

Lemma find_noSeparator url :
  JS.find "://" url = None <-> ParseSpec.noSeparator url.
Proof.
  pose proof (find_spec "://" url) as F. unfold ParseSpec.noSeparator.
  destruct (JS.find "://" url) as [n|].
  - split; [discriminate|]. intros H.
    destruct F as (h & t & Eh & _). now elim (H h t).
  - tauto.
Qed.

Lemma firstSplit_exists url :
  ~ ParseSpec.noSeparator url -> exists s r, ParseSpec.firstSplit url s r.
Proof.
  rewrite <- find_noSeparator. pose proof (find_spec "://" url) as F.
  destruct (JS.find "://" url) as [n|]; [|congruence].
  intros _. destruct F as (h & t & Eh & <- & Hm).
  exists h, t. split; auto.
Qed.

Lemma firstSplit_separator url s r :
  ParseSpec.firstSplit url s r -> ~ ParseSpec.noSeparator url.
Proof. intros [E _] H. now elim (H s r). Qed.

Lemma get_app_length p r k :
  String.get (String.length p + k) (p ++ r) = String.get k r.
Proof. induction p; simpl; auto. Qed.

Lemma drop_drop n m s : JS.drop n (JS.drop m s) = JS.drop (m + n) s.
Proof.
  revert s; induction m as [|m IH]; intros s; simpl; auto.
  destruct s; simpl; auto. now destruct n.
Qed.

Lemma before_take c s :
  JS.indexOf s (String c "") <> -1 ->
  JS.take (Z.to_nat (JS.indexOf s (String c ""))) s = before c s.
Proof.
  intros E. destruct (indexOf_char_split c s E) as (h & t & -> & Hh & ->).
  unfold JS.len. rewrite Nat2Z.id, take_app_length.
  symmetry. now apply before_app.
Qed.

Lemma fromFirst_drop c s :
  fromFirst c s
  = if JS.indexOf s (String c "") =? -1 then None
    else Some (JS.drop (Z.to_nat (JS.indexOf s (String c ""))) s).
Proof.
  unfold JS.indexOf. induction s as [|d s IH]; [reflexivity|].
  rewrite find_char_cons. cbn [fromFirst].
  rewrite Ascii.eqb_sym.
  destruct (Ascii.eqb c d); [reflexivity|].
  rewrite IH. destruct (JS.find (String c "") s) as [n|]; simpl; auto.
  destruct (Z.eqb_spec (Z.of_nat n) (-1)); [lia|].
  destruct (Z.eqb_spec (Z.pos (Pos.of_succ_nat n)) (-1)); [lia|].
  rewrite Nat2Z.id. rewrite SuccNat2Pos.id_succ. reflexivity.
Qed.

Lemma string_empty_length s : String.length s = O <-> s = "".
Proof. destruct s; simpl; split; congruence. Qed.

(** What [getUrlParts] computes for a url cut at its first separator. *)
Lemma getUrlParts_split url s r :
  ParseSpec.firstSplit url s r ->
  UrlParser.getUrlParts url
  = if (String.eqb s "" || String.eqb r ""
        || JS.charIs (JS.charAt r 0) "/")%bool
    then UrlParser.setUrlSyntaxError (ParsedView.blank url)
    else if UrlParser.validateBase (JS.toLowerCase (before "/" r))
         then ParsedView.parsed s r
         else UrlParser.setUrlSyntaxError (ParsedView.unchecked url s r).
Proof.
  intros Hs. pose proof (find_firstSplit _ _ _ Hs) as F.
  destruct Hs as [E _].
  assert (Hlen : String.length url
                 = (String.length s + 3 + String.length r)%nat).
  { rewrite E, !length_app. simpl. lia. }
  assert (Hd : JS.drop (String.length s + 3) url = r).
  { rewrite E. replace (s ++ "://" ++ r) with ((s ++ "://") ++ r)
      by (now rewrite app_assoc).
    replace (String.length s + 3)%nat with (String.length (s ++ "://"))
      by (rewrite length_app; reflexivity).
    apply drop_app_length. }
  assert (Hi : JS.indexOf url "://" = Z.of_nat (String.length s))
    by (unfold JS.indexOf; now rewrite F).
  assert (H0 : JS.indexOf url "://" + 3 = Z.of_nat (String.length s + 3))
    by lia.
  assert (Hsub : JS.substringFrom url (Z.of_nat (String.length s + 3)) = r)
    by (rewrite substringFrom_drop by lia; exact Hd).
  assert (Hsch : JS.substring url 0 (Z.of_nat (String.length s + 3) - 3) = s).
  { replace (Z.of_nat (String.length s + 3) - 3)
      with (Z.of_nat (String.length s)) by lia.
    rewrite substring_prefix by lia. rewrite E. apply take_app_length. }
  assert (Hc : JS.charAt url (Z.of_nat (String.length s + 3))
               = JS.charAt r 0).
  { unfold JS.charAt.
    replace (Z.of_nat (String.length s + 3) <? 0) with false
      by (symmetry; apply Z.ltb_ge; lia).
    simpl (0 <? 0). rewrite Nat2Z.id. simpl (Z.to_nat 0).
    rewrite E. replace (s ++ "://" ++ r) with ((s ++ "://") ++ r)
      by (now rewrite app_assoc).
    replace (String.length s + 3)%nat
      with (String.length (s ++ "://") + 0)%nat
      by (rewrite length_app; simpl; lia).
    now rewrite get_app_length. }
  assert (H2 : (Z.of_nat (String.length s + 3) =? 2) = false)
    by (apply Z.eqb_neq; lia).
  assert (H3 : (Z.of_nat (String.length s + 3) =? 3) = String.eqb s "").
  { destruct (String.eqb_spec s "") as [->|Hn]; [reflexivity|].
    apply Z.eqb_neq. rewrite <- string_empty_length in Hn. lia. }
  assert (H4 : (JS.len url =? Z.of_nat (String.length s + 3))
               = String.eqb r "").
  { unfold JS.len. rewrite Hlen.
    destruct (String.eqb_spec r "") as [->|Hn].
    - apply Z.eqb_eq. simpl. lia.
    - apply Z.eqb_neq. rewrite <- string_empty_length in Hn. lia. }
  set (ind1 := JS.indexOf r "/").
  assert (Hbase : (if ind1 =? -1 then JS.toLowerCase r
                   else JS.toLowerCase
                          (JS.substring url (Z.of_nat (String.length s + 3))
                             (Z.of_nat (String.length s + 3) + ind1)))
                  = JS.toLowerCase (before "/" r)).
  { subst ind1. destruct (Z.eqb_spec (JS.indexOf r "/") (-1)) as [N|N].
    - apply indexOf_char_none in N. now rewrite before_none.
    - f_equal. rewrite <- before_take by assumption.
      destruct (indexOf_char_split _ _ N) as (h & t & Er & Hh & Ei).
      rewrite Ei. unfold JS.len.
      rewrite substring_range.
      + rewrite !Nat2Z.id, Hd. f_equal. lia.
      + lia.
      + unfold JS.len. rewrite Hlen, Er, length_app. simpl. lia. }
  assert (Hrest : (if ind1 =? -1 then None
                   else Some (JS.substringFrom url
                                (Z.of_nat (String.length s + 3) + ind1)))
                  = fromFirst "/" r).
  { rewrite fromFirst_drop. fold ind1.
    destruct (Z.eqb_spec ind1 (-1)) as [N|N]; [reflexivity|]. f_equal.
    subst ind1.
    destruct (indexOf_char_split _ _ N) as (h & t & Er & Hh & Ei).
    rewrite Ei. unfold JS.len. rewrite <- Nat2Z.inj_add.
    rewrite substringFrom_drop
      by (rewrite Hlen, Er, length_app; simpl; lia).
    rewrite Nat2Z.id, <- drop_drop, Hd. reflexivity. }
  unfold UrlParser.getUrlParts. cbv zeta. fold (ParsedView.blank url).
  rewrite !H0, H2, H3, H4, Hc, Hsub, Hsch. fold ind1.
  rewrite Hbase, Hrest.
  simpl orb at 3.
  destruct (String.eqb s "" || String.eqb r ""
            || JS.charIs (JS.charAt r 0) "/")%bool; [reflexivity|].
  fold (ParsedView.unchecked url s r).
  destruct (UrlParser.validateBase (JS.toLowerCase (before "/" r)));
    [|reflexivity].
  simpl negb. cbv iota. unfold ParsedView.parsed.
  now rewrite <- before_indexOf.
Qed.

Lemma getUrlParts_noSeparator url :
  ParseSpec.noSeparator url ->
  UrlParser.getUrlParts url
  = UrlParser.setUrlSyntaxError (ParsedView.blank url).
Proof.
  intros H. apply find_noSeparator in H.
  unfold UrlParser.getUrlParts. cbv zeta.
  unfold JS.indexOf. rewrite H. reflexivity.
Qed.

Lemma firstSplit_unique url s r s' r' :
  ParseSpec.firstSplit url s r -> ParseSpec.firstSplit url s' r' ->
  s = s' /\ r = r'.
Proof.
  intros H H'. pose proof (find_firstSplit _ _ _ H) as F.
  pose proof (find_firstSplit _ _ _ H') as F'.
  rewrite F in F'. inversion F' as [L].
  destruct H as [E _], H' as [E' _].
  pose proof (take_app_length s ("://" ++ r)) as T.
  pose proof (drop_app_length s ("://" ++ r)) as D.
  rewrite <- E in T, D. rewrite L, E' in T, D.
  rewrite take_app_length in T. rewrite drop_app_length in D.
  split; [congruence|]. simpl in D. congruence.
Qed.

Lemma starts_with_char r c :
  JS.charIs (JS.charAt r 0) c = true <-> exists t, r = String c t.
Proof.
  unfold JS.charIs, JS.charAt. simpl. destruct r as [|d r]; simpl.
  - split; [discriminate | intros [t H]; discriminate].
  - rewrite Ascii.eqb_eq. split.
    + intros ->. now exists r.
    + intros [t H]. congruence.
Qed.

Lemma validateScheme_error p regex :
  UrlParser.error (UrlParser.validateScheme p regex)
  = if regex (JS.toStr (UrlParser.scheme p)) then UrlParser.error p
    else Some (mkErr "URL_SYNTAX" ("URL_SYNTAX: bad url " ++ UrlParser.url p)).
Proof.
  unfold UrlParser.validateScheme.
  now destruct (regex (JS.toStr (UrlParser.scheme p))).
Qed.

(** Every error the parser sets has the code [URL_SYNTAX]. *)
Lemma parse_error_code regex url e :
  UrlParser.error (UrlParser.parse regex url) = Some e ->
  code e = "URL_SYNTAX".
Proof.
  unfold UrlParser.parse. rewrite validateScheme_error.
  destruct (regex _); [|intros H; inversion H; reflexivity].
  unfold UrlParser.getUrlParts. cbv zeta.
  repeat match goal with
         | |- context [if ?b then _ else _] => destruct b
         end; simpl; intros H; inversion H; reflexivity.
Qed.

(** Success of the parser, for a url cut at its first separator. *)
Lemma parse_split_ok regex url s r :
  ParseSpec.firstSplit url s r ->
  UrlParser.error (UrlParser.parse regex url) = None
  <-> s <> "" /\ r <> "" /\ (forall t, r <> String "/" t)
      /\ UrlParser.validateBase (JS.toLowerCase (before "/" r)) = true
      /\ regex (JS.toLowerCase s) = true.
Proof.
  intros Hs. unfold UrlParser.parse.
  rewrite validateScheme_error, (getUrlParts_split _ _ _ Hs).
  destruct (String.eqb_spec s "") as [Es|Es]; simpl orb.
  { simpl. destruct (regex "null"); split; try discriminate; tauto. }
  destruct (String.eqb_spec r "") as [Er|Er]; simpl orb.
  { simpl. destruct (regex "null"); split; try discriminate; tauto. }
  destruct (JS.charIs (JS.charAt r 0) "/") eqn:Ec.
  { apply starts_with_char in Ec as [t Ht]. simpl.
    destruct (regex "null"); split; try discriminate;
      intros (_ & _ & H & _); now elim (H t). }
  assert (Hc : forall t, r <> String "/" t).
  { intros t Ht.
    assert (JS.charIs (JS.charAt r 0) "/" = true)
      by (apply starts_with_char; eauto). congruence. }
  destruct (UrlParser.validateBase (JS.toLowerCase (before "/" r))).
  - simpl. destruct (regex (JS.toLowerCase s)); split; try discriminate;
      intuition (auto; congruence).
  - simpl. destruct (regex (JS.toLowerCase s)); split; try discriminate;
      intros (_ & _ & _ & H & _); discriminate.
Qed.

(** Parsing fails, with code [URL_SYNTAX], exactly in the five ways of
    [ParseSpec.fails], for a scheme test that rejects the empty scheme. *)
Lemma parse_fails_iff (allowed : UrlParser.regexp) (url : string) :
  allowed "" = false ->
  ((exists e, UrlParser.error (UrlParser.parse allowed url) = Some e
              /\ code e = "URL_SYNTAX")
   <-> ParseSpec.fails allowed url)
  /\ (UrlParser.error (UrlParser.parse allowed url) = None
      <-> ~ ParseSpec.fails allowed url).
Proof.
  intros Hempty.
  assert (Hdec : UrlParser.error (UrlParser.parse allowed url) = None
                 <-> ~ ParseSpec.fails allowed url).
  { destruct (JS.find "://" url) as [n|] eqn:F.
    - assert (Hsep : ~ ParseSpec.noSeparator url)
        by (rewrite <- find_noSeparator; congruence).
      destruct (firstSplit_exists _ Hsep) as (s & r & Hs).
      rewrite (parse_split_ok _ _ _ _ Hs). split.
      + intros (Hs0 & Hr0 & Hsl & Hb & Ha) [Hno | (s' & r' & Hs' & Hf)];
          [tauto|].
        destruct (firstSplit_unique _ _ _ _ _ Hs Hs') as [<- <-].
        destruct Hf as [Hf|[[t Ht]|[Hf|Hv]]].
        * congruence.
        * now elim (Hsl t).
        * congruence.
        * apply Hv. now apply validateBase_iff.
      + intros Hnf.
        assert (Hs0 : s <> "").
        { intros ->. apply Hnf. right. exists "", r. split; auto. }
        assert (Hr0 : r <> "").
        { intros ->. apply Hnf. right. exists s, "". split; auto. }
        assert (Hsl : forall t, r <> String "/" t).
        { intros t ->. apply Hnf. right. exists s, (String "/" t).
          split; eauto. }
        repeat split; auto.
        * destruct (UrlParser.validateBase (JS.toLowerCase (before "/" r)))
            eqn:V; auto.
          exfalso. apply Hnf. right. exists s, r. split; auto.
          do 3 right. rewrite <- validateBase_iff. congruence.
        * destruct (allowed (JS.toLowerCase s)) eqn:A; auto.
          exfalso. apply Hnf. right. exists s, r. split; auto.
    - apply find_noSeparator in F. split.
      + unfold UrlParser.parse.
        rewrite validateScheme_error, (getUrlParts_noSeparator _ F).
        simpl. destruct (allowed "null"); discriminate.
      + intros H. elim H. now left. }
  split; [|exact Hdec].
  split.
  - intros (e & He & _). destruct (JS.find "://" url) as [n|] eqn:F.
    + assert (Hsep : ~ ParseSpec.noSeparator url)
        by (rewrite <- find_noSeparator; congruence).
      destruct (firstSplit_exists _ Hsep) as (s & r & Hs).
      right. exists s, r. split; auto.
      pose proof (parse_split_ok allowed _ _ _ Hs) as P.
      destruct (String.eqb_spec r "") as [|Hr]; [auto|].
      destruct (JS.charIs (JS.charAt r 0) "/") eqn:Ec.
      { apply starts_with_char in Ec. auto. }
      destruct (allowed (JS.toLowerCase s)) eqn:A; [|auto].
      do 3 right. intros Hv. apply validateBase_iff in Hv.
      assert (Hs0 : s <> "") by (intros ->; simpl in A; congruence).
      assert (Hsl : forall t, r <> String "/" t).
      { intros t Ht.
        assert (JS.charIs (JS.charAt r 0) "/" = true)
          by (apply starts_with_char; eauto). congruence. }
      assert (Hok : UrlParser.error (UrlParser.parse allowed url) = None)
        by (apply P; auto).
      congruence.
    + left. now apply find_noSeparator.
  - intros Hf.
    destruct (UrlParser.error (UrlParser.parse allowed url)) as [e|] eqn:He.
    + exists e. split; auto. eapply parse_error_code; eauto.
    + exfalso. exact (proj1 Hdec eq_refl Hf).
Qed.

(** ** The engine methods as equations *)

Section EngineEquations.
Import UrlParser Mongo Engine EngineView.

Variable SB : string.

Lemma helper_defined : helper SB "_setErrMsg" = Some (_setErrMsg SB).
Proof. reflexivity. Qed.

Lemma helper_undefined : helper SB "setErrMsg" = None.
Proof. reflexivity. Qed.

Lemma call_not_found p col :
  bind (callHelper SB "_setErrMsg" p "NOT_FOUND")
    (fun p' => ret (returnError p')) col
  = (Fulfilled (notFound p), col).
Proof. reflexivity. Qed.

Lemma call_domain_ne p col :
  bind (callHelper SB "_setErrMsg" p "DOMAIN_NE")
    (fun p' => ret (returnError p')) col
  = (Fulfilled (domainNe SB p), col).
Proof. reflexivity. Qed.

Lemma call_domain_eq p col :
  bind (callHelper SB "setErrMsg" p "DOMAIN_EQ")
    (fun p' => ret (returnError p')) col
  = (Rejected (TypeError "this.setErrMsg is not a function"), col).
Proof. reflexivity. Qed.

Lemma add_eq rnd L col :
  add SB rnd L col
  = let p := parse reHttps L in
    match error p with
    | Some e => (Fulfilled (Obj (Error e)), col)
    | None =>
        if domainIsBase SB p
        then (Rejected (TypeError "this.setErrMsg is not a function"), col)
        else match List.find (orFilter (baseRest p)) col with
             | Some d =>
                 (Fulfilled (shortOf p d),
                  updateOne (docFilter d) (setActive true) col)
             | None =>
                 (Fulfilled (shortOf p (newDoc SB p rnd col)),
                  (col ++ [newDoc SB p rnd col])%list)
             end
    end.
Proof.
  unfold add. cbv zeta. destruct (error (parse reHttps L)); [reflexivity|].
  destruct (domainIsBase SB (parse reHttps L)).
  - apply call_domain_eq.
  - unfold bind at 1. unfold _queryDb, colFindOne, findOne.
    destruct (List.find _ col); reflexivity.
Qed.

Lemma query_eq S col :
  query SB S col
  = let p := parse reHttps S in
    match error p with
    | Some e => (Fulfilled (Obj (Error e)), col)
    | None =>
        if domainIsBase SB p
        then match List.find (orFilter (baseRest p)) col with
             | Some d =>
                 if active d
                 then (Fulfilled (longOf p d),
                       updateOne (docFilter d)
                         (setQueries (queries d + 1)%N) col)
                 else (Fulfilled (notFound p), col)
             | None => (Fulfilled (notFound p), col)
             end
        else (Fulfilled (domainNe SB p), col)
    end.
Proof.
  unfold query. cbv zeta. destruct (error (parse reHttps S)); [reflexivity|].
  destruct (domainIsBase SB (parse reHttps S)); cbn [negb].
  - unfold bind at 1. unfold _queryDb, colFindOne, findOne.
    destruct (List.find _ col) as [d|]; [|apply call_not_found].
    destruct (active d); [reflexivity | apply call_not_found].
  - apply call_domain_ne.
Qed.

Lemma count_eq u col :
  count SB u col
  = let p := parse reHttps u in
    match error p with
    | Some e => (Fulfilled (Obj (Error e)), col)
    | None =>
        match List.find (orFilter (baseRest p)) col with
        | Some d => (Fulfilled (Obj (Value (VNumber (queries d)))), col)
        | None => (Fulfilled (notFound p), col)
        end
    end.
Proof.
  unfold count. cbv zeta. destruct (error (parse reHttps u)); [reflexivity|].
  unfold bind at 1. unfold _queryDb, colFindOne, findOne.
  destruct (List.find _ col); [reflexivity | apply call_not_found].
Qed.

Lemma deactivate_eq u col :
  deactivate SB u col
  = let p := parse reHttps u in
    match error p with
    | Some e => (Fulfilled (Obj (Error e)), col)
    | None =>
        match List.find (orFilter (baseRest p)) col with
        | Some d =>
            (Fulfilled (Obj Success),
             updateOne (docFilter d) (setActive false) col)
        | None => (Fulfilled (notFound p), col)
        end
    end.
Proof.
  unfold deactivate. cbv zeta.
  destruct (error (parse reHttps u)); [reflexivity|].
  unfold bind at 1. unfold _queryDb, colFindOne, findOne.
  destruct (List.find _ col); [reflexivity | apply call_not_found].
Qed.

End EngineEquations.

(** ** Facts about the collection *)

Section StoreFacts.
Import Mongo Evolution.
Local Open Scope list_scope.

Lemma docFilter_eq f d : docFilter f d = true <-> d = f.
Proof.
  unfold docFilter. rewrite !andb_true_iff, !N.eqb_eq, !String.eqb_eq.
  rewrite Bool.eqb_true_iff.
  destruct d, f; simpl. split.
  - intros [[[[-> ->] ->] ->] ->]. reflexivity.
  - intros H; inversion H; auto.
Qed.

Lemma find_split (flt : doc -> bool) col d :
  List.find flt col = Some d ->
  exists l1 l2, col = (l1 ++ d :: l2)%list
                /\ (forall x, In x l1 -> flt x = false) /\ flt d = true.
Proof.
  induction col as [|x col IH]; simpl; [discriminate|].
  destruct (flt x) eqn:Fx.
  - intros H; inversion H; subst. exists [], col. simpl. tauto.
  - intros H. destruct (IH H) as (l1 & l2 & -> & Hl & Hd).
    exists (x :: l1), l2. simpl. repeat split; auto.
    intros y [<-|Hy]; auto.
Qed.

Lemma find_app_skip (flt : doc -> bool) l1 l2 :
  (forall x, In x l1 -> flt x = false) ->
  List.find flt (l1 ++ l2) = List.find flt l2.
Proof.
  induction l1 as [|x l1 IH]; simpl; auto. intros H.
  rewrite (H x) by auto. apply IH. auto.
Qed.

Lemma find_none (flt : doc -> bool) col :
  List.find flt col = None <-> forall x, In x col -> flt x = false.
Proof.
  induction col as [|x col IH]; simpl.
  - split; [intros _ x [] | reflexivity].
  - destruct (flt x) eqn:Fx.
    + split; [discriminate|]. intros H. rewrite (H x) in Fx by auto.
      discriminate.
    + rewrite IH. split.
      * intros H y [<-|Hy]; auto.
      * intros H y Hy. auto.
Qed.

Lemma updateOne_split (flt : doc -> bool) upd l1 d l2 :
  (forall x, In x l1 -> flt x = false) -> flt d = true ->
  updateOne flt upd (l1 ++ d :: l2) = (l1 ++ upd d :: l2)%list.
Proof.
  induction l1 as [|x l1 IH]; simpl; intros H Hd.
  - now rewrite Hd.
  - rewrite (H x) by auto. f_equal. apply IH; auto.
Qed.

(** Updating with the found document as filter changes that very
    document, where it stands. *)
Lemma updateOne_found (flt : doc -> bool) upd l1 d l2 :
  (forall x, In x l1 -> flt x = false) -> flt d = true ->
  updateOne (docFilter d) upd (l1 ++ d :: l2) = (l1 ++ upd d :: l2)%list.
Proof.
  intros H Hd. apply updateOne_split.
  - intros x Hx. destruct (docFilter d x) eqn:E; auto.
    apply docFilter_eq in E. subst. rewrite (H d Hx) in Hd. discriminate.
  - now apply docFilter_eq.
Qed.

Lemma sameDoc_refl d : sameDoc d d.
Proof. unfold sameDoc. repeat split; auto. lia. Qed.

Lemma sameDoc_trans d1 d2 d3 :
  sameDoc d1 d2 -> sameDoc d2 d3 -> sameDoc d1 d3.
Proof.
  unfold sameDoc. intros (A1 & A2 & A3 & A4) (B1 & B2 & B3 & B4).
  repeat split; try congruence. lia.
Qed.

Lemma evolves_refl col : evolves col col.
Proof.
  induction col; constructor; auto using sameDoc_refl.
Qed.

Lemma evolves_trans c1 c2 c3 :
  evolves c1 c2 -> evolves c2 c3 -> evolves c1 c3.
Proof.
  intros H; revert c3. induction H as [|d d' c c' Hd H IH]; intros c3 H3.
  - constructor.
  - inversion H3; subst. constructor; eauto using sameDoc_trans.
Qed.

Lemma evolves_app col l : evolves col (col ++ l).
Proof.
  induction col; simpl; constructor; auto using sameDoc_refl.
Qed.

Lemma evolves_update l1 d d' l2 :
  sameDoc d d' -> evolves (l1 ++ d :: l2) (l1 ++ d' :: l2).
Proof.
  intros H. induction l1; simpl; constructor;
    auto using sameDoc_refl, evolves_refl.
Qed.

Lemma evolves_length c c' :
  evolves c c' -> (List.length c <= List.length c')%nat.
Proof. induction 1; simpl; lia. Qed.

Lemma evolves_nth c c' i d :
  evolves c c' -> nth_error c i = Some d ->
  exists d', nth_error c' i = Some d' /\ sameDoc d d'.
Proof.
  intros H; revert i. induction H as [|x x' c c' Hx H IH]; intros i Hi.
  - destruct i; discriminate.
  - destruct i as [|i]; simpl in *.
    + inversion Hi; subst. eauto.
    + eauto.
Qed.

Lemma orFilter_sameDoc k d d' :
  sameDoc d d' -> orFilter k d' = orFilter k d.
Proof.
  intros (_ & E1 & E2 & _). unfold orFilter. now rewrite E1, E2.
Qed.

(** A document found under a key is found under it ever after. *)
Lemma evolves_find k c c' d :
  evolves c c' -> List.find (orFilter k) c = Some d ->
  exists d', List.find (orFilter k) c' = Some d' /\ sameDoc d d'.
Proof.
  induction 1 as [|x x' c c' Hx H IH]; simpl; [discriminate|].
  rewrite (orFilter_sameDoc k _ _ Hx).
  destruct (orFilter k x).
  - intros E; inversion E; subst. eauto.
  - auto.
Qed.

End StoreFacts.

(** ** What one call does to the collection *)

Section Effects.
Import UrlParser Mongo Engine EngineView Evolution.
Local Open Scope list_scope.

Variable SB : string.

Lemma nth_update (l1 : list doc) d d' l2 i x :
  nth_error (l1 ++ d :: l2) i = Some x ->
  exists x', nth_error (l1 ++ d' :: l2) i = Some x'
             /\ ((i <> List.length l1 /\ x' = x)
                 \/ (i = List.length l1 /\ x = d /\ x' = d')).
Proof.
  revert i. induction l1 as [|y l1 IH]; intros [|i]; simpl; intros H.
  - inversion H; subst. exists d'. split; auto.
  - exists x. split; auto.
  - exists x. split; auto.
  - destruct (IH i H) as (x' & Hx & [[Hn ->]|(-> & -> & ->)]).
    + exists x. split; auto.
    + exists d'. split; auto.
Qed.

(** The collection after [add]: untouched, or the found document made
    active, or one new document at the end. *)
Lemma add_effect rnd L col :
  snd (add SB rnd L col) = col
  \/ (exists l1 d l2,
        col = l1 ++ d :: l2
        /\ snd (add SB rnd L col) = l1 ++ setActive true d :: l2)
  \/ (error (parse reHttps L) = None
      /\ List.find (orFilter (baseRest (parse reHttps L))) col = None
      /\ snd (add SB rnd L col)
         = col ++ [newDoc SB (parse reHttps L) rnd col]).
Proof.
  rewrite add_eq. cbv zeta.
  destruct (error (parse reHttps L)) eqn:E; [now left|].
  destruct (domainIsBase SB (parse reHttps L)); [now left|].
  destruct (List.find _ col) as [d|] eqn:F.
  - right; left. destruct (find_split _ _ _ F) as (l1 & l2 & -> & H1 & H2).
    exists l1, d, l2. split; auto. simpl.
    now apply updateOne_found
      with (flt := orFilter (baseRest (parse reHttps L))).
  - right; right. auto.
Qed.

(** The collection after [query]: untouched unless the call succeeds, and
    then the found document counted once more. *)
Lemma query_effect S col :
  (snd (query SB S col) = col
   /\ forall v, fst (query SB S col) <> Fulfilled (Obj (Value v)))
  \/ (exists l1 d l2,
        col = l1 ++ d :: l2
        /\ snd (query SB S col)
           = l1 ++ setQueries (queries d + 1)%N d :: l2
        /\ fst (query SB S col) = Fulfilled (longOf (parse reHttps S) d)
        /\ active d = true
        /\ List.find (orFilter (baseRest (parse reHttps S))) col = Some d).
Proof.
  rewrite query_eq. cbv zeta.
  destruct (error (parse reHttps S)); [left; split; [auto|discriminate]|].
  destruct (domainIsBase SB (parse reHttps S));
    [|left; split; [auto|discriminate]].
  destruct (List.find _ col) as [d|] eqn:F;
    [|left; split; [auto|discriminate]].
  destruct (active d) eqn:A; [|left; split; [auto|discriminate]].
  right. destruct (find_split _ _ _ F) as (l1 & l2 & -> & H1 & H2).
  exists l1, d, l2. repeat split; auto. simpl.
  now apply updateOne_found
    with (flt := orFilter (baseRest (parse reHttps S))).
Qed.

Lemma count_effect u col : snd (count SB u col) = col.
Proof.
  rewrite count_eq. cbv zeta. destruct (error _); auto.
  destruct (List.find _ col); auto.
Qed.

Lemma deactivate_effect u col :
  snd (deactivate SB u col) = col
  \/ (exists l1 d l2,
        col = l1 ++ d :: l2
        /\ snd (deactivate SB u col) = l1 ++ setActive false d :: l2).
Proof.
  rewrite deactivate_eq. cbv zeta.
  destruct (error (parse reHttps u)); [now left|].
  destruct (List.find _ col) as [d|] eqn:F; [|now left].
  right. destruct (find_split _ _ _ F) as (l1 & l2 & -> & H1 & H2).
  exists l1, d, l2. split; auto. simpl.
  now apply updateOne_found
    with (flt := orFilter (baseRest (parse reHttps u))).
Qed.

Lemma sameDoc_setActive b d : sameDoc d (setActive b d).
Proof. unfold sameDoc. simpl. repeat split; auto. lia. Qed.

Lemma sameDoc_setQueries d : sameDoc d (setQueries (queries d + 1)%N d).
Proof. unfold sameDoc. simpl. repeat split; auto. lia. Qed.

Lemma run_evolves c col : evolves col (snd (run SB c col)).
Proof.
  destruct c as [rnd u|u|u|u]; simpl.
  - destruct (add_effect rnd u col)
      as [->|[(l1 & d & l2 & -> & ->)|(_ & _ & ->)]].
    + apply evolves_refl.
    + apply evolves_update, sameDoc_setActive.
    + apply evolves_app.
  - destruct (query_effect u col)
      as [[-> _]|(l1 & d & l2 & -> & -> & _)].
    + apply evolves_refl.
    + apply evolves_update, sameDoc_setQueries.
  - rewrite count_effect. apply evolves_refl.
  - destruct (deactivate_effect u col)
      as [->|(l1 & d & l2 & -> & ->)].
    + apply evolves_refl.
    + apply evolves_update, sameDoc_setActive.
Qed.

Lemma runAll_evolves cs col : evolves col (runAll SB cs col).
Proof.
  revert col. induction cs as [|c cs IH]; intros col; simpl.
  - apply evolves_refl.
  - eapply evolves_trans; [apply run_evolves | apply IH].
Qed.

Lemma runAll_app cs1 cs2 col :
  runAll SB (cs1 ++ cs2) col = runAll SB cs2 (runAll SB cs1 col).
Proof.
  revert col. induction cs1 as [|c cs IH]; intros col; simpl; auto.
Qed.

End Effects.

(** ** The queries counter *)

Section Counter.
Import UrlParser Mongo Engine EngineView Evolution.
Local Open Scope list_scope.

Variable SB : string.

Lemma nth_after_append (col : list doc) l i d :
  nth_error col i = Some d -> nth_error (col ++ l) i = Some d.
Proof.
  intros H. rewrite nth_error_app1; auto.
  apply nth_error_Some. congruence.
Qed.

(** One call leaves the counter of a stored document as it is, or, for a
    [query] that succeeds, one higher. *)
Lemma counter_step c col i d :
  nth_error col i = Some d ->
  exists d', nth_error (snd (run SB c col)) i = Some d'
             /\ longUrl d' = longUrl d /\ shortUrl d' = shortUrl d
             /\ (queries d' = queries d
                 \/ (queries d' = (queries d + 1)%N
                     /\ exists u v,
                         c = Query u
                         /\ fst (run SB c col)
                            = Fulfilled (Obj (Value v)))).
Proof.
  intros Hi. destruct c as [rnd u|u|u|u]; simpl.
  - destruct (add_effect SB rnd u col)
      as [->|[(l1 & x & l2 & -> & ->)|(_ & _ & ->)]].
    + exists d; auto.
    + destruct (nth_update l1 x (setActive true x) l2 i d Hi)
        as (x' & Hx & [[_ ->]|(_ & -> & ->)]).
      * exists d; auto.
      * eexists. split; [exact Hx|]. simpl. auto.
    + exists d. split; auto using nth_after_append.
  - destruct (query_effect SB u col)
      as [[-> _]|(l1 & x & l2 & -> & -> & Hr & _)].
    + exists d; auto.
    + destruct (nth_update l1 x (setQueries (queries x + 1)%N x) l2 i d Hi)
        as (x' & Hx & [[_ ->]|(_ & -> & ->)]).
      * exists d; auto.
      * eexists. split; [exact Hx|]. simpl. repeat split; auto.
        right. split; auto. exists u. eexists. split; auto.
        rewrite Hr. reflexivity.
  - rewrite count_effect. exists d; auto.
  - destruct (deactivate_effect SB u col)
      as [->|(l1 & x & l2 & -> & ->)].
    + exists d; auto.
    + destruct (nth_update l1 x (setActive false x) l2 i d Hi)
        as (x' & Hx & [[_ ->]|(_ & -> & ->)]).
      * exists d; auto.
      * eexists. split; [exact Hx|]. simpl. auto.
Qed.

(** A [query] that succeeds raises one counter by exactly one. *)
Lemma counter_query u v col :
  fst (query SB u col) = Fulfilled (Obj (Value v)) ->
  exists j d, nth_error col j = Some d
              /\ nth_error (snd (query SB u col)) j
                 = Some (setQueries (queries d + 1)%N d).
Proof.
  intros Hv. destruct (query_effect SB u col)
    as [[_ Hn]|(l1 & x & l2 & -> & -> & _)].
  - now elim (Hn v).
  - exists (List.length l1), x.
    rewrite !nth_error_app2 by lia. rewrite Nat.sub_diag. auto.
Qed.

End Counter.

(** C5. For every stored association and every call of the engine: the
    call leaves the queries counter unchanged unless it is a [query] that
    succeeds, which raises it by exactly one; [add], [count] and
    [deactivate] never change it; a [query] that succeeds does raise one
    counter by one; and over any sequence of calls (deactivations and
    re-additions included) the counter never decreases. *)
Theorem queries_counter_monotone
  (SB : string) (col : Mongo.collection) (c : Engine.call) (i : nat)
  (d : Mongo.doc) :
  nth_error col i = Some d ->
  (exists d', nth_error (snd (Engine.run SB c col)) i = Some d'
              /\ Mongo.longUrl d' = Mongo.longUrl d
              /\ (Mongo.queries d' = Mongo.queries d
                  \/ (Mongo.queries d' = (Mongo.queries d + 1)%N
                      /\ exists u v,
                          c = Engine.Query u
                          /\ fst (Engine.run SB c col)
                             = Engine.Fulfilled
                                 (Engine.Obj (Value v)))))
  /\ (forall u v,
        fst (Engine.query SB u col) = Engine.Fulfilled (Engine.Obj (Value v)) ->
        exists j x,
          nth_error col j = Some x
          /\ nth_error (snd (Engine.query SB u col)) j
             = Some (Mongo.setQueries (Mongo.queries x + 1)%N x))
  /\ (forall cs,
        exists d', nth_error (Engine.runAll SB cs col) i = Some d'
                   /\ Mongo.longUrl d' = Mongo.longUrl d
                   /\ (Mongo.queries d <= Mongo.queries d')%N).
Proof.
  intros Hi. split; [|split].
  - destruct (counter_step SB c col i d Hi) as (d' & H1 & H2 & _ & H3).
    exists d'. auto.
  - intros u v. apply counter_query.
  - intros cs.
    destruct (evolves_nth _ _ i d (runAll_evolves SB cs col) Hi)
      as (d' & Hd & (_ & E & _ & Hq)).
    exists d'. auto.
Qed.

(** ** Deactivation *)

Section Deactivation.
Import UrlParser Mongo Engine EngineView Evolution.
Local Open Scope list_scope.

Variable SB : string.

Lemma find_at (flt : doc -> bool) l1 d l2 :
  (forall x, In x l1 -> flt x = false) -> flt d = true ->
  List.find flt (l1 ++ d :: l2) = Some d.
Proof.
  intros H Hd. rewrite find_app_skip by assumption. simpl. now rewrite Hd.
Qed.

(** What a successful [deactivate] found and did. *)
Lemma deactivate_success u col :
  fst (deactivate SB u col) = Fulfilled (Obj Success) ->
  error (parse reHttps u) = None
  /\ exists l1 d l2,
      col = l1 ++ d :: l2
      /\ (forall x, In x l1 ->
                    orFilter (baseRest (parse reHttps u)) x = false)
      /\ orFilter (baseRest (parse reHttps u)) d = true
      /\ snd (deactivate SB u col) = l1 ++ setActive false d :: l2.
Proof.
  rewrite deactivate_eq. cbv zeta.
  destruct (error (parse reHttps u)); [discriminate|].
  destruct (List.find _ col) as [d|] eqn:F; [|discriminate].
  intros _. split; auto.
  destruct (find_split _ _ _ F) as (l1 & l2 & -> & H1 & H2).
  exists l1, d, l2. repeat split; auto. simpl.
  now apply updateOne_found
    with (flt := orFilter (baseRest (parse reHttps u))).
Qed.

Lemma deactivate_found u col d :
  error (parse reHttps u) = None ->
  List.find (orFilter (baseRest (parse reHttps u))) col = Some d ->
  fst (deactivate SB u col) = Fulfilled (Obj Success).
Proof.
  intros E F. rewrite deactivate_eq. cbv zeta. now rewrite E, F.
Qed.

Lemma deactivate_unknown u col :
  error (parse reHttps u) = None ->
  List.find (orFilter (baseRest (parse reHttps u))) col = None ->
  deactivate SB u col = (Fulfilled (notFound (parse reHttps u)), col).
Proof.
  intros E F. rewrite deactivate_eq. cbv zeta. now rewrite E, F.
Qed.

End Deactivation.

(** C3, as the code has it. After [deactivate(S)] succeeds, [query(S)]
    fails: with [NOT_FOUND] when the domain of [S] is the shortener base,
    and with [DOMAIN] otherwise; [count(S)] still succeeds with the count
    it gave before; [deactivate(S)] succeeds again on the now inactive
    association; and [deactivate] of a url that parses and is stored under
    neither key fails with [NOT_FOUND]. *)
Theorem deactivate_then_query_and_count
  (SB S : string) (col : Mongo.collection) :
  fst (Engine.deactivate SB S col) = Engine.Fulfilled (Engine.Obj Success) ->
  let col' := snd (Engine.deactivate SB S col) in
  (exists e,
      Engine.query SB S col' = (Engine.Fulfilled (Engine.Obj (Error e)), col')
      /\ code e
         = if Engine.domainIsBase SB (UrlParser.parse UrlParser.reHttps S)
           then "NOT_FOUND" else "DOMAIN")
  /\ (exists n,
         fst (Engine.count SB S col)
         = Engine.Fulfilled (Engine.Obj (Value (VNumber n)))
         /\ fst (Engine.count SB S col')
            = Engine.Fulfilled (Engine.Obj (Value (VNumber n))))
  /\ fst (Engine.deactivate SB S col')
     = Engine.Fulfilled (Engine.Obj Success)
  /\ (forall u,
         UrlParser.error (UrlParser.parse UrlParser.reHttps u) = None ->
         List.find
           (Mongo.orFilter
              (UrlParser.baseRest (UrlParser.parse UrlParser.reHttps u)))
           col = None ->
         exists e,
           fst (Engine.deactivate SB u col)
           = Engine.Fulfilled (Engine.Obj (Error e))
           /\ code e = "NOT_FOUND").
Proof.
  intros Hd col'.
  destruct (deactivate_success SB S col Hd)
    as (Hp & l1 & d & l2 & Hcol & H1 & H2 & Hcol').
  subst col'. rewrite Hcol'.
  assert (F : List.find
                (Mongo.orFilter
                   (UrlParser.baseRest (UrlParser.parse UrlParser.reHttps S)))
                (l1 ++ Mongo.setActive false d :: l2)%list
              = Some (Mongo.setActive false d)).
  { apply find_at; auto. }
  assert (F0 : List.find
                 (Mongo.orFilter
                    (UrlParser.baseRest (UrlParser.parse UrlParser.reHttps S)))
                 col = Some d).
  { rewrite Hcol. apply find_at; auto. }
  split; [|split; [|split]].
  - rewrite query_eq. cbv zeta. rewrite Hp, F. simpl Mongo.active.
    destruct (Engine.domainIsBase SB _); eexists; split; reflexivity.
  - exists (Mongo.queries d). rewrite !count_eq. cbv zeta.
    rewrite Hp, F, F0. auto.
  - eapply deactivate_found; eauto.
  - intros u Hu Fu. rewrite (deactivate_unknown SB u col Hu Fu).
    eexists; split; reflexivity.
Qed.

(** ** Successful parses *)

Lemma parse_ok_view regex url :
  UrlParser.error (UrlParser.parse regex url) = None ->
  exists s r,
    ParseSpec.firstSplit url s r
    /\ UrlParser.parse regex url = ParsedView.parsed s r
    /\ s <> "" /\ r <> "" /\ (forall t, r <> String "/" t)
    /\ UrlParser.validateBase (JS.toLowerCase (before "/" r)) = true
    /\ regex (JS.toLowerCase s) = true.
Proof.
  intros H.
  destruct (JS.find "://" url) as [n|] eqn:F.
  - assert (Hsep : ~ ParseSpec.noSeparator url)
      by (rewrite <- find_noSeparator; congruence).
    destruct (firstSplit_exists _ Hsep) as (s & r & Hs).
    exists s, r. split; auto.
    pose proof (proj1 (parse_split_ok regex _ _ _ Hs) H)
      as (Hs0 & Hr0 & Hsl & Hb & Ha).
    repeat split; auto.
    unfold UrlParser.parse. rewrite (getUrlParts_split _ _ _ Hs).
    apply String.eqb_neq in Hs0, Hr0. rewrite Hs0, Hr0. simpl orb.
    destruct (JS.charIs (JS.charAt r 0) "/") eqn:Ec.
    { apply starts_with_char in Ec as [t Ht]. now elim (Hsl t). }
    rewrite Hb. unfold UrlParser.validateScheme. simpl UrlParser.scheme.
    simpl JS.toStr. now rewrite Ha.
  - exfalso. apply find_noSeparator in F. revert H.
    unfold UrlParser.parse.
    rewrite validateScheme_error, (getUrlParts_noSeparator _ F).
    simpl. destruct (regex "null"); discriminate.
Qed.

Lemma parse_ok_baseRest regex url :
  UrlParser.error (UrlParser.parse regex url) = None ->
  exists s r,
    ParseSpec.firstSplit url s r
    /\ UrlParser.scheme (UrlParser.parse regex url) = Some (JS.toLowerCase s)
    /\ UrlParser.baseRest (UrlParser.parse regex url)
       = Some (JS.toLowerCase r).
Proof.
  intros H. destruct (parse_ok_view _ _ H) as (s & r & Hs & -> & _).
  exists s, r. auto.
Qed.

(** ** Adding again *)

Section AddAgain.
Import UrlParser Mongo Engine EngineView Evolution.
Local Open Scope list_scope.

Variable SB : string.

Lemma updateOne_length (flt : doc -> bool) upd col :
  List.length (updateOne flt upd col) = List.length col.
Proof.
  induction col as [|x col IH]; simpl; auto.
  destruct (flt x); simpl; auto.
Qed.

Lemma orFilter_setActive k b d : orFilter k (setActive b d) = orFilter k d.
Proof. reflexivity. Qed.

(** What a successful [add] leaves behind: a document under the key of
    the url, whose short url is the one returned. *)
Lemma add_success rnd L col v :
  fst (add SB rnd L col) = Fulfilled (Obj (Value v)) ->
  error (parse reHttps L) = None
  /\ domainIsBase SB (parse reHttps L) = false
  /\ exists d,
      List.find (orFilter (baseRest (parse reHttps L)))
        (snd (add SB rnd L col)) = Some d
      /\ active d = true
      /\ Obj (Value v) = shortOf (parse reHttps L) d.
Proof.
  rewrite add_eq. cbv zeta.
  destruct (error (parse reHttps L)) eqn:E; [discriminate|].
  destruct (domainIsBase SB (parse reHttps L)); [discriminate|].
  destruct (List.find _ col) as [d|] eqn:F; simpl; intros H.
  - split; auto. split; auto.
    destruct (find_split _ _ _ F) as (l1 & l2 & -> & H1 & H2).
    rewrite updateOne_found
      with (flt := orFilter (baseRest (parse reHttps L))) by assumption.
    exists (setActive true d). split; [now apply find_at|].
    split; [reflexivity|]. inversion H. reflexivity.
  - split; auto. split; auto.
    exists (newDoc SB (parse reHttps L) rnd col).
    split; [|split; [reflexivity | inversion H; reflexivity]].
    rewrite find_app_skip by (now apply find_none).
    destruct (parse_ok_baseRest _ _ E) as (s & r & _ & _ & Hk).
    unfold newDoc, orFilter. simpl. rewrite Hk. simpl.
    now rewrite String.eqb_refl.
Qed.

(** What [add] does when the key of the url is already stored. *)
Lemma add_found rnd L col d :
  error (parse reHttps L) = None ->
  domainIsBase SB (parse reHttps L) = false ->
  List.find (orFilter (baseRest (parse reHttps L))) col = Some d ->
  fst (add SB rnd L col) = Fulfilled (shortOf (parse reHttps L) d)
  /\ List.length (snd (add SB rnd L col)) = List.length col
  /\ List.find (orFilter (baseRest (parse reHttps L)))
       (snd (add SB rnd L col)) = Some (setActive true d).
Proof.
  intros E D F. rewrite add_eq. cbv zeta. rewrite E, D, F. simpl.
  split; auto. split; [apply updateOne_length|].
  destruct (find_split _ _ _ F) as (l1 & l2 & -> & H1 & H2).
  rewrite updateOne_found
    with (flt := orFilter (baseRest (parse reHttps L))) by assumption.
  now apply find_at.
Qed.

Lemma map_longUrl_update l1 (d d' : doc) l2 :
  longUrl d' = longUrl d ->
  map longUrl (l1 ++ d' :: l2) = map longUrl (l1 ++ d :: l2).
Proof. intros H. rewrite !map_app. simpl. now rewrite H. Qed.

(** No call stores a second document for a long url. *)
Lemma run_NoDup c col :
  NoDup (map longUrl col) -> NoDup (map longUrl (snd (run SB c col))).
Proof.
  intros H. destruct c as [rnd u|u|u|u]; simpl.
  - destruct (add_effect SB rnd u col)
      as [->|[(l1 & d & l2 & -> & ->)|(E & F & ->)]]; auto.
    + now rewrite (map_longUrl_update l1 d).
    + rewrite map_app. simpl.
      destruct (parse_ok_baseRest _ _ E) as (s & r & _ & _ & Hk).
      rewrite Hk in *. simpl.
      apply NoDup_app; [assumption | repeat constructor; simpl; tauto |].
      intros k Hin [<-|[]].
      apply in_map_iff in Hin as (x & Hx & Hin).
      pose proof (proj1 (find_none _ _) F x Hin) as Hf.
      unfold orFilter in Hf. rewrite Hx, String.eqb_refl in Hf.
      discriminate.
  - destruct (query_effect SB u col)
      as [[-> _]|(l1 & d & l2 & -> & -> & _)]; auto.
    now rewrite (map_longUrl_update l1 d).
  - now rewrite count_effect.
  - destruct (deactivate_effect SB u col)
      as [->|(l1 & d & l2 & -> & ->)]; auto.
    now rewrite (map_longUrl_update l1 d).
Qed.

Lemma runAll_NoDup cs col :
  NoDup (map longUrl col) -> NoDup (map longUrl (runAll SB cs col)).
Proof.
  revert col. induction cs as [|c cs IH]; intros col H; simpl; auto.
  apply IH. now apply run_NoDup.
Qed.

End AddAgain.

(** C1. Once [add(L)] has succeeded with short url [S], then in every later
    state (whatever calls came between, deactivations of [L] included)
    [add(L)] again returns [S], stores no new document, and leaves the
    association found under the key of [L] active; and no call ever stores
    two documents with one long url, so the collection built from the empty
    one holds at most one association per normalized long url. *)
Theorem add_again_same_short_url
  (SB L S : string) (rnd1 rnd2 : N) (col : Mongo.collection)
  (cs : list Engine.call) :
  fst (Engine.add SB rnd1 L col)
  = Engine.Fulfilled (Engine.Obj (Value (VString S))) ->
  let col2 := Engine.runAll SB cs (snd (Engine.add SB rnd1 L col)) in
  let col3 := snd (Engine.add SB rnd2 L col2) in
  fst (Engine.add SB rnd2 L col2)
  = Engine.Fulfilled (Engine.Obj (Value (VString S)))
  /\ List.length col3 = List.length col2
  /\ (exists d,
         List.find
           (Mongo.orFilter
              (UrlParser.baseRest (UrlParser.parse UrlParser.reHttps L)))
           col3 = Some d
         /\ Mongo.active d = true
         /\ S = JS.toStr
                  (UrlParser.scheme (UrlParser.parse UrlParser.reHttps L))
                ++ "://" ++ Mongo.shortUrl d)
  /\ (NoDup (map Mongo.longUrl col) -> NoDup (map Mongo.longUrl col3))
  /\ (forall cs', NoDup (map Mongo.longUrl (Engine.runAll SB cs' []))).
Proof.
  intros H1 col2 col3.
  destruct (add_success SB rnd1 L col _ H1) as (E & D & d1 & F1 & A1 & V1).
  destruct (evolves_find _ _ _ d1
              (runAll_evolves SB cs (snd (Engine.add SB rnd1 L col))) F1)
    as (d2 & F2 & (_ & _ & Hs & _)).
  fold col2 in F2.
  destruct (add_found SB rnd2 L col2 d2 E D F2) as (R & Len & F3).
  fold col3 in Len, F3.
  assert (HS : S = JS.toStr
                     (UrlParser.scheme (UrlParser.parse UrlParser.reHttps L))
                   ++ "://" ++ Mongo.shortUrl d2).
  { unfold EngineView.shortOf in V1. inversion V1. now rewrite Hs. }
  split; [|split; [|split; [|split]]].
  - rewrite R. unfold EngineView.shortOf. now rewrite HS.
  - exact Len.
  - exists (Mongo.setActive true d2). split; [exact F3|]. split; auto.
  - intros N. subst col3 col2.
    apply (run_NoDup SB (Engine.Add rnd2 L)), runAll_NoDup.
    now apply (run_NoDup SB (Engine.Add rnd1 L)).
  - intros cs'. apply runAll_NoDup. constructor.
Qed.

(** ** Valid bases and tokens *)

Lemma InStr_join c sep ls :
  InStr c (join sep ls) -> c = sep \/ exists l, In l ls /\ InStr c l.
Proof.
  induction ls as [|l ls IH]; [intros []|].
  destruct ls as [|l2 ls].
  - simpl. intros H. right. exists l. auto.
  - rewrite join_cons by discriminate. rewrite InStr_app, InStr_cons.
    intros [H|[H|H]].
    + right. exists l. simpl; auto.
    + auto.
    + destruct (IH H) as [?|(x & Hx & Hc)]; auto.
      right. exists x. split; auto. now right.
Qed.

(** A valid base without a colon is a non-empty string of base
    characters. *)
Lemma validBase_chars b :
  UrlParser.validateBase b = true -> ~ InStr ":" b ->
  b <> "" /\ forall c, InStr c b -> UrlParser.isBaseChar c = true.
Proof.
  intros V Hc. apply validateBase_iff in V.
  destruct V as (host & port & labels & Hhp & Hls & Hok & _).
  apply hostPort_no_colon in Hhp as [-> _]; auto.
  apply labelsOf_split in Hls as ->. split.
  - intros ->. simpl in Hok. inversion Hok as [|? ? (H & _) _]. congruence.
  - intros c Hin. rewrite <- (join_split "." b) in Hin.
    apply InStr_join in Hin as [->|(l & Hl & Hin)]; [reflexivity|].
    rewrite Forall_forall in Hok. destruct (Hok l Hl) as (_ & H & _). auto.
Qed.

Lemma validBase_no_slash b :
  UrlParser.validateBase b = true -> ~ InStr ":" b -> ~ InStr "/" b.
Proof.
  intros V Hc Hs. destruct (validBase_chars b V Hc) as [_ H].
  specialize (H _ Hs). discriminate.
Qed.

Lemma digit36_token d : (d < 36)%N -> isTokenChar (JS.digit36 d) = true.
Proof.
  intros H. assert (E : d = N.of_nat (N.to_nat d)) by lia.
  rewrite E. assert (Hn : (N.to_nat d < 36)%nat) by lia.
  revert Hn. generalize (N.to_nat d). intros n Hn.
  do 36 (destruct n as [|n]; [reflexivity|]). lia.
Qed.

Lemma toRadix36_chars fuel n acc :
  UrlParser.allChars isTokenChar acc = true ->
  UrlParser.allChars isTokenChar (JS.toRadix36 fuel n acc) = true.
Proof.
  revert n acc. induction fuel as [|f IH]; intros n acc H; simpl; auto.
  assert (Hd : isTokenChar (JS.digit36 (n mod 36)) = true)
    by (apply digit36_token, N.mod_lt; lia).
  destruct (n / 36 =? 0)%N.
  - simpl. now rewrite Hd.
  - apply IH. simpl. now rewrite Hd.
Qed.

Lemma toString36_chars n :
  UrlParser.allChars isTokenChar (JS.toString36 n) = true.
Proof. apply toRadix36_chars. reflexivity. Qed.

Lemma digitValue_digit36 d :
  (d < 36)%N -> JS.digitValue 36 (JS.digit36 d) = Some (Z.of_N d).
Proof.
  intros H. assert (E : d = N.of_nat (N.to_nat d)) by lia.
  rewrite E. assert (Hn : (N.to_nat d < 36)%nat) by lia.
  revert Hn. generalize (N.to_nat d). intros n Hn.
  do 36 (destruct n as [|n]; [reflexivity|]). lia.
Qed.

Lemma toRadix36_step f n acc :
  JS.toRadix36 (S f) n acc
  = if (n / 36 =? 0)%N then String (JS.digit36 (n mod 36)) acc
    else JS.toRadix36 f (n / 36) (String (JS.digit36 (n mod 36)) acc).
Proof. reflexivity. Qed.

Lemma digits_digit36 n rest :
  JS.digits 36 (Some (Z.of_N (n / 36)))
    (String (JS.digit36 (n mod 36)) rest)
  = JS.digits 36 (Some (Z.of_N n)) rest.
Proof.
  cbn [JS.digits].
  rewrite digitValue_digit36 by (apply N.mod_lt; lia).
  do 2 f_equal. pose proof (N.div_mod n 36). lia.
Qed.

(** Reading the digits that [toRadix36] writes gives the number back,
    as soon as the fuel covers the number of digits. *)
Lemma toRadix36_reads_back f n rest :
  (n < 36 ^ N.of_nat (S f))%N ->
  JS.digits 36 None (JS.toRadix36 (S f) n rest)
  = JS.digits 36 (Some (Z.of_N n)) rest.
Proof.
  revert n rest. induction f as [|f IH]; intros n rest Hn;
    rewrite toRadix36_step;
    destruct (N.eqb_spec (n / 36) 0) as [E|E].
  - cbn [JS.digits].
    rewrite digitValue_digit36 by (apply N.mod_lt; lia).
    do 2 f_equal. pose proof (N.div_mod n 36). lia.
  - exfalso. apply E, N.div_small. exact Hn.
  - cbn [JS.digits].
    rewrite digitValue_digit36 by (apply N.mod_lt; lia).
    do 2 f_equal. pose proof (N.div_mod n 36). lia.
  - rewrite IH.
    + apply digits_digit36.
    + apply N.Div0.div_lt_upper_bound.
      replace (N.of_nat (S (S f))) with (N.succ (N.of_nat (S f)))
        in Hn by lia.
      now rewrite N.pow_succ_r' in Hn.
Qed.

(** The fuel of [toString36] is enough: the token reads back, in radix
    36, as the number it was made from. *)
Lemma toString36_reads_back n :
  JS.digits 36 None (JS.toString36 n) = Some (Z.of_N n).
Proof.
  unfold JS.toString36. rewrite toRadix36_reads_back; [reflexivity|].
  destruct (N.eq_dec n 0) as [->|Hz]; [reflexivity|].
  assert (Hl : (n < 2 ^ N.succ (N.log2 n))%N)
    by (apply N.log2_spec; lia).
  replace (N.of_nat (S (N.to_nat (N.log2 n)))) with (N.succ (N.log2 n))
    by lia.
  eapply N.lt_le_trans; [exact Hl|].
  apply N.pow_le_mono_l. lia.
Qed.

(** Distinct draws give distinct tokens. *)
Lemma toString36_inj n m : JS.toString36 n = JS.toString36 m -> n = m.
Proof.
  intros E. pose proof (toString36_reads_back n) as Hn.
  rewrite E, toString36_reads_back in Hn. injection Hn as Hn. lia.
Qed.


Lemma lowerChar_token c : isTokenChar c = true -> JS.lowerChar c = c.
Proof.
  destruct c as [[] [] [] [] [] [] [] []]; vm_compute; congruence.
Qed.

Lemma toLowerCase_token s :
  UrlParser.allChars isTokenChar s = true -> JS.toLowerCase s = s.
Proof.
  induction s as [|c s IH]; simpl; auto.
  rewrite andb_true_iff. intros [Hc Hs].
  now rewrite lowerChar_token, IH.
Qed.

(** ** Short urls parse back to their key *)

Lemma firstSplit_of_find url s r :
  JS.find "://" url = Some (String.length s) -> url = s ++ "://" ++ r ->
  ParseSpec.firstSplit url s r.
Proof.
  intros F E. split; auto. intros s' r' E'.
  pose proof (find_spec "://" url) as Sp. rewrite F in Sp.
  destruct Sp as (h & t & _ & _ & Hmin). eauto.
Qed.

Lemma find_sep_http x : JS.find "://" ("http" ++ "://" ++ x) = Some 4%nat.
Proof.
  simpl append. do 4 (rewrite find_cons; cbn [String.prefix];
                      simpl ascii_dec; cbv iota; cbn [option_map]).
  rewrite find_cons.
  replace (String.prefix "://" (String ":" (String "/" (String "/" x))))
    with true by (symmetry; apply prefix_app; now exists x).
  reflexivity.
Qed.

Lemma find_sep_https x : JS.find "://" ("https" ++ "://" ++ x) = Some 5%nat.
Proof.
  simpl append. do 5 (rewrite find_cons; cbn [String.prefix];
                      simpl ascii_dec; cbv iota; cbn [option_map]).
  rewrite find_cons.
  replace (String.prefix "://" (String ":" (String "/" (String "/" x))))
    with true by (symmetry; apply prefix_app; now exists x).
  reflexivity.
Qed.

Lemma reHttps_cases s :
  UrlParser.reHttps s = true <-> s = "http" \/ s = "https".
Proof.
  unfold UrlParser.reHttps. now rewrite orb_true_iff, !String.eqb_eq.
Qed.

Section ShortUrls.
Import UrlParser Mongo Engine EngineView Fresh.

Variable SB : string.
Hypothesis base_ok : plainBase SB.

Lemma base_no_slash : ~ InStr "/" SB.
Proof. destruct base_ok as (V & C & _). now apply validBase_no_slash. Qed.

Lemma base_first_char : exists c t, SB = String c t /\ c <> "/"%char.
Proof.
  destruct base_ok as (V & C & _).
  destruct (validBase_chars SB V C) as [Hn Hc].
  destruct SB as [|c t] eqn:E; [congruence|].
  exists c, t. split; auto. intros ->.
  specialize (Hc "/"%char). rewrite InStr_cons in Hc.
  discriminate Hc. now left.
Qed.

(** The short url [sch://SB/tok] parses, with domain [SB] and key
    [SB/tok]. *)
Lemma parse_short sch tok :
  sch = "http" \/ sch = "https" ->
  allChars isTokenChar tok = true ->
  parse reHttps (sch ++ "://" ++ SB ++ "/" ++ tok)
  = mkParts (Some sch) (Some SB) (Some SB) (Some ("/" ++ tok))
      (Some (SB ++ "/" ++ tok)) (sch ++ "://" ++ SB ++ "/" ++ tok) None.
Proof.
  intros Hsch Htok.
  pose proof base_no_slash as Hns.
  destruct base_first_char as (c & t & Ec & Hc).
  destruct base_ok as (V & C & Low).
  assert (Hs : ParseSpec.firstSplit (sch ++ "://" ++ SB ++ "/" ++ tok)
                 sch (SB ++ "/" ++ tok)).
  { apply firstSplit_of_find; auto.
    destruct Hsch as [-> | ->];
      [apply find_sep_http | apply find_sep_https]. }
  unfold parse. rewrite (getUrlParts_split _ _ _ Hs).
  assert (E1 : String.eqb sch "" = false)
    by (destruct Hsch as [-> | ->]; reflexivity).
  assert (E2 : String.eqb (SB ++ "/" ++ tok) "" = false)
    by (rewrite Ec; reflexivity).
  assert (E3 : JS.charIs (JS.charAt (SB ++ "/" ++ tok) 0) "/" = false).
  { rewrite Ec. unfold JS.charIs, JS.charAt. simpl.
    now apply Ascii.eqb_neq. }
  rewrite E1, E2, E3. simpl orb.
  assert (Eb : before "/" (SB ++ "/" ++ tok) = SB)
    by (now apply before_app).
  rewrite Eb, Low, V. unfold ParsedView.parsed. rewrite Eb, Low.
  assert (Els : JS.toLowerCase sch = sch)
    by (destruct Hsch as [-> | ->]; reflexivity).
  assert (Elr : JS.toLowerCase (SB ++ "/" ++ tok) = SB ++ "/" ++ tok).
  { rewrite !toLowerCase_app, Low, (toLowerCase_token tok Htok).
    reflexivity. }
  assert (Ed : before ":" SB = SB) by (now apply before_none).
  assert (Er : fromFirst "/" (SB ++ "/" ++ tok) = Some ("/" ++ tok)).
  { clear -Hns. induction SB as [|d s IH]; [reflexivity|].
    rewrite InStr_cons in Hns. simpl.
    destruct (Ascii.eqb_spec d "/") as [->|_]; [tauto|].
    apply IH. tauto. }
  rewrite Els, Elr, Ed, Er.
  unfold validateScheme. simpl scheme. simpl JS.toStr.
  replace (reHttps sch) with true
    by (symmetry; now apply reHttps_cases).
  reflexivity.
Qed.

(** The key of a url whose domain is not the base is no short url. *)
Lemma key_not_short L t :
  error (parse reHttps L) = None ->
  domainIsBase SB (parse reHttps L) = false ->
  baseRest (parse reHttps L) <> Some (SB ++ "/" ++ t).
Proof.
  intros E D K. destruct (parse_ok_view _ _ E) as (s & r & _ & P & _).
  rewrite P in D, K. unfold ParsedView.parsed in D, K.
  simpl in K. inversion K as [K']. clear K.
  unfold domainIsBase in D. simpl domain in D.
  rewrite toLowerCase_before_slash, K' in D.
  rewrite before_app in D by apply base_no_slash.
  destruct base_ok as (_ & C & _).
  rewrite before_none in D by assumption.
  now rewrite String.eqb_refl in D.
Qed.

End ShortUrls.

(** ** Runs without collisions keep the keys apart *)

Section DistinctKeys.
Import UrlParser Mongo Engine EngineView Fresh.
Local Open Scope list_scope.

Variable SB : string.
Hypothesis base_ok : plainBase SB.

Lemma distinctKeys_ext col col' :
  map longUrl col' = map longUrl col ->
  map shortUrl col' = map shortUrl col ->
  distinctKeys SB col -> distinctKeys SB col'.
Proof. unfold distinctKeys. intros -> ->. auto. Qed.

Lemma distinctKeys_nil : distinctKeys SB [].
Proof.
  repeat split; simpl; try tauto. constructor.
Qed.

Lemma distinctKeys_tail x col :
  distinctKeys SB (x :: col) -> distinctKeys SB col.
Proof.
  intros (A & B & C). repeat split.
  - intros s Hs. apply A. simpl; auto.
  - intros l s Hl Hs. apply B; simpl; auto.
  - now inversion C.
Qed.

(** With distinct keys, the short url of a stored document finds that
    document. *)
Lemma find_by_short col d :
  distinctKeys SB col -> In d col ->
  List.find (orFilter (Some (shortUrl d))) col = Some d.
Proof.
  induction col as [|x col IH]; intros Inv Hin; [destruct Hin|].
  destruct Hin as [->|Hin].
  - simpl. rewrite String.eqb_refl, orb_true_r. reflexivity.
  - cbn [List.find]. destruct Inv as (A & B & C).
    assert (Hl : longUrl x <> shortUrl d).
    { apply B; simpl; auto. right. now apply in_map. }
    assert (Hs : shortUrl x <> shortUrl d).
    { inversion C as [|? ? Hn _]; subst. intros E. apply Hn.
      rewrite E. now apply in_map. }
    apply String.eqb_neq in Hl, Hs. unfold orFilter at 1.
    rewrite Hl, Hs. simpl.
    apply IH; auto. apply (distinctKeys_tail x). repeat split; auto.
Qed.

Lemma unused_spec rnd col :
  unused SB rnd col = true
  <-> forall x, In x col ->
                longUrl x <> shortFor SB rnd
                /\ shortUrl x <> shortFor SB rnd.
Proof.
  unfold unused. rewrite negb_true_iff. split.
  - intros H x Hx.
    destruct (orFilter (Some (shortFor SB rnd)) x) eqn:O.
    + assert (existsb (orFilter (Some (shortFor SB rnd))) col = true)
        by (apply existsb_exists; eauto). congruence.
    + unfold orFilter in O. apply orb_false_iff in O as [O1 O2].
      now apply String.eqb_neq in O1, O2.
  - intros H. destruct (existsb _ col) eqn:Ex; auto.
    apply existsb_exists in Ex as (x & Hx & O).
    destruct (H x Hx) as [H1 H2]. apply String.eqb_neq in H1, H2.
    unfold orFilter in O. rewrite H1, H2 in O. discriminate.
Qed.

Lemma map_shortUrl_update l1 (d d' : doc) l2 :
  shortUrl d' = shortUrl d ->
  map shortUrl (l1 ++ d' :: l2) = map shortUrl (l1 ++ d :: l2).
Proof. intros H. rewrite !map_app. simpl. now rewrite H. Qed.

(** A new document with an unused short url keeps the keys distinct. *)
Lemma distinctKeys_insert rnd L col :
  distinctKeys SB col ->
  error (parse reHttps L) = None ->
  domainIsBase SB (parse reHttps L) = false ->
  List.find (orFilter (baseRest (parse reHttps L))) col = None ->
  unused SB rnd col = true ->
  distinctKeys SB (col ++ [newDoc SB (parse reHttps L) rnd col]).
Proof.
  intros (A & B & C) E D F U.
  destruct (parse_ok_baseRest _ _ E) as (s & r & _ & _ & Hk).
  pose proof (key_not_short SB base_ok L (JS.toString36 rnd) E D) as Kn.
  rewrite Hk in F, Kn.
  pose proof (proj1 (find_none _ _) F) as Fn.
  pose proof (proj1 (unused_spec rnd col) U) as Un.
  unfold distinctKeys. rewrite !map_app. simpl. rewrite Hk. simpl.
  fold (shortFor SB rnd).
  repeat split.
  - intros s0 Hs.
    apply in_app_or in Hs as [Hs|[<-|[]]]; [eauto|].
    exists rnd. reflexivity.
  - intros l s0 Hl Hs.
    apply in_app_or in Hl as [Hl|[<-|[]]];
      apply in_app_or in Hs as [Hs|[<-|[]]].
    + now apply B.
    + apply in_map_iff in Hl as (x & <- & Hx). now apply Un.
    + apply in_map_iff in Hs as (x & <- & Hx).
      specialize (Fn x Hx). unfold orFilter in Fn.
      apply orb_false_iff in Fn as [_ Fn].
      apply String.eqb_neq in Fn. congruence.
    + intros Heq. apply Kn. now rewrite Heq.
  - apply NoDup_app; [assumption | repeat constructor; simpl; tauto |].
    intros k Hin [<-|[]].
    apply in_map_iff in Hin as (x & Hx & Hin).
    destruct (Un x Hin) as [_ Hn]. apply Hn. now rewrite Hx.
Qed.

Lemma run_distinctKeys c col :
  distinctKeys SB col ->
  match c with
  | Add rnd _ => if inserts SB c col then unused SB rnd col else true
  | _ => true
  end = true ->
  distinctKeys SB (snd (run SB c col)).
Proof.
  intros Inv Hf. destruct c as [rnd u|u|u|u]; simpl.
  - pose proof (add_eq SB rnd u col) as Eq. cbv zeta in Eq.
    destruct (error (parse reHttps u)) eqn:E;
      [now rewrite Eq|].
    destruct (domainIsBase SB (parse reHttps u)) eqn:D;
      [now rewrite Eq|].
    destruct (List.find _ col) as [d|] eqn:F.
    + destruct (find_split _ _ _ F) as (l1 & l2 & -> & H1 & H2).
      rewrite Eq. simpl.
      rewrite updateOne_found
        with (flt := orFilter (baseRest (parse reHttps u)))
        by assumption.
      eapply distinctKeys_ext; [| |exact Inv].
      * now apply map_longUrl_update.
      * now apply map_shortUrl_update.
    + unfold inserts in Hf. simpl run in Hf. rewrite Eq in Hf |- *.
      simpl in Hf |- *. rewrite List.length_app in Hf. simpl in Hf.
      replace (List.length col <? List.length col + 1)%nat with true in Hf
        by (symmetry; apply Nat.ltb_lt; lia).
      now apply distinctKeys_insert.
  - destruct (query_effect SB u col)
      as [[-> _]|(l1 & d & l2 & -> & -> & _)]; auto.
    eapply distinctKeys_ext; [| |exact Inv].
    + now apply map_longUrl_update.
    + now apply map_shortUrl_update.
  - now rewrite count_effect.
  - destruct (deactivate_effect SB u col)
      as [->|(l1 & d & l2 & -> & ->)]; auto.
    eapply distinctKeys_ext; [| |exact Inv].
    + now apply map_longUrl_update.
    + now apply map_shortUrl_update.
Qed.

Lemma runAll_distinctKeys cs col :
  distinctKeys SB col -> collisionFree SB cs col = true ->
  distinctKeys SB (runAll SB cs col).
Proof.
  revert col. induction cs as [|c cs IH]; intros col Inv Hf; simpl; auto.
  simpl in Hf. apply andb_true_iff in Hf as [H1 H2].
  apply IH; auto. now apply run_distinctKeys.
Qed.

End DistinctKeys.

(** ** The round trip *)

Section RoundTrip.
Import UrlParser Mongo Engine EngineView Fresh.
Local Open Scope list_scope.

Variable SB : string.
Hypothesis base_ok : plainBase SB.

Lemma toLowerCase_split L s r :
  ParseSpec.firstSplit L s r ->
  JS.toLowerCase L
  = (JS.toLowerCase s ++ "://" ++ JS.toLowerCase r)%string.
Proof. intros [-> _]. now rewrite !toLowerCase_app. Qed.

(** After [add], the short url returned finds an active document whose
    long url is the key of the url added. *)
Lemma add_then_lookup col rnd L s r :
  distinctKeys SB col ->
  unused SB rnd col = true ->
  error (parse reHttps L) = None ->
  domainIsBase SB (parse reHttps L) = false ->
  scheme (parse reHttps L) = Some (JS.toLowerCase s) ->
  baseRest (parse reHttps L) = Some (JS.toLowerCase r) ->
  exists r0 d1,
    fst (add SB rnd L col)
    = Fulfilled (Obj (Value (VString
        (JS.toLowerCase s ++ "://" ++ shortFor SB r0)%string)))
    /\ List.find (orFilter (Some (shortFor SB r0))) (snd (add SB rnd L col))
       = Some d1
    /\ active d1 = true
    /\ longUrl d1 = JS.toLowerCase r.
Proof.
  intros Inv U E D Hsch Hk.
  rewrite add_eq. cbv zeta. rewrite E, D.
  destruct (List.find _ col) as [d|] eqn:F.
  - destruct (find_split _ _ _ F) as (l1 & l2 & Hcol & H1 & H2).
    subst col. simpl fst. simpl snd.
    rewrite updateOne_found
      with (flt := orFilter (baseRest (parse reHttps L))) by assumption.
    destruct Inv as (A & B & C).
    destruct (A (shortUrl d)) as [r0 Hr0].
    { apply in_map, in_or_app. right. now left. }
    exists r0, (setActive true d).
    assert (Hlong : longUrl d = JS.toLowerCase r).
    { rewrite Hk in H2. unfold orFilter in H2.
      apply orb_true_iff in H2 as [H2|H2]; apply String.eqb_eq in H2; auto.
      exfalso.
      apply (key_not_short SB base_ok L (JS.toString36 r0) E D).
      rewrite Hk, <- H2, Hr0. reflexivity. }
    split; [|split; [|split]]; auto.
    + unfold shortOf. now rewrite Hsch, Hr0.
    + rewrite <- Hr0.
      change (shortUrl d) with (shortUrl (setActive true d)).
      apply (find_by_short SB).
      * eapply distinctKeys_ext; [| |exact (conj A (conj B C))].
        -- now apply map_longUrl_update.
        -- now apply map_shortUrl_update.
      * apply in_or_app. right. now left.
  - simpl fst. simpl snd.
    exists rnd, (newDoc SB (parse reHttps L) rnd col).
    split; [|split; [|split]]; auto.
    + unfold shortOf. now rewrite Hsch.
    + change (shortFor SB rnd)
        with (shortUrl (newDoc SB (parse reHttps L) rnd col)).
      apply (find_by_short SB).
      * now apply distinctKeys_insert.
      * apply in_or_app. right. now left.
    + simpl. now rewrite Hk.
Qed.

(** [query] on a url that parses with the base as domain and finds an
    active document. *)
Lemma query_found S col sch k d :
  error (parse reHttps S) = None ->
  domain (parse reHttps S) = Some SB ->
  scheme (parse reHttps S) = Some sch ->
  baseRest (parse reHttps S) = Some k ->
  List.find (orFilter (Some k)) col = Some d ->
  active d = true ->
  fst (query SB S col)
  = Fulfilled (Obj (Value (VString (sch ++ "://" ++ longUrl d)%string))).
Proof.
  intros He Hd Hs Hk Hf Ha. rewrite query_eq. cbv zeta.
  unfold domainIsBase, longOf.
  rewrite He, Hd, String.eqb_refl, Hk, Hf, Ha, Hs. reflexivity.
Qed.

End RoundTrip.

(** C2, as the code has it. For a shortener base that is a valid host in
    lower case without port, a collection built from the empty one without
    token collisions, a draw whose token is not in use, and every url [L]
    that parses with a domain other than the base: [add(L)] succeeds with
    some [S], and [query(S)] right after returns [L] in lower case. *)
Theorem round_trip_lower_case
  (SB : string) (cs : list Engine.call) (rnd : N) (L : string) :
  Fresh.plainBase SB ->
  Fresh.collisionFree SB cs [] = true ->
  Fresh.unused SB rnd (Engine.runAll SB cs []) = true ->
  UrlParser.error (UrlParser.parse UrlParser.reHttps L) = None ->
  Engine.domainIsBase SB (UrlParser.parse UrlParser.reHttps L) = false ->
  exists S,
    fst (Engine.add SB rnd L (Engine.runAll SB cs []))
    = Engine.Fulfilled (Engine.Obj (Value (VString S)))
    /\ fst (Engine.query SB S
              (snd (Engine.add SB rnd L (Engine.runAll SB cs []))))
       = Engine.Fulfilled
           (Engine.Obj (Value (VString (JS.toLowerCase L)))).
Proof.
  intros Hb Hf U E D.
  set (col := Engine.runAll SB cs []) in *.
  assert (Inv : Fresh.distinctKeys SB col)
    by (apply runAll_distinctKeys; auto using distinctKeys_nil).
  destruct (parse_ok_view _ _ E) as (s & r & Hs & P & _ & _ & _ & _ & Ha).
  assert (Hsch : UrlParser.scheme (UrlParser.parse UrlParser.reHttps L)
                 = Some (JS.toLowerCase s)) by (now rewrite P).
  assert (Hk : UrlParser.baseRest (UrlParser.parse UrlParser.reHttps L)
               = Some (JS.toLowerCase r)) by (now rewrite P).
  destruct (add_then_lookup SB Hb col rnd L s r Inv U E D Hsch Hk)
    as (r0 & d1 & Hadd & Hfind & Hact & Hlong).
  eexists. split; [exact Hadd|].
  pose proof (parse_short SB Hb (JS.toLowerCase s) (JS.toString36 r0)
                (proj1 (reHttps_cases _) Ha) (toString36_chars r0)) as Ps.
  unfold Fresh.shortFor in *.
  rewrite (query_found SB _ _ (JS.toLowerCase s)
             (SB ++ "/" ++ JS.toString36 r0) d1); auto;
    try (rewrite Ps; reflexivity).
  rewrite Hlong. now rewrite (toLowerCase_split _ _ _ Hs).
Qed.

(** The round trip does not give back the input as written: upper-case
    letters come back in lower case. *)
Lemma round_trip_changes_case :
  fst (Engine.add "short.ly" 12345 "http://Example.com/Page" [])
  = Engine.Fulfilled (Engine.Obj (Value (VString "http://short.ly/9ix")))
  /\ fst (Engine.query "short.ly" "http://short.ly/9ix"
            (snd (Engine.add "short.ly" 12345 "http://Example.com/Page" [])))
     = Engine.Fulfilled
         (Engine.Obj (Value (VString "http://example.com/page")))
  /\ "http://example.com/page" <> "http://Example.com/Page".
Proof. repeat split. discriminate. Qed.

(** ** Rejections and the domain guards *)

Section Guards.
Import UrlParser Mongo Engine EngineView.

Variable SB : string.

(** [add] on a url whose domain is the base calls [this.setErrMsg], which
    the class does not define: the promise is rejected. *)
Lemma add_rejects_iff rnd L col e :
  fst (add SB rnd L col) = Rejected e
  <-> error (parse reHttps L) = None
      /\ domainIsBase SB (parse reHttps L) = true
      /\ e = TypeError "this.setErrMsg is not a function".
Proof.
  rewrite add_eq. cbv zeta.
  destruct (error (parse reHttps L));
    [split; [discriminate | intros (H & _); discriminate]|].
  destruct (domainIsBase SB (parse reHttps L)).
  - simpl. split; [intros H; inversion H; auto|].
    intros (_ & _ & ->). reflexivity.
  - destruct (List.find _ col); simpl;
      (split; [discriminate | intros (_ & H & _); discriminate]).
Qed.

(** [add] never answers with a [DOMAIN] error. *)
Lemma add_never_domain rnd L col e :
  fst (add SB rnd L col) = Fulfilled (Obj (Error e)) ->
  code e = "URL_SYNTAX".
Proof.
  rewrite add_eq. cbv zeta.
  destruct (error (parse reHttps L)) as [e'|] eqn:E.
  - simpl. intros H. inversion H; subst.
    eapply parse_error_code; eauto.
  - destruct (domainIsBase SB (parse reHttps L)); [discriminate|].
    destruct (List.find _ col); discriminate.
Qed.

(** [query], [count] and [deactivate] always answer with an object. *)
Lemma query_fulfils u col : exists r, fst (query SB u col) = Fulfilled (Obj r).
Proof.
  rewrite query_eq. cbv zeta.
  destruct (error (parse reHttps u)); [eexists; reflexivity|].
  destruct (domainIsBase SB (parse reHttps u));
    [|eexists; reflexivity].
  destruct (List.find _ col) as [d|]; [|eexists; reflexivity].
  destruct (active d); eexists; reflexivity.
Qed.

Lemma count_fulfils u col : exists r, fst (count SB u col) = Fulfilled (Obj r).
Proof.
  rewrite count_eq. cbv zeta.
  destruct (error (parse reHttps u)); [eexists; reflexivity|].
  destruct (List.find _ col); eexists; reflexivity.
Qed.

Lemma deactivate_fulfils u col :
  exists r, fst (deactivate SB u col) = Fulfilled (Obj r).
Proof.
  rewrite deactivate_eq. cbv zeta.
  destruct (error (parse reHttps u)); [eexists; reflexivity|].
  destruct (List.find _ col); eexists; reflexivity.
Qed.

(** [query] answers [DOMAIN] exactly for a url that parses with a domain
    other than the base. *)
Lemma query_domain_iff u col :
  error (parse reHttps u) = None ->
  (exists e, fst (query SB u col) = Fulfilled (Obj (Error e))
             /\ code e = "DOMAIN")
  <-> domainIsBase SB (parse reHttps u) = false.
Proof.
  intros E. rewrite query_eq. cbv zeta. rewrite E.
  destruct (domainIsBase SB (parse reHttps u)).
  - split; [|discriminate]. intros (e & H & C). exfalso.
    destruct (List.find _ col) as [d|]; [destruct (active d)|];
      simpl in H; inversion H; subst; discriminate.
  - split; auto. intros _. eexists. split; reflexivity.
Qed.

End Guards.

(** C4. [add] on a url whose domain is the shortener base does not return
    a [DOMAIN] error: the call is rejected with a [TypeError]. *)
Theorem add_own_domain_is_rejected :
  Engine.add "short.ly" 12345 "http://short.ly/abc" []
  = (Engine.Rejected (Engine.TypeError "this.setErrMsg is not a function"),
     []).
Proof. reflexivity. Qed.

(** C8. On a url that parses with the shortener base as its domain, [add]
    gives no [DOMAIN] error but is rejected, while [query] on a url with
    another domain does give [DOMAIN]. *)
Theorem add_own_domain_gives_no_domain_error :
  UrlParser.error (UrlParser.parse UrlParser.reHttps "https://short.ly")
  = None
  /\ UrlParser.domain (UrlParser.parse UrlParser.reHttps "https://short.ly")
     = Some "short.ly"
  /\ fst (Engine.add "short.ly" 7 "https://short.ly" [])
     = Engine.Rejected (Engine.TypeError "this.setErrMsg is not a function")
  /\ fst (Engine.query "short.ly" "https://example.com" [])
     = Engine.Fulfilled
         (Engine.Obj
            (Error
               (mkErr "DOMAIN"
                  "DOMAIN: domain of url example.com not equal to short.ly"))).
Proof. repeat split. Qed.

(** ** Which urls share an association *)

Section Keys.
Import UrlParser Mongo Engine EngineView Fresh.
Local Open Scope list_scope.

Variable SB : string.

(** [add] of a url whose key is not stored appends its document. *)
Lemma add_new rnd L col k :
  error (parse reHttps L) = None ->
  domainIsBase SB (parse reHttps L) = false ->
  baseRest (parse reHttps L) = Some k ->
  List.find (orFilter (Some k)) col = None ->
  snd (add SB rnd L col)
  = col ++ [mkDoc (N.of_nat (List.length col)) k (shortFor SB rnd) true 0%N].
Proof.
  intros E D K F. rewrite add_eq. cbv zeta. rewrite E, D, K, F.
  unfold newDoc. now rewrite K.
Qed.

(** [add] of a url whose key is the long url of the last document, and
    of no earlier one, changes nothing when that document is active. *)
Lemma add_last rnd L col k d :
  error (parse reHttps L) = None ->
  domainIsBase SB (parse reHttps L) = false ->
  baseRest (parse reHttps L) = Some k ->
  List.find (orFilter (Some k)) col = None ->
  longUrl d = k -> active d = true ->
  snd (add SB rnd L (col ++ [d])) = col ++ [d].
Proof.
  intros E D K F Hl Ha. rewrite add_eq. cbv zeta. rewrite E, D, K.
  assert (Hd : orFilter (Some k) d = true)
    by (unfold orFilter; now rewrite Hl, String.eqb_refl).
  rewrite find_at by (auto; now apply find_none).
  simpl. rewrite updateOne_found with (flt := orFilter (Some k));
    auto; [|now apply find_none].
  destruct d; simpl in *. now subst.
Qed.

End Keys.

(** C10, as the code has it. The key under which [add] stores an
    association is the text after the first [://], in lower case: the
    scheme is no part of it and nothing else is normalized.  For a plain
    shortener base and two urls that parse with a domain other than the
    base and whose keys are not stored yet: when the keys differ, the two
    [add] calls store two associations, each with the short url of its own
    draw; when the keys are equal, they store one. *)
Theorem add_keys_on_lower_cased_rest
  (SB : string) (col : Mongo.collection) (rnd1 rnd2 : N)
  (L1 L2 k1 k2 : string) :
  Fresh.plainBase SB ->
  UrlParser.error (UrlParser.parse UrlParser.reHttps L1) = None ->
  UrlParser.error (UrlParser.parse UrlParser.reHttps L2) = None ->
  Engine.domainIsBase SB (UrlParser.parse UrlParser.reHttps L1) = false ->
  Engine.domainIsBase SB (UrlParser.parse UrlParser.reHttps L2) = false ->
  UrlParser.baseRest (UrlParser.parse UrlParser.reHttps L1) = Some k1 ->
  UrlParser.baseRest (UrlParser.parse UrlParser.reHttps L2) = Some k2 ->
  List.find (Mongo.orFilter (Some k1)) col = None ->
  List.find (Mongo.orFilter (Some k2)) col = None ->
  let n := N.of_nat (List.length col) in
  let doc1 := Mongo.mkDoc n k1 (Fresh.shortFor SB rnd1) true 0%N in
  let doc2 := Mongo.mkDoc (n + 1)%N k2 (Fresh.shortFor SB rnd2) true 0%N in
  let col2 := snd (Engine.add SB rnd2 L2 (snd (Engine.add SB rnd1 L1 col))) in
  (forall s r, ParseSpec.firstSplit L1 s r -> k1 = JS.toLowerCase r)
  /\ (forall s r, ParseSpec.firstSplit L2 s r -> k2 = JS.toLowerCase r)
  /\ (k1 <> k2 -> col2 = (col ++ [doc1; doc2])%list)
  /\ (k1 = k2 -> col2 = (col ++ [doc1])%list).
Proof.
  intros Hb E1 E2 D1 D2 K1 K2 F1 F2 n doc1 doc2 col2.
  assert (Hkey : forall L k s r,
             UrlParser.error (UrlParser.parse UrlParser.reHttps L) = None ->
             UrlParser.baseRest (UrlParser.parse UrlParser.reHttps L)
             = Some k ->
             ParseSpec.firstSplit L s r -> k = JS.toLowerCase r).
  { intros L k s r E K Hs.
    destruct (parse_ok_baseRest _ _ E) as (s' & r' & Hs' & _ & K').
    destruct (firstSplit_unique _ _ _ _ _ Hs Hs') as [_ ->]. congruence. }
  split; [intros s r; now apply (Hkey L1)|].
  split; [intros s r; now apply (Hkey L2)|].
  subst col2. rewrite (add_new SB rnd1 L1 col k1 E1 D1 K1 F1).
  fold n. fold doc1. split.
  - intros Hne.
    assert (F : List.find (Mongo.orFilter (Some k2)) (col ++ [doc1])%list
                = None).
    { apply find_none. intros x Hx.
      apply in_app_or in Hx as [Hx|[<-|[]]].
      - now apply (proj1 (find_none _ _) F2).
      - unfold Mongo.orFilter. simpl. apply orb_false_iff. split.
        + apply String.eqb_neq. congruence.
        + apply String.eqb_neq. intros Hs.
          apply (key_not_short SB Hb L2 (JS.toString36 rnd1) E2 D2).
          rewrite K2, <- Hs. reflexivity. }
    rewrite (add_new SB rnd2 L2 _ k2 E2 D2 K2 F).
    rewrite <- List.app_assoc. simpl. do 3 f_equal.
    rewrite List.length_app. simpl. subst n. unfold doc2. f_equal. lia.
  - intros <-.
    now apply (add_last SB rnd2 L2 col k1 doc1).
Qed.

(** Two urls that differ in the scheme, not only in letter case, share one
    association. *)
Lemma schemes_share_one_association :
  let col1 := snd (Engine.add "short.ly" 1 "http://a.com" []) in
  let col2 := snd (Engine.add "short.ly" 2 "https://a.com" col1) in
  JS.toLowerCase "http://a.com" <> JS.toLowerCase "https://a.com"
  /\ fst (Engine.add "short.ly" 1 "http://a.com" [])
     = Engine.Fulfilled (Engine.Obj (Value (VString "http://short.ly/1")))
  /\ fst (Engine.add "short.ly" 2 "https://a.com" col1)
     = Engine.Fulfilled (Engine.Obj (Value (VString "https://short.ly/1")))
  /\ col2 = [Mongo.mkDoc 0 "a.com" "short.ly/1" true 0].
Proof. repeat split. discriminate. Qed.

(** ** The text translation *)

Section Escaping.
Import Ws TranslateSpec.

Lemma replaceAll_app c b s t :
  replaceAll c b (s ++ t) = replaceAll c b s ++ replaceAll c b t.
Proof.
  induction s as [|d s IH]; simpl; auto.
  destruct (Ascii.eqb d c); simpl; rewrite IH; auto.
  now rewrite app_assoc.
Qed.

Lemma htmlEscape_app s t :
  htmlEscape true (s ++ t) = htmlEscape true s ++ htmlEscape true t.
Proof. unfold htmlEscape. now rewrite !replaceAll_app. Qed.

Lemma htmlEscape_char c :
  htmlEscape true (String c "") = escapeChar c.
Proof. destruct c as [[] [] [] [] [] [] [] []]; vm_compute; reflexivity. Qed.

(** The four replacements in a row escape each character on its own. *)
Lemma htmlEscape_escape b s :
  htmlEscape b s = if b then escape s else s.
Proof.
  destruct b; [|reflexivity].
  induction s as [|c s IH]; [reflexivity|].
  change (String c s) with (String c "" ++ s).
  rewrite htmlEscape_app, htmlEscape_char, IH. reflexivity.
Qed.

End Escaping.

Section Matching.
Import Ws TranslateSpec.

Lemma run_split f s :
  s = JS.take (run f s) s ++ JS.drop (run f s) s
  /\ (forall c, InStr c (JS.take (run f s) s) -> f c = true)
  /\ (forall c t, JS.drop (run f s) s = String c t -> f c = false).
Proof.
  induction s as [|d s (IH1 & IH2 & IH3)]; simpl.
  - split; [reflexivity|]. split; [intros c []|discriminate].
  - destruct (f d) eqn:Fd; simpl.
    + split; [now rewrite <- IH1|]. split; [|exact IH3].
      intros c Hc. apply InStr_cons in Hc as [<-|Hc]; auto.
    + split; [reflexivity|]. split; [intros c []|].
      intros c t E. inversion E; subst; auto.
Qed.

Lemma run_length f s : (run f s <= String.length s)%nat.
Proof. induction s as [|d s IH]; simpl; [lia|]. destruct (f d); simpl; lia. Qed.

Lemma run_app f s r :
  (forall c, InStr c s -> f c = true) ->
  (forall c t, r = String c t -> f c = false) ->
  run f (s ++ r) = String.length s.
Proof.
  intros Hs Hr. induction s as [|d s IH]; simpl.
  - destruct r as [|c t]; simpl; auto. now rewrite (Hr c t).
  - rewrite (Hs d) by (rewrite InStr_cons; auto). f_equal.
    apply IH. intros c Hc. apply Hs. rewrite InStr_cons; auto.
Qed.

Lemma letter_lower l u c :
  letter l u c = true <-> c = l \/ c = u.
Proof. unfold letter. now rewrite orb_true_iff, !Ascii.eqb_eq. Qed.

Lemma lower_is_h c : JS.lowerChar c = "h"%char <-> letter "h" "H" c = true.
Proof.
  rewrite <- Ascii.eqb_eq.
  assert (E : Ascii.eqb (JS.lowerChar c) "h" = letter "h" "H" c)
    by each_char c.
  now rewrite E.
Qed.

Lemma lower_is_t c : JS.lowerChar c = "t"%char <-> letter "t" "T" c = true.
Proof.
  rewrite <- Ascii.eqb_eq.
  assert (E : Ascii.eqb (JS.lowerChar c) "t" = letter "t" "T" c)
    by each_char c.
  now rewrite E.
Qed.

Lemma lower_is_p c : JS.lowerChar c = "p"%char <-> letter "p" "P" c = true.
Proof.
  rewrite <- Ascii.eqb_eq.
  assert (E : Ascii.eqb (JS.lowerChar c) "p" = letter "p" "P" c)
    by each_char c.
  now rewrite E.
Qed.

Lemma lower_is_s c : JS.lowerChar c = "s"%char <-> letter "s" "S" c = true.
Proof.
  rewrite <- Ascii.eqb_eq.
  assert (E : Ascii.eqb (JS.lowerChar c) "s" = letter "s" "S" c)
    by each_char c.
  now rewrite E.
Qed.

(** The schemes the pattern accepts, letter by letter. *)
Lemma lower_http sch :
  JS.toLowerCase sch = "http"
  <-> exists h t1 t2 p,
      sch = String h (String t1 (String t2 (String p "")))
      /\ letter "h" "H" h = true /\ letter "t" "T" t1 = true
      /\ letter "t" "T" t2 = true /\ letter "p" "P" p = true.
Proof.
  split.
  - intros H.
    destruct sch as [|h [|t1 [|t2 [|p [|x sch]]]]]; simpl in H;
      try discriminate.
    injection H as H1 H2 H3 H4.
    exists h, t1, t2, p. rewrite <- lower_is_h, <- !lower_is_t, <- lower_is_p.
    auto.
  - intros (h & t1 & t2 & p & -> & Hh & H1 & H2 & Hp). simpl.
    apply lower_is_h in Hh. apply lower_is_t in H1, H2.
    apply lower_is_p in Hp. now rewrite Hh, H1, H2, Hp.
Qed.

Lemma lower_https sch :
  JS.toLowerCase sch = "https"
  <-> exists h t1 t2 p s,
      sch = String h (String t1 (String t2 (String p (String s ""))))
      /\ letter "h" "H" h = true /\ letter "t" "T" t1 = true
      /\ letter "t" "T" t2 = true /\ letter "p" "P" p = true
      /\ letter "s" "S" s = true.
Proof.
  split.
  - intros H.
    destruct sch as [|h [|t1 [|t2 [|p [|s [|x sch]]]]]]; simpl in H;
      try discriminate.
    injection H as H1 H2 H3 H4 H5.
    exists h, t1, t2, p, s.
    rewrite <- lower_is_h, <- !lower_is_t, <- lower_is_p, <- lower_is_s.
    repeat split; assumption.
  - intros (h & t1 & t2 & p & s & -> & Hh & H1 & H2 & Hp & Hs). simpl.
    apply lower_is_h in Hh. apply lower_is_t in H1, H2.
    apply lower_is_p in Hp. apply lower_is_s in Hs.
    now rewrite Hh, H1, H2, Hp, Hs.
Qed.

Lemma matchTail_spec n s k :
  matchTail n s = Some k
  <-> exists t, s = "://" ++ t /\ run isUrlChar t <> O
                /\ k = (n + 3 + run isUrlChar t)%nat.
Proof.
  unfold matchTail. split.
  - destruct s as [|c1 [|c2 [|c3 t]]]; try discriminate;
      try (destruct c1 as [[] [] [] [] [] [] [] []]; discriminate).
    + destruct c1 as [[] [] [] [] [] [] [] []]; try discriminate;
        destruct c2 as [[] [] [] [] [] [] [] []]; discriminate.
    + destruct c1 as [[] [] [] [] [] [] [] []]; try discriminate;
        destruct c2 as [[] [] [] [] [] [] [] []]; try discriminate;
        destruct c3 as [[] [] [] [] [] [] [] []]; try discriminate.
      destruct (run isUrlChar t) eqn:R; [discriminate|].
      intros H; inversion H; subst. exists t. rewrite R. auto.
  - intros (t & -> & Hr & ->). simpl.
    destruct (run isUrlChar t); [congruence | reflexivity].
Qed.

End Matching.

Section MatchAt.
Import Ws TranslateSpec.

Lemma stops_drop_run s : stops (JS.drop (run isUrlChar s) s).
Proof. intros c t. apply run_split. Qed.

(** A match followed by text that stops is what [matchAt] finds. *)
Lemma matchAt_complete u r :
  isMatch u -> stops r -> matchAt (u ++ r) = Some (String.length u).
Proof.
  intros (sch & tail & -> & Hsch & Hne & Hch) Hr.
  assert (Hrun : run isUrlChar (tail ++ r) = String.length tail)
    by (now apply run_app).
  assert (Hpos : String.length tail <> O)
    by (rewrite string_empty_length; exact Hne).
  destruct Hsch as [H|H].
  - apply lower_http in H
      as (h & t1 & t2 & p & -> & Hh & H1 & H2 & Hp).
    rewrite !app_assoc. simpl append. unfold matchAt.
    rewrite Hh, H1, H2, Hp. simpl andb. cbv iota.
    change (letter "s" "S" ":") with false. cbv iota.
    apply matchTail_spec. exists (tail ++ r). rewrite Hrun.
    repeat split; auto; rewrite ?length_app; simpl; lia.
  - apply lower_https in H
      as (h & t1 & t2 & p & s & -> & Hh & H1 & H2 & Hp & Hs).
    rewrite !app_assoc. simpl append. unfold matchAt.
    rewrite Hh, H1, H2, Hp, Hs. simpl andb. cbv iota.
    assert (M : matchTail 5 (String ":" (String "/" (String "/" (tail ++ r))))
                = Some (5 + 3 + String.length tail)%nat).
    { apply matchTail_spec. exists (tail ++ r). rewrite Hrun. auto. }
    rewrite M. f_equal; rewrite ?length_app; simpl; lia.
Qed.

(** What [matchAt] finds is a match, as long as the class allows. *)
Lemma matchAt_sound s n :
  matchAt s = Some n ->
  exists u r, s = u ++ r /\ isMatch u /\ String.length u = n /\ stops r.
Proof.
  unfold matchAt.
  destruct s as [|h [|t1 [|t2 [|p rest]]]]; try discriminate.
  destruct (letter "h" "H" h) eqn:Hh; [|discriminate].
  destruct (letter "t" "T" t1) eqn:H1; [|discriminate].
  destruct (letter "t" "T" t2) eqn:H2; [|discriminate].
  destruct (letter "p" "P" p) eqn:Hp; [|discriminate].
  simpl andb. cbv iota.
  assert (Plain4 : matchTail 4 rest = Some n ->
            exists u r,
              String h (String t1 (String t2 (String p rest))) = u ++ r
              /\ isMatch u /\ String.length u = n /\ stops r).
  { intros M. apply matchTail_spec in M as (t & -> & Hr & ->).
    destruct (run_split isUrlChar t) as (Et & Hin & Hst).
    exists (String h (String t1 (String t2 (String p "")))
              ++ "://" ++ JS.take (run isUrlChar t) t),
      (JS.drop (run isUrlChar t) t).
    split; [|split; [|split]].
    - simpl. now rewrite <- Et.
    - exists (String h (String t1 (String t2 (String p "")))),
        (JS.take (run isUrlChar t) t).
      split; [reflexivity|]. split.
      + left. apply lower_http. exists h, t1, t2, p. auto.
      + split; auto. intros E. apply Hr.
        apply (f_equal String.length) in E. rewrite length_take in E.
        pose proof (run_length isUrlChar t). simpl in E. lia.
    - simpl. rewrite length_take.
      pose proof (run_length isUrlChar t). lia.
    - intros c t0. apply Hst. }
  destruct rest as [|c rest']; [exact Plain4|].
  destruct (letter "s" "S" c) eqn:Hs; [|exact Plain4].
  destruct (matchTail 5 rest') as [n'|] eqn:M5; [|exact Plain4].
  intros E. inversion E; subst n'. clear E Plain4.
  apply matchTail_spec in M5 as (t & -> & Hr & ->).
  destruct (run_split isUrlChar t) as (Et & Hin & Hst).
  exists (String h (String t1 (String t2 (String p (String c ""))))
            ++ "://" ++ JS.take (run isUrlChar t) t),
    (JS.drop (run isUrlChar t) t).
  split; [|split; [|split]].
  - simpl. now rewrite <- Et.
  - exists (String h (String t1 (String t2 (String p (String c ""))))),
      (JS.take (run isUrlChar t) t).
    split; [reflexivity|]. split.
    + right. apply lower_https. exists h, t1, t2, p, c.
      repeat split; auto.
    + split; auto. intros E. apply Hr.
      apply (f_equal String.length) in E. rewrite length_take in E.
      pose proof (run_length isUrlChar t). simpl in E. lia.
  - simpl. rewrite length_take.
    pose proof (run_length isUrlChar t). lia.
  - intros c0 t0. apply Hst.
Qed.

(** Where a match starts, [matchAt] finds one. *)
Lemma matchAt_starts s : startsMatch s -> matchAt s <> None.
Proof.
  intros (u & r & -> & (sch & tail & -> & Hsch & Hne & Hch)).
  destruct (run_split isUrlChar r) as (Er & Hin & Hst).
  set (k := run isUrlChar r) in *.
  assert (E : (sch ++ "://" ++ tail) ++ r
              = (sch ++ "://" ++ (tail ++ JS.take k r)) ++ JS.drop k r).
  { rewrite Er at 1. now rewrite !app_assoc. }
  rewrite E, matchAt_complete; [discriminate| |].
  - exists sch, (tail ++ JS.take k r). repeat split; auto.
    + destruct tail; [congruence | discriminate].
    + intros c Hc. apply InStr_app in Hc as [Hc|Hc]; auto.
  - intros c t. apply Hst.
Qed.

Lemma matchAt_none s : matchAt s = None <-> ~ startsMatch s.
Proof.
  split.
  - intros H Hs. now apply matchAt_starts in Hs.
  - intros H. destruct (matchAt s) as [n|] eqn:M; auto.
    exfalso. apply H. apply matchAt_sound in M as (u & r & E & Hu & _).
    now exists u, r.
Qed.

End MatchAt.

Section Searching.
Import Ws TranslateSpec.

Lemma drop_nil n : JS.drop n "" = "".
Proof. now destruct n. Qed.

Lemma search_none s pos :
  search s pos = None <-> forall i, matchAt (JS.drop i s) = None.
Proof.
  revert pos. induction s as [|c s IH]; intros pos.
  - simpl. split; [|reflexivity]. intros _ i. now rewrite drop_nil.
  - cbn [search]. split.
    + destruct (matchAt (String c s)) eqn:M; [discriminate|].
      intros H [|i]; [exact M|]. simpl. now apply (IH (S pos)).
    + intros H. pose proof (H O) as H0. cbn [JS.drop] in H0.
      rewrite H0. apply IH. intros i. apply (H (S i)).
Qed.

(** The leftmost match is found where it stands. *)
Lemma search_found p s n pos :
  (forall i, (i < String.length p)%nat ->
             matchAt (JS.drop i (p ++ s)) = None) ->
  matchAt s = Some n ->
  search (p ++ s) pos = Some ((pos + String.length p)%nat, n).
Proof.
  revert pos. induction p as [|c p IH]; intros pos Hp Hs.
  - simpl. destruct s; cbn [search]; rewrite Hs;
      now rewrite Nat.add_0_r.
  - pose proof (Hp O) as H0. cbn [JS.drop] in H0.
    simpl append in *. cbn [search].
    rewrite H0 by (simpl; lia).
    rewrite IH; auto.
    + simpl. f_equal. f_equal. lia.
    + intros i Hi. apply (Hp (S i)). simpl; lia.
Qed.

Lemma search_some s pos idx n :
  search s pos = Some (idx, n) ->
  exists k, idx = (pos + k)%nat /\ (k <= String.length s)%nat
            /\ matchAt (JS.drop k s) = Some n
            /\ forall i, (i < k)%nat -> matchAt (JS.drop i s) = None.
Proof.
  revert pos. induction s as [|c s IH]; intros pos.
  - simpl. discriminate.
  - cbn [search]. destruct (matchAt (String c s)) as [n'|] eqn:M.
    + intros H; inversion H; subst. exists O. simpl.
      repeat split; auto; lia.
    + intros H. destruct (IH _ H) as (k & -> & Hk & Hm & Hn).
      exists (S k). simpl. repeat split; auto; try lia.
      intros [|i] Hi; [exact M|]. simpl. apply Hn. lia.
Qed.

Lemma isMatch_length u : isMatch u -> (0 < String.length u)%nat.
Proof.
  intros (sch & tail & -> & _). rewrite !length_app. simpl. lia.
Qed.

(** Every text can be cut into plain text and matches. *)
Lemma scan_exists text : exists ps, scan text ps.
Proof.
  remember (String.length text) as n eqn:Hn.
  assert (Hle : (String.length text <= n)%nat) by lia. clear Hn.
  revert text Hle. induction n as [|n IH]; intros text Hle.
  - destruct text; [|simpl in Hle; lia].
    exists [Plain ""]. constructor. intros i. rewrite drop_nil.
    apply matchAt_none. reflexivity.
  - destruct (search text O) as [[idx k]|] eqn:S.
    + apply search_some in S as (j & _ & Hj & Hm & Hnone).
      apply matchAt_sound in Hm as (u & r & E & Hu & _ & Hr).
      pose proof (isMatch_length u Hu) as Hpos.
      assert (Et : text = JS.take j text ++ u ++ r)
        by (rewrite <- E; symmetry; apply take_drop).
      assert (Lp : String.length (JS.take j text) = j)
        by (rewrite length_take; lia).
      destruct (IH r) as [ps Hps].
      { apply (f_equal String.length) in Et.
        rewrite !length_app in Et. lia. }
      exists (Plain (JS.take j text) :: Link u :: ps).
      rewrite Et at 1. constructor; auto.
      intros i Hi. rewrite <- Et. apply matchAt_none, Hnone. lia.
    + exists [Plain text]. constructor. intros i.
      apply matchAt_none. now apply (proj1 (search_none text O)).
Qed.

End Searching.

Section Translation.
Import Ws TranslateSpec.

Variable state : Type.
Variable add : string -> state -> settled * state.

Lemma slice_middle done p s :
  slice (done ++ p ++ s) (String.length done)
    (String.length done + String.length p) = p.
Proof.
  unfold slice. rewrite drop_app_length.
  replace (String.length done + String.length p - String.length done)%nat
    with (String.length p) by lia.
  apply take_app_length.
Qed.

Lemma slice_rest done s :
  slice (done ++ s) (String.length done) (String.length (done ++ s)) = s.
Proof.
  unfold slice. rewrite drop_app_length, length_app.
  apply take_all. lia.
Qed.

(** The loop, started behind the text already handled, produces the
    rendering of the pieces of the text still to come. *)
Lemma loop_scan isHtml rest ps :
  scan rest ps ->
  forall done fuel acc m,
    (String.length rest < fuel)%nat ->
    exists sh li,
      loop state add fuel isHtml (done ++ rest) (String.length done)
        (String.length done) acc m
      = Some (sh, li, O, snd (render state add isHtml ps m))
      /\ sh ++ htmlEscape isHtml
                 (slice (done ++ rest) li (String.length (done ++ rest)))
         = acc ++ fst (render state add isHtml ps m).
Proof.
  induction 1 as [t Hnone | p u rest ps Hleft Hu Hstop Hscan IH];
    intros done fuel acc m Hfuel.
  - destruct fuel as [|fuel]; [lia|]. cbn [loop]. unfold exec.
    replace (String.length (done ++ t) <? String.length done)%nat
      with false
      by (symmetry; apply Nat.ltb_ge; rewrite length_app; lia).
    rewrite drop_app_length.
    replace (search t (String.length done)) with (@None (nat * nat))
      by (symmetry; apply search_none; intros i; now apply matchAt_none).
    exists acc, (String.length done). split; [reflexivity|].
    rewrite slice_rest, htmlEscape_escape. simpl.
    now rewrite app_empty_r.
  - destruct fuel as [|fuel]; [lia|]. cbn [loop]. unfold exec.
    replace (String.length (done ++ p ++ u ++ rest)
             <? String.length done)%nat with false
      by (symmetry; apply Nat.ltb_ge; rewrite length_app; lia).
    rewrite drop_app_length.
    rewrite (search_found p (u ++ rest) (String.length u));
      [| intros i Hi; now apply matchAt_none, Hleft
       | now apply matchAt_complete].
    assert (Ed : JS.drop (String.length done + String.length p)
                   (done ++ p ++ u ++ rest) = u ++ rest).
    { rewrite <- drop_drop, drop_app_length. apply drop_app_length. }
    rewrite Ed, take_app_length, slice_middle.
    simpl render. destruct (add u m) as [settle m1].
    specialize (IH (done ++ p ++ u) fuel).
    assert (Ea : (done ++ p ++ u) ++ rest = done ++ p ++ u ++ rest)
      by (now rewrite !app_assoc).
    assert (El : String.length (done ++ p ++ u)
                 = (String.length done + String.length p
                    + String.length u)%nat)
      by (rewrite !length_app; lia).
    rewrite Ea, El in IH.
    assert (Hf : (String.length rest < fuel)%nat).
    { pose proof (isMatch_length u Hu).
      rewrite !length_app in Hfuel. lia. }
    set (v := match settle with
              | Resolved v => valueText v
              | Failed => u
              end).
    destruct (render state add isHtml ps m1) as [out m2] eqn:R.
    destruct isHtml.
    + destruct (IH ((acc ++ htmlEscape true p) ++ anchor v) m1 Hf)
        as (sh & li & Hl & Hs).
      exists sh, li. rewrite R in Hl, Hs. cbn [fst snd] in Hl, Hs |- *.
      split; [exact Hl|]. rewrite Hs.
      rewrite htmlEscape_escape. now rewrite !app_assoc.
    + destruct (IH ((acc ++ htmlEscape false p) ++ v) m1 Hf)
        as (sh & li & Hl & Hs).
      exists sh, li. rewrite R in Hl, Hs. cbn [fst snd] in Hl, Hs |- *.
      split; [exact Hl|]. rewrite Hs. unfold htmlEscape.
      now rewrite !app_assoc.
Qed.

(** The handler renders any cut of the text into plain text and
    leftmost longest matches, and leaves the pattern rewound. *)
Lemma doTextShorten_scan isHtml text ps m :
  scan text ps ->
  doTextShorten state add isHtml text O m
  = Some (fst (render state add isHtml ps m), O,
          snd (render state add isHtml ps m)).
Proof.
  intros Hs. unfold doTextShorten.
  destruct (loop_scan isHtml text ps Hs "" (S (String.length text)) "" m)
    as (sh & li & Hl & Hsh); [lia|].
  change ("" ++ text) with text in Hl, Hsh.
  change (String.length "") with O in Hl.
  change ("" ++ fst (render state add isHtml ps m))
    with (fst (render state add isHtml ps m)) in Hsh.
  rewrite Hl, Hsh. reflexivity.
Qed.

End Translation.

(** C9, as the code has it. Every text has a cut into plain text and the
    leftmost, longest, non-overlapping matches of the url pattern, and for
    any such cut the handler answers its rendering, left to right: plain
    text verbatim, with [&], [<], [>] and the double quote escaped only
    under [isHtml]; a match for
    which [add] succeeds replaced by the value [add] gave; a match for
    which [add] fails kept as the url it was; and, under [isHtml], either
    of them inside an anchor tag.  The pattern is left rewound. *)
Theorem translate_renders_the_scan
  (state : Type) (add : string -> state -> Ws.settled * state)
  (isHtml : bool) (text : string) (m : state) :
  (exists ps, TranslateSpec.scan text ps)
  /\ forall ps,
      TranslateSpec.scan text ps ->
      Ws.doTextShorten state add isHtml text O m
      = Some (fst (TranslateSpec.render state add isHtml ps m), O,
              snd (TranslateSpec.render state add isHtml ps m)).
Proof.
  split; [apply scan_exists|]. intros ps. apply doTextShorten_scan.
Qed.

(** Under [isHtml] a url for which [add] fails is not left as it was: it
    comes back inside an anchor tag. *)
Lemma failed_url_gets_an_anchor :
  Ws.doTextShorten unit (fun _ m => (Ws.Failed, m)) true "http://x.y" O tt
  = Some (Ws.anchor "http://x.y", O, tt)
  /\ Ws.anchor "http://x.y" <> "http://x.y".
Proof. split; [reflexivity | discriminate]. Qed.

(** ** Syntax errors of the engine methods *)

Section SyntaxErrors.
Import UrlParser Mongo Engine EngineView.

Variable SB : string.

Lemma reHttps_empty : reHttps "" = false.
Proof. reflexivity. Qed.

(** A call answers [URL_SYNTAX] exactly when its url does not parse. *)
Lemma run_syntax_error c col :
  (exists e, fst (run SB c col) = Fulfilled (Obj (Error e))
             /\ code e = "URL_SYNTAX")
  <-> ParseSpec.fails reHttps (callUrl c).
Proof.
  rewrite <- (proj1 (parse_fails_iff reHttps (callUrl c) reHttps_empty)).
  destruct c as [rnd u|u|u|u]; simpl run; simpl callUrl.
  - rewrite add_eq. cbv zeta.
    destruct (error (parse reHttps u)) as [e|] eqn:E.
    + split; intros _; exists e; split; auto;
        eapply parse_error_code; eauto.
    + split; [|intros (e & H & _); discriminate].
      intros (e & H & _). exfalso.
      destruct (domainIsBase SB (parse reHttps u)); [discriminate|].
      destruct (List.find _ col); discriminate.
  - rewrite query_eq. cbv zeta.
    destruct (error (parse reHttps u)) as [e|] eqn:E.
    + split; intros _; exists e; split; auto;
        eapply parse_error_code; eauto.
    + split; [|intros (e & H & _); discriminate].
      intros (e & H & C). exfalso.
      destruct (domainIsBase SB (parse reHttps u));
        [destruct (List.find _ col) as [d|]; [destruct (active d)|]|];
        simpl in H; inversion H; subst; discriminate.
  - rewrite count_eq. cbv zeta.
    destruct (error (parse reHttps u)) as [e|] eqn:E.
    + split; intros _; exists e; split; auto;
        eapply parse_error_code; eauto.
    + split; [|intros (e & H & _); discriminate].
      intros (e & H & C). exfalso.
      destruct (List.find _ col) as [d|];
        simpl in H; inversion H; subst; discriminate.
  - rewrite deactivate_eq. cbv zeta.
    destruct (error (parse reHttps u)) as [e|] eqn:E.
    + split; intros _; exists e; split; auto;
        eapply parse_error_code; eauto.
    + split; [|intros (e & H & _); discriminate].
      intros (e & H & C). exfalso.
      destruct (List.find _ col) as [d|];
        simpl in H; inversion H; subst; discriminate.
Qed.

End SyntaxErrors.

(** C6. For every url and every test of allowed schemes that rejects the
    empty scheme (as the tests for http/https and for mongodb do), parsing
    fails, with code [URL_SYNTAX], exactly when the url has no [://], or
    nothing follows it, or a slash follows it, or the lower-cased scheme is
    not allowed, or the base validation does not let the base through;
    otherwise parsing succeeds.  So each engine method, [count] and
    [deactivate] included, answers [URL_SYNTAX] exactly when its url
    fails in one of these ways for the schemes http and https. *)
Theorem parse_fails_exactly (allowed : UrlParser.regexp) (url : string) :
  allowed "" = false ->
  ((exists e, UrlParser.error (UrlParser.parse allowed url) = Some e
              /\ code e = "URL_SYNTAX")
   <-> ParseSpec.fails allowed url)
  /\ (UrlParser.error (UrlParser.parse allowed url) = None
      <-> ~ ParseSpec.fails allowed url)
  /\ (forall SB c col,
         EngineView.callUrl c = url ->
         (exists e,
             fst (Engine.run SB c col)
             = Engine.Fulfilled (Engine.Obj (Error e))
             /\ code e = "URL_SYNTAX")
         <-> ParseSpec.fails UrlParser.reHttps url).
Proof.
  intros H. destruct (parse_fails_iff allowed url H) as [H1 H2].
  split; [exact H1|]. split; [exact H2|].
  intros SB c col <-. apply run_syntax_error.
Qed.

(** ** The theorems at work on small runs *)

(** The base [short.ly] is plain. *)
Lemma short_ly_plain : Fresh.plainBase "short.ly".
Proof.
  split; [reflexivity|]. split; [|reflexivity].
  unfold InStr. simpl. intuition discriminate.
Defined.

(** Adding, deactivating, and adding again gives the same short url. *)
Lemma add_again_same_short_url_witness :
  fst (Engine.add "short.ly" 12345 "http://example.com/page" [])
  = Engine.Fulfilled (Engine.Obj (Value (VString "http://short.ly/9ix")))
  /\ fst (Engine.add "short.ly" 777 "http://example.com/page"
            (Engine.runAll "short.ly"
               [Engine.Deactivate "http://example.com/page"]
               (snd (Engine.add "short.ly" 12345
                       "http://example.com/page" []))))
     = Engine.Fulfilled (Engine.Obj (Value (VString "http://short.ly/9ix"))).
Proof.
  split; [reflexivity|].
  exact (proj1 (add_again_same_short_url "short.ly"
                  "http://example.com/page" "http://short.ly/9ix"
                  12345 777 [] [Engine.Deactivate "http://example.com/page"]
                  eq_refl)).
Defined.

(** A round trip after an earlier [add], for a url with capitals. *)
Lemma round_trip_lower_case_witness :
  Fresh.plainBase "short.ly"
  /\ Fresh.collisionFree "short.ly" [Engine.Add 1 "http://a.com"] [] = true
  /\ exists S,
      fst (Engine.add "short.ly" 12345 "HTTP://Example.com/Page"
             (Engine.runAll "short.ly" [Engine.Add 1 "http://a.com"] []))
      = Engine.Fulfilled (Engine.Obj (Value (VString S)))
      /\ fst (Engine.query "short.ly" S
                (snd (Engine.add "short.ly" 12345 "HTTP://Example.com/Page"
                        (Engine.runAll "short.ly"
                           [Engine.Add 1 "http://a.com"] []))))
         = Engine.Fulfilled
             (Engine.Obj
                (Value (VString (JS.toLowerCase "HTTP://Example.com/Page")))).
Proof.
  split; [exact short_ly_plain|]. split; [reflexivity|].
  apply (round_trip_lower_case "short.ly" [Engine.Add 1 "http://a.com"]
           12345 "HTTP://Example.com/Page" short_ly_plain);
    reflexivity.
Defined.

(** Deactivating a short url that has been queried once. *)
Lemma deactivate_then_query_and_count_witness :
  let col := [Mongo.mkDoc 0 "example.com/page" "short.ly/9ix" true 1] in
  fst (Engine.deactivate "short.ly" "http://short.ly/9ix" col)
  = Engine.Fulfilled (Engine.Obj Success)
  /\ exists e,
      Engine.query "short.ly" "http://short.ly/9ix"
        (snd (Engine.deactivate "short.ly" "http://short.ly/9ix" col))
      = (Engine.Fulfilled (Engine.Obj (Error e)),
         snd (Engine.deactivate "short.ly" "http://short.ly/9ix" col))
      /\ code e
         = if Engine.domainIsBase "short.ly"
                (UrlParser.parse UrlParser.reHttps "http://short.ly/9ix")
           then "NOT_FOUND" else "DOMAIN".
Proof.
  intros col. split; [reflexivity|].
  exact (proj1 (deactivate_then_query_and_count "short.ly"
                  "http://short.ly/9ix" col eq_refl)).
Defined.

(** The counter of a stored document under a successful [query]. *)
Lemma queries_counter_monotone_witness :
  let d := Mongo.mkDoc 0 "example.com/page" "short.ly/9ix" true 1 in
  nth_error [d] O = Some d
  /\ forall cs,
      exists d', nth_error (Engine.runAll "short.ly" cs [d]) O = Some d'
                 /\ Mongo.longUrl d' = Mongo.longUrl d
                 /\ (Mongo.queries d <= Mongo.queries d')%N.
Proof.
  intros d. split; [reflexivity|].
  exact (proj2 (proj2 (queries_counter_monotone "short.ly" [d]
                         (Engine.Query "http://short.ly/9ix") O d eq_refl))).
Defined.

(** Parsing [http://a.com] for the schemes http and https. *)
Lemma parse_fails_exactly_witness :
  UrlParser.reHttps "" = false
  /\ (UrlParser.error (UrlParser.parse UrlParser.reHttps "http://a.com")
      = None
      <-> ~ ParseSpec.fails UrlParser.reHttps "http://a.com").
Proof.
  split; [reflexivity|].
  exact (proj1 (proj2 (parse_fails_exactly UrlParser.reHttps "http://a.com"
                         eq_refl))).
Defined.

(** Two urls with different keys, added to the empty collection. *)
Lemma add_keys_on_lower_cased_rest_witness :
  Fresh.plainBase "short.ly"
  /\ snd (Engine.add "short.ly" 2 "http://a.com/"
            (snd (Engine.add "short.ly" 1 "http://a.com" [])))
     = [Mongo.mkDoc 0 "a.com" (Fresh.shortFor "short.ly" 1) true 0;
        Mongo.mkDoc 1 "a.com/" (Fresh.shortFor "short.ly" 2) true 0].
Proof.
  split; [exact short_ly_plain|].
  refine (proj1 (proj2 (proj2
            (add_keys_on_lower_cased_rest "short.ly" [] 1 2
               "http://a.com" "http://a.com/" "a.com" "a.com/"
               short_ly_plain eq_refl eq_refl eq_refl eq_refl eq_refl
               eq_refl eq_refl eq_refl))) _).
  discriminate.
Defined.

(** A long url that has been deactivated: [query] on it answers [DOMAIN],
    not [NOT_FOUND]. *)
Lemma deactivated_long_url_query_is_domain :
  let col := snd (Engine.add "short.ly" 12345 "http://example.com/page" []) in
  let col' :=
    snd (Engine.deactivate "short.ly" "http://example.com/page" col) in
  fst (Engine.deactivate "short.ly" "http://example.com/page" col)
  = Engine.Fulfilled (Engine.Obj Success)
  /\ exists e,
      fst (Engine.query "short.ly" "http://example.com/page" col')
      = Engine.Fulfilled (Engine.Obj (Error e))
      /\ code e = "DOMAIN" /\ code e <> "NOT_FOUND".
Proof.
  split; [reflexivity|]. eexists. split; [reflexivity|].
  split; [reflexivity | discriminate].
Qed.

(** The stub's [validateBase] accepts bases the engine's rejects: empty
    labels, labels that start with a hyphen, bases of any length. *)
Lemma stub_validateBase_is_laxer :
  Stub.validateBase "a..b" = true
  /\ UrlParser.validateBase "a..b" = false
  /\ Stub.validateBase "a.-b" = true
  /\ UrlParser.validateBase "a.-b" = false.
Proof. repeat split. Qed.

(** ** Where bases are validated *)

(** The factory refuses exactly the shortener bases that the base
    validation does not let through, once the store url is in order. *)
Lemma make_checks_base mongoDbUrl b :
  UrlParser.error (UrlParser.parse UrlParser.reMongodb mongoDbUrl) = None ->
  (exists msg,
      Engine.make mongoDbUrl b
      = Engine.MakeError (mkErr "BAD_SHORTENER_BASE" msg))
  <-> ~ BaseSpec.passes b.
Proof.
  intros E. unfold Engine.make.
  fold (UrlParser.parse UrlParser.reMongodb mongoDbUrl).
  rewrite E, <- validateBase_iff.
  destruct (UrlParser.validateBase b); simpl.
  - split; [intros (msg & H); discriminate | congruence].
  - split; [congruence | intros _; eexists; reflexivity].
Qed.

(** A url parses only if its base, the lower-cased text between the
    separator and the first slash, is let through. *)
Lemma parse_checks_base regex url s r :
  ParseSpec.firstSplit url s r ->
  UrlParser.error (UrlParser.parse regex url) = None ->
  UrlParser.base (UrlParser.parse regex url)
  = Some (JS.toLowerCase (before "/" r))
  /\ BaseSpec.passes (JS.toLowerCase (before "/" r)).
Proof.
  intros Hs E.
  destruct (parse_ok_view _ _ E) as (s' & r' & Hs' & P & _ & _ & _ & V & _).
  destruct (firstSplit_unique _ _ _ _ _ Hs Hs') as [<- <-].
  rewrite P. split; [reflexivity|]. now apply validateBase_iff.
Qed.

(** What [validateBase] accepts.  The host being the text before the
    first colon and the labels that host split at its dots: every label
    matches [[a-zA-Z0-9.-]+] and neither starts nor ends with a hyphen,
    the text after the colon starts, after white space and a plus sign
    if any, with a decimal number, or with [0x] and a hexadecimal one,
    that lies in [1, 65535], and the whole base is shorter than 254
    characters.  This is the test the factory applies to the shortener
    base, and the test the parser applies to the base of every url. *)
Lemma validateBase_lets_through (b : string) :
  (UrlParser.validateBase b = true <-> BaseSpec.passes b)
  /\ (forall mongoDbUrl,
         UrlParser.error (UrlParser.parse UrlParser.reMongodb mongoDbUrl)
         = None ->
         (exists msg,
             Engine.make mongoDbUrl b
             = Engine.MakeError (mkErr "BAD_SHORTENER_BASE" msg))
         <-> ~ BaseSpec.passes b)
  /\ (forall regex url s r,
         ParseSpec.firstSplit url s r ->
         b = JS.toLowerCase (before "/" r) ->
         UrlParser.error (UrlParser.parse regex url) = None ->
         BaseSpec.passes b).
Proof.
  split; [apply validateBase_iff|]. split.
  - intros mongoDbUrl. apply make_checks_base.
  - intros regex url s r Hs -> E.
    now destruct (parse_checks_base regex url s r Hs E).
Qed.

(** *** Ports that are no numbers *)

Lemma portOk_portRead p : BaseSpec.portOk p -> BaseSpec.portRead p.
Proof.
  intros (n & Hnum & Hn). exists "", "", "", p, "", n.
  split; [now rewrite app_empty_r|]. split; [intros c []|].
  split; [now left|]. split; [|exact Hn].
  left. repeat split; try apply Hnum. intros c t E. discriminate.
Qed.

(** A valid base is let through. *)
Lemma validBase_passes b : BaseSpec.validBase b -> BaseSpec.passes b.
Proof.
  intros (host & port & labels & Hhp & Hl & Hok & Hp & Hlen).
  exists host, port, labels.
  split; [exact Hhp|]. split; [exact Hl|]. split; [exact Hok|].
  split; [|exact Hlen].
  intros p E. apply portOk_portRead. now apply Hp.
Qed.

Lemma digitValue_ten c :
  JS.digitValue 10 c = None <-> JS.isDigit c = false.
Proof.
  destruct c as [[] [] [] [] [] [] [] []]; vm_compute;
    split; intros H; try reflexivity; discriminate H.
Qed.

Lemma horner_digits radix s :
  forall acc n c,
    BaseSpec.horner radix acc s = Some n -> InStr c s ->
    JS.digitValue radix c <> None.
Proof.
  induction s as [|d s IH]; intros acc n c H Hc; [destruct Hc|].
  cbn [BaseSpec.horner] in H.
  destruct (JS.digitValue radix d) as [v|] eqn:D; [|discriminate].
  apply InStr_cons in Hc as [<-|Hc]; [congruence|]. eauto.
Qed.

(** Text after the port that does not start with a digit: the base is
    still let through, and is not valid. *)
Lemma port_with_more b t :
  BaseSpec.validBase b -> InStr ":" b ->
  t <> "" -> (forall c t', t = String c t' -> JS.isDigit c = false) ->
  (String.length (b ++ t) < 254)%nat ->
  BaseSpec.passes (b ++ t) /\ ~ BaseSpec.validBase (b ++ t).
Proof.
  intros (host & port & labels & Hhp & Hl & Hok & Hp & _) Hc Ht Hd Hlen.
  destruct Hhp as [Hn|host p -> Hn]; [contradiction|].
  destruct (Hp p eq_refl) as (n & Hnum & Hr).
  assert (E : (host ++ ":" ++ p) ++ t = host ++ String ":" (p ++ t))
    by (now rewrite app_assoc).
  rewrite E in *. split.
  - exists host, (Some (p ++ t)), labels.
    split; [now apply hostPort_colon|]. split; [exact Hl|].
    split; [exact Hok|]. split; [|exact Hlen].
    intros q Hq. inversion Hq; subst q.
    exists "", "", "", p, t, n.
    split; [reflexivity|]. split; [intros c []|].
    split; [now left|]. split; [|exact Hr].
    left. split; [reflexivity|]. split; [exact Hnum|].
    intros c t' Et. apply digitValue_ten. eauto.
  - intros (host' & port' & labels' & Hhp' & _ & _ & Hp' & _).
    apply hostPort_colon in Hhp' as [_ ->]; [|exact Hn].
    destruct (Hp' _ eq_refl) as (n' & (_ & Hh) & _).
    destruct t as [|c t']; [congruence|].
    apply (horner_digits 10 _ 0 n' c Hh).
    + apply InStr_app. right. apply InStr_cons. now left.
    + apply digitValue_ten. eauto.
Qed.

(** Port texts with a fraction, in hexadecimal, with a blank or a sign
    before the number, or with markup after it are let through; a minus
    sign, a zero and a number above 65535 are not. *)
Lemma malformed_ports_accepted :
  map UrlParser.validateBase
    ["a.com:1.5"; "a.com:0x50"; "a.com: 80"; "a.com:+80";
     "a.com:80 <script>"; "a.com:-80"; "a.com:0"; "a.com:65536"]
  = [true; true; true; true; true; false; false; false].
Proof. reflexivity. Qed.

(** C7. [validateBase] does not hold the port to be a number.  Every
    valid base is accepted: the labels of the host, split at its dots,
    match [[a-zA-Z0-9.-]+] and neither start nor end with a hyphen, a
    port is a decimal number in [1, 65535], and the base is shorter than
    254 characters.  But a valid base with a port stays accepted with any
    text after the port that does not start with a digit, as long as the
    whole is shorter than 254 characters: the digits the port text starts
    with are read and the rest is ignored.  So [a.com:80abc] is
    accepted, the factory takes the shortener base [localhost:80abc],
    and the parser lets the base [a.com:1.5] of a url through.  The
    [validateBase] of the unfinished engine reads the port in the same
    way and, not splitting the host into labels, accepts [a..b] as
    well. *)
Theorem validateBase_accepts_malformed_ports :
  (forall b, BaseSpec.validBase b -> UrlParser.validateBase b = true)
  /\ (forall b t,
         BaseSpec.validBase b -> InStr ":" b ->
         t <> "" ->
         (forall c t', t = String c t' -> JS.isDigit c = false) ->
         (String.length (b ++ t) < 254)%nat ->
         UrlParser.validateBase (b ++ t) = true
         /\ ~ BaseSpec.validBase (b ++ t))
  /\ BaseSpec.validBase "a.com:80"
  /\ UrlParser.validateBase "a.com:80abc" = true
  /\ ~ BaseSpec.validBase "a.com:80abc"
  /\ Engine.make "mongodb://localhost:27017/db" "localhost:80abc"
     = Engine.Instance "localhost:80abc" "mongodb://localhost:27017/db"
  /\ UrlParser.error
       (UrlParser.parse UrlParser.reHttps "http://a.com:1.5/x") = None
  /\ Stub.validateBase "a.com:80abc" = true
  /\ Stub.validateBase "a..b" = true
  /\ ~ BaseSpec.validBase "a..b".
Proof.
  assert (V : BaseSpec.validBase "a.com:80").
  { exists "a.com", (Some "80"), ["a"; "com"]. split.
    - apply (BaseSpec.WithPort _ "a.com" "80"); [reflexivity|].
      unfold InStr. simpl. intuition discriminate.
    - split; [|split; [|split]].
      + repeat split; [discriminate|].
        repeat constructor; unfold InStr; simpl; intuition discriminate.
      + repeat constructor; try discriminate;
          try (intros c Hc; unfold InStr in Hc; simpl in Hc;
               intuition (subst; reflexivity));
          intros t E; destruct t as [|? [|? [|? [|? ?]]]]; discriminate E.
      + intros p E. inversion E; subst p. exists 80.
        split; [split; [discriminate | reflexivity] | lia].
      + simpl. lia. }
  split; [|split; [|split; [exact V|]]].
  - intros b H. now apply validateBase_iff, validBase_passes.
  - intros b t Hb Hc Ht Hd Hlen.
    destruct (port_with_more b t Hb Hc Ht Hd Hlen) as [Hp Hv].
    split; [now apply validateBase_iff | exact Hv].
  - split; [reflexivity|].
    split; [|repeat (split; [reflexivity|])].
    + refine (proj2 (port_with_more "a.com:80" "abc" V _ _ _ _)).
      * unfold InStr. simpl. tauto.
      * discriminate.
      * intros c t' E. inversion E. reflexivity.
      * simpl. lia.
    + intros H. apply validBase_passes, validateBase_iff in H.
      discriminate H.
Qed.

(** ** The in-memory engine *)

Section InMemoryFacts.
Import InMemory MemoryView.
Local Open Scope list_scope.

(** Parsing does not look at the associations. *)
Lemma getUrlParts_any this this' u :
  _getUrlParts this u = _getUrlParts this' u.
Proof. reflexivity. Qed.

Lemma later_refl this : later this this.
Proof. repeat split; auto. intros r o H. exists o. auto. Qed.

Lemma later_trans a b c : later a b -> later b c -> later a c.
Proof.
  intros (D1 & L1 & H1) (D2 & L2 & H2). repeat split.
  - congruence.
  - auto.
  - intros r o Ho. destruct (H1 r o Ho) as (o1 & Ho1 & E1 & E2).
    destruct (H2 r o1 Ho1) as (o2 & Ho2 & E3 & E4).
    exists o2. repeat split; congruence.
Qed.

Lemma store_length h r o : List.length (store h r o) = List.length h.
Proof.
  revert r. induction h as [|x h IH]; intros [|r]; simpl; auto.
Qed.

Lemma store_nth h r o r' :
  nth_error (store h r o) r'
  = if Nat.eqb r' r
    then match nth_error h r with Some _ => Some o | None => None end
    else nth_error h r'.
Proof.
  revert r r'. induction h as [|x h IH]; intros [|r] [|r']; simpl; auto;
    try (now destruct (Nat.eqb r' r)).
Qed.

(** Replacing an object by one with the same urls gives a later state. *)
Lemma later_store this r o o' :
  nth_error (heap this) r = Some o ->
  longUrl o' = longUrl o -> shortUrl o' = shortUrl o ->
  later this (setHeap this (store (heap this) r o')).
Proof.
  intros Ho E1 E2. repeat split; auto. simpl. intros r1 o1 H1.
  rewrite store_nth. destruct (Nat.eqb_spec r1 r) as [->|_].
  - rewrite Ho. exists o'. rewrite Ho in H1. inversion H1; subst. auto.
  - exists o1. auto.
Qed.

Lemma sound_store this r o :
  sound this -> sound (setHeap this (store (heap this) r o)).
Proof.
  intros Hsound k r' H. simpl. rewrite store_length.
  exact (Hsound k r' H).
Qed.

Lemma lookup_some this m key r o :
  lookup this m key = Some (r, o) ->
  exists k, key = Some k /\ m k = Some r /\ nth_error (heap this) r = Some o.
Proof.
  unfold lookup. destruct key as [k|]; [|discriminate].
  destruct (m k) as [r0|] eqn:M; [|discriminate].
  destruct (nth_error (heap this) r0) as [o0|] eqn:N; [|discriminate].
  intros H; inversion H; subst. exists k. auto.
Qed.

Lemma lookup_long_none this k :
  sound this -> lookup this (LONG_ACCESS this) (Some k) = None ->
  LONG_ACCESS this k = None.
Proof.
  intros Hsound. unfold lookup.
  destruct (LONG_ACCESS this k) as [r|] eqn:L; auto.
  destruct (nth_error (heap this) r) eqn:N; [discriminate|].
  apply nth_error_None in N. specialize (Hsound _ _ L). lia.
Qed.

(** A url that parses has its scheme, domain and key. *)
Lemma getUrlParts_ok this u :
  error (_getUrlParts this u) = None ->
  exists sch d k,
    scheme (_getUrlParts this u) = Some sch
    /\ domain (_getUrlParts this u) = Some d
    /\ domainRest (_getUrlParts this u) = Some k.
Proof.
  unfold _getUrlParts. cbv zeta.
  destruct ((_ =? 2) || _ || _ || _)%bool; [discriminate|].
  destruct (_ =? -1); intros _; simpl; do 3 eexists; repeat split.
Qed.

(** Every call leads to a later state, and keeps references sound. *)
Lemma run_later c this :
  sound this -> later this (snd (run c this)) /\ sound (snd (run c this)).
Proof.
  intros Hsound. destruct c as [rnd u|u|u|u]; simpl.
  - unfold add. destruct (error (_getUrlParts this u)) eqn:E;
      [split; auto using later_refl|].
    destruct (domainIs this (_getUrlParts this u));
      [split; auto using later_refl|].
    destruct (getUrlParts_ok this u E) as (sch & d & k & _ & _ & K).
    rewrite K.
    destruct (lookup this (LONG_ACCESS this) (Some k)) as [[r o]|] eqn:L.
    + apply lookup_some in L as (k' & _ & _ & Ho). simpl.
      split; [eapply later_store; eauto | now apply sound_store].
    + pose proof (lookup_long_none this k Hsound L) as Ln. simpl. split.
      * split; [reflexivity|]. split; simpl.
        -- intros k1 r Hk. unfold setRef.
           destruct (String.eqb_spec k1 k) as [->|_]; auto. congruence.
        -- intros r o Ho. exists o. rewrite nth_error_app1; auto.
           apply nth_error_Some. congruence.
      * intros k1 r. simpl. unfold setRef. rewrite List.length_app. simpl.
        destruct (String.eqb k1 k).
        -- intros H; inversion H; subst. lia.
        -- intros H. specialize (Hsound _ _ H). lia.
  - unfold query. destruct (error (_getUrlParts this u));
      [split; auto using later_refl|].
    destruct (domainIs this (_getUrlParts this u)); simpl negb; cbv iota;
      [|split; auto using later_refl].
    destruct (lookup this (SHORT_ACCESS this) _) as [[r o]|] eqn:L;
      [|split; auto using later_refl].
    destruct (active o); [|split; auto using later_refl].
    apply lookup_some in L as (k' & _ & _ & Ho). simpl.
    split; [eapply later_store; eauto | now apply sound_store].
  - unfold count. destruct (error (_getUrlParts this u));
      [split; auto using later_refl|].
    destruct (lookup this (LONG_ACCESS this) _) as [[r o]|];
      [split; auto using later_refl|].
    destruct (lookup this (SHORT_ACCESS this) _) as [[r o]|];
      split; auto using later_refl.
  - unfold remove. destruct (error (_getUrlParts this u));
      [split; auto using later_refl|].
    destruct (lookup this (LONG_ACCESS this) _) as [[r o]|] eqn:L.
    + apply lookup_some in L as (k' & _ & _ & Ho). simpl.
      split; [eapply later_store; eauto | now apply sound_store].
    + destruct (lookup this (SHORT_ACCESS this) _) as [[r o]|] eqn:L2;
        [|split; auto using later_refl].
      apply lookup_some in L2 as (k' & _ & _ & Ho). simpl.
      split; [eapply later_store; eauto | now apply sound_store].
Qed.

Lemma runAll_later cs this :
  sound this -> later this (runAll cs this) /\ sound (runAll cs this).
Proof.
  revert this. induction cs as [|c cs IH]; intros this Hsound; simpl.
  - split; auto using later_refl.
  - destruct (run_later c this Hsound) as [L1 S1].
    destruct (IH _ S1) as [L2 S2].
    split; [eapply later_trans; eauto | assumption].
Qed.

Lemma sound_create domain : sound (create domain).
Proof. intros k r H. discriminate. Qed.

(** [add] that succeeds leaves the long url known, with the short url it
    returned. *)
Lemma memory_add_success rnd L this v :
  sound this ->
  MemoryParsed.ordinary this L = true ->
  fst (add rnd L this) = Engine.Obj (Value v) ->
  exists sch k r o,
    scheme (_getUrlParts this L) = Some sch
    /\ domainRest (_getUrlParts this L) = Some k
    /\ error (_getUrlParts this L) = None
    /\ domainIs this (_getUrlParts this L) = false
    /\ LONG_ACCESS (snd (add rnd L this)) k = Some r
    /\ nth_error (heap (snd (add rnd L this))) r = Some o
    /\ v = VString (sch ++ shortUrl o).
Proof.
  intros Hsound _. unfold add.
  destruct (error (_getUrlParts this L)) eqn:E; [discriminate|].
  destruct (domainIs this (_getUrlParts this L)) eqn:D.
  { unfold errorOf. simpl. discriminate. }
  destruct (getUrlParts_ok this L E) as (sch & d & k & Hs & _ & K).
  rewrite K, Hs.
  destruct (lookup this (LONG_ACCESS this) (Some k)) as [[r o]|] eqn:Lk.
  - apply lookup_some in Lk as (k' & Ek & Hr & Ho). inversion Ek; subst k'.
    simpl. intros H; inversion H; subst.
    exists sch, k, r, (mkInfo (longUrl o) (shortUrl o) true (queries o)).
    repeat split; auto.
    rewrite store_nth, Nat.eqb_refl, Ho. reflexivity.
  - simpl. intros H; inversion H; subst.
    eexists sch, k, (List.length (heap this)), _.
    repeat split; auto.
    + unfold setRef. now rewrite String.eqb_refl.
    + rewrite nth_error_app2 by lia. rewrite Nat.sub_diag. reflexivity.
    + reflexivity.
Qed.

End InMemoryFacts.

(** The in-memory engine returns the same short url when a long url is
    added again, whatever calls came between, stores no new object for it
    and leaves its association active; the keys of the urls of all the
    calls being ordinary ones. *)
Lemma memory_add_again
  (domain L : string) (v : value) (rnd1 rnd2 : N)
  (cs0 cs : list InMemory.call) :
  let this := InMemory.runAll cs0 (InMemory.create domain) in
  MemoryParsed.ordinary this L = true ->
  Forall
    (fun c => MemoryParsed.ordinary this (MemoryParsed.callUrl c) = true)
    (cs0 ++ cs)%list ->
  fst (InMemory.add rnd1 L this) = Engine.Obj (Value v) ->
  let this2 := InMemory.runAll cs (snd (InMemory.add rnd1 L this)) in
  fst (InMemory.add rnd2 L this2) = Engine.Obj (Value v)
  /\ List.length (InMemory.heap (snd (InMemory.add rnd2 L this2)))
     = List.length (InMemory.heap this2)
  /\ exists r o,
      InMemory.lookup (snd (InMemory.add rnd2 L this2))
        (InMemory.LONG_ACCESS (snd (InMemory.add rnd2 L this2)))
        (InMemory.domainRest (InMemory._getUrlParts this L))
      = Some (r, o)
      /\ InMemory.active o = true.
Proof.
  intros this HL _ H1 this2.
  assert (S0 : MemoryView.sound this)
    by (apply runAll_later, sound_create).
  destruct (memory_add_success rnd1 L this v S0 HL H1)
    as (sch & k & r & o & Hs & K & E & D & Lr & Ho & ->).
  destruct (run_later (InMemory.Add rnd1 L) this S0) as [L1 S1].
  simpl in L1, S1.
  destruct (runAll_later cs _ S1) as [(D2 & L2 & H2) S2].
  fold this2 in D2, L2, H2, S2.
  destruct (H2 r o Ho) as (o2 & Ho2 & _ & Es).
  specialize (L2 _ _ Lr).
  assert (D' : InMemory.domainIs this2 (InMemory._getUrlParts this L)
               = false).
  { unfold InMemory.domainIs in *. destruct L1 as (D1 & _).
    simpl in D1. now rewrite D2, D1. }
  assert (Hadd : InMemory.add rnd2 L this2
                 = (Engine.Obj
                      (Value (VString (sch ++ InMemory.shortUrl o2))),
                    InMemory.setHeap this2
                      (InMemory.store (InMemory.heap this2) r
                         (InMemory.mkInfo (InMemory.longUrl o2)
                            (InMemory.shortUrl o2) true
                            (InMemory.queries o2))))).
  { unfold InMemory.add.
    rewrite (getUrlParts_any this2 this L), E, D', K, Hs.
    unfold InMemory.lookup. now rewrite L2, Ho2. }
  rewrite Hadd. simpl fst. simpl snd.
  split; [now rewrite Es|]. split; [apply store_length|].
  exists r, (InMemory.mkInfo (InMemory.longUrl o2) (InMemory.shortUrl o2)
               true (InMemory.queries o2)).
  split; auto. rewrite K. unfold InMemory.lookup. simpl.
  now rewrite L2, store_nth, Nat.eqb_refl, Ho2.
Qed.

(** The in-memory engine answers [DOMAIN] where the store-backed one is
    rejected, and takes any scheme. *)
Lemma memory_add_own_domain :
  fst (InMemory.add 1 "http://short.ly/x" (InMemory.create "short.ly"))
  = Engine.Obj
      (Error (mkErr "DOMAIN" "DOMAIN: domain short.ly equal to short.ly"))
  /\ InMemory.error
       (InMemory._getUrlParts (InMemory.create "short.ly") "ftp://a.com")
     = None.
Proof. split; reflexivity. Qed.

(** A text with one url, cut and translated for HTML. *)
Lemma translate_renders_the_scan_witness :
  TranslateSpec.scan "a http://b.c d"
    [TranslateSpec.Plain "a "; TranslateSpec.Link "http://b.c";
     TranslateSpec.Plain " d"]
  /\ Ws.doTextShorten unit (fun _ m => (Ws.Resolved (Some "S"), m)) true
       "a http://b.c d" O tt
     = Some ("a " ++ Ws.anchor "S" ++ " d", O, tt).
Proof.
  assert (Hscan : TranslateSpec.scan "a http://b.c d"
                    [TranslateSpec.Plain "a ";
                     TranslateSpec.Link "http://b.c";
                     TranslateSpec.Plain " d"]).
  { apply (TranslateSpec.scan_link "a " "http://b.c" " d"
             [TranslateSpec.Plain " d"]).
    - intros i Hi. apply matchAt_none.
      destruct i as [|[|i]]; [reflexivity | reflexivity | simpl in Hi; lia].
    - exists "http", "b.c". split; [reflexivity|].
      split; [left; reflexivity|]. split; [discriminate|].
      intros c Hc. unfold InStr in Hc. simpl in Hc.
      destruct Hc as [<-|[<-|[<-|[]]]]; reflexivity.
    - intros c t E. inversion E. reflexivity.
    - apply TranslateSpec.scan_end. intros i. apply matchAt_none.
      destruct i as [|[|[|i]]]; reflexivity. }
  split; [exact Hscan|].
  exact (proj2 (translate_renders_the_scan unit
                  (fun _ m => (Ws.Resolved (Some "S"), m)) true
                  "a http://b.c d" tt) _ Hscan).
Defined.

(** For a base with a port, [query] answers [DOMAIN] even on the short urls
    the engine hands out: the domain it compares has no port. *)
Lemma query_with_port_base_is_domain :
  let col := snd (Engine.add "localhost:8080" 12345 "http://a.com" []) in
  UrlParser.validateBase "localhost:8080" = true
  /\ fst (Engine.add "localhost:8080" 12345 "http://a.com" [])
     = Engine.Fulfilled
         (Engine.Obj (Value (VString "http://localhost:8080/9ix")))
  /\ fst (Engine.query "localhost:8080" "http://localhost:8080/9ix" col)
     = Engine.Fulfilled
         (Engine.Obj
            (Error
               (mkErr "DOMAIN"
                  ("DOMAIN: domain of url localhost not equal to "
                     ++ "localhost:8080")))).
Proof. repeat split. Qed.

(** * Further properties of the code *)

(** ** The errors the engine answers *)

Section ErrorShape.
Import UrlParser Mongo Engine EngineView.

Variable SB : string.

(** The one error the parser sets. *)
Lemma parse_error_shape regex u e :
  error (parse regex u) = Some e ->
  exists x, e = mkErr "URL_SYNTAX" ("URL_SYNTAX: bad url " ++ x).
Proof.
  unfold parse. rewrite validateScheme_error.
  destruct (regex _); [|intros H; inversion H; eexists; reflexivity].
  unfold getUrlParts. cbv zeta.
  repeat match goal with
         | |- context [if ?b then _ else _] => destruct b
         end; simpl; intros H; inversion H; eexists; reflexivity.
Qed.

Lemma run_error_shape c col e :
  fst (run SB c col) = Fulfilled (Obj (Error e)) ->
  (exists t, message e = code e ++ ": " ++ t)
  /\ match c with
     | Add _ _ => code e = "URL_SYNTAX"
     | Query _ =>
         code e = "URL_SYNTAX" \/ code e = "DOMAIN" \/ code e = "NOT_FOUND"
     | _ => code e = "URL_SYNTAX" \/ code e = "NOT_FOUND"
     end.
Proof.
  destruct c as [rnd u|u|u|u]; simpl run.
  - rewrite add_eq. cbv zeta.
    destruct (error (parse reHttps u)) as [e'|] eqn:E.
    + simpl. intros H. inversion H; subst e'.
      destruct (parse_error_shape _ _ _ E) as (x & ->).
      split; [eexists; reflexivity | reflexivity].
    + destruct (domainIsBase SB (parse reHttps u)); [discriminate|].
      destruct (List.find _ col); discriminate.
  - rewrite query_eq. cbv zeta.
    destruct (error (parse reHttps u)) as [e'|] eqn:E.
    + simpl. intros H. inversion H; subst e'.
      destruct (parse_error_shape _ _ _ E) as (x & ->).
      split; [eexists; reflexivity | left; reflexivity].
    + destruct (domainIsBase SB (parse reHttps u));
        [destruct (List.find _ col) as [d|]; [destruct (active d)|]|];
        simpl; intros H; inversion H; subst;
        (split; [eexists; reflexivity | auto]).
  - rewrite count_eq. cbv zeta.
    destruct (error (parse reHttps u)) as [e'|] eqn:E.
    + simpl. intros H. inversion H; subst e'.
      destruct (parse_error_shape _ _ _ E) as (x & ->).
      split; [eexists; reflexivity | left; reflexivity].
    + destruct (List.find _ col) as [d|];
        simpl; intros H; inversion H; subst;
        (split; [eexists; reflexivity | auto]).
  - rewrite deactivate_eq. cbv zeta.
    destruct (error (parse reHttps u)) as [e'|] eqn:E.
    + simpl. intros H. inversion H; subst e'.
      destruct (parse_error_shape _ _ _ E) as (x & ->).
      split; [eexists; reflexivity | left; reflexivity].
    + destruct (List.find _ col) as [d|];
        simpl; intros H; inversion H; subst;
        (split; [eexists; reflexivity | auto]).
Qed.

End ErrorShape.

(** X1. Whatever error a method of the engine answers, its message
    starts with its code, a colon and a space, and the code is one the
    method documents: [URL_SYNTAX] only for [add], [URL_SYNTAX], [DOMAIN]
    or [NOT_FOUND] for [query], [URL_SYNTAX] or [NOT_FOUND] for [count]
    and [deactivate]; the code [UNKNOWN] of [_setErrMsg] is never
    answered. *)
Theorem errors_name_their_code
  (SB : string) (c : Engine.call) (col : Mongo.collection) (e : errInfo) :
  fst (Engine.run SB c col) = Engine.Fulfilled (Engine.Obj (Error e)) ->
  (exists t, message e = code e ++ ": " ++ t)
  /\ code e <> "UNKNOWN"
  /\ match c with
     | Engine.Add _ _ => code e = "URL_SYNTAX"
     | Engine.Query _ =>
         code e = "URL_SYNTAX" \/ code e = "DOMAIN" \/ code e = "NOT_FOUND"
     | _ => code e = "URL_SYNTAX" \/ code e = "NOT_FOUND"
     end.
Proof.
  intros H. destruct (run_error_shape SB c col e H) as (Hm & Hc).
  split; [exact Hm|]. split; [|exact Hc].
  destruct c; intuition congruence.
Qed.

(** [count] on a url that was never added. *)
Lemma errors_name_their_code_witness :
  exists t,
    "NOT_FOUND: http://a.com not found" = "NOT_FOUND" ++ ": " ++ t.
Proof.
  exact (proj1 (errors_name_their_code "short.ly"
                  (Engine.Count "http://a.com") []
                  (mkErr "NOT_FOUND" "NOT_FOUND: http://a.com not found")
                  eq_refl)).
Defined.

(** ** The factory *)

Lemma reMongodb_empty : UrlParser.reMongodb "" = false.
Proof. reflexivity. Qed.

(** The url of a parsed url is the url given, in lower case. *)
Lemma parse_ok_url regex u :
  UrlParser.error (UrlParser.parse regex u) = None ->
  UrlParser.url (UrlParser.parse regex u) = JS.toLowerCase u.
Proof.
  intros E. destruct (parse_ok_view regex u E) as (s & r & Hs & -> & _).
  simpl. symmetry. now apply toLowerCase_split.
Qed.

(** X2. The factory [make] checks the database url first: it answers
    [BAD_MONGO_URL] exactly when that url does not parse with the scheme
    [mongodb], whatever the base; [BAD_SHORTENER_BASE] exactly when the
    url parses and the base is not valid; and otherwise builds the
    instance with the base exactly as given (not lower-cased) and
    connects to the database url in lower case. *)
Theorem make_answers (mongoDbUrl shortenerBase : string) :
  ((exists msg,
       Engine.make mongoDbUrl shortenerBase
       = Engine.MakeError (mkErr "BAD_MONGO_URL" msg))
   <-> ParseSpec.fails UrlParser.reMongodb mongoDbUrl)
  /\ ((exists msg,
          Engine.make mongoDbUrl shortenerBase
          = Engine.MakeError (mkErr "BAD_SHORTENER_BASE" msg))
      <-> ~ ParseSpec.fails UrlParser.reMongodb mongoDbUrl
          /\ UrlParser.validateBase shortenerBase = false)
  /\ (forall b u,
         Engine.make mongoDbUrl shortenerBase = Engine.Instance b u
         <-> ~ ParseSpec.fails UrlParser.reMongodb mongoDbUrl
             /\ UrlParser.validateBase shortenerBase = true
             /\ b = shortenerBase /\ u = JS.toLowerCase mongoDbUrl).
Proof.
  destruct (parse_fails_iff UrlParser.reMongodb mongoDbUrl reMongodb_empty)
    as (Hf & Hn).
  unfold Engine.make.
  change (UrlParser.validateScheme (UrlParser.getUrlParts mongoDbUrl)
            UrlParser.reMongodb)
    with (UrlParser.parse UrlParser.reMongodb mongoDbUrl).
  cbv zeta.
  destruct (UrlParser.error (UrlParser.parse UrlParser.reMongodb mongoDbUrl))
    as [e|] eqn:E.
  - assert (F : ParseSpec.fails UrlParser.reMongodb mongoDbUrl).
    { apply Hf. exists e. split; [reflexivity|].
      eapply parse_error_code; eauto. }
    split; [split; [auto | intros _; eexists; reflexivity]|].
    split.
    + split; [intros (msg & H); discriminate | intros (H & _); tauto].
    + intros b u. split; [discriminate | intros (H & _); tauto].
  - assert (F : ~ ParseSpec.fails UrlParser.reMongodb mongoDbUrl)
      by (apply Hn; reflexivity).
    rewrite (parse_ok_url _ _ E).
    destruct (UrlParser.validateBase shortenerBase) eqn:V; simpl.
    + split; [split; [intros (msg & H); discriminate | tauto]|].
      split.
      * split; [intros (msg & H); discriminate|].
        intros (_ & H); discriminate.
      * intros b u. split.
        -- intros H. inversion H. auto.
        -- intros (_ & _ & -> & ->). reflexivity.
    + split; [split; [intros (msg & H); discriminate | tauto]|].
      split.
      * split; [auto | intros _; eexists; reflexivity].
      * intros b u. split; [discriminate|].
        intros (_ & H & _); discriminate.
Qed.

(** ** The parser's normal form *)

Lemma lowerChar_idem c : JS.lowerChar (JS.lowerChar c) = JS.lowerChar c.
Proof. each_char c. Qed.

Lemma toLowerCase_idem s :
  JS.toLowerCase (JS.toLowerCase s) = JS.toLowerCase s.
Proof.
  induction s as [|c s IH]; simpl; [reflexivity|].
  now rewrite lowerChar_idem, IH.
Qed.

Lemma toLowerCase_empty s : JS.toLowerCase s = "" <-> s = "".
Proof. destruct s; simpl; split; congruence. Qed.

Lemma prefix_sep_lower s :
  String.prefix "://" (JS.toLowerCase s) = String.prefix "://" s.
Proof.
  apply Bool.eq_iff_eq_true. rewrite !prefix_app. split.
  - intros (t & E).
    destruct s as [|a [|b [|c s]]]; simpl in E; try discriminate.
    injection E as Ea Eb Ec Et.
    apply (proj1 (lowerChar_colon _)) in Ea.
    apply (proj1 (lowerChar_slash _)) in Eb.
    apply (proj1 (lowerChar_slash _)) in Ec. subst a b c. now exists s.
  - intros (t & ->). now exists (JS.toLowerCase t).
Qed.

Lemma find_sep_lower s :
  JS.find "://" (JS.toLowerCase s) = JS.find "://" s.
Proof.
  induction s as [|c s IH].
  - reflexivity.
  - change (JS.toLowerCase (String c s))
      with (String (JS.lowerChar c) (JS.toLowerCase s)).
    rewrite !find_cons.
    change (String (JS.lowerChar c) (JS.toLowerCase s))
      with (JS.toLowerCase (String c s)).
    now rewrite prefix_sep_lower, IH.
Qed.

Lemma firstSplit_lower u s r :
  ParseSpec.firstSplit u s r ->
  ParseSpec.firstSplit (JS.toLowerCase u) (JS.toLowerCase s)
    (JS.toLowerCase r).
Proof.
  intros H. apply firstSplit_of_find.
  - rewrite find_sep_lower, toLowerCase_length.
    now apply find_firstSplit with (r := r).
  - now apply toLowerCase_split.
Qed.

Lemma fromFirst_lower s :
  fromFirst "/" (JS.toLowerCase s)
  = option_map JS.toLowerCase (fromFirst "/" s).
Proof.
  induction s as [|c s IH]; simpl; [reflexivity|].
  rewrite lowerChar_slash_eqb.
  destruct (Ascii.eqb c "/"); [reflexivity | exact IH].
Qed.

Lemma before_colon_lower s :
  JS.toLowerCase (before ":" s) = before ":" (JS.toLowerCase s).
Proof.
  induction s as [|c s IH]; simpl; [reflexivity|].
  rewrite lowerChar_colon_eqb.
  destruct (Ascii.eqb c ":"); [reflexivity | simpl; now rewrite IH].
Qed.

(** [getUrlParts], seen as [parse] with a test that lets every scheme
    through. *)
Lemma getUrlParts_parse u :
  UrlParser.getUrlParts u = UrlParser.parse (fun _ => true) u.
Proof. reflexivity. Qed.

Lemma getUrlParts_normal u :
  UrlParser.error (UrlParser.getUrlParts u) = None ->
  exists s r,
    ParseSpec.firstSplit u s r
    /\ UrlParser.getUrlParts u = ParsedView.parsed s r
    /\ UrlParser.getUrlParts (JS.toLowerCase u)
       = ParsedView.parsed (JS.toLowerCase s) (JS.toLowerCase r).
Proof.
  rewrite getUrlParts_parse. intros E.
  destruct (parse_ok_view _ u E) as (s & r & Hs & Hp & Hs0 & Hr0 & Hsl & V & _).
  exists s, r. split; [exact Hs|]. split; [exact Hp|].
  rewrite (getUrlParts_split _ _ _ (firstSplit_lower _ _ _ Hs)).
  rewrite <- toLowerCase_before_slash, toLowerCase_idem, V.
  destruct (String.eqb_spec (JS.toLowerCase s) "") as [E1|_];
    [apply (proj1 (toLowerCase_empty _)) in E1; contradiction|].
  destruct (String.eqb_spec (JS.toLowerCase r) "") as [E1|_];
    [apply (proj1 (toLowerCase_empty _)) in E1; contradiction|].
  destruct (JS.charIs (JS.charAt (JS.toLowerCase r) 0) "/") eqn:C;
    [|reflexivity].
  exfalso. apply starts_with_char in C. destruct C as (t & C).
  destruct r as [|c r]; [discriminate|]. simpl in C.
  injection C as Ec Et. apply (proj1 (lowerChar_slash _)) in Ec. subst c.
  now elim (Hsl r).
Qed.

(** X3. Normalisation is idempotent.  When [getUrlParts] succeeds on a
    url, the [url] it builds is the input in lower case, and parsing that
    again succeeds with the same scheme, base, domain, key ([baseRest])
    and url; only [rest], which keeps the letter case of the input, comes
    back in lower case. *)
Theorem getUrlParts_normal_form (u : string) :
  UrlParser.error (UrlParser.getUrlParts u) = None ->
  UrlParser.url (UrlParser.getUrlParts u) = JS.toLowerCase u
  /\ UrlParser.getUrlParts (UrlParser.url (UrlParser.getUrlParts u))
     = UrlParser.mkParts
         (UrlParser.scheme (UrlParser.getUrlParts u))
         (UrlParser.base (UrlParser.getUrlParts u))
         (UrlParser.domain (UrlParser.getUrlParts u))
         (option_map JS.toLowerCase
            (UrlParser.rest (UrlParser.getUrlParts u)))
         (UrlParser.baseRest (UrlParser.getUrlParts u))
         (UrlParser.url (UrlParser.getUrlParts u)) None.
Proof.
  intros E. destruct (getUrlParts_normal u E) as (s & r & Hs & Hp & Hl).
  assert (Hu : UrlParser.url (UrlParser.getUrlParts u) = JS.toLowerCase u).
  { rewrite Hp. simpl. symmetry. now apply toLowerCase_split. }
  split; [exact Hu|]. rewrite Hu, Hl, Hp.
  unfold ParsedView.parsed. cbv zeta. simpl.
  rewrite <- !toLowerCase_before_slash, !toLowerCase_idem, fromFirst_lower.
  rewrite (toLowerCase_split u s r Hs). reflexivity.
Qed.

(** A url with capitals, a port and a path. *)
Lemma getUrlParts_normal_form_witness :
  UrlParser.url (UrlParser.getUrlParts "HTTP://Example.COM:8080/Path?x=Y")
  = JS.toLowerCase "HTTP://Example.COM:8080/Path?x=Y".
Proof.
  exact (proj1 (getUrlParts_normal_form "HTTP://Example.COM:8080/Path?x=Y"
                  eq_refl)).
Defined.

(** ** Letter case *)

Lemma lower_starts_slash r :
  (exists t, JS.toLowerCase r = String "/" t) <-> exists t, r = String "/" t.
Proof.
  split; intros (t & E).
  - destruct r as [|c r]; [discriminate|]. simpl in E.
    injection E as Ec Et. apply (proj1 (lowerChar_slash _)) in Ec.
    subst c. now exists r.
  - subst r. now exists (JS.toLowerCase t).
Qed.

(** A url parses exactly when its lower-case form does. *)
Lemma parse_ok_lower regex u :
  UrlParser.error (UrlParser.parse regex (JS.toLowerCase u)) = None
  <-> UrlParser.error (UrlParser.parse regex u) = None.
Proof.
  destruct (JS.find "://" u) as [n|] eqn:F.
  - assert (Hsep : ~ ParseSpec.noSeparator u).
    { intros H. apply find_noSeparator in H. congruence. }
    destruct (firstSplit_exists u Hsep) as (s & r & Hs).
    rewrite (parse_split_ok regex _ _ _ (firstSplit_lower _ _ _ Hs)).
    rewrite (parse_split_ok regex _ _ _ Hs).
    rewrite <- toLowerCase_before_slash, !toLowerCase_idem.
    rewrite !toLowerCase_empty.
    assert (Hsl : (forall t, JS.toLowerCase r <> String "/" t)
                  <-> (forall t, r <> String "/" t)).
    { pose proof (lower_starts_slash r) as [H1 H2].
      split; intros H t E.
      - destruct H2 as (t' & E'); [now exists t|]. now elim (H t').
      - destruct H1 as (t' & E'); [now exists t|]. now elim (H t'). }
    tauto.
  - assert (F' : JS.find "://" (JS.toLowerCase u) = None)
      by now rewrite find_sep_lower.
    apply find_noSeparator in F. apply find_noSeparator in F'.
    unfold UrlParser.parse.
    rewrite (getUrlParts_noSeparator _ F), (getUrlParts_noSeparator _ F').
    rewrite !validateScheme_error. simpl.
    destruct (regex "null"); split; discriminate.
Qed.

Section LetterCase.
Import UrlParser Mongo Engine EngineView.

Variable SB : string.

(** The parts of the lower-case form of a url that parses: those of the
    url, but for [rest]. *)
Lemma parse_lower regex u :
  error (parse regex u) = None ->
  parse regex (JS.toLowerCase u)
  = mkParts (scheme (parse regex u)) (base (parse regex u))
      (domain (parse regex u))
      (option_map JS.toLowerCase (rest (parse regex u)))
      (baseRest (parse regex u)) (url (parse regex u)) None.
Proof.
  intros E.
  destruct (parse_ok_view regex u E) as (s & r & Hs & Hp & _).
  pose proof (proj2 (parse_ok_lower regex u) E) as E'.
  destruct (parse_ok_view regex _ E') as (s' & r' & Hs' & Hp' & _).
  destruct (firstSplit_unique _ _ _ _ _ Hs' (firstSplit_lower _ _ _ Hs))
    as (-> & ->).
  rewrite Hp', Hp. unfold ParsedView.parsed. cbv zeta. simpl.
  rewrite <- !toLowerCase_before_slash, !toLowerCase_idem, fromFirst_lower.
  reflexivity.
Qed.

Lemma run_lower c c' col :
  error (parse reHttps (callUrl c)) = None ->
  match c, c' with
  | Add r1 u1, Add r2 u2 => r1 = r2 /\ u2 = JS.toLowerCase u1
  | Query u1, Query u2 => u2 = JS.toLowerCase u1
  | Count u1, Count u2 => u2 = JS.toLowerCase u1
  | Deactivate u1, Deactivate u2 => u2 = JS.toLowerCase u1
  | _, _ => False
  end ->
  run SB c' col = run SB c col.
Proof.
  intros E H.
  destruct c as [r1 u1|u1|u1|u1], c' as [r2 u2|u2|u2|u2];
    try contradiction; simpl in E; simpl run.
  - destruct H as (<- & ->). rewrite !add_eq. cbv zeta.
    rewrite (parse_lower _ _ E). unfold domainIsBase, shortOf, newDoc.
    simpl. rewrite E. reflexivity.
  - subst u2. rewrite !query_eq. cbv zeta.
    rewrite (parse_lower _ _ E).
    unfold domainIsBase, longOf, notFound, domainNe.
    simpl. rewrite E. reflexivity.
  - subst u2. rewrite !count_eq. cbv zeta.
    rewrite (parse_lower _ _ E). unfold notFound.
    simpl. rewrite E. reflexivity.
  - subst u2. rewrite !deactivate_eq. cbv zeta.
    rewrite (parse_lower _ _ E). unfold notFound.
    simpl. rewrite E. reflexivity.
Qed.

End LetterCase.

(** X4. The engine does not tell letter case apart.  Two urls that are
    equal up to letter case parse or fail together, and when they parse,
    each of [add], [query], [count] and [deactivate] answers the same and
    leaves the same collection for the one as for the other. *)
Theorem engine_ignores_letter_case
  (SB u v : string) (col : Mongo.collection) :
  JS.toLowerCase u = JS.toLowerCase v ->
  (UrlParser.error (UrlParser.parse UrlParser.reHttps u) = None
   <-> UrlParser.error (UrlParser.parse UrlParser.reHttps v) = None)
  /\ (UrlParser.error (UrlParser.parse UrlParser.reHttps u) = None ->
      (forall rnd, Engine.add SB rnd u col = Engine.add SB rnd v col)
      /\ Engine.query SB u col = Engine.query SB v col
      /\ Engine.count SB u col = Engine.count SB v col
      /\ Engine.deactivate SB u col = Engine.deactivate SB v col).
Proof.
  intros L.
  assert (Hiff : UrlParser.error (UrlParser.parse UrlParser.reHttps u) = None
                 <-> UrlParser.error (UrlParser.parse UrlParser.reHttps v)
                     = None).
  { rewrite <- (parse_ok_lower _ u), <- (parse_ok_lower _ v), L. tauto. }
  split; [exact Hiff|]. intros Eu. pose proof (proj1 Hiff Eu) as Ev.
  repeat split; try intros rnd.
  - transitivity (Engine.add SB rnd (JS.toLowerCase u) col).
    + symmetry.
      exact (run_lower SB (Engine.Add rnd u)
               (Engine.Add rnd (JS.toLowerCase u)) col Eu
               (conj eq_refl eq_refl)).
    + rewrite L.
      exact (run_lower SB (Engine.Add rnd v)
               (Engine.Add rnd (JS.toLowerCase v)) col Ev
               (conj eq_refl eq_refl)).
  - transitivity (Engine.query SB (JS.toLowerCase u) col).
    + symmetry.
      exact (run_lower SB (Engine.Query u)
               (Engine.Query (JS.toLowerCase u)) col Eu eq_refl).
    + rewrite L.
      exact (run_lower SB (Engine.Query v)
               (Engine.Query (JS.toLowerCase v)) col Ev eq_refl).
  - transitivity (Engine.count SB (JS.toLowerCase u) col).
    + symmetry.
      exact (run_lower SB (Engine.Count u)
               (Engine.Count (JS.toLowerCase u)) col Eu eq_refl).
    + rewrite L.
      exact (run_lower SB (Engine.Count v)
               (Engine.Count (JS.toLowerCase v)) col Ev eq_refl).
  - transitivity (Engine.deactivate SB (JS.toLowerCase u) col).
    + symmetry.
      exact (run_lower SB (Engine.Deactivate u)
               (Engine.Deactivate (JS.toLowerCase u)) col Eu eq_refl).
    + rewrite L.
      exact (run_lower SB (Engine.Deactivate v)
               (Engine.Deactivate (JS.toLowerCase v)) col Ev eq_refl).
Qed.

(** Two spellings of one url. *)
Lemma engine_ignores_letter_case_witness :
  Engine.query "short.ly" "HTTP://Short.ly/9IX"
    [Mongo.mkDoc 0 "a.com/x" "short.ly/9ix" true 0]
  = Engine.query "short.ly" "http://short.LY/9ix"
      [Mongo.mkDoc 0 "a.com/x" "short.ly/9ix" true 0].
Proof.
  exact (proj1 (proj2 (proj2
           (engine_ignores_letter_case "short.ly" "HTTP://Short.ly/9IX"
              "http://short.LY/9ix"
              [Mongo.mkDoc 0 "a.com/x" "short.ly/9ix" true 0] eq_refl)
           eq_refl))).
Defined.

(** ** Bases for which [query] can succeed *)

(** The host of a valid base is a valid base. *)
Lemma validateBase_host b :
  UrlParser.validateBase b = true ->
  UrlParser.validateBase (before ":" b) = true.
Proof.
  rewrite !validateBase_iff.
  intros (host & port & labels & Hhp & Hl & Hok & _ & Hlen).
  assert (E : before ":" b = host
              /\ (String.length host <= String.length b)%nat).
  { destruct Hhp as [Hn|host port -> Hn].
    - split; [now apply before_none | lia].
    - split; [now apply before_app|]. rewrite length_app. lia. }
  destruct E as (-> & Hle).
  exists host, None, labels.
  split; [apply BaseSpec.NoPort|].
  - destruct Hhp as [Hn|host port -> Hn]; exact Hn.
  - split; [exact Hl|]. split; [exact Hok|].
    split; [discriminate | lia].
Qed.

Section PlainBase.
Import UrlParser Mongo Engine EngineView.

Variable SB : string.

(** The domain the parser gives is a valid host in lower case, without
    port. *)
Lemma parsed_domain_plain regex u d :
  error (parse regex u) = None -> domain (parse regex u) = Some d ->
  Fresh.plainBase d.
Proof.
  intros E D.
  destruct (parse_ok_view regex u E) as (s & r & _ & Hp & _ & _ & _ & V & _).
  rewrite Hp in D. simpl in D. injection D as <-.
  split; [now apply validateBase_host|].
  split; [apply before_no_char|].
  now rewrite before_colon_lower, toLowerCase_idem.
Qed.

Lemma query_success_domain u col v :
  fst (query SB u col) = Fulfilled (Obj (Value v)) ->
  error (parse reHttps u) = None
  /\ domain (parse reHttps u) = Some SB.
Proof.
  rewrite query_eq. cbv zeta.
  destruct (error (parse reHttps u)) eqn:E; [discriminate|].
  unfold domainIsBase.
  destruct (domain (parse reHttps u)) as [d|]; [|discriminate].
  destruct (String.eqb_spec d SB) as [->|_]; [tauto | discriminate].
Qed.

End PlainBase.

(** X5. [query] can succeed, for some url and some collection, exactly
    when the shortener base is a valid host in lower case without a port.
    The domain [query] compares with [SHORTENER_BASE] is lower-cased and
    has its port cut off, so for a base with a port or with a capital
    letter, which [validateBase] and [make] accept, every [query]
    fails. *)
Theorem query_succeeds_only_for_plain_base (SB : string) :
  (exists u col v,
      fst (Engine.query SB u col)
      = Engine.Fulfilled (Engine.Obj (Value v)))
  <-> UrlParser.validateBase SB = true
      /\ ~ InStr ":" SB /\ JS.toLowerCase SB = SB.
Proof.
  split.
  - intros (u & col & v & H).
    destruct (query_success_domain SB u col v H) as (E & D).
    exact (parsed_domain_plain _ _ _ E D).
  - intros P.
    pose proof (parse_short SB P "http" "0" (or_introl eq_refl) eq_refl)
      as Hp.
    exists ("http" ++ "://" ++ SB ++ "/" ++ "0"),
      [Mongo.mkDoc 0 "a.com" (SB ++ "/" ++ "0") true 0].
    eexists.
    apply query_found with (k := SB ++ "/" ++ "0");
      try (rewrite Hp; reflexivity).
    + simpl. unfold Mongo.orFilter. simpl.
      rewrite String.eqb_refl, Bool.orb_true_r. reflexivity.
    + reflexivity.
Qed.

(** ** The life of an association *)

Section Lifecycle.
Import UrlParser Mongo Engine EngineView Evolution Association.
Local Open Scope list_scope.

Variable SB : string.

Lemma orFilter_long k d : longUrl d = k -> orFilter (Some k) d = true.
Proof.
  intros <-. unfold orFilter. now rewrite String.eqb_refl.
Qed.

Lemma orFilter_short s d : shortUrl d = s -> orFilter (Some s) d = true.
Proof.
  intros <-. unfold orFilter.
  now rewrite String.eqb_refl, Bool.orb_true_r.
Qed.

Lemma leads_find_long k s d col :
  leads k s d col -> List.find (orFilter (Some k)) col = Some d.
Proof.
  intros (l1 & l2 & -> & Hl1 & Hk & _).
  apply find_at; [intros x Hx; now apply Hl1 | now apply orFilter_long].
Qed.

Lemma leads_find_short k s d col :
  leads k s d col -> List.find (orFilter (Some s)) col = Some d.
Proof.
  intros (l1 & l2 & -> & Hl1 & _ & Hs).
  apply find_at; [intros x Hx; now apply Hl1 | now apply orFilter_short].
Qed.

(** An update through the document found changes that document, in
    place. *)
Lemma leads_update k s d col upd :
  leads k s d col ->
  longUrl (upd d) = longUrl d -> shortUrl (upd d) = shortUrl d ->
  leads k s (upd d) (updateOne (docFilter d) upd col).
Proof.
  intros (l1 & l2 & -> & Hl1 & Hk & Hs) Hul Hus.
  exists l1, l2. split.
  - apply updateOne_found with (flt := orFilter (Some k));
      [intros x Hx; now apply Hl1 | now apply orFilter_long].
  - split; [exact Hl1|]. split; congruence.
Qed.

Lemma evolves_split l1 d l2 col' :
  evolves (l1 ++ d :: l2) col' ->
  exists l1' d' l2',
    col' = l1' ++ d' :: l2' /\ sameDoc d d'
    /\ forall x', In x' l1' -> exists x, In x l1 /\ sameDoc x x'.
Proof.
  revert col'. induction l1 as [|a l1 IH]; intros col' H; simpl in H.
  - inversion H as [|? d' ? c' Hd Hc]; subst.
    exists [], d', c'. split; [reflexivity|]. split; [exact Hd|].
    intros x' [].
  - inversion H as [|? a' ? c' Ha Hc]; subst.
    destruct (IH _ Hc) as (l1' & d' & l2' & -> & Hd & Hin).
    exists (a' :: l1'), d', l2'. split; [reflexivity|].
    split; [exact Hd|]. intros x' [<-|Hx].
    + exists a. split; [now left | exact Ha].
    + destruct (Hin _ Hx) as (x & Hx1 & Hx2). exists x.
      split; [now right | exact Hx2].
Qed.

(** What the urls lead to stays in its place, whatever is called. *)
Lemma leads_evolves k s d col col' :
  leads k s d col -> evolves col col' ->
  exists d', leads k s d' col' /\ sameDoc d d'.
Proof.
  intros (l1 & l2 & -> & Hl1 & Hk & Hs) H.
  destruct (evolves_split _ _ _ _ H) as (l1' & d' & l2' & -> & Hd & Hin).
  exists d'. split; [|exact Hd].
  exists l1', l2'. split; [reflexivity|]. split.
  - intros x' Hx'. destruct (Hin _ Hx') as (x & Hx & Hsame).
    rewrite !(orFilter_sameDoc _ _ _ Hsame). now apply Hl1.
  - destruct Hd as (_ & Hdl & Hds & _). split; congruence.
Qed.

(** The document a first [add] stores is what both its urls lead to. *)
Lemma leads_new rnd L col k :
  error (parse reHttps L) = None ->
  domainIsBase SB (parse reHttps L) = false ->
  baseRest (parse reHttps L) = Some k ->
  List.find (orFilter (Some k)) col = None ->
  Fresh.unused SB rnd col = true ->
  leads k (Fresh.shortFor SB rnd)
    (mkDoc (N.of_nat (List.length col)) k (Fresh.shortFor SB rnd) true 0%N)
    (snd (add SB rnd L col)).
Proof.
  intros E D K F U. rewrite (add_new SB rnd L col k E D K F).
  exists col, []. split; [reflexivity|]. split; [|split; reflexivity].
  intros x Hx. split.
  - now apply (proj1 (find_none _ _) F).
  - unfold Fresh.unused in U. apply Bool.negb_true_iff in U.
    destruct (orFilter (Some (Fresh.shortFor SB rnd)) x) eqn:O; auto.
    assert (existsb (orFilter (Some (Fresh.shortFor SB rnd))) col = true)
      by (apply existsb_exists; eauto).
    congruence.
Qed.

End Lifecycle.

Section Steps.
Import UrlParser Mongo Engine EngineView Evolution Association.

Variable SB : string.
Hypothesis base_ok : Fresh.plainBase SB.

(** The scheme of a url that parses for the engine. *)
Lemma parse_ok_scheme u :
  error (parse reHttps u) = None ->
  exists sch, scheme (parse reHttps u) = Some sch
              /\ (sch = "http" \/ sch = "https").
Proof.
  intros E.
  destruct (parse_ok_view _ u E) as (s & r & _ & Hp & _ & _ & _ & _ & R).
  exists (JS.toLowerCase s). rewrite Hp. split; [reflexivity|].
  now apply reHttps_cases.
Qed.

Lemma parse_ok_key u :
  error (parse reHttps u) = None ->
  exists k, baseRest (parse reHttps u) = Some k.
Proof.
  intros E. destruct (parse_ok_view _ u E) as (s & r & _ & Hp & _).
  rewrite Hp. eexists. reflexivity.
Qed.

(** The short url [add] hands out, as [query] parses it. *)
Lemma parse_handed_out sch rnd :
  sch = "http" \/ sch = "https" ->
  parse reHttps (sch ++ "://" ++ Fresh.shortFor SB rnd)
  = mkParts (Some sch) (Some SB) (Some SB)
      (Some ("/" ++ JS.toString36 rnd)) (Some (Fresh.shortFor SB rnd))
      (sch ++ "://" ++ Fresh.shortFor SB rnd) None.
Proof.
  intros H. unfold Fresh.shortFor.
  apply (parse_short SB base_ok sch _ H). apply toString36_chars.
Qed.

Lemma domainIsBase_handed_out sch rnd :
  sch = "http" \/ sch = "https" ->
  domainIsBase SB (parse reHttps (sch ++ "://" ++ Fresh.shortFor SB rnd))
  = true.
Proof.
  intros H. rewrite (parse_handed_out _ _ H). unfold domainIsBase. simpl.
  apply String.eqb_refl.
Qed.

Lemma count_leads u key k s d col :
  error (parse reHttps u) = None ->
  baseRest (parse reHttps u) = Some key -> key = k \/ key = s ->
  leads k s d col ->
  count SB u col = (Fulfilled (Obj (Value (VNumber (queries d)))), col).
Proof.
  intros E K Hkey Hl. rewrite count_eq. cbv zeta. rewrite E, K.
  destruct Hkey as [->| ->].
  - now rewrite (leads_find_long _ _ _ _ Hl).
  - now rewrite (leads_find_short _ _ _ _ Hl).
Qed.

Lemma deactivate_leads u key k s d col :
  error (parse reHttps u) = None ->
  baseRest (parse reHttps u) = Some key -> key = k \/ key = s ->
  leads k s d col ->
  deactivate SB u col
  = (Fulfilled (Obj Success),
     updateOne (docFilter d) (setActive false) col).
Proof.
  intros E K Hkey Hl. rewrite deactivate_eq. cbv zeta. rewrite E, K.
  destruct Hkey as [->| ->].
  - now rewrite (leads_find_long _ _ _ _ Hl).
  - now rewrite (leads_find_short _ _ _ _ Hl).
Qed.

Lemma add_leads rnd L k s d col sch :
  error (parse reHttps L) = None ->
  domainIsBase SB (parse reHttps L) = false ->
  baseRest (parse reHttps L) = Some k ->
  scheme (parse reHttps L) = Some sch ->
  leads k s d col ->
  add SB rnd L col
  = (Fulfilled (Obj (Value (VString (sch ++ "://" ++ s)))),
     updateOne (docFilter d) (setActive true) col).
Proof.
  intros E D K Sc Hl. rewrite add_eq. cbv zeta. rewrite E, D, K.
  rewrite (leads_find_long _ _ _ _ Hl). unfold shortOf. rewrite Sc.
  destruct Hl as (_ & _ & _ & _ & _ & ->). reflexivity.
Qed.

Lemma query_leads sch rnd k d col :
  sch = "http" \/ sch = "https" ->
  leads k (Fresh.shortFor SB rnd) d col ->
  query SB (sch ++ "://" ++ Fresh.shortFor SB rnd) col
  = if active d
    then (Fulfilled (Obj (Value (VString (sch ++ "://" ++ k)))),
          updateOne (docFilter d) (setQueries (queries d + 1)%N) col)
    else (Fulfilled
            (Obj (Error
                    (mkErr "NOT_FOUND"
                       ("NOT_FOUND: "
                          ++ (sch ++ "://" ++ Fresh.shortFor SB rnd)
                          ++ " not found")))),
          col).
Proof.
  intros H Hl. rewrite query_eq. cbv zeta.
  rewrite (domainIsBase_handed_out _ _ H), (parse_handed_out _ _ H).
  cbn [error baseRest].
  rewrite (leads_find_short _ _ _ _ Hl).
  destruct (active d); [|reflexivity].
  unfold longOf. cbn [scheme JS.toStr].
  destruct Hl as (_ & _ & _ & _ & -> & _). reflexivity.
Qed.

(** A first [add]: the value it answers and what its urls lead to. *)
Lemma add_first rnd L col :
  error (parse reHttps L) = None ->
  domainIsBase SB (parse reHttps L) = false ->
  List.find (orFilter (baseRest (parse reHttps L))) col = None ->
  Fresh.unused SB rnd col = true ->
  exists sch k,
    scheme (parse reHttps L) = Some sch
    /\ (sch = "http" \/ sch = "https")
    /\ baseRest (parse reHttps L) = Some k
    /\ sch ++ "://" ++ k = JS.toLowerCase L
    /\ fst (add SB rnd L col)
       = Fulfilled
           (Obj (Value (VString (sch ++ "://" ++ Fresh.shortFor SB rnd))))
    /\ leads k (Fresh.shortFor SB rnd)
         (mkDoc (N.of_nat (List.length col)) k (Fresh.shortFor SB rnd)
            true 0%N)
         (snd (add SB rnd L col)).
Proof.
  intros E D F U.
  destruct (parse_ok_view _ L E) as (s & r & Hs & Hp & _ & _ & _ & _ & R).
  exists (JS.toLowerCase s), (JS.toLowerCase r).
  assert (Sc : scheme (parse reHttps L) = Some (JS.toLowerCase s))
    by now rewrite Hp.
  assert (K : baseRest (parse reHttps L) = Some (JS.toLowerCase r))
    by now rewrite Hp.
  split; [exact Sc|]. split; [now apply reHttps_cases|].
  split; [exact K|]. split; [symmetry; now apply toLowerCase_split|].
  rewrite K in F. split.
  - rewrite add_eq. cbv zeta. rewrite E, D, K, F. unfold shortOf, newDoc.
    rewrite Sc. reflexivity.
  - now apply leads_new.
Qed.

End Steps.

Section Lifetime.
Import UrlParser Mongo Engine EngineView Evolution Association.

Variable SB : string.
Hypothesis base_ok : Fresh.plainBase SB.

(** After a first [add], whatever is called next, the long and the short
    url lead to one document, with the urls it was stored with. *)
Lemma leads_after rnd L col :
  error (parse reHttps L) = None ->
  domainIsBase SB (parse reHttps L) = false ->
  List.find (orFilter (baseRest (parse reHttps L))) col = None ->
  Fresh.unused SB rnd col = true ->
  exists sch k,
    scheme (parse reHttps L) = Some sch
    /\ (sch = "http" \/ sch = "https")
    /\ baseRest (parse reHttps L) = Some k
    /\ sch ++ "://" ++ k = JS.toLowerCase L
    /\ fst (add SB rnd L col)
       = Fulfilled
           (Obj (Value (VString (sch ++ "://" ++ Fresh.shortFor SB rnd))))
    /\ forall cs,
        exists d,
          leads k (Fresh.shortFor SB rnd) d
            (runAll SB cs (snd (add SB rnd L col))).
Proof.
  intros E D F U.
  destruct (add_first SB rnd L col E D F U)
    as (sch & k & Sc & Hsch & K & Hl & Hadd & Hleads).
  exists sch, k. repeat (split; [assumption|]).
  intros cs.
  destruct (leads_evolves _ _ _ _ _ Hleads
              (runAll_evolves SB cs (snd (add SB rnd L col))))
    as (d & Hd & _).
  now exists d.
Qed.

(** Queries in a row, on an active association. *)
Lemma queries_in_a_row sch rnd k n :
  sch = "http" \/ sch = "https" ->
  forall d col,
    leads k (Fresh.shortFor SB rnd) d col -> active d = true ->
    exists d',
      leads k (Fresh.shortFor SB rnd) d'
        (runAll SB
           (repeat (Query (sch ++ "://" ++ Fresh.shortFor SB rnd)) n) col)
      /\ active d' = true
      /\ queries d' = (queries d + N.of_nat n)%N.
Proof.
  intros Hsch. induction n as [|n IH]; intros d col Hl Ha.
  - exists d. simpl. split; [exact Hl|]. split; [exact Ha | lia].
  - cbn [repeat runAll run].
    rewrite (query_leads SB base_ok sch rnd k d col Hsch Hl), Ha.
    cbn [snd].
    destruct (IH (setQueries (queries d + 1)%N d)
                (updateOne (docFilter d) (setQueries (queries d + 1)%N) col))
      as (d' & Hl' & Ha' & Hq').
    + now apply leads_update.
    + exact Ha.
    + exists d'. split; [exact Hl'|]. split; [exact Ha'|].
      rewrite Hq'. simpl. lia.
Qed.

Lemma find_app_found (flt : doc -> bool) l1 l2 d :
  List.find flt l1 = Some d -> List.find flt (l1 ++ l2)%list = Some d.
Proof.
  induction l1 as [|x l1 IH]; simpl; [discriminate|].
  destruct (flt x); auto.
Qed.

End Lifetime.

(** X6. Once a long url has been added, it and the short url handed out
    for it lead to one and the same association, whatever is called
    afterwards: [count] answers the same number for either url, and
    [deactivate] succeeds with the same effect on the collection for
    either url. *)
Theorem either_url_one_association
  (SB : string) (rnd : N) (L : string) (col : Mongo.collection) :
  Fresh.plainBase SB ->
  UrlParser.error (UrlParser.parse UrlParser.reHttps L) = None ->
  Engine.domainIsBase SB (UrlParser.parse UrlParser.reHttps L) = false ->
  List.find
    (Mongo.orFilter (UrlParser.baseRest (UrlParser.parse UrlParser.reHttps L)))
    col = None ->
  Fresh.unused SB rnd col = true ->
  exists S,
    fst (Engine.add SB rnd L col)
    = Engine.Fulfilled (Engine.Obj (Value (VString S)))
    /\ forall cs,
        let col' := Engine.runAll SB cs (snd (Engine.add SB rnd L col)) in
        Engine.count SB S col' = Engine.count SB L col'
        /\ (exists n,
               fst (Engine.count SB L col')
               = Engine.Fulfilled (Engine.Obj (Value (VNumber n))))
        /\ Engine.deactivate SB S col' = Engine.deactivate SB L col'
        /\ fst (Engine.deactivate SB L col')
           = Engine.Fulfilled (Engine.Obj Success).
Proof.
  intros P E D F U.
  destruct (leads_after SB rnd L col E D F U)
    as (sch & k & Sc & Hsch & K & Hl & Hadd & Hleads).
  exists (sch ++ "://" ++ Fresh.shortFor SB rnd). split; [exact Hadd|].
  intros cs col'. destruct (Hleads cs) as (d & Hd). fold col' in Hd.
  pose proof (parse_handed_out SB P sch rnd Hsch) as Hp.
  assert (ES : UrlParser.error
                 (UrlParser.parse UrlParser.reHttps
                    (sch ++ "://" ++ Fresh.shortFor SB rnd)) = None)
    by now rewrite Hp.
  assert (KS : UrlParser.baseRest
                 (UrlParser.parse UrlParser.reHttps
                    (sch ++ "://" ++ Fresh.shortFor SB rnd))
               = Some (Fresh.shortFor SB rnd))
    by now rewrite Hp.
  rewrite (count_leads SB _ _ _ _ _ _ ES KS (or_intror eq_refl) Hd).
  rewrite (count_leads SB _ _ _ _ _ _ E K (or_introl eq_refl) Hd).
  rewrite (deactivate_leads SB _ _ _ _ _ _ ES KS (or_intror eq_refl) Hd).
  rewrite (deactivate_leads SB _ _ _ _ _ _ E K (or_introl eq_refl) Hd).
  split; [reflexivity|]. split; [eexists; reflexivity|].
  split; reflexivity.
Qed.

(** A first [add] to the empty collection. *)
Lemma either_url_one_association_witness :
  exists S,
    fst (Engine.add "short.ly" 12345 "http://example.com/page" [])
    = Engine.Fulfilled (Engine.Obj (Value (VString S)))
    /\ forall cs,
        let col' :=
          Engine.runAll "short.ly" cs
            (snd (Engine.add "short.ly" 12345 "http://example.com/page" []))
        in
        Engine.count "short.ly" S col'
        = Engine.count "short.ly" "http://example.com/page" col'
        /\ (exists n,
               fst (Engine.count "short.ly" "http://example.com/page" col')
               = Engine.Fulfilled (Engine.Obj (Value (VNumber n))))
        /\ Engine.deactivate "short.ly" S col'
           = Engine.deactivate "short.ly" "http://example.com/page" col'
        /\ fst (Engine.deactivate "short.ly" "http://example.com/page" col')
           = Engine.Fulfilled (Engine.Obj Success).
Proof.
  exact (either_url_one_association "short.ly" 12345
           "http://example.com/page" [] short_ly_plain eq_refl eq_refl
           eq_refl eq_refl).
Defined.

(** X7. [count] counts the queries.  For a shortener base that is a
    valid host in lower case without a port, a long url that parses with
    another domain and is stored under neither of its keys, and a draw
    whose short url is not in use: after the long url is added, [n]
    calls of [query] on the short url handed out, one after the other,
    each answer the long url in lower case, and then [count] answers
    [n], for the long url and for the short url alike. *)
Theorem count_counts_queries
  (SB : string) (rnd : N) (L : string) (col : Mongo.collection) :
  Fresh.plainBase SB ->
  UrlParser.error (UrlParser.parse UrlParser.reHttps L) = None ->
  Engine.domainIsBase SB (UrlParser.parse UrlParser.reHttps L) = false ->
  List.find
    (Mongo.orFilter (UrlParser.baseRest (UrlParser.parse UrlParser.reHttps L)))
    col = None ->
  Fresh.unused SB rnd col = true ->
  exists S,
    fst (Engine.add SB rnd L col)
    = Engine.Fulfilled (Engine.Obj (Value (VString S)))
    /\ forall n,
        let col' :=
          Engine.runAll SB (repeat (Engine.Query S) n)
            (snd (Engine.add SB rnd L col)) in
        fst (Engine.query SB S col')
        = Engine.Fulfilled (Engine.Obj (Value (VString (JS.toLowerCase L))))
        /\ fst (Engine.count SB L col')
           = Engine.Fulfilled (Engine.Obj (Value (VNumber (N.of_nat n))))
        /\ fst (Engine.count SB S col')
           = Engine.Fulfilled (Engine.Obj (Value (VNumber (N.of_nat n)))).
Proof.
  intros P E D F U.
  destruct (add_first SB rnd L col E D F U)
    as (sch & k & Sc & Hsch & K & Hl & Hadd & Hleads).
  exists (sch ++ "://" ++ Fresh.shortFor SB rnd). split; [exact Hadd|].
  intros n col'.
  destruct (queries_in_a_row SB P sch rnd k n Hsch _ _ Hleads eq_refl)
    as (d & Hd & Ha & Hq).
  fold col' in Hd. simpl in Hq.
  pose proof (parse_handed_out SB P sch rnd Hsch) as Hp.
  assert (ES : UrlParser.error
                 (UrlParser.parse UrlParser.reHttps
                    (sch ++ "://" ++ Fresh.shortFor SB rnd)) = None)
    by now rewrite Hp.
  assert (KS : UrlParser.baseRest
                 (UrlParser.parse UrlParser.reHttps
                    (sch ++ "://" ++ Fresh.shortFor SB rnd))
               = Some (Fresh.shortFor SB rnd))
    by now rewrite Hp.
  rewrite (query_leads SB P sch rnd k d col' Hsch Hd), Ha.
  rewrite (count_leads SB _ _ _ _ _ _ ES KS (or_intror eq_refl) Hd).
  rewrite (count_leads SB _ _ _ _ _ _ E K (or_introl eq_refl) Hd).
  rewrite Hq, Hl. repeat split.
Qed.

(** Three queries after a first [add]. *)
Lemma count_counts_queries_witness :
  exists S,
    fst (Engine.add "short.ly" 12345 "http://Example.com/Page" [])
    = Engine.Fulfilled (Engine.Obj (Value (VString S)))
    /\ fst (Engine.count "short.ly" "http://Example.com/Page"
              (Engine.runAll "short.ly" (repeat (Engine.Query S) 3)
                 (snd (Engine.add "short.ly" 12345
                         "http://Example.com/Page" []))))
       = Engine.Fulfilled (Engine.Obj (Value (VNumber 3))).
Proof.
  destruct (count_counts_queries "short.ly" 12345 "http://Example.com/Page"
              [] short_ly_plain eq_refl eq_refl eq_refl eq_refl)
    as (S & Hadd & H).
  exists S. split; [exact Hadd|]. exact (proj1 (proj2 (H 3%nat))).
Defined.

(** X8. Deactivation and a second [add].  For a shortener base that is
    a valid host in lower case without a port, a long url that parses
    with another domain and is stored under neither of its keys, and a
    draw whose short url is not in use: after the long url has been
    added, and whatever has been called since, once the url is
    deactivated, [query] on its short url answers [NOT_FOUND]; adding the
    long url again answers the short url it had; [query] on the short url
    then succeeds again, with the long url in lower case; and the count
    of the association is the one it had before it was deactivated. *)
Theorem add_after_deactivate_reactivates
  (SB : string) (rnd : N) (L : string) (col : Mongo.collection) :
  Fresh.plainBase SB ->
  UrlParser.error (UrlParser.parse UrlParser.reHttps L) = None ->
  Engine.domainIsBase SB (UrlParser.parse UrlParser.reHttps L) = false ->
  List.find
    (Mongo.orFilter (UrlParser.baseRest (UrlParser.parse UrlParser.reHttps L)))
    col = None ->
  Fresh.unused SB rnd col = true ->
  exists S,
    fst (Engine.add SB rnd L col)
    = Engine.Fulfilled (Engine.Obj (Value (VString S)))
    /\ forall cs rnd',
        let col1 := Engine.runAll SB cs (snd (Engine.add SB rnd L col)) in
        let col2 := snd (Engine.deactivate SB L col1) in
        let col3 := snd (Engine.add SB rnd' L col2) in
        (exists e,
            fst (Engine.query SB S col2)
            = Engine.Fulfilled (Engine.Obj (Error e))
            /\ code e = "NOT_FOUND")
        /\ fst (Engine.add SB rnd' L col2)
           = Engine.Fulfilled (Engine.Obj (Value (VString S)))
        /\ fst (Engine.query SB S col3)
           = Engine.Fulfilled
               (Engine.Obj (Value (VString (JS.toLowerCase L))))
        /\ fst (Engine.count SB L col3) = fst (Engine.count SB L col1).
Proof.
  intros P E D F U.
  destruct (leads_after SB rnd L col E D F U)
    as (sch & k & Sc & Hsch & K & Hl & Hadd & Hleads).
  exists (sch ++ "://" ++ Fresh.shortFor SB rnd). split; [exact Hadd|].
  intros cs rnd' col1 col2 col3.
  destruct (Hleads cs) as (d1 & Hd1). fold col1 in Hd1.
  assert (Hd2 : Association.leads k (Fresh.shortFor SB rnd)
                  (Mongo.setActive false d1) col2).
  { unfold col2.
    rewrite (deactivate_leads SB _ _ _ _ _ _ E K (or_introl eq_refl) Hd1).
    now apply leads_update. }
  assert (Hd3 : Association.leads k (Fresh.shortFor SB rnd)
                  (Mongo.setActive true (Mongo.setActive false d1)) col3).
  { unfold col3. rewrite (add_leads SB rnd' L _ _ _ _ sch E D K Sc Hd2).
    now apply leads_update. }
  split; [|split; [|split]].
  - rewrite (query_leads SB P sch rnd k _ col2 Hsch Hd2).
    cbn [Mongo.active Mongo.setActive fst].
    eexists. split; reflexivity.
  - now rewrite (add_leads SB rnd' L _ _ _ _ sch E D K Sc Hd2).
  - rewrite (query_leads SB P sch rnd k _ col3 Hsch Hd3).
    cbn [Mongo.active Mongo.setActive fst]. now rewrite Hl.
  - rewrite (count_leads SB _ _ _ _ _ _ E K (or_introl eq_refl) Hd3).
    rewrite (count_leads SB _ _ _ _ _ _ E K (or_introl eq_refl) Hd1).
    reflexivity.
Qed.

(** A url added, queried, deactivated and added again. *)
Lemma add_after_deactivate_reactivates_witness :
  exists S,
    fst (Engine.add "short.ly" 12345 "http://example.com/page" [])
    = Engine.Fulfilled (Engine.Obj (Value (VString S)))
    /\ fst (Engine.query "short.ly" S
              (snd (Engine.add "short.ly" 7 "http://example.com/page"
                      (snd (Engine.deactivate "short.ly"
                              "http://example.com/page"
                              (Engine.runAll "short.ly" [Engine.Query S]
                                 (snd (Engine.add "short.ly" 12345
                                         "http://example.com/page"
                                         []))))))))
       = Engine.Fulfilled
           (Engine.Obj
              (Value (VString (JS.toLowerCase "http://example.com/page")))).
Proof.
  destruct (add_after_deactivate_reactivates "short.ly" 12345
              "http://example.com/page" [] short_ly_plain eq_refl eq_refl
              eq_refl eq_refl)
    as (S & Hadd & H).
  exists S. split; [exact Hadd|].
  exact (proj1 (proj2 (proj2 (H [Engine.Query S] 7%N)))).
Defined.

(** X9. A collision of short urls is not detected.  When the draw of
    [add] gives the short url of a document already stored, the new long
    url is stored under that same short url, [add] answers it, and
    [query] on it keeps answering the long url of the earlier document:
    the new association cannot be reached through the url handed out. *)
Theorem token_collision_hides_the_new_url
  (SB : string) (rnd : N) (L : string) (col : Mongo.collection)
  (d0 : Mongo.doc) :
  Fresh.plainBase SB ->
  UrlParser.error (UrlParser.parse UrlParser.reHttps L) = None ->
  Engine.domainIsBase SB (UrlParser.parse UrlParser.reHttps L) = false ->
  List.find
    (Mongo.orFilter (UrlParser.baseRest (UrlParser.parse UrlParser.reHttps L)))
    col = None ->
  List.find (Mongo.orFilter (Some (Fresh.shortFor SB rnd))) col = Some d0 ->
  Mongo.shortUrl d0 = Fresh.shortFor SB rnd ->
  Mongo.active d0 = true ->
  exists sch k,
    UrlParser.scheme (UrlParser.parse UrlParser.reHttps L) = Some sch
    /\ UrlParser.baseRest (UrlParser.parse UrlParser.reHttps L) = Some k
    /\ Engine.add SB rnd L col
       = (Engine.Fulfilled
            (Engine.Obj (Value (VString (sch ++ "://" ++ Mongo.shortUrl d0)))),
          (col ++ [Mongo.mkDoc (N.of_nat (List.length col)) k
                     (Mongo.shortUrl d0) true 0%N])%list)
    /\ fst (Engine.query SB (sch ++ "://" ++ Mongo.shortUrl d0)
              (snd (Engine.add SB rnd L col)))
       = Engine.Fulfilled
           (Engine.Obj (Value (VString (sch ++ "://" ++ Mongo.longUrl d0))))
    /\ Mongo.longUrl d0 <> k.
Proof.
  intros P E D F C Hs Ha.
  destruct (parse_ok_scheme L E) as (sch & Sc & Hsch).
  destruct (parse_ok_key L E) as (k & K).
  exists sch, k. split; [exact Sc|]. split; [exact K|].
  rewrite K in F.
  assert (Hadd : Engine.add SB rnd L col
                 = (Engine.Fulfilled
                      (Engine.Obj
                         (Value (VString (sch ++ "://" ++ Mongo.shortUrl d0)))),
                    (col ++ [Mongo.mkDoc (N.of_nat (List.length col)) k
                               (Mongo.shortUrl d0) true 0%N])%list)).
  { rewrite add_eq. cbv zeta. rewrite E, D, K, F.
    unfold EngineView.shortOf, EngineView.newDoc. rewrite Sc, K, Hs.
    reflexivity. }
  split; [exact Hadd|]. rewrite Hadd. cbn [snd]. split.
  - pose proof (parse_handed_out SB P sch rnd Hsch) as Hp.
    rewrite Hs.
    apply query_found with (k := Fresh.shortFor SB rnd);
      try (rewrite Hp; reflexivity).
    + now apply find_app_found.
    + exact Ha.
  - intros Hk. apply find_some in C. destruct C as (Hin & _).
    pose proof (proj1 (find_none _ _) F d0 Hin) as Hno.
    rewrite (orFilter_long k d0 Hk) in Hno. discriminate.
Qed.

(** Two long urls and one draw. *)
Lemma token_collision_hides_the_new_url_witness :
  exists sch k,
    UrlParser.scheme (UrlParser.parse UrlParser.reHttps "http://b.com")
    = Some sch
    /\ UrlParser.baseRest (UrlParser.parse UrlParser.reHttps "http://b.com")
       = Some k
    /\ Engine.add "short.ly" 12345 "http://b.com"
         [Mongo.mkDoc 0 "a.com" "short.ly/9ix" true 0]
       = (Engine.Fulfilled
            (Engine.Obj (Value (VString (sch ++ "://" ++ "short.ly/9ix")))),
          [Mongo.mkDoc 0 "a.com" "short.ly/9ix" true 0;
           Mongo.mkDoc 1 k "short.ly/9ix" true 0])
    /\ fst (Engine.query "short.ly" (sch ++ "://" ++ "short.ly/9ix")
              (snd (Engine.add "short.ly" 12345 "http://b.com"
                      [Mongo.mkDoc 0 "a.com" "short.ly/9ix" true 0])))
       = Engine.Fulfilled
           (Engine.Obj (Value (VString (sch ++ "://" ++ "a.com"))))
    /\ "a.com" <> k.
Proof.
  exact (token_collision_hides_the_new_url "short.ly" 12345 "http://b.com"
           [Mongo.mkDoc 0 "a.com" "short.ly/9ix" true 0]
           (Mongo.mkDoc 0 "a.com" "short.ly/9ix" true 0)
           short_ly_plain eq_refl eq_refl eq_refl eq_refl eq_refl eq_refl).
Defined.

(** ** Short urls *)

Lemma toRadix36_grows fuel n acc :
  (String.length acc <= String.length (JS.toRadix36 fuel n acc))%nat.
Proof.
  revert n acc. induction fuel as [|f IH]; intros n acc; [simpl; lia|].
  rewrite toRadix36_step. destruct (n / 36 =? 0)%N; [simpl; lia|].
  specialize (IH (n / 36)%N (String (JS.digit36 (n mod 36)) acc)).
  simpl in IH. lia.
Qed.

Lemma toRadix36_length fuel k n acc :
  (n < 36 ^ N.of_nat (S k))%N ->
  (String.length (JS.toRadix36 fuel n acc) <= S k + String.length acc)%nat.
Proof.
  revert k n acc. induction fuel as [|f IH]; intros k n acc Hn;
    [simpl; lia|].
  rewrite toRadix36_step. destruct (N.eqb_spec (n / 36) 0) as [E|E];
    [simpl; lia|].
  destruct k as [|k].
  - exfalso. apply E, N.div_small. exact Hn.
  - specialize (IH k (n / 36)%N (String (JS.digit36 (n mod 36)) acc)).
    simpl String.length in IH.
    assert (n / 36 < 36 ^ N.of_nat (S k))%N.
    { apply N.Div0.div_lt_upper_bound.
      replace (N.of_nat (S (S k))) with (N.succ (N.of_nat (S k)))
        in Hn by lia.
      now rewrite N.pow_succ_r' in Hn. }
    specialize (IH H). lia.
Qed.

Lemma string_app_inv_head s t1 t2 : s ++ t1 = s ++ t2 -> t1 = t2.
Proof. induction s; simpl; intros H; [exact H|]. inversion H; auto. Qed.

(** X10. The short url of a new association is the base, a slash and a
    token: the draw written in radix 36.  For a draw below 2^32 the token
    has from one to seven characters, each a digit or a lower-case
    letter, and different draws give different short urls. *)
Theorem short_url_token (SB : string) (rnd : N) :
  (rnd < 2 ^ 32)%N ->
  Fresh.shortFor SB rnd = SB ++ "/" ++ JS.toString36 rnd
  /\ (1 <= String.length (JS.toString36 rnd) <= 7)%nat
  /\ (forall c, InStr c (JS.toString36 rnd) ->
                JS.isDigit c = true \/ JS.isLowerAlpha c = true)
  /\ (forall rnd',
         Fresh.shortFor SB rnd' = Fresh.shortFor SB rnd -> rnd' = rnd).
Proof.
  intros H. split; [reflexivity|]. split; [|split].
  - unfold JS.toString36. split.
    + rewrite toRadix36_step.
      destruct (rnd / 36 =? 0)%N; [simpl; lia|].
      pose proof (toRadix36_grows (N.to_nat (N.log2 rnd)) (rnd / 36)
                    (String (JS.digit36 (rnd mod 36)) "")) as G.
      simpl String.length in G. lia.
    + pose proof (toRadix36_length (S (N.to_nat (N.log2 rnd))) 6 rnd "")
        as G.
      cbn [String.length] in G.
      assert (rnd < 36 ^ N.of_nat 7)%N; [|lia].
      eapply N.lt_trans; [exact H|]. reflexivity.
  - intros c Hc.
    pose proof (proj1 (allChars_In isTokenChar _) (toString36_chars rnd)
                  c Hc) as T.
    unfold isTokenChar in T. now apply Bool.orb_true_iff in T.
  - unfold Fresh.shortFor. intros rnd' E.
    apply string_app_inv_head in E. apply string_app_inv_head in E.
    now apply toString36_inj.
Qed.

(** The largest draw. *)
Lemma short_url_token_witness :
  (1 <= String.length (JS.toString36 4294967295) <= 7)%nat.
Proof.
  exact (proj1 (proj2 (short_url_token "short.ly" 4294967295 eq_refl))).
Defined.

(** ** Emptying the store *)

(** X11. [clear] answers the empty object and leaves no document.
    Whatever was stored before, after [clear] no [query], [count] or
    [deactivate] answers anything but an error; a url that parses is
    [NOT_FOUND] for [count] and [deactivate]; and a long url added again
    is stored afresh, with the short url of the new draw and a count of
    0. *)
Theorem clear_forgets_every_association
  (SB : string) (col : Mongo.collection) (u : string) (rnd : N) :
  let col' := snd (Housekeeping.clear col) in
  fst (Housekeeping.clear col) = Engine.Fulfilled (Engine.Obj Success)
  /\ (exists e,
         fst (Engine.query SB u col')
         = Engine.Fulfilled (Engine.Obj (Error e)))
  /\ (exists e,
         fst (Engine.count SB u col')
         = Engine.Fulfilled (Engine.Obj (Error e))
         /\ (UrlParser.error (UrlParser.parse UrlParser.reHttps u) = None ->
             code e = "NOT_FOUND"))
  /\ (exists e,
         fst (Engine.deactivate SB u col')
         = Engine.Fulfilled (Engine.Obj (Error e))
         /\ (UrlParser.error (UrlParser.parse UrlParser.reHttps u) = None ->
             code e = "NOT_FOUND"))
  /\ (forall sch k,
         UrlParser.error (UrlParser.parse UrlParser.reHttps u) = None ->
         Engine.domainIsBase SB (UrlParser.parse UrlParser.reHttps u)
         = false ->
         UrlParser.scheme (UrlParser.parse UrlParser.reHttps u) = Some sch ->
         UrlParser.baseRest (UrlParser.parse UrlParser.reHttps u) = Some k ->
         Engine.add SB rnd u col'
         = (Engine.Fulfilled
              (Engine.Obj
                 (Value (VString (sch ++ "://" ++ Fresh.shortFor SB rnd)))),
            [Mongo.mkDoc 0 k (Fresh.shortFor SB rnd) true 0])).
Proof.
  intros col'. unfold col'. simpl snd.
  split; [reflexivity|]. split; [|split; [|split]].
  - rewrite query_eq. cbv zeta.
    destruct (UrlParser.error (UrlParser.parse UrlParser.reHttps u));
      [eexists; reflexivity|].
    destruct (Engine.domainIsBase SB _); eexists; reflexivity.
  - rewrite count_eq. cbv zeta.
    destruct (UrlParser.error (UrlParser.parse UrlParser.reHttps u));
      eexists; (split; [reflexivity|]); [discriminate | reflexivity].
  - rewrite deactivate_eq. cbv zeta.
    destruct (UrlParser.error (UrlParser.parse UrlParser.reHttps u));
      eexists; (split; [reflexivity|]); [discriminate | reflexivity].
  - intros sch k E D Sc K. rewrite add_eq. cbv zeta. rewrite E, D, K.
    unfold EngineView.shortOf, EngineView.newDoc. rewrite Sc, K.
    reflexivity.
Qed.

(** ** The two versions of [validateBase] *)

Lemma app_ends x j t c :
  j <> "" -> x ++ j = t ++ String c "" -> exists t', j = t' ++ String c "".
Proof.
  revert t. induction x as [|a x IH]; intros t Hj E; simpl in E.
  - now exists t.
  - destruct t as [|b t]; simpl in E.
    + injection E as _ E. destruct x; simpl in E; [contradiction|].
      discriminate.
    + injection E as _ E. now apply (IH t).
Qed.

(** A host whose labels are all well formed is well formed as a whole. *)
Lemma labels_ok_join ls :
  ls <> [] -> Forall BaseSpec.labelOk ls -> BaseSpec.labelOk (join "." ls).
Proof.
  induction ls as [|l ls IH]; intros Hn Hf; [congruence|].
  inversion Hf as [|? ? Hl Hls]; subst.
  destruct ls as [|l2 ls]; [exact Hl|].
  rewrite join_cons by discriminate.
  specialize (IH ltac:(discriminate) Hls).
  destruct Hl as (Hl0 & Hlc & Hlf & Hll).
  destruct IH as (Hj0 & Hjc & Hjf & Hjl).
  split; [|split; [|split]].
  - destruct l; [congruence | discriminate].
  - intros c Hc. apply InStr_app in Hc as [Hc|Hc]; [now apply Hlc|].
    apply InStr_cons in Hc as [<-|Hc]; [reflexivity | now apply Hjc].
  - intros t E. destruct l as [|a l]; [congruence|].
    simpl in E. injection E as -> _. now elim (Hlf l).
  - intros t E.
    change (l ++ String "." (join "." (l2 :: ls)))
      with (l ++ "." ++ join "." (l2 :: ls)) in E.
    rewrite <- app_assoc in E.
    destruct (app_ends _ _ _ _ Hj0 E) as (t' & Ht'). now elim (Hjl t').
Qed.

Lemma host_ok_whole h :
  forallb UrlParser.partOk (JS.split "." h) = true ->
  (UrlParser.testBaseRe h
   && JS.charIsNot (JS.charAt h 0) "-"
   && JS.charIsNot (JS.charAt h (JS.len h - 1)) "-")%bool = true.
Proof.
  intros H. apply forallb_partOk in H.
  pose proof (labels_ok_join _ (split_not_nil "." h) H) as J.
  rewrite join_split in J. destruct J as (J0 & Jc & Jf & Jl).
  rewrite !Bool.andb_true_iff. split; [split|].
  - now apply testBaseRe_spec.
  - now apply first_char_not.
  - now apply last_char_not.
Qed.

(** X12. The [validateBase] of the finished engine only tightens the one
    of the unfinished engine: every base it accepts the earlier version
    accepts too, and the earlier version accepts bases it rejects, such
    as a host with an empty label. *)
Theorem validateBase_tightens_the_stub :
  (forall b, UrlParser.validateBase b = true -> Stub.validateBase b = true)
  /\ exists b, Stub.validateBase b = true /\ UrlParser.validateBase b = false.
Proof.
  split.
  - intros b. unfold UrlParser.validateBase, Stub.validateBase. cbv zeta.
    assert (Hh : forall i, UrlParser.validateHost b i = true ->
                 (UrlParser.testBaseRe (JS.substring b 0 i)
                  && JS.charIsNot (JS.charAt (JS.substring b 0 i) 0) "-"
                  && JS.charIsNot
                       (JS.charAt (JS.substring b 0 i)
                          (JS.len (JS.substring b 0 i) - 1)) "-")%bool
                 = true).
    { intros i. unfold UrlParser.validateHost. cbv zeta.
      destruct (forallb UrlParser.partOk
                  (JS.split "." (JS.substring b 0 i))) eqn:F;
        [|discriminate].
      intros _. now apply host_ok_whole. }
    destruct (JS.indexOf b ":" =? -1); [apply Hh|].
    destruct (JS.parseInt _) as [p|]; [|discriminate].
    destruct ((p <? 1) || (p >=? 2 ^ 16))%bool; [discriminate | apply Hh].
  - exists "a..b". split; reflexivity.
Qed.

(** ** What [query] can find *)

Section Stored.
Import UrlParser Mongo Engine EngineView Origin.

Variable SB : string.

(** The domain of a url that parses is read off its key. *)
Lemma domain_of_key regex u :
  error (parse regex u) = None ->
  exists k,
    baseRest (parse regex u) = Some k
    /\ domain (parse regex u) = Some (before ":" (before "/" k)).
Proof.
  intros E. destruct (parse_ok_view regex u E) as (s & r & _ & Hp & _).
  exists (JS.toLowerCase r). rewrite Hp. simpl.
  now rewrite toLowerCase_before_slash.
Qed.

Lemma stored_urls d d' :
  longUrl d' = longUrl d -> shortUrl d' = shortUrl d ->
  stored SB d -> stored SB d'.
Proof. unfold stored. intros -> ->. auto. Qed.

Lemma Forall_update (P : doc -> Prop) l1 d d' l2 :
  (P d -> P d') ->
  Forall P (l1 ++ d :: l2)%list -> Forall P (l1 ++ d' :: l2)%list.
Proof.
  intros H F. apply Forall_app in F as (F1 & F2).
  inversion F2; subst. apply Forall_app. split; auto.
Qed.

Lemma run_stored c col :
  Forall (stored SB) col -> Forall (stored SB) (snd (run SB c col)).
Proof.
  intros F. destruct c as [rnd u|u|u|u]; simpl run.
  - rewrite add_eq. cbv zeta.
    destruct (error (parse reHttps u)) eqn:E; [exact F|].
    destruct (domainIsBase SB (parse reHttps u)) eqn:D; [exact F|].
    destruct (List.find _ col) as [d|] eqn:Fd; simpl.
    + destruct (find_split _ _ _ Fd) as (l1 & l2 & -> & Hl1 & Hd).
      rewrite (updateOne_found _ _ _ _ _ Hl1 Hd).
      apply Forall_update with (d := d); [|exact F].
      now apply stored_urls.
    + apply Forall_app. split; [exact F|]. constructor; [|constructor].
      destruct (domain_of_key _ _ E) as (k & K & Dk).
      unfold newDoc, stored. rewrite K. simpl. split.
      * now exists rnd.
      * intros H. unfold domainIsBase in D. rewrite Dk, H in D.
        now rewrite String.eqb_refl in D.
  - destruct (query_effect SB u col)
      as [(-> & _)|(l1 & d & l2 & -> & -> & _)]; [exact F|].
    apply Forall_update with (d := d); [|exact F].
    now apply stored_urls.
  - now rewrite count_effect.
  - destruct (deactivate_effect SB u col)
      as [->|(l1 & d & l2 & -> & ->)]; [exact F|].
    apply Forall_update with (d := d); [|exact F].
    now apply stored_urls.
Qed.

Lemma runAll_stored cs col :
  Forall (stored SB) col -> Forall (stored SB) (runAll SB cs col).
Proof.
  revert col. induction cs as [|c cs IH]; intros col F; simpl; auto.
  apply IH. now apply run_stored.
Qed.

(** Among documents of the engine's making, [query] succeeds only
    through a short url. *)
Lemma query_success_short u col v :
  Forall (stored SB) col ->
  fst (query SB u col) = Fulfilled (Obj (Value v)) ->
  exists sch rnd d,
    (sch = "http" \/ sch = "https")
    /\ JS.toLowerCase u = sch ++ "://" ++ Fresh.shortFor SB rnd
    /\ In d col /\ shortUrl d = Fresh.shortFor SB rnd
    /\ v = VString (sch ++ "://" ++ longUrl d).
Proof.
  intros F H.
  destruct (query_success_domain SB u col v H) as (E & D).
  destruct (parse_ok_scheme u E) as (sch & Sc & Hsch).
  destruct (domain_of_key _ _ E) as (k & K & Dk).
  assert (Hu : JS.toLowerCase u = sch ++ "://" ++ k).
  { destruct (parse_ok_view _ u E) as (s & r & Hs & Hp & _).
    rewrite Hp in Sc, K. simpl in Sc, K.
    injection Sc as <-. injection K as <-. now apply toLowerCase_split. }
  revert H. rewrite query_eq. cbv zeta. rewrite E.
  unfold domainIsBase. rewrite D, String.eqb_refl, K.
  destruct (List.find (orFilter (Some k)) col) as [d|] eqn:Fd;
    [|discriminate].
  destruct (active d); [|discriminate].
  unfold longOf. rewrite Sc. simpl. intros H. injection H as <-.
  apply find_some in Fd. destruct Fd as (Hin & Ho).
  pose proof (proj1 (Forall_forall _ _) F d Hin) as ((rnd & Hr) & Hd).
  unfold orFilter in Ho. apply Bool.orb_true_iff in Ho.
  destruct Ho as [Ho|Ho]; apply String.eqb_eq in Ho.
  - exfalso. apply Hd. rewrite Ho. rewrite Dk in D. now injection D.
  - exists sch, rnd, d. rewrite Hr in Ho. subst k. auto.
Qed.

End Stored.

(** The same, on the collections built from the empty one. *)
Lemma query_succeeds_on_short_urls_only_aux
  (SB : string) (cs : list Engine.call) (u : string) (v : value) :
  fst (Engine.query SB u (Engine.runAll SB cs []))
  = Engine.Fulfilled (Engine.Obj (Value v)) ->
  exists sch rnd d,
    (sch = "http" \/ sch = "https")
    /\ JS.toLowerCase u = sch ++ "://" ++ SB ++ "/" ++ JS.toString36 rnd
    /\ In d (Engine.runAll SB cs [])
    /\ Mongo.shortUrl d = SB ++ "/" ++ JS.toString36 rnd
    /\ v = VString (sch ++ "://" ++ Mongo.longUrl d).
Proof.
  intros H.
  exact (query_success_short SB u _ v
           (runAll_stored SB cs [] (Forall_nil _)) H).
Qed.

(** X13. On a collection the engine has built, [query] succeeds only on
    the short urls handed out: the url, in lower case, is [http://] or
    [https://], the base, a slash and the token of a stored document,
    whose long url is the answer.  In particular, a url with a port never
    succeeds, and neither does a long url. *)
Theorem query_succeeds_on_short_urls_only
  (SB : string) (cs : list Engine.call) (u : string) (v : value) :
  fst (Engine.query SB u (Engine.runAll SB cs []))
  = Engine.Fulfilled (Engine.Obj (Value v)) ->
  exists sch rnd d,
    (sch = "http" \/ sch = "https")
    /\ JS.toLowerCase u = sch ++ "://" ++ SB ++ "/" ++ JS.toString36 rnd
    /\ In d (Engine.runAll SB cs [])
    /\ Mongo.shortUrl d = SB ++ "/" ++ JS.toString36 rnd
    /\ v = VString (sch ++ "://" ++ Mongo.longUrl d).
Proof. exact (query_succeeds_on_short_urls_only_aux SB cs u v). Qed.

(** A url added and then queried. *)
Lemma query_succeeds_on_short_urls_only_witness :
  exists sch rnd d,
    (sch = "http" \/ sch = "https")
    /\ JS.toLowerCase "HTTP://short.ly/9ix"
       = sch ++ "://" ++ "short.ly" ++ "/" ++ JS.toString36 rnd
    /\ In d (Engine.runAll "short.ly"
               [Engine.Add 12345 "http://example.com/page"] [])
    /\ Mongo.shortUrl d = "short.ly" ++ "/" ++ JS.toString36 rnd
    /\ VString "http://example.com/page"
       = VString (sch ++ "://" ++ Mongo.longUrl d).
Proof.
  exact (query_succeeds_on_short_urls_only "short.ly"
           [Engine.Add 12345 "http://example.com/page"]
           "HTTP://short.ly/9ix" (VString "http://example.com/page")
           eq_refl).
Defined.

(** ** The routes over the engine *)

Lemma one_colon a b x y z :
  ~ InStr ":" a -> ~ InStr ":" b ->
  a ++ ":" ++ b = x ++ ":" ++ y ++ ":" ++ z -> False.
Proof.
  intros Ha Hb E.
  pose proof (find_char_spec ":" x) as Fx.
  destruct (JS.find ":" x) as [n|].
  - destruct Fx as (h & t & -> & Hh & _).
    rewrite app_assoc in E.
    change (a ++ String ":" b
            = h ++ String ":" (t ++ ":" ++ y ++ ":" ++ z)) in E.
    destruct (first_sep_unique ":" _ _ _ _ Ha Hh E) as (_ & ->).
    apply Hb. apply InStr_app. right. simpl. apply InStr_cons. now left.
  - change (a ++ String ":" b = x ++ String ":" (y ++ ":" ++ z)) in E.
    destruct (first_sep_unique ":" _ _ _ _ Ha Fx E) as (_ & ->).
    apply Hb. apply InStr_app. right. simpl. apply InStr_cons. now left.
Qed.

Lemma token_no_colon rnd : ~ InStr ":" (JS.toString36 rnd).
Proof.
  intros H.
  pose proof (proj1 (allChars_In isTokenChar _) (toString36_chars rnd)
                ":"%char H).
  discriminate.
Qed.

Lemma requestUrl_not_short SB req sch rnd :
  sch = "http" \/ sch = "https" -> ~ InStr ":" SB ->
  JS.toLowerCase (Routes.requestUrl req)
  <> sch ++ "://" ++ SB ++ "/" ++ JS.toString36 rnd.
Proof.
  intros Hsch Hc E. unfold Routes.requestUrl in E.
  rewrite !toLowerCase_app in E.
  apply (one_colon sch ("//" ++ SB ++ "/" ++ JS.toString36 rnd)
           (JS.toLowerCase (Routes.protocol req))
           ("//" ++ JS.toLowerCase (Routes.hostname req))
           (JS.toLowerCase (Routes.port req)
              ++ JS.toLowerCase (Routes.originalUrl req))).
  - destruct Hsch as [-> | ->]; unfold InStr; simpl; intuition discriminate.
  - intros H. apply InStr_cons in H as [H|H]; [discriminate|].
    apply InStr_cons in H as [H|H]; [discriminate|].
    apply InStr_app in H as [H|H]; [contradiction|].
    apply InStr_cons in H as [H|H]; [discriminate|].
    now apply (token_no_colon rnd).
  - symmetry. exact E.
Qed.

(** X14. The redirection route cannot find a short url.  [doRedirect]
    asks the model for the url of the request with the port of the
    server added, and a url with a port is not one [query] succeeds on:
    on every collection the engine has built, for every request, the
    handler redirects to [undefined] and changes nothing. *)
Theorem redirect_never_finds_a_short_url
  (SB nullRead : string) (cs : list Engine.call) (req : Routes.request) :
  Routes.doRedirect SB nullRead req (Engine.runAll SB cs [])
  = (Routes.redirect None, Engine.runAll SB cs []).
Proof.
  unfold Routes.doRedirect. cbv zeta.
  pose proof (query_effect SB (Routes.requestUrl req) (Engine.runAll SB cs []))
    as Q.
  pose proof (query_fulfils SB (Routes.requestUrl req)
                (Engine.runAll SB cs [])) as (r & Hr).
  destruct (Engine.query SB (Routes.requestUrl req) (Engine.runAll SB cs []))
    as [c col'] eqn:Eq.
  simpl in Q, Hr. subst c.
  destruct r as [v| |e].
  - exfalso.
    assert (H : fst (Engine.query SB (Routes.requestUrl req)
                       (Engine.runAll SB cs []))
                = Engine.Fulfilled (Engine.Obj (Value v)))
      by now rewrite Eq.
    destruct (query_success_domain SB _ _ _ H) as (E & D).
    destruct (parsed_domain_plain _ _ _ E D) as (_ & Hc & _).
    destruct (query_succeeds_on_short_urls_only_aux SB cs _ v H)
      as (sch & rnd & d & Hsch & Hu & _).
    exact (requestUrl_not_short SB req sch rnd Hsch Hc Hu).
  - destruct Q as [(-> & _)|(l1 & d & l2 & _ & _ & H & _)];
      [reflexivity | discriminate].
  - destruct Q as [(-> & _)|(l1 & d & l2 & _ & _ & H & _)];
      [reflexivity | discriminate].
Qed.

(** X15. The routes answer the errors of the engine with status 200.
    [doDeactivate] sends 200 whatever the model answers, also for a url
    that is not stored or does not parse; [doShorten] sends the answer of
    [add] as it is, an error object included, so a missing or empty [url]
    parameter gets the [URL_SYNTAX] error with status 200; only for a url
    whose domain is the base, where [add] raises its [TypeError], does
    [mapError] make it the status 500 with the code [INTERNAL]. *)
Theorem routes_answer_errors_with_status_200
  (SB : string) (rnd : N) (url : option string) (col : Mongo.collection) :
  Routes.doDeactivate SB url col
  = (Routes.sendStatus 200,
     snd (Engine.deactivate SB (Routes.orEmpty url) col))
  /\ (forall r,
         fst (Engine.add SB rnd (Routes.orEmpty url) col)
         = Engine.Fulfilled r ->
         Routes.doShorten SB rnd url col
         = (Routes.json r, snd (Engine.add SB rnd (Routes.orEmpty url) col)))
  /\ (url = None \/ url = Some "" ->
      Routes.doShorten SB rnd url col
      = (Routes.json
           (Engine.Obj (Error (mkErr "URL_SYNTAX" "URL_SYNTAX: bad url "))),
         col))
  /\ (UrlParser.error
        (UrlParser.parse UrlParser.reHttps (Routes.orEmpty url)) = None ->
      Engine.domainIsBase SB
        (UrlParser.parse UrlParser.reHttps (Routes.orEmpty url)) = true ->
      Routes.doShorten SB rnd url col
      = (Routes.statusJson
           (Routes.mkMapped (Routes.Number 500) "INTERNAL"
              (Some "TypeError: this.setErrMsg is not a function")),
         col)).
Proof.
  split; [|split; [|split]].
  - unfold Routes.doDeactivate. cbv zeta.
    destruct (deactivate_fulfils SB (Routes.orEmpty url) col) as (r & Hr).
    destruct (Engine.deactivate SB (Routes.orEmpty url) col) as [c col'].
    simpl in Hr. subst c. reflexivity.
  - intros r Hr. unfold Routes.doShorten. cbv zeta.
    destruct (Engine.add SB rnd (Routes.orEmpty url) col) as [c col'].
    simpl in Hr. subst c. reflexivity.
  - intros [-> | ->]; reflexivity.
  - intros E D. unfold Routes.doShorten. cbv zeta.
    rewrite add_eq. cbv zeta. rewrite E, D. reflexivity.
Qed.

Section OverTheEngine.
Import UrlParser Mongo Engine EngineView.

Variable SB : string.
Variable draws : nat -> N.

(** How the promise of the model's [add] settles. *)
Lemma modelAdd_cases u i col :
  (error (parse reHttps u) <> None ->
   Routes.modelAdd SB draws u (i, col) = (Ws.Resolved None, (S i, col)))
  /\ (error (parse reHttps u) = None ->
      domainIsBase SB (parse reHttps u) = true ->
      Routes.modelAdd SB draws u (i, col) = (Ws.Failed, (S i, col)))
  /\ (error (parse reHttps u) = None ->
      domainIsBase SB (parse reHttps u) = false ->
      exists s,
        fst (add SB (draws i) u col) = Fulfilled (Obj (Value (VString s)))
        /\ Routes.modelAdd SB draws u (i, col)
           = (Ws.Resolved (Some s), (S i, snd (add SB (draws i) u col)))).
Proof.
  unfold Routes.modelAdd. cbn [fst snd]. rewrite add_eq. cbv zeta.
  split; [|split].
  - intros E. destruct (error (parse reHttps u)); [reflexivity | congruence].
  - intros E D. rewrite E, D. reflexivity.
  - intros E D. rewrite E, D.
    destruct (List.find _ col) as [d|]; eexists; split; reflexivity.
Qed.

End OverTheEngine.

(** X16. Text translation over the engine.  For a text with one url in
    it, and with [isHtml] set or not: a url that does not parse is not
    left as it is but replaced by the text [undefined], since [add]
    answers an error object, which has no [value]; a url whose domain is
    the base is kept, [add] raising its [TypeError]; any other url is
    replaced by the short url [add] answers.  What is put in place of the
    url is put inside an anchor tag when [isHtml] is set, the kept url
    too, and the text around it is then escaped. *)
Theorem translate_over_the_engine
  (SB : string) (draws : nat -> N) (isHtml : bool) (pre u post : string)
  (i : nat) (col : Mongo.collection) :
  TranslateSpec.scan (pre ++ u ++ post)
    [TranslateSpec.Plain pre; TranslateSpec.Link u; TranslateSpec.Plain post]
  ->
  let translated :=
    Ws.doTextShorten (nat * Mongo.collection) (Routes.modelAdd SB draws)
      isHtml (pre ++ u ++ post) O (i, col) in
  let put v :=
    Ws.htmlEscape isHtml pre
      ++ (if isHtml then Ws.anchor v else v)
      ++ Ws.htmlEscape isHtml post in
  (ParseSpec.fails UrlParser.reHttps u ->
   translated = Some (put "undefined", O, (S i, col)))
  /\ (UrlParser.error (UrlParser.parse UrlParser.reHttps u) = None ->
      Engine.domainIsBase SB (UrlParser.parse UrlParser.reHttps u) = true ->
      translated = Some (put u, O, (S i, col)))
  /\ (UrlParser.error (UrlParser.parse UrlParser.reHttps u) = None ->
      Engine.domainIsBase SB (UrlParser.parse UrlParser.reHttps u) = false ->
      exists s,
        fst (Engine.add SB (draws i) u col)
        = Engine.Fulfilled (Engine.Obj (Value (VString s)))
        /\ translated
           = Some (put s, O, (S i, snd (Engine.add SB (draws i) u col)))).
Proof.
  intros Hscan translated put. unfold translated, put.
  rewrite (doTextShorten_scan _ _ isHtml _ _ (i, col) Hscan).
  destruct (modelAdd_cases SB draws u i col) as (H1 & H2 & H3).
  cbn [TranslateSpec.render]. rewrite !htmlEscape_escape.
  split; [|split].
  - intros F.
    assert (E : UrlParser.error (UrlParser.parse UrlParser.reHttps u)
                <> None).
    { intros E.
      now apply (proj2 (parse_fails_iff _ u reHttps_empty)) in E. }
    rewrite (H1 E). cbn [fst snd Ws.valueText]. now rewrite app_empty_r.
  - intros E D. rewrite (H2 E D). cbn [fst snd]. now rewrite app_empty_r.
  - intros E D. destruct (H3 E D) as (s & Hs & ->). exists s.
    split; [exact Hs|]. cbn [fst snd Ws.valueText]. now rewrite app_empty_r.
Qed.

(** A text for HTML with a url whose host starts with a hyphen. *)
Lemma translate_over_the_engine_witness :
  Ws.doTextShorten (nat * Mongo.collection)
    (Routes.modelAdd "short.ly" (fun _ => 12345%N)) true
    ("a<b " ++ "http://-a.b" ++ " now") O (O, [])
  = Some (Ws.htmlEscape true "a<b " ++ Ws.anchor "undefined"
            ++ Ws.htmlEscape true " now", O, (1%nat, [])).
Proof.
  assert (Hscan : TranslateSpec.scan ("a<b " ++ "http://-a.b" ++ " now")
                    [TranslateSpec.Plain "a<b ";
                     TranslateSpec.Link "http://-a.b";
                     TranslateSpec.Plain " now"]).
  { apply (TranslateSpec.scan_link "a<b " "http://-a.b" " now"
             [TranslateSpec.Plain " now"]).
    - intros j Hj. apply matchAt_none.
      destruct j as [|[|[|[|j]]]]; try reflexivity. simpl in Hj. lia.
    - exists "http", "-a.b". split; [reflexivity|].
      split; [left; reflexivity|]. split; [discriminate|].
      intros c Hc. unfold InStr in Hc. simpl in Hc.
      destruct Hc as [<-|[<-|[<-|[<-|[]]]]]; reflexivity.
    - intros c t E. inversion E. reflexivity.
    - apply TranslateSpec.scan_end. intros j. apply matchAt_none.
      destruct j as [|[|[|[|[|j]]]]]; reflexivity. }
  refine (proj1 (translate_over_the_engine "short.ly" (fun _ => 12345%N)
                   true "a<b " "http://-a.b" " now" O [] Hscan) _).
  apply (proj1 (parse_fails_iff UrlParser.reHttps "http://-a.b" eq_refl)).
  eexists. split; reflexivity.
Defined.

(** ** Escaping for HTML *)

Section EscapeFacts.
Import Ws TranslateSpec.

Lemma escapeChar_cases c :
  (c = "&"%char /\ escapeChar c = "&amp;")
  \/ (c = "<"%char /\ escapeChar c = "&lt;")
  \/ (c = ">"%char /\ escapeChar c = "&gt;")
  \/ (c = ascii_of_nat 34 /\ escapeChar c = "&quot;")
  \/ (c <> "&"%char /\ c <> "<"%char /\ c <> ">"%char
      /\ c <> ascii_of_nat 34 /\ escapeChar c = String c "").
Proof.
  unfold escapeChar.
  destruct (Ascii.eqb_spec c "&") as [->|H1]; [now left|].
  destruct (Ascii.eqb_spec c "<") as [->|H2]; [right; now left|].
  destruct (Ascii.eqb_spec c ">") as [->|H3]; [right; right; now left|].
  destruct (Ascii.eqb_spec c (ascii_of_nat 34)) as [->|H4];
    [right; right; right; now left|].
  right; right; right; right. auto.
Qed.

Lemma skip_prefix p x y rest :
  ~ InStr "&" p -> x ++ "&" ++ y = p ++ rest ->
  exists x', x = p ++ x' /\ x' ++ "&" ++ y = rest.
Proof.
  revert x. induction p as [|a p IH]; intros x Hp E.
  - now exists x.
  - rewrite InStr_cons in Hp. destruct x as [|b x]; simpl in E.
    + injection E as E _. subst a. tauto.
    + injection E as -> E. destruct (IH x) as (x' & -> & Hx'); [tauto|auto|].
      now exists x'.
Qed.

Lemma escape_ampersand s x y :
  escape s = x ++ "&" ++ y -> entityStart y.
Proof.
  revert x. induction s as [|c s IH]; intros x E.
  - destruct x; discriminate.
  - cbn [escape] in E. symmetry in E.
    assert (Hent : forall e,
               escapeChar c = String "&" e -> ~ InStr "&" e ->
               (forall r, entityStart (e ++ r)) -> entityStart y).
    { intros e Hc He Hz. rewrite Hc in E.
      destruct x as [|b x]; simpl in E.
      - injection E as E. subst y. apply Hz.
      - injection E as _ E.
        destruct (skip_prefix e x y (escape s) He E) as (x' & _ & Hx').
        now apply (IH x'). }
    destruct (escapeChar_cases c)
      as [(_ & Hc)|[(_ & Hc)|[(_ & Hc)|[(_ & Hc)|(Hn & _ & _ & _ & Hc)]]]].
    + apply (Hent "amp;"); [exact Hc| |].
      * unfold InStr. simpl. intuition discriminate.
      * intros r. exists r. now left.
    + apply (Hent "lt;"); [exact Hc| |].
      * unfold InStr. simpl. intuition discriminate.
      * intros r. exists r. right. now left.
    + apply (Hent "gt;"); [exact Hc| |].
      * unfold InStr. simpl. intuition discriminate.
      * intros r. exists r. right. right. now left.
    + apply (Hent "quot;"); [exact Hc| |].
      * unfold InStr. simpl. intuition discriminate.
      * intros r. exists r. right. right. now right.
    + rewrite Hc in E. destruct x as [|b x]; simpl in E.
      * injection E as E _. congruence.
      * injection E as _ E. now apply (IH x).
Qed.

Lemma escape_no_markup s c :
  c = "<"%char \/ c = ">"%char \/ c = ascii_of_nat 34 ->
  ~ InStr c (escape s).
Proof.
  intros Hc. induction s as [|d s IH]; [intros []|].
  cbn [escape]. rewrite InStr_app. intros [H|H]; [|now apply IH].
  destruct (escapeChar_cases d)
    as [(_ & Hd)|[(_ & Hd)|[(_ & Hd)|[(_ & Hd)|(_ & H2 & H3 & H4 & Hd)]]]];
    rewrite Hd in H; unfold InStr in H; simpl in H;
    destruct Hc as [-> | [-> | ->]]; intuition (try discriminate; congruence).
Qed.

Lemma escape_inj s t : escape s = escape t -> s = t.
Proof.
  revert t. induction s as [|c s IH]; intros [|d t] E.
  - reflexivity.
  - cbn [escape] in E.
    destruct (escapeChar_cases d)
      as [(_ & Hd)|[(_ & Hd)|[(_ & Hd)|[(_ & Hd)|(_ & _ & _ & _ & Hd)]]]];
      rewrite Hd in E; discriminate.
  - cbn [escape] in E.
    destruct (escapeChar_cases c)
      as [(_ & Hc)|[(_ & Hc)|[(_ & Hc)|[(_ & Hc)|(_ & _ & _ & _ & Hc)]]]];
      rewrite Hc in E; discriminate.
  - cbn [escape] in E.
    destruct (escapeChar_cases c)
      as [(-> & Hc)|[(-> & Hc)|[(-> & Hc)|[(-> & Hc)
          |(C1 & C2 & C3 & C4 & Hc)]]]];
      destruct (escapeChar_cases d)
        as [(-> & Hd)|[(-> & Hd)|[(-> & Hd)|[(-> & Hd)
            |(D1 & D2 & D3 & D4 & Hd)]]]];
      rewrite ?Hc, ?Hd in E; simpl in E; try discriminate;
      try (injection E as E; f_equal; now apply IH);
      try (injection E as E1 E; congruence).
    injection E as -> E. f_equal. now apply IH.
Qed.

End EscapeFacts.

(** X17. What [htmlEscape] gives back is safe to put into HTML: with
    escaping on, the result holds no [<], no [>] and no double quote,
    and every [&] in it starts one of the entities [&amp;], [&lt;],
    [&gt;] and [&quot;]; a text with none of the four characters comes
    back as it is, and so does every text with escaping off. *)
Theorem htmlEscape_output_is_safe (text : string) :
  Ws.htmlEscape false text = text
  /\ ~ InStr "<" (Ws.htmlEscape true text)
  /\ ~ InStr ">" (Ws.htmlEscape true text)
  /\ ~ InStr (ascii_of_nat 34) (Ws.htmlEscape true text)
  /\ (forall x y, Ws.htmlEscape true text = x ++ "&" ++ y -> entityStart y)
  /\ ((forall c, InStr c text ->
                 c <> "&"%char /\ c <> "<"%char /\ c <> ">"%char
                 /\ c <> ascii_of_nat 34) ->
      Ws.htmlEscape true text = text).
Proof.
  split; [reflexivity|]. rewrite htmlEscape_escape.
  split; [apply escape_no_markup; auto|].
  split; [apply escape_no_markup; auto|].
  split; [apply escape_no_markup; auto|].
  split; [intros x y; apply escape_ampersand|].
  induction text as [|c s IH]; intros H; [reflexivity|].
  cbn [TranslateSpec.escape].
  destruct (escapeChar_cases c)
    as [(E & _)|[(E & _)|[(E & _)|[(E & _)|(_ & _ & _ & _ & Hc)]]]];
    try (exfalso; destruct (H c) as (H1 & H2 & H3 & H4);
         [apply InStr_cons; now left | congruence]).
  rewrite Hc, IH; [reflexivity|].
  intros d Hd. apply H. apply InStr_cons. now right.
Qed.

(** X18. Escaping loses nothing: [htmlEscape] turns two texts into the
    same text only when they are the same text. *)
Theorem htmlEscape_is_injective (s t : string) :
  Ws.htmlEscape true s = Ws.htmlEscape true t <-> s = t.
Proof.
  split; [|now intros ->].
  rewrite !htmlEscape_escape. apply escape_inj.
Qed.

(** ** The in-memory engine *)

Section MemoryParsing.
Import InMemory MemoryParsed.

Lemma restText_split r : r = before "/" r ++ restText r.
Proof.
  unfold restText. induction r as [|c r IH]; [reflexivity|]. simpl.
  destruct (Ascii.eqb c "/"); [reflexivity|]. simpl. now rewrite <- IH.
Qed.

Lemma memory_getUrlParts_noSeparator this u :
  ParseSpec.noSeparator u ->
  _getUrlParts this u
  = mkParts None None None None
      (Some (mkErr "URL_SYNTAX" ("URL_SYNTAX: bad url " ++ u))) u.
Proof.
  intros H. apply find_noSeparator in H.
  unfold _getUrlParts. cbv zeta. unfold JS.indexOf. rewrite H.
  reflexivity.
Qed.

(** [_getUrlParts] on a url cut at its first separator. *)
Lemma memory_getUrlParts_split this u s r :
  ParseSpec.firstSplit u s r ->
  _getUrlParts this u
  = if (String.eqb s "" || String.eqb r ""
        || JS.charIs (JS.charAt r 0) "/")%bool
    then mkParts None None None None
           (Some (mkErr "URL_SYNTAX" ("URL_SYNTAX: bad url " ++ u))) u
    else parsed s r.
Proof.
  intros Hs. pose proof (find_firstSplit _ _ _ Hs) as F.
  destruct Hs as [E _].
  assert (Hlen : String.length u
                 = (String.length s + 3 + String.length r)%nat).
  { rewrite E, !length_app. simpl. lia. }
  assert (Ea : u = (s ++ "://") ++ r) by (now rewrite app_assoc).
  assert (El : String.length (s ++ "://") = (String.length s + 3)%nat)
    by (rewrite length_app; simpl; lia).
  assert (Hd : JS.drop (String.length s + 3) u = r).
  { rewrite Ea at 1. rewrite <- El. apply drop_app_length. }
  assert (Hi : JS.indexOf u "://" = Z.of_nat (String.length s))
    by (unfold JS.indexOf; now rewrite F).
  assert (H0 : JS.indexOf u "://" + 3 = Z.of_nat (String.length s + 3))
    by lia.
  assert (Hsub : JS.substringFrom u (Z.of_nat (String.length s + 3)) = r)
    by (rewrite substringFrom_drop by lia; exact Hd).
  assert (Hsch : JS.substring u 0 (Z.of_nat (String.length s + 3))
                 = s ++ "://").
  { rewrite substring_prefix by lia. rewrite Ea at 1. rewrite <- El.
    apply take_app_length. }
  assert (Hc : JS.charAt u (Z.of_nat (String.length s + 3))
               = JS.charAt r 0).
  { unfold JS.charAt.
    replace (Z.of_nat (String.length s + 3) <? 0) with false
      by (symmetry; apply Z.ltb_ge; lia).
    simpl (0 <? 0). rewrite Nat2Z.id. simpl (Z.to_nat 0).
    rewrite Ea at 1.
    replace (String.length s + 3)%nat
      with (String.length (s ++ "://") + 0)%nat by lia.
    now rewrite get_app_length. }
  assert (H2 : (Z.of_nat (String.length s + 3) =? 2) = false)
    by (apply Z.eqb_neq; lia).
  assert (H3 : (Z.of_nat (String.length s + 3) =? 3) = String.eqb s "").
  { destruct (String.eqb_spec s "") as [->|Hn]; [reflexivity|].
    apply Z.eqb_neq. rewrite <- string_empty_length in Hn. lia. }
  assert (H4 : (JS.len u =? Z.of_nat (String.length s + 3))
               = String.eqb r "").
  { unfold JS.len. rewrite Hlen.
    destruct (String.eqb_spec r "") as [->|Hn].
    - apply Z.eqb_eq. simpl. lia.
    - apply Z.eqb_neq. rewrite <- string_empty_length in Hn. lia. }
  unfold _getUrlParts, _setErrMsg. cbv zeta.
  rewrite !H0, H2, H3, H4, Hc, Hsub, Hsch.
  simpl orb at 3.
  destruct (String.eqb s "" || String.eqb r ""
            || JS.charIs (JS.charAt r 0) "/")%bool; [reflexivity|].
  unfold parsed, restText. cbv zeta. rewrite fromFirst_drop.
  destruct (Z.eqb_spec (JS.indexOf r "/") (-1)) as [N|N].
  - apply indexOf_char_none in N. rewrite (before_none _ _ N).
    now rewrite !app_empty_r.
  - destruct (indexOf_char_split _ _ N) as (h & t & Er & Hh & Ei).
    assert (Hb : JS.substring u (Z.of_nat (String.length s + 3))
                   (Z.of_nat (String.length s + 3) + JS.indexOf r "/")
                 = before "/" r).
    { rewrite <- before_take by assumption. rewrite Ei. unfold JS.len.
      rewrite substring_range.
      - rewrite !Nat2Z.id, Hd. f_equal. lia.
      - lia.
      - unfold JS.len. rewrite Hlen, Er, length_app. simpl. lia. }
    assert (Hr : JS.substringFrom u
                   (Z.of_nat (String.length s + 3) + JS.indexOf r "/")
                 = JS.drop (Z.to_nat (JS.indexOf r "/")) r).
    { rewrite Ei. unfold JS.len. rewrite <- Nat2Z.inj_add.
      rewrite substringFrom_drop
        by (rewrite Hlen, Er, length_app; simpl; lia).
      rewrite Nat2Z.id, <- drop_drop, Hd. reflexivity. }
    rewrite Hb, Hr. reflexivity.
Qed.

End MemoryParsing.

(** X19. The parser of the in-memory engine checks the shape of a url
    and nothing else.  [_getUrlParts] fails, with the code [URL_SYNTAX],
    exactly when the url has no [://], or nothing before it, or nothing
    after it, or a slash right after it; every scheme and every host are
    let through.  On success the scheme (with its [://]) and the domain
    are in lower case, the text from the first slash on is kept as
    written, and the key [domainRest] and the [url] are made of them. *)
Theorem memory_getUrlParts_checks_the_shape_only
  (this : InMemory.shortener) (u : string) :
  (InMemory.error (InMemory._getUrlParts this u)
   = Some (mkErr "URL_SYNTAX" ("URL_SYNTAX: bad url " ++ u))
   <-> ParseSpec.noSeparator u
       \/ exists s r,
           ParseSpec.firstSplit u s r
           /\ (s = "" \/ r = "" \/ exists t, r = String "/" t))
  /\ (InMemory.error (InMemory._getUrlParts this u) = None
      <-> exists s r,
          ParseSpec.firstSplit u s r
          /\ s <> "" /\ r <> "" /\ forall t, r <> String "/" t)
  /\ (forall s r,
         ParseSpec.firstSplit u s r ->
         InMemory.error (InMemory._getUrlParts this u) = None ->
         InMemory._getUrlParts this u
         = InMemory.mkParts (Some (JS.toLowerCase s ++ "://"))
             (Some (JS.toLowerCase (before "/" r))) (fromFirst "/" r)
             (Some (JS.toLowerCase (before "/" r) ++ MemoryParsed.restText r))
             None
             (JS.toLowerCase s ++ "://" ++ JS.toLowerCase (before "/" r)
                ++ MemoryParsed.restText r)).
Proof.
  destruct (JS.find "://" u) as [n|] eqn:F.
  - assert (Hsep : ~ ParseSpec.noSeparator u).
    { intros H. apply find_noSeparator in H. congruence. }
    destruct (firstSplit_exists u Hsep) as (s & r & Hs).
    pose proof (memory_getUrlParts_split this u s r Hs) as Hp.
    assert (Hcases :
              (String.eqb s "" || String.eqb r ""
               || JS.charIs (JS.charAt r 0) "/")%bool = true
              <-> s = "" \/ r = "" \/ exists t, r = String "/" t).
    { rewrite !Bool.orb_true_iff, starts_with_char.
      rewrite !String.eqb_eq. tauto. }
    destruct (String.eqb s "" || String.eqb r ""
              || JS.charIs (JS.charAt r 0) "/")%bool eqn:G.
    + pose proof (proj1 Hcases eq_refl) as Hc.
      rewrite Hp. simpl. split; [|split].
      * split; [|reflexivity]. intros _. right. now exists s, r.
      * split; [discriminate|]. intros (s' & r' & Hs' & H1 & H2 & H3).
        destruct (firstSplit_unique _ _ _ _ _ Hs Hs') as (-> & ->).
        destruct Hc as [Hc|[Hc|(t & Hc)]]; [tauto | tauto|].
        now elim (H3 t).
      * intros; discriminate.
    + assert (Hn : ~ (s = "" \/ r = "" \/ exists t, r = String "/" t)).
      { intros H. apply Hcases in H. discriminate. }
      rewrite Hp. simpl. split; [|split].
      * split; [discriminate|]. intros [H|(s' & r' & Hs' & H)];
          [contradiction|].
        destruct (firstSplit_unique _ _ _ _ _ Hs Hs') as (-> & ->).
        contradiction.
      * split; [|reflexivity]. intros _. exists s, r.
        split; [exact Hs|]. repeat split.
        -- intros H; apply Hn; auto.
        -- intros H; apply Hn; auto.
        -- intros t H; apply Hn; right; right; now exists t.
      * intros s' r' Hs' _.
        destruct (firstSplit_unique _ _ _ _ _ Hs Hs') as (-> & ->).
        unfold MemoryParsed.parsed. cbv zeta.
        rewrite toLowerCase_app. change (JS.toLowerCase "://") with "://".
        now rewrite app_assoc.
  - assert (N : ParseSpec.noSeparator u) by now apply find_noSeparator.
    rewrite (memory_getUrlParts_noSeparator this u N). simpl.
    split; [|split].
    + split; [auto | reflexivity].
    + split; [discriminate|]. intros (s & r & Hs & _).
      now elim (firstSplit_separator _ _ _ Hs).
    + intros; discriminate.
Qed.

Section MemorySchemes.

Lemma string_cons_inj a s b t : String a s = String b t -> a = b /\ s = t.
Proof. intros H. inversion H. auto. Qed.

Lemma prefix_sep_head c s X Y :
  String.prefix "://" (String c (s ++ "://" ++ X))
  = String.prefix "://" (String c (s ++ "://" ++ Y)).
Proof.
  assert (H : forall X Y,
             String.prefix "://" (String c (s ++ "://" ++ X)) = true ->
             String.prefix "://" (String c (s ++ "://" ++ Y)) = true).
  { clear X Y. intros X Y. rewrite !prefix_app. intros (t & E).
    destruct s as [|a [|b s]]; simpl in E;
      apply string_cons_inj in E as (-> & E);
      apply string_cons_inj in E as (Ea & E);
      try discriminate;
      apply string_cons_inj in E as (Eb & E);
      try discriminate.
    subst a b. now exists (s ++ "://" ++ Y). }
  apply Bool.eq_iff_eq_true. split; apply H.
Qed.

(** The first separator of a url stays the first one when the text after
    it is replaced. *)
Lemma find_sep_replace s r X :
  JS.find "://" (s ++ "://" ++ r) = Some (String.length s) ->
  JS.find "://" (s ++ "://" ++ X) = Some (String.length s).
Proof.
  induction s as [|c s IH].
  - intros _. change ("" ++ "://" ++ X) with (String ":" ("//" ++ X)).
    rewrite find_cons.
    replace (String.prefix "://" (String ":" ("//" ++ X))) with true;
      [reflexivity|].
    symmetry. apply prefix_app. now exists X.
  - change (String c s ++ "://" ++ r) with (String c (s ++ "://" ++ r)).
    change (String c s ++ "://" ++ X) with (String c (s ++ "://" ++ X)).
    rewrite !find_cons, (prefix_sep_head c s X r).
    destruct (String.prefix "://" (String c (s ++ "://" ++ r)));
      [discriminate|].
    destruct (JS.find "://" (s ++ "://" ++ r)) as [n|] eqn:F;
      [|discriminate].
    cbn [option_map String.length]. intros H. injection H as ->.
    now rewrite IH.
Qed.

Lemma firstSplit_replace s r X :
  ParseSpec.firstSplit (s ++ "://" ++ r) s r ->
  ParseSpec.firstSplit (s ++ "://" ++ X) s X.
Proof.
  intros H. apply firstSplit_of_find; [|reflexivity].
  apply find_sep_replace with (r := r). now apply find_firstSplit with (r := r).
Qed.

End MemorySchemes.

Section MemoryLife.
Import InMemory MemoryParsed.

Lemma fromFirst_app c h t :
  ~ InStr c h -> fromFirst c (h ++ String c t) = Some (String c t).
Proof.
  induction h as [|d h IH]; simpl.
  - now rewrite Ascii.eqb_refl.
  - rewrite InStr_cons. destruct (Ascii.eqb_spec d c) as [->|Hne]; [tauto|].
    intros H. apply IH. tauto.
Qed.

(** A url that parses, cut at its first separator. *)
Lemma memory_parse_ok this u :
  error (_getUrlParts this u) = None ->
  exists s r,
    ParseSpec.firstSplit u s r
    /\ s <> "" /\ r <> "" /\ (forall t, r <> String "/" t)
    /\ _getUrlParts this u = parsed s r.
Proof.
  intros E. destruct (JS.find "://" u) as [n|] eqn:F.
  - assert (Hsep : ~ ParseSpec.noSeparator u).
    { intros H. apply find_noSeparator in H. congruence. }
    destruct (firstSplit_exists u Hsep) as (s & r & Hs).
    pose proof (memory_getUrlParts_split this u s r Hs) as Hp.
    rewrite Hp in E. rewrite Hp.
    exists s, r. split; [exact Hs|].
    destruct (String.eqb_spec s "") as [H1|H1]; [discriminate|].
    destruct (String.eqb_spec r "") as [H2|H2]; [discriminate|].
    destruct (JS.charIs (JS.charAt r 0) "/") eqn:C; [discriminate|].
    simpl. repeat split; auto.
    intros t Ht.
    assert (JS.charIs (JS.charAt r 0) "/" = true)
      by (apply starts_with_char; now exists t).
    congruence.
  - apply find_noSeparator in F.
    rewrite (memory_getUrlParts_noSeparator this u F) in E. discriminate.
Qed.

Variable this : shortener.
Hypothesis domain_not_empty : SHORTENER_DOMAIN this <> "".
Hypothesis domain_no_slash : ~ InStr "/" (SHORTENER_DOMAIN this).
Hypothesis domain_lower :
  JS.toLowerCase (SHORTENER_DOMAIN this) = SHORTENER_DOMAIN this.

(** The short url the engine hands out, as it parses it. *)
Lemma memory_parse_short (that : shortener) L s r tok :
  ParseSpec.firstSplit L s r -> s <> "" ->
  _getUrlParts that
    ((JS.toLowerCase s ++ "://") ++ SHORTENER_DOMAIN this ++ "/" ++ tok)
  = mkParts (Some (JS.toLowerCase s ++ "://"))
      (Some (SHORTENER_DOMAIN this)) (Some ("/" ++ tok))
      (Some (SHORTENER_DOMAIN this ++ "/" ++ tok)) None
      ((JS.toLowerCase s ++ "://") ++ SHORTENER_DOMAIN this ++ "/" ++ tok).
Proof.
  intros Hs Hne.
  pose proof (firstSplit_lower _ _ _ Hs) as Hl.
  rewrite (toLowerCase_split _ _ _ Hs) in Hl.
  pose proof (firstSplit_replace _ _
                (SHORTENER_DOMAIN this ++ "/" ++ tok) Hl) as Hx.
  rewrite app_assoc.
  rewrite (memory_getUrlParts_split that _ _ _ Hx).
  destruct (String.eqb_spec (JS.toLowerCase s) "") as [E|_];
    [apply (proj1 (toLowerCase_empty _)) in E; contradiction|].
  destruct (String.eqb_spec (SHORTENER_DOMAIN this ++ "/" ++ tok) "")
    as [E|_].
  { destruct (SHORTENER_DOMAIN this); [contradiction | discriminate]. }
  destruct (JS.charIs
              (JS.charAt (SHORTENER_DOMAIN this ++ "/" ++ tok) 0) "/") eqn:C.
  { exfalso. apply starts_with_char in C. destruct C as (t & C).
    destruct (SHORTENER_DOMAIN this) as [|c d]; [contradiction|].
    simpl in C. apply string_cons_inj in C as (-> & _).
    apply domain_no_slash. apply InStr_cons. now left. }
  simpl. unfold parsed, restText. cbv zeta.
  change (SHORTENER_DOMAIN this ++ "/" ++ tok)
    with (SHORTENER_DOMAIN this ++ String "/" tok).
  rewrite (before_app _ _ _ domain_no_slash).
  rewrite (fromFirst_app _ _ _ domain_no_slash).
  rewrite toLowerCase_app, toLowerCase_idem, domain_lower.
  change (JS.toLowerCase "://") with "://". now rewrite !app_assoc.
Qed.

(** A first [add]: the answer and the state it leaves. *)
Lemma memory_add_first rnd L sch k :
  error (_getUrlParts this L) = None ->
  domainIs this (_getUrlParts this L) = false ->
  scheme (_getUrlParts this L) = Some sch ->
  domainRest (_getUrlParts this L) = Some k ->
  lookup this (LONG_ACCESS this) (Some k) = None ->
  lookup this (SHORT_ACCESS this) (Some k) = None ->
  add rnd L this
  = (Engine.Obj
       (Value (VString
                 (sch ++ SHORTENER_DOMAIN this ++ "/" ++ JS.toString36 rnd))),
     mkShortener (SHORTENER_DOMAIN this)
       (heap this
          ++ [mkInfo k (SHORTENER_DOMAIN this ++ "/" ++ JS.toString36 rnd)
                true 0%N])%list
       (setRef (LONG_ACCESS this) k (List.length (heap this)))
       (setRef (SHORT_ACCESS this)
          (SHORTENER_DOMAIN this ++ "/" ++ JS.toString36 rnd)
          (List.length (heap this)))).
Proof.
  intros E D Sc K Ll Ls. unfold add. rewrite E, D, K, Ll, Ls, Sc.
  reflexivity.
Qed.

Lemma nth_error_last (A : Type) (l : list A) x :
  nth_error (l ++ [x])%list (List.length l) = Some x.
Proof. rewrite nth_error_app2 by lia. now rewrite Nat.sub_diag. Qed.

Lemma store_last h (x y : urlInfo) :
  store (h ++ [x])%list (List.length h) y = (h ++ [y])%list.
Proof. induction h as [|a h IH]; simpl; [reflexivity | now rewrite IH]. Qed.

End MemoryLife.

Section MemoryAssociation.
Import InMemory MemoryParsed.

Variable this : shortener.
Hypothesis domain_not_empty : SHORTENER_DOMAIN this <> "".
Hypothesis domain_no_slash : ~ InStr "/" (SHORTENER_DOMAIN this).
Hypothesis domain_lower :
  JS.toLowerCase (SHORTENER_DOMAIN this) = SHORTENER_DOMAIN this.

Variable rnd : N.
Variable L : string.
Hypothesis parses : error (_getUrlParts this L) = None.
Hypothesis other_domain : domainIs this (_getUrlParts this L) = false.
Hypothesis new_long :
  lookup this (LONG_ACCESS this) (domainRest (_getUrlParts this L)) = None.
Hypothesis new_short :
  lookup this (SHORT_ACCESS this) (domainRest (_getUrlParts this L)) = None.

(** The state a first [add] leaves, the short url it answers, and how
    the engine parses both urls in any state. *)
Lemma memory_first_add :
  exists sch k tok,
    let short := SHORTENER_DOMAIN this ++ "/" ++ tok in
    let this1 := holding this k short (mkInfo k short true 0%N) in
    add rnd L this = (Engine.Obj (Value (VString (sch ++ short))), this1)
    /\ url (_getUrlParts this L) = sch ++ k
    /\ (forall that,
           _getUrlParts that L
           = mkParts (Some sch) (domain (_getUrlParts this L))
               (rest (_getUrlParts this L)) (Some k) None (sch ++ k))
    /\ (forall that,
           _getUrlParts that (sch ++ short)
           = mkParts (Some sch) (Some (SHORTENER_DOMAIN this))
               (Some ("/" ++ tok)) (Some short) None (sch ++ short)).
Proof.
  destruct (memory_parse_ok this L parses) as (s & r & Hs & Hs0 & _ & _ & Hp).
  exists (JS.toLowerCase s ++ "://"),
    (JS.toLowerCase (before "/" r) ++ restText r), (JS.toString36 rnd).
  cbv zeta.
  assert (Hp' : _getUrlParts this L
                = mkParts (Some (JS.toLowerCase s ++ "://"))
                    (Some (JS.toLowerCase (before "/" r))) (fromFirst "/" r)
                    (Some (JS.toLowerCase (before "/" r) ++ restText r))
                    None
                    ((JS.toLowerCase s ++ "://")
                       ++ JS.toLowerCase (before "/" r) ++ restText r)).
  { rewrite Hp. unfold parsed. cbv zeta. now rewrite toLowerCase_app. }
  split; [|split; [|split]].
  - unfold holding. apply memory_add_first; try assumption.
    + now rewrite Hp'.
    + now rewrite Hp'.
    + rewrite Hp' in new_long. exact new_long.
    + rewrite Hp' in new_short. exact new_short.
  - now rewrite Hp'.
  - intros that. rewrite (getUrlParts_any that this L), Hp'. reflexivity.
  - intros that.
    exact (memory_parse_short this domain_not_empty domain_no_slash
             domain_lower that L s r (JS.toString36 rnd) Hs Hs0).
Qed.

End MemoryAssociation.

Section MemoryShared.
Import InMemory MemoryParsed.

Variable this : shortener.
Variables sch k short : string.
Variable rest_short : option string.
Variable L : string.

Hypothesis parse_long :
  forall that,
    _getUrlParts that L
    = mkParts (Some sch) (domain (_getUrlParts this L))
        (rest (_getUrlParts this L)) (Some k) None (sch ++ k).
Hypothesis parse_short :
  forall that,
    _getUrlParts that (sch ++ short)
    = mkParts (Some sch) (Some (SHORTENER_DOMAIN this)) rest_short
        (Some short) None (sch ++ short).
Hypothesis other_domain : domainIs this (_getUrlParts this L) = false.

Lemma lookup_holding_long o :
  lookup (holding this k short o) (LONG_ACCESS (holding this k short o))
    (Some k)
  = Some (List.length (heap this), o).
Proof.
  unfold lookup, holding. cbn [LONG_ACCESS heap]. unfold setRef.
  now rewrite String.eqb_refl, nth_error_last.
Qed.

Lemma lookup_holding_short o :
  lookup (holding this k short o) (SHORT_ACCESS (holding this k short o))
    (Some short)
  = Some (List.length (heap this), o).
Proof.
  unfold lookup, holding. cbn [SHORT_ACCESS heap]. unfold setRef.
  now rewrite String.eqb_refl, nth_error_last.
Qed.

Lemma store_holding o o' :
  setHeap (holding this k short o)
    (store (heap (holding this k short o)) (List.length (heap this)) o')
  = holding this k short o'.
Proof.
  unfold setHeap, holding. cbn [heap SHORTENER_DOMAIN LONG_ACCESS SHORT_ACCESS].
  now rewrite store_last.
Qed.

Lemma query_holding o :
  query (sch ++ short) (holding this k short o)
  = if active o
    then (Engine.Obj (Value (VString (sch ++ longUrl o))),
          holding this k short
            (mkInfo (longUrl o) (shortUrl o) (active o) (queries o + 1)%N))
    else (Engine.Obj
            (Error (mkErr "NOT_FOUND"
                      ("NOT_FOUND: " ++ (sch ++ short) ++ " not found"))),
          holding this k short o).
Proof.
  unfold query. rewrite parse_short. cbn [error domainRest scheme].
  unfold domainIs. cbn [domain]. unfold holding at 1.
  cbn [SHORTENER_DOMAIN]. rewrite String.eqb_refl. cbn [negb].
  rewrite lookup_holding_short.
  destruct (active o); [|reflexivity].
  now rewrite store_holding.
Qed.

Lemma count_holding o :
  count L (holding this k short o)
  = (Engine.Obj (Value (VNumber (queries o))), holding this k short o).
Proof.
  unfold count. rewrite parse_long. cbn [error domainRest].
  now rewrite lookup_holding_long.
Qed.

Lemma remove_holding o :
  remove L (holding this k short o)
  = (Engine.Obj Success,
     holding this k short
       (mkInfo (longUrl o) (shortUrl o) false (queries o))).
Proof.
  unfold remove. rewrite parse_long. cbn [error domainRest].
  rewrite lookup_holding_long. now rewrite store_holding.
Qed.

Lemma add_holding rnd o :
  add rnd L (holding this k short o)
  = (Engine.Obj (Value (VString (sch ++ shortUrl o))),
     holding this k short
       (mkInfo (longUrl o) (shortUrl o) true (queries o))).
Proof.
  unfold add. rewrite parse_long. cbn [error domainRest scheme].
  assert (D : domainIs (holding this k short o)
                (mkParts (Some sch) (domain (_getUrlParts this L))
                   (rest (_getUrlParts this L)) (Some k) None (sch ++ k))
              = false).
  { unfold domainIs in *. cbn [domain]. unfold holding.
    cbn [SHORTENER_DOMAIN]. exact other_domain. }
  rewrite D, lookup_holding_long. now rewrite store_holding.
Qed.

(** Queries in a row on the short url. *)
Lemma queries_holding n o :
  active o = true -> longUrl o = k -> shortUrl o = short ->
  runAll (repeat (Query (sch ++ short)) n) (holding this k short o)
  = holding this k short
      (mkInfo k short true (queries o + N.of_nat n)%N).
Proof.
  revert o. induction n as [|n IH]; intros o Ha Hl Hs.
  - simpl. destruct o as [l s a q]. simpl in *. subst.
    now rewrite N.add_0_r.
  - cbn [repeat runAll run]. rewrite query_holding, Ha. cbn [snd].
    rewrite IH by (simpl; auto). cbn [queries]. f_equal. f_equal. lia.
Qed.

End MemoryShared.

(** X20. The round trip of the in-memory engine.  For an engine whose
    domain is not empty, has no slash and is in lower case, a state whose
    maps hold nothing under the key of a long url that parses with
    another domain, and a key that is an ordinary one: [add] answers a
    short url, and [query] on it right away answers the long url with its
    scheme and domain in lower case and the text from the first slash on
    as it was written. *)
Theorem memory_round_trip_keeps_the_path
  (this : InMemory.shortener) (rnd : N) (L : string) :
  InMemory.SHORTENER_DOMAIN this <> "" ->
  ~ InStr "/" (InMemory.SHORTENER_DOMAIN this) ->
  JS.toLowerCase (InMemory.SHORTENER_DOMAIN this)
  = InMemory.SHORTENER_DOMAIN this ->
  InMemory.error (InMemory._getUrlParts this L) = None ->
  InMemory.domainIs this (InMemory._getUrlParts this L) = false ->
  InMemory.lookup this (InMemory.LONG_ACCESS this)
    (InMemory.domainRest (InMemory._getUrlParts this L)) = None ->
  InMemory.lookup this (InMemory.SHORT_ACCESS this)
    (InMemory.domainRest (InMemory._getUrlParts this L)) = None ->
  MemoryParsed.ordinary this L = true ->
  exists S,
    fst (InMemory.add rnd L this) = Engine.Obj (Value (VString S))
    /\ fst (InMemory.query S (snd (InMemory.add rnd L this)))
       = Engine.Obj
           (Value (VString (InMemory.url (InMemory._getUrlParts this L))))
    /\ forall s r,
        ParseSpec.firstSplit L s r ->
        InMemory.url (InMemory._getUrlParts this L)
        = JS.toLowerCase s ++ "://" ++ JS.toLowerCase (before "/" r)
            ++ MemoryParsed.restText r.
Proof.
  intros H1 H2 H3 E D Ll Ls _.
  destruct (memory_first_add this H1 H2 H3 rnd L E D Ll Ls)
    as (sch & k & tok & H).
  cbv zeta in H. destruct H as (Hadd & Hurl & HpL & HpS).
  exists (sch ++ InMemory.SHORTENER_DOMAIN this ++ "/" ++ tok).
  rewrite Hadd. cbn [fst snd]. split; [reflexivity|]. split.
  - rewrite (query_holding this sch k _ _ HpS). cbn [InMemory.active fst].
    now rewrite Hurl.
  - intros s r Hs.
    destruct (memory_parse_ok this L E) as (s' & r' & Hs' & _ & _ & _ & Hp).
    destruct (firstSplit_unique _ _ _ _ _ Hs Hs') as (<- & <-).
    rewrite Hp. unfold MemoryParsed.parsed. cbv zeta. cbn [InMemory.url].
    rewrite toLowerCase_app. change (JS.toLowerCase "://") with "://".
    now rewrite app_assoc.
Qed.

(** A url with capitals in its host and its path, on a new engine. *)
Lemma memory_round_trip_keeps_the_path_witness :
  exists S,
    fst (InMemory.add 12345 "HTTP://Example.com/Page"
           (InMemory.create "short.ly"))
    = Engine.Obj (Value (VString S))
    /\ fst (InMemory.query S
              (snd (InMemory.add 12345 "HTTP://Example.com/Page"
                      (InMemory.create "short.ly"))))
       = Engine.Obj
           (Value
              (VString
                 (InMemory.url
                    (InMemory._getUrlParts (InMemory.create "short.ly")
                       "HTTP://Example.com/Page")))).
Proof.
  destruct (memory_round_trip_keeps_the_path (InMemory.create "short.ly")
              12345 "HTTP://Example.com/Page")
    as (S & H1 & H2 & _);
    try reflexivity; try discriminate.
  - unfold InStr. simpl. intuition discriminate.
  - exists S. split; assumption.
Defined.

(** X21. The two maps of the in-memory engine share the association.
    After a first [add] as above and [n] calls of [query] on the short
    url, [count] on the long url answers [n]; [remove] on the long url
    then makes [query] on the short url answer [NOT_FOUND]; and adding
    the long url again answers the same short url, makes [query] on it
    succeed again, and leaves the count at [n]. *)
Theorem memory_maps_share_the_association
  (this : InMemory.shortener) (rnd rnd' : N) (L : string) (n : nat) :
  InMemory.SHORTENER_DOMAIN this <> "" ->
  ~ InStr "/" (InMemory.SHORTENER_DOMAIN this) ->
  JS.toLowerCase (InMemory.SHORTENER_DOMAIN this)
  = InMemory.SHORTENER_DOMAIN this ->
  InMemory.error (InMemory._getUrlParts this L) = None ->
  InMemory.domainIs this (InMemory._getUrlParts this L) = false ->
  InMemory.lookup this (InMemory.LONG_ACCESS this)
    (InMemory.domainRest (InMemory._getUrlParts this L)) = None ->
  InMemory.lookup this (InMemory.SHORT_ACCESS this)
    (InMemory.domainRest (InMemory._getUrlParts this L)) = None ->
  MemoryParsed.ordinary this L = true ->
  exists S,
    fst (InMemory.add rnd L this) = Engine.Obj (Value (VString S))
    /\ let this1 :=
         InMemory.runAll (repeat (InMemory.Query S) n)
           (snd (InMemory.add rnd L this)) in
       let this2 := snd (InMemory.remove L this1) in
       let this3 := snd (InMemory.add rnd' L this2) in
       fst (InMemory.count L this1)
       = Engine.Obj (Value (VNumber (N.of_nat n)))
       /\ fst (InMemory.remove L this1) = Engine.Obj Success
       /\ (exists e,
              fst (InMemory.query S this2) = Engine.Obj (Error e)
              /\ code e = "NOT_FOUND")
       /\ fst (InMemory.add rnd' L this2) = Engine.Obj (Value (VString S))
       /\ fst (InMemory.query S this3)
          = Engine.Obj
              (Value (VString (InMemory.url (InMemory._getUrlParts this L))))
       /\ fst (InMemory.count L this3)
          = Engine.Obj (Value (VNumber (N.of_nat n))).
Proof.
  intros H1 H2 H3 E D Ll Ls _.
  destruct (memory_first_add this H1 H2 H3 rnd L E D Ll Ls)
    as (sch & k & tok & H).
  cbv zeta in H. destruct H as (Hadd & Hurl & HpL & HpS).
  exists (sch ++ InMemory.SHORTENER_DOMAIN this ++ "/" ++ tok).
  rewrite Hadd. cbn [fst snd]. split; [reflexivity|].
  rewrite (queries_holding this sch k _ _ HpS n) by reflexivity.
  cbn [InMemory.queries]. cbv zeta.
  rewrite (count_holding this sch k _ L HpL).
  rewrite (remove_holding this sch k _ L HpL).
  cbn [fst snd InMemory.queries InMemory.longUrl InMemory.shortUrl].
  rewrite (add_holding this sch k _ L HpL D).
  cbn [fst snd InMemory.queries InMemory.longUrl InMemory.shortUrl].
  rewrite !(query_holding this sch k _ _ HpS).
  cbn [fst snd InMemory.active InMemory.longUrl].
  rewrite (count_holding this sch k _ L HpL).
  cbn [fst InMemory.queries]. rewrite Hurl.
  repeat split.
  eexists. split; reflexivity.
Qed.

(** Two queries, then a removal and a second [add], on a new engine. *)
Lemma memory_maps_share_the_association_witness :
  exists S,
    fst (InMemory.add 12345 "http://example.com/page"
           (InMemory.create "short.ly"))
    = Engine.Obj (Value (VString S))
    /\ fst (InMemory.count "http://example.com/page"
              (InMemory.runAll (repeat (InMemory.Query S) 2)
                 (snd (InMemory.add 12345 "http://example.com/page"
                         (InMemory.create "short.ly")))))
       = Engine.Obj (Value (VNumber 2)).
Proof.
  destruct (memory_maps_share_the_association (InMemory.create "short.ly")
              12345 7 "http://example.com/page" 2)
    as (S & H1 & H2 & _);
    try reflexivity; try discriminate.
  - unfold InStr. simpl. intuition discriminate.
  - exists S. split; assumption.
Defined.

Section MemoryErrors.
Import InMemory MemoryParsed.

Variable this : shortener.

Lemma memory_parse_error u e :
  error (_getUrlParts this u) = Some e ->
  e = mkErr "URL_SYNTAX" ("URL_SYNTAX: bad url " ++ u).
Proof.
  unfold _getUrlParts. cbv zeta.
  destruct ((_ =? 2) || _ || _ || _)%bool.
  - intros H. injection H as <-. reflexivity.
  - destruct (_ =? -1); discriminate.
Qed.

Lemma errorOf_setErrMsg p msg :
  exists e, errorOf (_setErrMsg this p msg) = Engine.Obj (Error e).
Proof. eexists. reflexivity. Qed.

Lemma memory_run_answers c : exists r, fst (run c this) = Engine.Obj r.
Proof.
  destruct c as [rnd u|u|u|u]; simpl run.
  - unfold add. destruct (error (_getUrlParts this u));
      [eexists; reflexivity|].
    destruct (domainIs this _); [eexists; reflexivity|].
    destruct (lookup this (LONG_ACCESS this) _) as [[r o]|];
      eexists; reflexivity.
  - unfold query. destruct (error (_getUrlParts this u));
      [eexists; reflexivity|].
    destruct (domainIs this _); cbn [negb]; [|eexists; reflexivity].
    destruct (lookup this (SHORT_ACCESS this) _) as [[r o]|];
      [destruct (active o)|]; eexists; reflexivity.
  - unfold count. destruct (error (_getUrlParts this u));
      [eexists; reflexivity|].
    destruct (lookup this (LONG_ACCESS this) _) as [[r o]|];
      [eexists; reflexivity|].
    destruct (lookup this (SHORT_ACCESS this) _) as [[r o]|];
      eexists; reflexivity.
  - unfold remove. destruct (error (_getUrlParts this u));
      [eexists; reflexivity|].
    destruct (lookup this (LONG_ACCESS this) _) as [[r o]|];
      [eexists; reflexivity|].
    destruct (lookup this (SHORT_ACCESS this) _) as [[r o]|];
      eexists; reflexivity.
Qed.

Ltac memory_error H :=
  cbn in H; injection H as <-;
  split; [reflexivity|]; split; [eexists; reflexivity | auto].

Lemma memory_run_error c e :
  fst (run c this) = Engine.Obj (Error e) ->
  snd (run c this) = this
  /\ (exists t, message e = code e ++ ": " ++ t)
  /\ match c with
     | Add _ _ => code e = "URL_SYNTAX" \/ code e = "DOMAIN"
     | Query _ =>
         code e = "URL_SYNTAX" \/ code e = "DOMAIN" \/ code e = "NOT_FOUND"
     | _ => code e = "URL_SYNTAX" \/ code e = "NOT_FOUND"
     end.
Proof.
  destruct c as [rnd u|u|u|u]; simpl run.
  - unfold add. destruct (error (_getUrlParts this u)) as [e'|] eqn:E.
    + apply memory_parse_error in E. subst e'. intros H. memory_error H.
    + destruct (domainIs this _); [intros H; memory_error H|].
      destruct (lookup this (LONG_ACCESS this) _) as [[r o]|];
        discriminate.
  - unfold query. destruct (error (_getUrlParts this u)) as [e'|] eqn:E.
    + apply memory_parse_error in E. subst e'. intros H. memory_error H.
    + destruct (domainIs this _); cbn [negb];
        [|intros H; memory_error H].
      destruct (lookup this (SHORT_ACCESS this) _) as [[r o]|];
        [destruct (active o); [discriminate|]|];
        intros H; memory_error H.
  - unfold count. destruct (error (_getUrlParts this u)) as [e'|] eqn:E.
    + apply memory_parse_error in E. subst e'. intros H. memory_error H.
    + destruct (lookup this (LONG_ACCESS this) _) as [[r o]|];
        [discriminate|].
      destruct (lookup this (SHORT_ACCESS this) _) as [[r o]|];
        [discriminate|]. intros H. memory_error H.
  - unfold remove. destruct (error (_getUrlParts this u)) as [e'|] eqn:E.
    + apply memory_parse_error in E. subst e'. intros H. memory_error H.
    + destruct (lookup this (LONG_ACCESS this) _) as [[r o]|];
        [discriminate|].
      destruct (lookup this (SHORT_ACCESS this) _) as [[r o]|];
        [discriminate|]. intros H. memory_error H.
Qed.

End MemoryErrors.

(** X22. The errors of the in-memory engine.  For a url with an ordinary
    key, every method answers an object; when it is an error, the state
    is left as it was, the message starts with the code, a colon and a
    space, and the code is [URL_SYNTAX] or [DOMAIN] for [add], one of
    these or [NOT_FOUND] for [query], and [URL_SYNTAX] or [NOT_FOUND] for
    [count] and [remove].  In particular [add] on a url whose domain is
    the domain of the engine answers the error [DOMAIN]. *)
Theorem memory_errors_leave_the_state
  (this : InMemory.shortener) (c : InMemory.call) :
  MemoryParsed.ordinary this (MemoryParsed.callUrl c) = true ->
  (exists r, fst (InMemory.run c this) = Engine.Obj r)
  /\ (forall e,
         fst (InMemory.run c this) = Engine.Obj (Error e) ->
         snd (InMemory.run c this) = this
         /\ (exists t, message e = code e ++ ": " ++ t)
         /\ match c with
            | InMemory.Add _ _ => code e = "URL_SYNTAX" \/ code e = "DOMAIN"
            | InMemory.Query _ =>
                code e = "URL_SYNTAX" \/ code e = "DOMAIN"
                \/ code e = "NOT_FOUND"
            | _ => code e = "URL_SYNTAX" \/ code e = "NOT_FOUND"
            end)
  /\ (forall rnd L,
         c = InMemory.Add rnd L ->
         InMemory.error (InMemory._getUrlParts this L) = None ->
         InMemory.domainIs this (InMemory._getUrlParts this L) = true ->
         exists e,
           InMemory.run c this = (Engine.Obj (Error e), this)
           /\ code e = "DOMAIN").
Proof.
  intros _. split; [apply memory_run_answers|].
  split; [apply memory_run_error|].
  intros rnd L -> E D. simpl InMemory.run. unfold InMemory.add.
  rewrite E, D. eexists. split; reflexivity.
Qed.

(** [add] on a url of the engine's own domain. *)
Lemma memory_errors_leave_the_state_witness :
  exists e,
    InMemory.run (InMemory.Add 1 "http://short.ly/x")
      (InMemory.create "short.ly")
    = (Engine.Obj (Error e), InMemory.create "short.ly")
    /\ code e = "DOMAIN".
Proof.
  exact (proj2 (proj2 (memory_errors_leave_the_state
                         (InMemory.create "short.ly")
                         (InMemory.Add 1 "http://short.ly/x") eq_refl))
           1%N "http://short.ly/x" eq_refl eq_refl eq_refl).
Defined.

(** ** Documents are kept *)

Section Kept.
Import UrlParser Mongo Engine EngineView Evolution.

Variable SB : string.

Lemma state_step c col i d :
  nth_error col i = Some d ->
  exists d', nth_error (snd (run SB c col)) i = Some d'
             /\ _id d' = _id d
             /\ longUrl d' = longUrl d /\ shortUrl d' = shortUrl d
             /\ (active d' = active d
                 \/ (active d' = true /\ exists rnd u, c = Add rnd u)
                 \/ (active d' = false /\ exists u, c = Deactivate u)).
Proof.
  intros Hi. destruct c as [rnd u|u|u|u]; simpl.
  - destruct (add_effect SB rnd u col)
      as [->|[(l1 & x & l2 & -> & ->)|(_ & _ & ->)]].
    + exists d; repeat split; auto.
    + destruct (nth_update l1 x (setActive true x) l2 i d Hi)
        as (x' & Hx & [[_ ->]|(_ & -> & ->)]).
      * exists d; repeat split; auto.
      * eexists. split; [exact Hx|]. simpl. repeat split; auto.
        right. left. split; auto. now exists rnd, u.
    + exists d. repeat split; auto using nth_after_append.
  - destruct (query_effect SB u col)
      as [[-> _]|(l1 & x & l2 & -> & -> & Hr & _)].
    + exists d; repeat split; auto.
    + destruct (nth_update l1 x (setQueries (queries x + 1)%N x) l2 i d Hi)
        as (x' & Hx & [[_ ->]|(_ & -> & ->)]).
      * exists d; repeat split; auto.
      * eexists. split; [exact Hx|]. simpl. repeat split; auto.
  - rewrite count_effect. exists d; repeat split; auto.
  - destruct (deactivate_effect SB u col)
      as [->|(l1 & x & l2 & -> & ->)].
    + exists d; repeat split; auto.
    + destruct (nth_update l1 x (setActive false x) l2 i d Hi)
        as (x' & Hx & [[_ ->]|(_ & -> & ->)]).
      * exists d; repeat split; auto.
      * eexists. split; [exact Hx|]. simpl. repeat split; auto.
        right. right. split; auto. now exists u.
Qed.

Lemma kept_all cs col i d :
  nth_error col i = Some d ->
  exists d', nth_error (runAll SB cs col) i = Some d'
             /\ _id d' = _id d
             /\ longUrl d' = longUrl d /\ shortUrl d' = shortUrl d.
Proof.
  intros Hi.
  destruct (evolves_nth _ _ _ _ (runAll_evolves SB cs col) Hi)
    as (d' & Hd' & H1 & H2 & H3 & _).
  exists d'. auto.
Qed.

End Kept.

(** X23. The four methods never delete a document and never change the
    urls of one.  Under any call a stored document stays in its place with
    its long and its short url; its [active] flag stays as it is unless
    the call is an [add], which can only set it, or a [deactivate], which
    can only clear it; and after any sequence of calls the document is
    still there with the same urls, in a collection that has not become
    shorter. *)
Theorem documents_are_kept
  (SB : string) (col : Mongo.collection) (i : nat) (d : Mongo.doc) :
  nth_error col i = Some d ->
  (forall c,
      exists d',
        nth_error (snd (Engine.run SB c col)) i = Some d'
        /\ Mongo.longUrl d' = Mongo.longUrl d
        /\ Mongo.shortUrl d' = Mongo.shortUrl d
        /\ (Mongo.active d' = Mongo.active d
            \/ (Mongo.active d' = true /\ exists rnd u, c = Engine.Add rnd u)
            \/ (Mongo.active d' = false
                /\ exists u, c = Engine.Deactivate u)))
  /\ (forall cs,
         (List.length col <= List.length (Engine.runAll SB cs col))%nat
         /\ exists d',
             nth_error (Engine.runAll SB cs col) i = Some d'
             /\ Mongo.longUrl d' = Mongo.longUrl d
             /\ Mongo.shortUrl d' = Mongo.shortUrl d).
Proof.
  intros Hi. split.
  - intros c. destruct (state_step SB c col i d Hi)
      as (d' & H1 & _ & H2 & H3 & H4).
    exists d'. auto.
  - intros cs. split.
    + apply evolves_length. apply runAll_evolves.
    + destruct (kept_all SB cs col i d Hi) as (d' & H1 & _ & H2 & H3).
      exists d'. auto.
Qed.

(** A stored document, under any sequence of calls. *)
Lemma documents_are_kept_witness :
  exists d',
    nth_error
      (Engine.runAll "short.ly"
         [Engine.Deactivate "http://example.com/page";
          Engine.Add 7 "http://other.org/"]
         [Mongo.mkDoc 0 "example.com/page" "short.ly/9ix" true 1]) O
    = Some d'
    /\ Mongo.longUrl d' = "example.com/page"
    /\ Mongo.shortUrl d' = "short.ly/9ix".
Proof.
  exact (proj2 (proj2 (documents_are_kept "short.ly"
                         [Mongo.mkDoc 0 "example.com/page" "short.ly/9ix"
                            true 1]
                         O _ eq_refl)
                  [Engine.Deactivate "http://example.com/page";
                   Engine.Add 7 "http://other.org/"])).
Defined.

(** ** Calls that fail *)

(** X24. A call that fails changes nothing.  When a method of the engine
    answers an error object, or when [add] is rejected with its
    [TypeError], the collection is left exactly as it was; and [count]
    never changes the collection, whatever it answers. *)
Theorem failed_calls_change_nothing
  (SB : string) (c : Engine.call) (col : Mongo.collection) :
  (forall e,
      fst (Engine.run SB c col) = Engine.Fulfilled (Engine.Obj (Error e)) ->
      snd (Engine.run SB c col) = col)
  /\ (forall x,
         fst (Engine.run SB c col) = Engine.Rejected x ->
         snd (Engine.run SB c col) = col)
  /\ (forall u, c = Engine.Count u -> snd (Engine.run SB c col) = col).
Proof.
  split; [|split].
  - intros e. destruct c as [rnd u|u|u|u]; simpl Engine.run.
    + rewrite add_eq. cbv zeta.
      destruct (UrlParser.error _); [reflexivity|].
      destruct (Engine.domainIsBase SB _); [reflexivity|].
      destruct (List.find _ col); discriminate.
    + rewrite query_eq. cbv zeta.
      destruct (UrlParser.error _); [reflexivity|].
      destruct (Engine.domainIsBase SB _); [|reflexivity].
      destruct (List.find _ col) as [d|]; [|reflexivity].
      destruct (Mongo.active d); [discriminate | reflexivity].
    + intros _. apply count_effect.
    + rewrite deactivate_eq. cbv zeta.
      destruct (UrlParser.error _); [reflexivity|].
      destruct (List.find _ col); [discriminate | reflexivity].
  - intros x. destruct c as [rnd u|u|u|u]; simpl Engine.run.
    + rewrite add_eq. cbv zeta.
      destruct (UrlParser.error _); [reflexivity|].
      destruct (Engine.domainIsBase SB _); [reflexivity|].
      destruct (List.find _ col); discriminate.
    + destruct (query_fulfils SB u col) as (r & ->). discriminate.
    + destruct (count_fulfils SB u col) as (r & ->). discriminate.
    + destruct (deactivate_fulfils SB u col) as (r & ->). discriminate.
  - intros u ->. apply count_effect.
Qed.

(** ** Texts without urls *)

Section NoUrl.
Import Ws TranslateSpec.

Lemma InStr_drop c n s : InStr c (JS.drop n s) -> InStr c s.
Proof.
  revert s. induction n as [|n IH]; intros s; [auto|].
  destruct s as [|d s]; simpl; [auto|].
  intros H. apply InStr_cons. right. now apply IH.
Qed.

Lemma startsMatch_colon s : startsMatch s -> InStr ":" s.
Proof.
  intros (u & r & -> & sch & tail & -> & _).
  apply InStr_app. left. apply InStr_app. right. apply InStr_cons. now left.
Qed.

End NoUrl.

(** X25. A text without a colon has no url in it: the handler never calls
    [add], leaves the model as it is, and answers the text as it is, or
    escaped for HTML when [isHtml] is set; the empty text gives the empty
    text. *)
Theorem translate_leaves_text_without_urls
  (state : Type) (add : string -> state -> Ws.settled * state)
  (isHtml : bool) (text : string) (m : state) :
  ~ InStr ":" text ->
  Ws.doTextShorten state add isHtml text O m
  = Some (Ws.htmlEscape isHtml text, O, m).
Proof.
  intros H.
  assert (Hscan : TranslateSpec.scan text [TranslateSpec.Plain text]).
  { apply TranslateSpec.scan_end. intros i Hm. apply H.
    apply (InStr_drop _ i). now apply startsMatch_colon. }
  rewrite (doTextShorten_scan state add isHtml text _ m Hscan).
  cbn [TranslateSpec.render fst snd]. rewrite app_empty_r.
  now rewrite htmlEscape_escape.
Qed.

(** A text with markup and no url, and the empty text. *)
Lemma translate_leaves_text_without_urls_witness :
  Ws.doTextShorten unit (fun _ m => (Ws.Failed, m)) true "a < b" O tt
  = Some (Ws.htmlEscape true "a < b", O, tt)
  /\ Ws.doTextShorten unit (fun _ m => (Ws.Failed, m)) false "" O tt
     = Some (Ws.htmlEscape false "", O, tt).
Proof.
  split.
  - apply (translate_leaves_text_without_urls unit
             (fun _ m => (Ws.Failed, m)) true "a < b" tt).
    unfold InStr. simpl. intuition discriminate.
  - apply (translate_leaves_text_without_urls unit
             (fun _ m => (Ws.Failed, m)) false "" tt).
    unfold InStr. simpl. tauto.
Defined.

(** ** Mapping errors to statuses *)

(** What [add] answers: a string value, an error object, or its
    [TypeError]; never a number, the empty object or [null]. *)
Lemma add_answers SB rnd u col :
  (exists s,
      fst (Engine.add SB rnd u col)
      = Engine.Fulfilled (Engine.Obj (Value (VString s))))
  \/ (exists e,
         fst (Engine.add SB rnd u col)
         = Engine.Fulfilled (Engine.Obj (Error e)))
  \/ exists x, fst (Engine.add SB rnd u col) = Engine.Rejected x.
Proof.
  rewrite add_eq. cbv zeta.
  destruct (UrlParser.error _); [right; left; eexists; reflexivity|].
  destruct (Engine.domainIsBase SB _); [right; right; eexists; reflexivity|].
  destruct (List.find _ col); left; eexists; reflexivity.
Qed.

(** The five ways [mapError] goes. *)
Lemma mapError_cases err :
  ((Routes.errCode err = None \/ Routes.errCode err = Some "")
   /\ Routes.mapError err
      = Routes.mkMapped (Routes.Number 500) "INTERNAL"
          (Some (Routes.errString err)))
  \/ exists c st,
      Routes.errCode err = Some c /\ c <> ""
      /\ Routes.mapError err = Routes.mkMapped st c (Routes.errMessage err)
      /\ ((c = "EXISTS" /\ st = Routes.Number 409)
          \/ (c = "NOT_FOUND" /\ st = Routes.Number 404)
          \/ (c <> "EXISTS" /\ c <> "NOT_FOUND"
              /\ In c Routes.objectPrototype /\ st = Routes.Inherited c)
          \/ (c <> "EXISTS" /\ c <> "NOT_FOUND"
              /\ ~ In c Routes.objectPrototype
              /\ st = Routes.Number 400)).
Proof.
  unfold Routes.mapError. cbv zeta.
  destruct (Routes.errCode err) as [c|]; [|left; auto].
  destruct (String.eqb_spec c "") as [->|Hne]; [left; auto|].
  right. exists c. unfold Routes.ERROR_MAP.
  destruct (String.eqb_spec c "EXISTS") as [->|He].
  { eexists. repeat split; auto. }
  destruct (String.eqb_spec c "NOT_FOUND") as [->|Hn].
  { eexists. repeat split; auto. }
  destruct (existsb (String.eqb c) Routes.objectPrototype) eqn:P.
  - eexists. repeat split; auto. right. right. left.
    repeat split; auto.
    apply existsb_exists in P. destruct P as (x & Hx & E).
    apply String.eqb_eq in E. now subst x.
  - eexists. repeat split; auto. right. right. right.
    repeat split; auto. intros Hin.
    assert (existsb (String.eqb c) Routes.objectPrototype = true).
    { apply existsb_exists. exists c. split; [exact Hin|].
      apply String.eqb_refl. }
    congruence.
Qed.

Lemma objectPrototype_not c :
  In c Routes.objectPrototype -> c <> "EXISTS" /\ c <> "NOT_FOUND".
Proof.
  intros Hx. simpl in Hx.
  repeat (destruct Hx as [<-|Hx]; [split; discriminate|]).
  contradiction.
Qed.

(** X26. The status [mapError] gives.  It is 500, with the code
    [INTERNAL], exactly for an error without a code (or with the empty
    one); 404 exactly for the code [NOT_FOUND]; 409 exactly for the code
    [EXISTS]; 400 for any other code, except for a code that names a
    member of [Object.prototype], such as [constructor] or [toString]:
    [ERROR_MAP] is an object literal, the look-up finds the inherited
    member, and that member, not a number, becomes the status.  A code
    that is there is passed on with the message. *)
Theorem mapError_statuses (err : Routes.caught) :
  (Routes.status (Routes.mapError err) = Routes.Number 500
   <-> Routes.errCode err = None \/ Routes.errCode err = Some "")
  /\ (Routes.status (Routes.mapError err) = Routes.Number 404
      <-> Routes.errCode err = Some "NOT_FOUND")
  /\ (Routes.status (Routes.mapError err) = Routes.Number 409
      <-> Routes.errCode err = Some "EXISTS")
  /\ (forall name,
         Routes.status (Routes.mapError err) = Routes.Inherited name
         <-> Routes.errCode err = Some name
             /\ In name Routes.objectPrototype)
  /\ (Routes.status (Routes.mapError err) = Routes.Number 400
      <-> exists c,
          Routes.errCode err = Some c /\ c <> "" /\ c <> "NOT_FOUND"
          /\ c <> "EXISTS" /\ ~ In c Routes.objectPrototype)
  /\ (forall c,
         Routes.errCode err = Some c -> c <> "" ->
         Routes.mappedCode (Routes.mapError err) = c
         /\ Routes.mappedMessage (Routes.mapError err)
            = Routes.errMessage err).
Proof.
  destruct (mapError_cases err)
    as [(Hc & ->)|(c & st & Hc & Hne & -> & Hst)];
    cbn [Routes.status Routes.mappedCode Routes.mappedMessage].
  - split; [tauto|].
    split; [split; [discriminate | intros H; destruct Hc; congruence]|].
    split; [split; [discriminate | intros H; destruct Hc; congruence]|].
    split.
    { intros name. split; [discriminate|].
      intros (H & Hin). destruct Hc as [Hc|Hc]; [congruence|].
      rewrite Hc in H. injection H as <-. simpl in Hin.
      repeat (destruct Hin as [Hin|Hin]; [discriminate|]). contradiction. }
    split.
    { split; [discriminate|].
      intros (c & H & Hn & _). destruct Hc; congruence. }
    intros c H Hn. destruct Hc; congruence.
  - rewrite Hc.
    assert (Hsome : forall x, Some c = Some x <-> c = x)
      by (intros x; split; congruence).
    destruct Hst as [(-> & ->)|[(-> & ->)|[(He & Hn & Hin & ->)
                    |(He & Hn & Hin & ->)]]].
    + split; [split; [discriminate | intros [H|H]; discriminate]|].
      split; [split; discriminate|].
      split; [split; reflexivity|].
      split.
      { intros name. split; [discriminate|]. intros (H & Hin).
        injection H as <-. destruct (objectPrototype_not _ Hin). congruence. }
      split.
      { split; [discriminate|]. intros (c & H & _ & _ & Hx & _).
        injection H as <-. congruence. }
      intros c H _. injection H as <-. auto.
    + split; [split; [discriminate | intros [H|H]; discriminate]|].
      split; [split; reflexivity|].
      split; [split; discriminate|].
      split.
      { intros name. split; [discriminate|]. intros (H & Hin).
        injection H as <-. destruct (objectPrototype_not _ Hin). congruence. }
      split.
      { split; [discriminate|]. intros (c & H & _ & Hx & _).
        injection H as <-. congruence. }
      intros c H _. injection H as <-. auto.
    + split; [split; [discriminate | intros [H|H]; congruence]|].
      split; [split; [discriminate | congruence]|].
      split; [split; [discriminate | congruence]|].
      split.
      { intros name. split.
        - intros H. injection H as <-. auto.
        - intros (H & _). congruence. }
      split.
      { split; [discriminate|]. intros (c' & H & _ & _ & _ & Hx).
        injection H as <-. contradiction. }
      intros c' H _. injection H as <-. auto.
    + split; [split; [discriminate | intros [H|H]; congruence]|].
      split; [split; [discriminate | congruence]|].
      split; [split; [discriminate | congruence]|].
      split.
      { intros name. split; [discriminate|]. intros (H & Hx).
        injection H as <-. contradiction. }
      split.
      { split; [|reflexivity]. intros _. exists c. auto. }
      intros c' H _. injection H as <-. auto.
Qed.

(** ** Urls the parser rejects for their host *)

Section Hosts.

Lemma find_sep_no_colon s r :
  ~ InStr ":" s -> JS.find "://" (s ++ "://" ++ r) = Some (String.length s).
Proof.
  induction s as [|c s IH]; intros H.
  - change ("" ++ "://" ++ r) with (String ":" ("//" ++ r)).
    rewrite find_cons.
    replace (String.prefix "://" (String ":" ("//" ++ r))) with true;
      [reflexivity|].
    symmetry. apply prefix_app. now exists r.
  - rewrite InStr_cons in H.
    change (String c s ++ "://" ++ r) with (String c (s ++ "://" ++ r)).
    rewrite find_cons.
    destruct (String.prefix "://" (String c (s ++ "://" ++ r))) eqn:P.
    + apply prefix_app in P. destruct P as (t & P). simpl in P.
      apply string_cons_inj in P as (-> & _). tauto.
    + rewrite IH by tauto. reflexivity.
Qed.

Lemma firstSplit_no_colon s r :
  ~ InStr ":" s -> ParseSpec.firstSplit (s ++ "://" ++ r) s r.
Proof.
  intros H. apply firstSplit_of_find; [|reflexivity].
  now apply find_sep_no_colon.
Qed.

Lemma before_app_other c d h t :
  ~ InStr c h -> d <> c ->
  before c (h ++ String d t) = h ++ String d (before c t).
Proof.
  intros Hh Hd. induction h as [|a h IH]; simpl.
  - destruct (Ascii.eqb_spec d c); [contradiction | reflexivity].
  - rewrite InStr_cons in Hh.
    destruct (Ascii.eqb_spec a c) as [->|_]; [tauto|].
    rewrite IH by tauto. reflexivity.
Qed.

Lemma lowerChar_not_base q :
  UrlParser.isBaseChar q = false ->
  UrlParser.isBaseChar (JS.lowerChar q) = false.
Proof.
  destruct q as [[] [] [] [] [] [] [] []]; vm_compute;
    intros H; try reflexivity; discriminate.
Qed.

Lemma InStr_lower c s : InStr c s -> InStr (JS.lowerChar c) (JS.toLowerCase s).
Proof.
  induction s as [|d s IH]; [intros []|].
  simpl. rewrite !InStr_cons. intros [->|H]; auto.
Qed.

Lemma InStr_before c d s : InStr d (before c s) -> InStr d s.
Proof.
  induction s as [|a s IH]; simpl; [auto|].
  destruct (Ascii.eqb a c); [intros []|].
  rewrite !InStr_cons. intros [H|H]; auto.
Qed.

(** Every character of the host of a base that parses is a letter, a
    digit, a dot or a hyphen. *)
Lemma host_chars regex u s r c :
  ParseSpec.firstSplit u s r ->
  UrlParser.error (UrlParser.parse regex u) = None ->
  InStr c (before ":" (before "/" r)) ->
  UrlParser.isBaseChar (JS.lowerChar c) = true.
Proof.
  intros Hs E Hc.
  apply (parse_split_ok regex u s r Hs) in E.
  destruct E as (_ & _ & _ & V & _).
  apply validateBase_host in V.
  destruct (validBase_chars _ V (before_no_char _ _)) as (_ & Hall).
  apply Hall. rewrite <- before_colon_lower. now apply InStr_lower.
Qed.

End Hosts.

(** X27. A query string or a fragment right after the host is taken for
    part of the host.  The parser cuts the base at the first slash only,
    so a url in which a character other than a letter, a digit, a dot, a
    hyphen, a colon or a slash follows the host before any slash or colon
    (as in [http://a.com?x=1] or [http://a.com#top]) does not parse,
    whatever the allowed schemes. *)
Theorem query_string_after_host_is_rejected
  (regex : UrlParser.regexp) (s h t : string) (q : ascii) :
  ~ InStr ":" s -> ~ InStr ":" h -> ~ InStr "/" h ->
  UrlParser.isBaseChar q = false -> q <> ":"%char -> q <> "/"%char ->
  exists e,
    UrlParser.error (UrlParser.parse regex (s ++ "://" ++ h ++ String q t))
    = Some e
    /\ code e = "URL_SYNTAX".
Proof.
  intros Hs Hh1 Hh2 Hq Hq1 Hq2.
  pose proof (firstSplit_no_colon s (h ++ String q t) Hs) as Hsplit.
  destruct (UrlParser.error
              (UrlParser.parse regex (s ++ "://" ++ h ++ String q t)))
    as [e|] eqn:E.
  - exists e. split; [reflexivity|]. eapply parse_error_code; eauto.
  - exfalso.
    assert (Hc : InStr q (before ":" (before "/" (h ++ String q t)))).
    { rewrite (before_app_other "/" q h t Hh2 Hq2).
      rewrite (before_app_other ":" q h _ Hh1 Hq1).
      apply InStr_app. right. apply InStr_cons. now left. }
    pose proof (host_chars regex _ s _ q Hsplit E Hc) as B.
    rewrite (lowerChar_not_base q Hq) in B. discriminate.
Qed.

(** A url with a query string and no path. *)
Lemma query_string_after_host_is_rejected_witness :
  exists e,
    UrlParser.error
      (UrlParser.parse UrlParser.reHttps
         ("http" ++ "://" ++ "a.com" ++ String "?" "x=1"))
    = Some e
    /\ code e = "URL_SYNTAX".
Proof.
  apply (query_string_after_host_is_rejected UrlParser.reHttps
           "http" "a.com" "x=1" "?");
    try (unfold InStr; simpl; intuition discriminate);
    try reflexivity; discriminate.
Defined.

(** X28. The urls the translator finds can fail in [add] only for their
    host.  A match of the url pattern has a separator, a scheme that is
    http or https and text after the separator, so [add] on it answers
    [URL_SYNTAX] exactly when that text starts with a slash or the base
    it starts with is not valid. *)
Theorem matched_urls_fail_only_for_their_host
  (SB : string) (rnd : N) (col : Mongo.collection) (sch tail : string) :
  JS.toLowerCase sch = "http" \/ JS.toLowerCase sch = "https" ->
  tail <> "" ->
  (forall c, InStr c tail -> Ws.isUrlChar c = true) ->
  TranslateSpec.isMatch (sch ++ "://" ++ tail)
  /\ ((exists e,
          fst (Engine.add SB rnd (sch ++ "://" ++ tail) col)
          = Engine.Fulfilled (Engine.Obj (Error e)))
      <-> (exists t, tail = String "/" t)
          \/ UrlParser.validateBase (JS.toLowerCase (before "/" tail))
             = false).
Proof.
  intros Hsch Ht Hc.
  split; [exists sch, tail; auto|].
  assert (Hnc : ~ InStr ":" sch).
  { intros H. apply InStr_lower in H.
    change (JS.lowerChar ":") with ":"%char in H.
    destruct Hsch as [E|E]; rewrite E in H; unfold InStr in H; simpl in H;
      intuition discriminate. }
  pose proof (firstSplit_no_colon sch tail Hnc) as Hs.
  pose proof (parse_split_ok UrlParser.reHttps _ _ _ Hs) as Hok.
  assert (Hre : UrlParser.reHttps (JS.toLowerCase sch) = true)
    by (now apply reHttps_cases).
  assert (Hs0 : sch <> "").
  { intros ->. destruct Hsch; discriminate. }
  rewrite add_eq. cbv zeta.
  destruct (UrlParser.error
              (UrlParser.parse UrlParser.reHttps (sch ++ "://" ++ tail)))
    as [e|] eqn:E.
  - split; [|intros _; eexists; reflexivity]. intros _.
    destruct (UrlParser.validateBase (JS.toLowerCase (before "/" tail)))
      eqn:V; [|now right].
    left. destruct tail as [|c t]; [contradiction|].
    destruct (Ascii.eqb_spec c "/") as [->|Hne]; [now exists t|].
    exfalso. assert (Hx : Some e = None); [|discriminate].
    apply Hok. repeat split; auto.
    intros t' H. apply string_cons_inj in H as (-> & _). contradiction.
  - apply proj1 in Hok. specialize (Hok eq_refl).
    destruct Hok as (_ & _ & Hsl & V & _). split.
    + intros (e & H). exfalso.
      destruct (Engine.domainIsBase SB _); [discriminate|].
      destruct (List.find _ col); discriminate.
    + intros [(t & ->)|H]; [now elim (Hsl t) | congruence].
Qed.

(** A match whose host starts with a hyphen. *)
Lemma matched_urls_fail_only_for_their_host_witness :
  exists e,
    fst (Engine.add "short.ly" 1 ("http" ++ "://" ++ "-a.b") [])
    = Engine.Fulfilled (Engine.Obj (Error e)).
Proof.
  apply (proj2 (matched_urls_fail_only_for_their_host "short.ly" 1 []
                  "http" "-a.b" (or_introl eq_refl) ltac:(discriminate)
                  ltac:(intros c Hc; unfold InStr in Hc; simpl in Hc;
                        destruct Hc as [<-|[<-|[<-|[<-|[]]]]];
                        reflexivity))).
  right. reflexivity.
Defined.

(** ** Translating two texts *)

Section TwoTexts.
Import Ws TranslateSpec.

Variable c : ascii.
Hypothesis not_url_char : isUrlChar c = false.
Hypothesis not_colon : c <> ":"%char.

Lemma scheme_letters x sch :
  JS.toLowerCase sch = "http" \/ JS.toLowerCase sch = "https" ->
  InStr x sch -> isUrlChar x = true.
Proof.
  intros H Hx. apply InStr_lower in Hx.
  assert (Hl : JS.lowerChar x = "h"%char \/ JS.lowerChar x = "t"%char
               \/ JS.lowerChar x = "p"%char \/ JS.lowerChar x = "s"%char).
  { destruct H as [E|E]; rewrite E in Hx; unfold InStr in Hx; simpl in Hx;
      intuition. }
  clear - Hl.
  destruct x as [[] [] [] [] [] [] [] []]; vm_compute in Hl |- *;
    try reflexivity; exfalso; intuition discriminate.
Qed.

(** The separator is in no match. *)
Lemma match_without_separator u : isMatch u -> ~ InStr c u.
Proof.
  intros (sch & tail & -> & Hsch & _ & Htail) H.
  apply InStr_app in H as [H|H].
  - pose proof (scheme_letters c sch Hsch H). congruence.
  - apply InStr_cons in H as [H|H]; [congruence|].
    apply InStr_cons in H as [H|H]; [subst c; discriminate|].
    apply InStr_cons in H as [H|H]; [subst c; discriminate|].
    pose proof (Htail c H). congruence.
Qed.

Lemma prefix_before_separator u r x y :
  u ++ r = x ++ String c y -> ~ InStr c u -> exists r0, x = u ++ r0.
Proof.
  revert x. induction u as [|a u IH]; intros x E H.
  - now exists x.
  - rewrite InStr_cons in H. destruct x as [|b x]; simpl in E.
    + apply string_cons_inj in E as (-> & _). tauto.
    + apply string_cons_inj in E as (-> & E).
      destruct (IH x E) as (r0 & ->); [tauto|]. now exists r0.
Qed.

(** A match that starts in the first text lies in the first text. *)
Lemma startsMatch_before x y : startsMatch (x ++ String c y) -> startsMatch x.
Proof.
  intros (u & r & E & Hu).
  destruct (prefix_before_separator u r x y (eq_sym E)
              (match_without_separator u Hu)) as (r0 & ->).
  now exists u, r0.
Qed.

Lemma startsMatch_separator y : ~ startsMatch (String c y).
Proof.
  intros (u & r & E & Hu).
  pose proof (match_without_separator u Hu) as Hn.
  pose proof (isMatch_length u Hu) as Hl.
  destruct u as [|a u]; [simpl in Hl; lia|].
  simpl in E. apply string_cons_inj in E as (-> & _).
  apply Hn. apply InStr_cons. now left.
Qed.

Lemma drop_app_le i x y :
  (i <= String.length x)%nat -> JS.drop i (x ++ y) = JS.drop i x ++ y.
Proof.
  revert x. induction i as [|i IH]; intros x H; [reflexivity|].
  destruct x as [|a x]; simpl in H; [lia|]. simpl. apply IH. lia.
Qed.

Lemma drop_app_gt i x y :
  JS.drop (String.length x + i) (x ++ y) = JS.drop i y.
Proof. induction x as [|a x IH]; simpl; auto. Qed.

(** No match starts in a text before the separator when none starts in
    the text alone, nor at the separator. *)
Lemma no_match_before x y i :
  (forall j, ~ startsMatch (JS.drop j x)) ->
  (i <= String.length x)%nat -> ~ startsMatch (JS.drop i (x ++ String c y)).
Proof.
  intros H Hi. rewrite drop_app_le by exact Hi.
  intros Hm. apply (H i). now apply (startsMatch_before _ y).
Qed.

Lemma stops_app rest y : stops rest -> stops (rest ++ String c y).
Proof.
  intros H a t E. destruct rest as [|b rest]; simpl in E.
  - apply string_cons_inj in E as (<- & _). exact not_url_char.
  - apply string_cons_inj in E as (<- & _). now apply (H b rest).
Qed.

(** The first text has no match: the pieces of the two texts. *)
Lemma scan_glue_end t1 t2 ps2 :
  (forall j, ~ startsMatch (JS.drop j t1)) ->
  scan t2 ps2 -> scan (t1 ++ String c t2) (glue [Plain t1] c ps2).
Proof.
  intros H1 H2. inversion H2 as [t H|p u rest ps Hp Hu Hst Hrest]; subst.
  - simpl. apply scan_end. intros i.
    destruct (Nat.le_gt_cases i (String.length t1)) as [Hi|Hi].
    + now apply no_match_before.
    + replace i with (String.length t1 + S (i - String.length t1 - 1))%nat
        by lia.
      rewrite drop_app_gt. simpl. apply H.
  - simpl.
    replace (t1 ++ String c (p ++ u ++ rest))
      with ((t1 ++ String c p) ++ u ++ rest)
      by (rewrite app_assoc; reflexivity).
    apply scan_link; auto.
    intros i Hi. rewrite app_assoc.
    change (String c p ++ u ++ rest) with (String c (p ++ u ++ rest)).
    destruct (Nat.le_gt_cases i (String.length t1)) as [Hle|Hgt].
    + now apply no_match_before.
    + replace i with (String.length t1 + S (i - String.length t1 - 1))%nat
        by lia.
      rewrite drop_app_gt. simpl. apply Hp.
      rewrite length_app in Hi. simpl in Hi. lia.
Qed.

Lemma scan_glue t1 ps1 :
  scan t1 ps1 ->
  forall t2 ps2, scan t2 ps2 -> scan (t1 ++ String c t2) (glue ps1 c ps2).
Proof.
  induction 1 as [t H|p u rest ps Hp Hu Hst Hrest IH]; intros t2 ps2 H2.
  - now apply scan_glue_end.
  - replace ((p ++ u ++ rest) ++ String c t2)
      with (p ++ u ++ (rest ++ String c t2))
      by (now rewrite !app_assoc).
    cbn [glue].
    apply scan_link; auto.
    + intros i Hi.
      replace (p ++ u ++ rest ++ String c t2)
        with ((p ++ u ++ rest) ++ String c t2)
        by (now rewrite !app_assoc).
      rewrite drop_app_le by (rewrite length_app; lia).
      intros Hm. apply (Hp i Hi). now apply (startsMatch_before _ t2).
    + now apply stops_app.
Qed.

Variable state : Type.
Variable add : string -> state -> settled * state.

Lemma scan_starts_plain t ps :
  scan t ps -> exists q ps', ps = Plain q :: ps'.
Proof. intros H; destruct H; eauto. Qed.

Lemma escape_glue (b : bool) (t q : string) :
  (if b then escape (t ++ String c q) else t ++ String c q)
  = (if b then escape t else t)
      ++ htmlEscape b (String c "") ++ (if b then escape q else q).
Proof.
  rewrite <- !htmlEscape_escape. destruct b; [|reflexivity].
  change (String c q) with (String c "" ++ q).
  now rewrite !htmlEscape_app.
Qed.

Lemma render_glue isHtml ps1 t1 :
  scan t1 ps1 ->
  forall ps2 t2 m,
    scan t2 ps2 ->
    render state add isHtml (glue ps1 c ps2) m
    = (fst (render state add isHtml ps1 m)
         ++ htmlEscape isHtml (String c "")
         ++ fst (render state add isHtml ps2
                   (snd (render state add isHtml ps1 m))),
       snd (render state add isHtml ps2
              (snd (render state add isHtml ps1 m)))).
Proof.
  induction 1 as [t H|p u rest ps Hp Hu Hst Hrest IH]; intros ps2 t2 m H2.
  - destruct (scan_starts_plain t2 ps2 H2) as (q & ps' & ->).
    cbn [glue render fst snd].
    destruct (render state add isHtml ps' m) as [out m'].
    cbn [fst snd]. rewrite escape_glue, app_empty_r.
    now rewrite !app_assoc.
  - destruct (scan_starts_plain rest ps Hrest) as (q & ps' & ->).
    specialize (IH ps2 t2).
    assert (G : glue (Plain p :: Link u :: Plain q :: ps') c ps2
                = Plain p :: Link u :: glue (Plain q :: ps') c ps2)
      by reflexivity.
    rewrite G. clear G.
    remember (Plain q :: ps') as tail eqn:Etail. clear Etail.
    cbn [render]. destruct (add u m) as [settle m1].
    rewrite (IH m1 H2).
    destruct (render state add isHtml tail m1) as [o1 m2].
    cbn [fst snd].
    rewrite !app_assoc. reflexivity.
Qed.

End TwoTexts.

(** X29. Translating two texts.  When two texts are put together with
    one character between them that is neither of the url class nor a
    colon, the handler's answer for the whole is its answer for the
    first, the character (escaped under [isHtml]), and its answer for
    the second, the second translated in the model the first left: no
    match crosses the character, and the calls of [add] are those of the
    first text followed by those of the second. *)
Theorem translate_two_texts
  (state : Type) (add : string -> state -> Ws.settled * state)
  (isHtml : bool) (t1 t2 : string) (c : ascii) (m : state) :
  Ws.isUrlChar c = false -> c <> ":"%char ->
  exists o1 m1 o2 m2,
    Ws.doTextShorten state add isHtml t1 O m = Some (o1, O, m1)
    /\ Ws.doTextShorten state add isHtml t2 O m1 = Some (o2, O, m2)
    /\ Ws.doTextShorten state add isHtml (t1 ++ String c t2) O m
       = Some (o1 ++ Ws.htmlEscape isHtml (String c "") ++ o2, O, m2).
Proof.
  intros Hc Hn.
  destruct (scan_exists t1) as (ps1 & H1).
  destruct (scan_exists t2) as (ps2 & H2).
  pose proof (scan_glue c Hc Hn t1 ps1 H1 t2 ps2 H2) as H.
  rewrite (doTextShorten_scan state add isHtml _ _ m H1).
  rewrite (doTextShorten_scan state add isHtml _ _ m H).
  rewrite (render_glue c state add isHtml ps1 t1 H1 ps2 t2 m H2).
  cbn [fst snd].
  do 4 eexists. split; [reflexivity|]. split; [|reflexivity].
  apply (doTextShorten_scan state add isHtml _ _ _ H2).
Qed.

(** Two lines, each with a url, and a model that counts the calls. *)
Lemma translate_two_texts_witness :
  Ws.isUrlChar "010"%char = false /\ "010"%char <> ":"%char
  /\ exists o1 m1 o2 m2,
      Ws.doTextShorten nat (fun _ n => (Ws.Failed, S n)) true
        "a <http://x.y>" O O = Some (o1, O, m1)
      /\ Ws.doTextShorten nat (fun _ n => (Ws.Failed, S n)) true
           "b https://z.w" O m1 = Some (o2, O, m2)
      /\ Ws.doTextShorten nat (fun _ n => (Ws.Failed, S n)) true
           ("a <http://x.y>" ++ String "010"%char "b https://z.w") O O
         = Some (o1 ++ Ws.htmlEscape true (String "010"%char "") ++ o2,
                 O, m2).
Proof.
  split; [reflexivity|]. split; [discriminate|].
  apply (translate_two_texts nat (fun _ n => (Ws.Failed, S n)) true
           "a <http://x.y>" "b https://z.w" "010"%char O);
    [reflexivity | discriminate].
Defined.
